(* ===== verification/_CoqProject ===== *)
-Q . S2P
Prelude.v
HeapInv.v
Heap.v
HeapProps.v
Libk.v
Snprintf.v
SnprintfProps.v
Directives.v
PhysMem.v
Vmm.v
VmmInv.v
VmmOps.v
VmmLoops.v
VmmBoot.v
VmmProps.v
UserHeap.v
Printf.v
UserMain.v
Semaphore.v
SemaphoreImpl.v
BlockingLock.v
BoundedBuffer.v
Future.v
Barrier.v
Primitives.v
Condition.v
BlockIO.v
Ext2.v
Elf.v
Queue.v
Threads.v
Kernel.v
ContextSwitch.v
Idt.v
Traps.v
Ide.v
Locks.v
Console.v
Keyboard.v
Sys.v
SysProps.v
SysCwd.v
SysCalls.v
Boot.v
Startup.v
Shared.v
Random.v
UserProgs.v
Config.v
Pit.v
Shell.v
