(* ===== verification/Prelude.v ===== *)
(** * A verification library for a small x86 teaching kernel

    The program is a 32-bit kernel in C++ for up to sixteen cores
    ([src/kernel]) and a C library and programs that run on it
    ([src/t0.dir/sbin]).  It boots, reads the machine's tables, hands out
    frames of physical memory, gives every process its own page tables,
    schedules threads on all cores, reads an ext2 disk through an IDE
    driver, and serves system calls for processes, files and semaphores.

    ** How it is modelled

    Definitions are translations of the source, executable, in the state
    monad of this file: a run returns a value and a state, stops the machine
    ([Panicked]: a failed ASSERT, [Debug::panic]), does what C++ leaves
    undefined ([Faulted]: an index out of range, a null pointer, a signed
    overflow), or runs out of the fuel of its loops ([OutOfFuel]).  [wp] is
    total: a theorem [wp m Q s] says that the run returns, so that every
    such theorem is one of termination and of the absence of panics and
    faults as well; [wpx] names the states in which the machine may stop.
    Machine integers are in [Z], wrapped where the code wraps ([u8], [u32],
    [i32]) and checked where overflow is undefined ([chk]).  Every loop has
    a fuel computed from its data (the length of a list or string, the bytes
    left to read, the blocks of a heap); the theorems show it enough.

    Concurrent parts are step relations over explicit interleavings, with
    reachable states and invariants; a step is what the code does between
    two points where another thread or core, or an interrupt, can come in.

    ** The files

    - [Prelude]: the monad, its rules, loops, machine integers, automation.
    - [HeapInv], [Heap], [HeapProps] (kernel/heap.cc): the kernel's best-fit
      allocator with boundary tags.  [rep] relates the int array to a list
      of blocks and the free list; every operation refines its abstract
      version, and any client's requests are safe.
    - [Libk], [Snprintf], [SnprintfProps], [Directives] (kernel/libk.cc,
      kernel/snprintf.cc): strings and formatted output; the state machine
      of [dopr] performs the items of a parsed format.
    - [PhysMem] (kernel/physmem.cc): frames of physical memory.
    - [Vmm], [VmmInv], [VmmOps], [VmmLoops], [VmmBoot], [VmmProps]
      (kernel/vmm.cc, and the loops of kernel/sys.cc that copy and clear an
      address space): page tables in frames.  Sessions of user accesses,
      forks, execs and exits refine an abstract machine in which every
      process has a private memory.
    - [UserHeap], [Printf], [UserProgs], [UserMain] (t0.dir/sbin): the
      allocator, the output functions, the file programs and the small
      programs (echo, pwd, cd, init) of user space.
    - [Semaphore], [SemaphoreImpl] (kernel/semaphore.h, and [ISL] of
      atomic.h): semaphores as single steps, and their code an access and an
      instruction at a time, which refines them and misses none of their
      behaviour.
    - [BlockingLock], [BoundedBuffer], [Future], [Barrier] (the headers of
      the same names): threads as points of their code over semaphores, any
      interleaving; what each structure promises, and that nobody waits in
      vain.  [Primitives] puts them on the code of semaphores.
    - [BlockIO], [Ide], [Ext2], [Elf] (kernel/block_io.cc, ide.cc, ext2.cc,
      elf.cc): reading ranges, sectors, files and directories, programs.
      [Content] is the interface between the layers: what an implementation
      of a block device promises; [Ide] and the nodes of [Ext2] are proved
      to keep it, and everything above is proved against it.
    - [Boot] (kernel/kernel.cc): these layers together, from a drive to the
      first program in memory.
    - [Queue], [Threads] (kernel/queue.h, threads.h, threads.cc, pit.cc):
      the linked queue, and the scheduler on any number of cores, whose
      steps the timer may interrupt wherever interrupts are on, [block]
      included; what keeps it from harm there is what the code has for it.
    - [Kernel] (the same, with semaphore.h and init.cc): the scheduler under
      the code of semaphores, with the reaper, the idle threads and the
      timer; a core's interrupt flag is what its thread has made of it.
    - [ContextSwitch] (kernel/context.s, threads.h): the instructions of the
      switch, on registers, save areas and stacks.
    - [Idt], [Traps] (kernel/idt.cc, machine.S, sbin/sys.S): the interrupt
      table, and the way from a vector through the stubs to a handler and
      back; system calls from both sides, and the two returns of [fork].
    - [Startup] (kernel/init.cc, smp.h): [kernelInit] on all cores at once,
      from power on to the start of [kernelMain].
    - [Sys], [SysProps], [SysCwd], [SysCalls] (kernel/sys.cc, process.h):
      processes, descriptors and the system calls, all of those that the
      dispatcher knows; the invariant of the tables, and what the calls do.
    - [Locks], [Shared] (kernel/atomic.h, shared.h): the interrupt-safe
      lock against interrupts and other cores, and counted pointers, with
      counts of 32 bits.
    - [Console] (kernel/debug.cc, debug.h, u8250.cc): what is printed under
      such a lock, character by character, and the serial port.
    - [Condition] (kernel/condition.h, barrier.h): the condition variable
      and the barrier of many rounds, with epochs of 64 bits.
    - [Config], [Pit] (kernel/config.cc, pit.cc): the firmware's tables and
      the rate of the timer, found at start-up.
    - [Keyboard], [Shell] (kernel/keyboard.cc; sbin/shell.c, shellHandler.c,
      exec.c, ls.c): a line from the keys that are pressed to the program
      that is run.
    - [Random] (kernel/random.h): the pseudo-random numbers and their period.

    ** What the theorems show

    Safety for every client: the heaps, the frames, the address spaces, the
    scheduler, the lock, counted pointers and the system calls are shown
    safe for all sequences or interleavings of operations by an invariant
    that every step keeps.  Function: what each operation returns and
    changes on every branch, against an abstract version (blocks, spaces,
    lists of items, paths resolved in directories, a queue as a list).
    Liveness: when no thread can step, nobody waits for something that has
    happened.  Guards: where the code relies on what it does not check (the
    arguments of [guarded], the segments of an executable, a file of whole
    words, a disk of the stated size), the hypothesis says so, and for many of
    them an example shows what happens without it.

    ** Between the components

    The structures over semaphores are proved correct against semaphores of
    single steps; [SemaphoreImpl] shows that the code does such steps, and
    [Primitives] draws the conclusion for each.  They let any thread step at
    any time; [Kernel] shows that the threads which the scheduler of
    [Threads] runs do no more than that, and that when the scheduler has
    nobody left to run then nobody could step.
    [Traps] takes handlers for C functions that keep to the calling
    conventions, and shows that a handler and what it interrupts do not
    meet but in memory; [ContextSwitch] shows the same of two threads, and
    what handlers do is the subject of [Threads], [Keyboard], [VmmProps] and
    [Sys].  [Sys.fork] gives its child the place and stack pointer that
    [Traps] shows to be enough.
    The kernel heap runs under a blocking lock, and [BlockingLock] shows that
    what runs under one is a single step.
    [Sys] gives each process a private memory, which is what [VmmProps]
    proves of the page tables, and leaves scheduling to [Threads]; counting
    of pointers is left to [Shared].  The file system of [Sys] is any device
    with the promise of [Content], which [Ide] keeps over a drive with the
    laws of the ATA standard that is as large as the driver claims and
    whose error and ready bits, where the standard gives them no meaning,
    are as the driver wants them; over any other drive of the standard it
    returns the right sector or panics.

    ** What is not modelled

    The assembly of the boot sector, the functions of machine.S that wrap one
    instruction, the hardware behind ports and registers beyond the laws
    stated, and the accesses by which SMP::init sets up its device are
    outside: they are device accesses in a fixed order, without a state that
    the program decides on.  [Startup]
    takes what sets a component up for an event, since each component is
    modelled from its initial state in its own file.  Floating-point output
    is modelled and computed on examples, without a theorem. *)

From stdpp Require Export base numbers list option strings gmap.
From Stdlib Require Export ZArith Lia.

#[export] Set Default Goal Selector "!".
#[export] Set Warnings "-clear-no-such-hyp".
#[global] Open Scope Z_scope.

(** ** Outcomes and the state monad

    Kernel code either returns, stops the machine through [Debug::panic]
    (a failed [ASSERT] included), or performs an access that the C++
    language leaves undefined (an array index out of range, a null
    dereference, a signed overflow).  A loop modelled with fuel may also
    run out of it; every termination theorem shows that it does not. *)

Inductive outcome (S A : Type) : Type :=
| Ok (a : A) (s : S)
| Panicked (s : S)
| Faulted
| OutOfFuel.
Arguments Ok {S A} a s.
Arguments Panicked {S A} s.
Arguments Faulted {S A}.
Arguments OutOfFuel {S A}.

Definition M (S A : Type) : Type := S → outcome S A.

#[export] Instance M_ret S : MRet (M S) := λ A a s, Ok a s.
#[export] Instance M_bind S : MBind (M S) := λ A B f m s,
  match m s with
  | Ok a s' => f a s'
  | Panicked s' => Panicked s'
  | Faulted => Faulted
  | OutOfFuel => OutOfFuel
  end.

Definition get {S} : M S S := λ s, Ok s s.
Definition gets {S A} (f : S → A) : M S A := λ s, Ok (f s) s.
Definition modify {S} (f : S → S) : M S () := λ s, Ok () (f s).
Definition panic {S A} : M S A := λ s, Panicked s.
Definition fault {S A} : M S A := λ _, Faulted.
Definition diverge {S A} : M S A := λ _, OutOfFuel.

(** [ASSERT] of debug.h: panics when the condition is false. *)
Definition assert {S} (P : Prop) `{Decision P} : M S () :=
  if decide P then mret () else panic.

(** A condition outside of which the C++ program is undefined. *)
Definition require {S} (P : Prop) `{Decision P} : M S () :=
  if decide P then mret () else fault.

(** The result of an arithmetic operation on [int]: signed overflow is
    undefined. *)
Definition int_min : Z := - 2 ^ 31.
Definition int_max : Z := 2 ^ 31 - 1.
Definition chk {S} (z : Z) : M S Z :=
  if decide (int_min ≤ z ≤ int_max) then mret z else fault.

(** Loops: [body] yields [inl] to go round again and [inr] to leave. *)
Fixpoint iter {S X R} (fuel : nat) (body : X → M S (X + R)) (x : X) : M S R :=
  match fuel with
  | O => diverge
  | Datatypes.S fuel' =>
      r ← body x;
      match r with
      | inl x' => iter fuel' body x'
      | inr res => mret res
      end
  end.

(** [while (cond) body] over the variables [x]. *)
Definition while {S X} (fuel : nat) (cond : X → bool) (body : X → M S X) (x : X) : M S X :=
  iter fuel (λ x, if cond x then x' ← body x; mret (inl x') else mret (inr x)) x.

(** ** Total-correctness weakest preconditions *)

Definition wp {S A} (m : M S A) (Q : A → S → Prop) (s : S) : Prop :=
  match m s with Ok a s' => Q a s' | _ => False end.

Section wp.
Context {S : Type}.
Implicit Types s : S.

Lemma wp_ret {A} (a : A) (Q : A → S → Prop) s : Q a s → wp (mret a) Q s.
Proof. done. Qed.

Lemma wp_bind {A B} (m : M S A) (f : A → M S B) Q s :
  wp m (λ a s', wp (f a) Q s') s → wp (m ≫= f) Q s.
Proof. unfold wp, mbind, M_bind. by destruct (m s). Qed.

Lemma wp_bind_inv {A B} (m : M S A) (f : A → M S B) Q s :
  wp (m ≫= f) Q s → wp m (λ a s', wp (f a) Q s') s.
Proof. unfold wp, mbind, M_bind. by destruct (m s). Qed.

Lemma wp_mono {A} (m : M S A) (Q Q' : A → S → Prop) s :
  wp m Q s → (∀ a s', Q a s' → Q' a s') → wp m Q' s.
Proof. unfold wp. destruct (m s); auto; contradiction. Qed.

Lemma wp_get (Q : S → S → Prop) s : Q s s → wp get Q s.
Proof. done. Qed.

Lemma wp_gets {A} (f : S → A) (Q : A → S → Prop) s : Q (f s) s → wp (gets f) Q s.
Proof. done. Qed.

Lemma wp_modify (f : S → S) (Q : () → S → Prop) s : Q () (f s) → wp (modify f) Q s.
Proof. done. Qed.

Lemma wp_assert P `{Decision P} (Q : () → S → Prop) s :
  P → Q () s → wp (assert P) Q s.
Proof. intros HP HQ. unfold assert. by rewrite decide_True. Qed.

Lemma wp_require P `{Decision P} (Q : () → S → Prop) s :
  P → Q () s → wp (require P) Q s.
Proof. intros HP HQ. unfold require. by rewrite decide_True. Qed.

Lemma wp_chk z (Q : Z → S → Prop) s :
  int_min ≤ z ≤ int_max → Q z s → wp (chk z) Q s.
Proof. intros HP HQ. unfold chk. by rewrite decide_True. Qed.

Lemma wp_Ok {A} (m : M S A) (Q : A → S → Prop) s :
  wp m Q s ↔ ∃ a s', m s = Ok a s' ∧ Q a s'.
Proof.
  unfold wp. destruct (m s) as [a' s'| | |].
  2-4: split; [done|by intros (? & ? & [=] & _)].
  split.
  - intros HQ. by exists a', s'.
  - by intros (? & ? & [= <- <-] & HQ).
Qed.

(** A loop whose body keeps the invariant [I] and decreases the measure
    [μ] returns, whatever the fuel above the initial measure. *)
Lemma wp_iter {X R} (I : X → S → Prop) (μ : X → S → nat)
    (body : X → M S (X + R)) (Q : R → S → Prop) :
  (∀ x s, I x s →
     wp (body x) (λ r s', match r with
                          | inl x' => I x' s' ∧ (μ x' s' < μ x s)%nat
                          | inr res => Q res s'
                          end) s) →
  ∀ fuel x s, I x s → (μ x s < fuel)%nat → wp (iter fuel body x) Q s.
Proof.
  intros Hbody. induction fuel as [|fuel IH]; intros x s HI Hμ; [lia|].
  cbn [iter]. apply wp_bind. eapply wp_mono; [by apply Hbody|].
  intros [x'|res] s'; cbn; [|done].
  intros [HI' Hlt]. apply IH; [done|lia].
Qed.

Lemma wp_while_false {X} fuel (cond : X → bool) (body : X → M S X) x (Q : X → S → Prop) s :
  cond x = false → Q x s → wp (while (Datatypes.S fuel) cond body x) Q s.
Proof. intros Hc HQ. unfold while. cbn [iter]. rewrite Hc. by apply wp_bind, wp_ret, wp_ret. Qed.
End wp.

(** ** The same with a condition under which the machine may panic *)

Definition wpx {S A} (m : M S A) (Q : A → S → Prop) (R : S → Prop) (s : S) : Prop :=
  match m s with Ok a s' => Q a s' | Panicked s' => R s' | _ => False end.

Section wpx.
Context {S : Type} (R : S → Prop).
Implicit Types s : S.

Lemma wp_wpx {A} (m : M S A) (Q : A → S → Prop) s : wp m Q s → wpx m Q R s.
Proof. unfold wp, wpx. by destruct (m s). Qed.

Lemma wpx_bind {A B} (m : M S A) (f : A → M S B) Q s :
  wpx m (λ a s', wpx (f a) Q R s') R s → wpx (m ≫= f) Q R s.
Proof. unfold wpx, mbind, M_bind. by destruct (m s). Qed.

Lemma wpx_mono {A} (m : M S A) (Q Q' : A → S → Prop) s :
  wpx m Q R s → (∀ a s', Q a s' → Q' a s') → wpx m Q' R s.
Proof. unfold wpx. destruct (m s); auto; contradiction. Qed.

Lemma wpx_ret {A} (a : A) (Q : A → S → Prop) s : Q a s → wpx (mret a) Q R s.
Proof. done. Qed.

Lemma wpx_iter {X B} (I : X → S → Prop) (μ : X → S → nat)
    (body : X → M S (X + B)) (Q : B → S → Prop) :
  (∀ x s, I x s →
     wpx (body x) (λ r s', match r with
                           | inl x' => I x' s' ∧ (μ x' s' < μ x s)%nat
                           | inr res => Q res s'
                           end) R s) →
  ∀ fuel x s, I x s → (μ x s < fuel)%nat → wpx (iter fuel body x) Q R s.
Proof.
  intros Hbody. induction fuel as [|fuel IH]; intros x s HI Hμ; [lia|].
  cbn [iter]. apply wpx_bind. eapply wpx_mono; [by apply Hbody|].
  intros [x'|res] s'; cbn; [|done].
  intros [HI' Hlt]. apply IH; [done|lia].
Qed.

Lemma wpx_outcome {A} (m : M S A) (Q : A → S → Prop) s :
  wpx m Q R s →
  (∃ a s', m s = Ok a s' ∧ Q a s') ∨ (∃ s', m s = Panicked s' ∧ R s').
Proof. unfold wpx. destruct (m s); [left|right|..]; eauto; contradiction. Qed.
End wpx.

(** [for (i = from; ...; i++) body] of [n] rounds. *)
Fixpoint for_range {S} (from : Z) (n : nat) (body : Z → M S ()) : M S () :=
  match n with
  | O => mret ()
  | Datatypes.S n => body from;; for_range (from + 1) n body
  end.

Lemma wpx_for {S} (R : S → Prop) (I : Z → S → Prop) (body : Z → M S ()) (Q : () → S → Prop) n from s :
  I from s →
  (∀ i s, from ≤ i < from + Z.of_nat n → I i s → wpx (body i) (λ _ s', I (i + 1) s') R s) →
  (∀ s, I (from + Z.of_nat n) s → Q () s) →
  wpx (for_range from n body) Q R s.
Proof.
  revert from s. induction n as [|n IH]; intros from s HI Hbody HQ; simpl.
  - apply wpx_ret, HQ. by rewrite Z.add_0_r.
  - apply wpx_bind. eapply wpx_mono; [apply Hbody; [lia|done]|].
    intros [] s' HI'. apply IH; [done| |].
    + intros i s'' Hi. apply Hbody. lia.
    + intros s'' Hs''. apply HQ. by replace (from + Z.of_nat (Datatypes.S n)) with (from + 1 + Z.of_nat n) by lia.
Qed.

Lemma wpx_wp {S A} (m : M S A) (Q : A → S → Prop) s : wpx m Q (λ _, False) s → wp m Q s.
Proof. unfold wp, wpx. by destruct (m s). Qed.

Lemma wp_for {S} (I : Z → S → Prop) (body : Z → M S ()) (Q : () → S → Prop) n from s :
  I from s →
  (∀ i s, from ≤ i < from + Z.of_nat n → I i s → wp (body i) (λ _ s', I (i + 1) s') s) →
  (∀ s, I (from + Z.of_nat n) s → Q () s) →
  wp (for_range from n body) Q s.
Proof.
  intros HI Hbody HQ. apply wpx_wp. eapply wpx_for; [exact HI| |exact HQ].
  intros i s' Hi Hs'. by apply wp_wpx, Hbody.
Qed.

(** ** Inversion of successful runs *)

Section runs.
Context {S : Type}.
Implicit Types s : S.

Lemma bind_Ok {A B} (m : M S A) (f : A → M S B) s b s' :
  (m ≫= f) s = Ok b s' ↔ ∃ a s1, m s = Ok a s1 ∧ f a s1 = Ok b s'.
Proof.
  unfold mbind, M_bind. split.
  - destruct (m s) as [a s1| | |]; [|done..]. intros. by exists a, s1.
  - by intros (a & s1 & -> & ?).
Qed.

Lemma chk_Ok z s a s' :
  chk z s = Ok a s' ↔ a = z ∧ s' = s ∧ int_min ≤ z ≤ int_max.
Proof.
  unfold chk. destruct (decide _).
  - split; [by intros [= <- <-]|by intros (-> & -> & _)].
  - split; [done|by intros (_ & _ & ?)].
Qed.
End runs.

(** ** Machine integers *)

Definition u8 (z : Z) : Z := z mod 2 ^ 8.
Definition u16 (z : Z) : Z := z mod 2 ^ 16.
Definition u32 (z : Z) : Z := z mod 2 ^ 32.
Definition u64 (z : Z) : Z := z mod 2 ^ 64.
(** The [int] whose 32-bit pattern is [z]. *)
Definition i32 (z : Z) : Z := (z + 2 ^ 31) mod 2 ^ 32 - 2 ^ 31.

Lemma u32_range z : 0 ≤ u32 z < 2 ^ 32.
Proof. apply Z.mod_pos_bound. lia. Qed.

Lemma u32_small z : 0 ≤ z < 2 ^ 32 → u32 z = z.
Proof. apply Z.mod_small. Qed.

Lemma i32_small z : int_min ≤ z ≤ int_max → i32 z = z.
Proof. unfold int_min, int_max, i32. intros. rewrite Z.mod_small; lia. Qed.

(** ** Total stores: an update of a function at one point *)

Definition upd {A} (f : Z → A) (i : Z) (x : A) : Z → A :=
  λ j, if decide (j = i) then x else f j.

Lemma upd_eq {A} (f : Z → A) i x : upd f i x i = x.
Proof. unfold upd. by rewrite decide_True. Qed.

Lemma upd_eq' {A} (f : Z → A) i j x : j = i → upd f i x j = x.
Proof. intros ->. apply upd_eq. Qed.

Lemma upd_ne {A} (f : Z → A) i j x : j ≠ i → upd f i x j = f j.
Proof. intros. unfold upd. by rewrite decide_False. Qed.

(** ** Lists *)

Lemma filter_id {A} (P : A → Prop) `{∀ x, Decision (P x)} (l : list A) :
  (∀ x, x ∈ l → P x) → filter P l = l.
Proof.
  induction l as [|x l IH]; intros HP; [done|].
  rewrite filter_cons_True by (apply HP; by left).
  f_equal. apply IH. intros y Hy. apply HP. by right.
Qed.

(** ** Automation *)

Create HintDb wpdb.
#[export] Hint Resolve wp_ret wp_get wp_gets wp_modify : wpdb.

(** One symbolic execution step of the monad's own operations. *)
Ltac wp_step :=
  lazymatch goal with
  | |- wp (mbind _ _) _ _ => apply wp_bind
  | |- wp (mret _) _ _ => apply wp_ret
  | |- wp get _ _ => apply wp_get
  | |- wp (gets _) _ _ => apply wp_gets
  | |- wp (modify _) _ _ => apply wp_modify
  | |- wp (if decide ?P then _ else _) _ _ => destruct (decide P)
  end.

(** The same, with the overflow checks that [lia] can discharge. *)
Ltac wp_go :=
  repeat first
    [ wp_step
    | lazymatch goal with
      | |- wp (chk _) _ _ =>
          apply wp_chk; [solve [unfold int_min, int_max in *; simpl in *; lia]|]
      end ].

(** Decide the updates of a store whose indices [lia] can compare. *)
Ltac upd_simp :=
  repeat first
    [ rewrite upd_eq' by lia
    | rewrite upd_ne by lia ].

(** Case analysis on a decision in the goal (not in the hypotheses). *)
Ltac goal_decide :=
  match goal with |- context [decide ?P] => destruct (decide P) end.
