(* ===== verification/HeapInv.v ===== *)
(** * Boundary-tag heaps: the store and its well-formedness

    The kernel heap (kernel/heap.cc) and the user heap
    (t0.dir/sbin/heap.c) keep the same data in the same layout: an [int]
    array tiled by blocks whose first and last word hold the signed block
    size (positive when the block is available, negative when it is
    taken), and a doubly linked list of the available blocks threaded
    through the second and third word of each.  This file holds the state
    both share, the well-formedness predicate of that layout, and the
    lemmas by which the two allocators re-establish it. *)

From S2P Require Import Prelude.

(** ** State *)

Record heap := mkHeap {
  array : Z → Z;   (** [int *array], indexed by word *)
  len : Z;         (** number of words *)
  safe : Z;        (** nonzero turns the checks of [sanity] on *)
  avail : Z;       (** header index of the first available block, 0: none *)
}.

Definition set_array (f : (Z → Z) → Z → Z) (h : heap) : heap :=
  mkHeap (f (array h)) (len h) (safe h) (avail h).
Definition set_avail (x : Z) (h : heap) : heap :=
  mkHeap (array h) (len h) (safe h) x.

(** [array[i]] read and written; an index outside the array is undefined. *)
Definition rd (i : Z) : M heap Z := λ h,
  if decide (0 ≤ i < len h) then Ok (array h i) h else Faulted.
Definition wr (i x : Z) : M heap () := λ h,
  if decide (0 ≤ i < len h) then Ok () (set_array (λ a, upd a i x) h) else Faulted.

Lemma wp_rd i (Q : Z → heap → Prop) h :
  0 ≤ i < len h → Q (array h i) h → wp (rd i) Q h.
Proof. intros Hi HQ. unfold wp, rd. by rewrite decide_True. Qed.

Lemma wp_wr i x (Q : () → heap → Prop) h :
  0 ≤ i < len h → Q () (set_array (λ a, upd a i x) h) → wp (wr i x) Q h.
Proof. intros Hi HQ. unfold wp, wr. by rewrite decide_True. Qed.

(** ** Tilings: a list of signed block sizes laid out from index [p] *)

Definition total (bs : list Z) : Z := foldr (λ b t, Z.abs b + t) 0 bs.

Fixpoint tiles (a : Z → Z) (p : Z) (bs : list Z) : Prop :=
  match bs with
  | [] => True
  | b :: bs' => a p = b ∧ a (p + Z.abs b - 1) = b ∧ tiles a (p + Z.abs b) bs'
  end.

(** Header indices of the available blocks of a tiling. *)
Fixpoint frees (p : Z) (bs : list Z) : list Z :=
  match bs with
  | [] => []
  | b :: bs' => (if decide (0 < b) then [p] else []) ++ frees (p + Z.abs b) bs'
  end.

(** Block sizes: at least a header and a footer, and room for the two
    links in a block that is or may become available. *)
Definition ok_size (b : Z) : Prop := 4 ≤ Z.abs b ∨ b = -2.

Lemma total_app bs1 bs2 : total (bs1 ++ bs2) = total bs1 + total bs2.
Proof. induction bs1; simpl; lia. Qed.

Lemma total_nonneg bs : 0 ≤ total bs.
Proof. induction bs; simpl; lia. Qed.

Lemma tiles_app a p bs1 bs2 :
  tiles a p (bs1 ++ bs2) ↔ tiles a p bs1 ∧ tiles a (p + total bs1) bs2.
Proof.
  revert p. induction bs1 as [|b bs1 IH]; intros p; simpl.
  - rewrite Z.add_0_r. tauto.
  - rewrite IH, Z.add_assoc. tauto.
Qed.

Lemma frees_app p bs1 bs2 :
  frees p (bs1 ++ bs2) = frees p bs1 ++ frees (p + total bs1) bs2.
Proof.
  revert p. induction bs1 as [|b bs1 IH]; intros p; simpl.
  - by rewrite Z.add_0_r.
  - by rewrite IH, Z.add_assoc, app_assoc.
Qed.

(** An available block starts at or after [p] and has room for its links
    strictly inside the tiling. *)
Lemma frees_bound p bs x :
  Forall ok_size bs → x ∈ frees p bs → p ≤ x ∧ x + 4 ≤ p + total bs.
Proof.
  intros Hok. revert p. induction Hok as [|b bs Hb Hok IH]; intros p; simpl.
  - by intros ?%not_elem_of_nil.
  - pose proof (total_nonneg bs).
    rewrite elem_of_app. intros [Hx|Hx%IH]; [|lia].
    unfold ok_size in Hb. case_decide; [|by apply not_elem_of_nil in Hx].
    apply list_elem_of_singleton in Hx. lia.
Qed.

Lemma frees_inv p bs x :
  x ∈ frees p bs → ∃ bs1 b bs2, bs = bs1 ++ b :: bs2 ∧ 0 < b ∧ x = p + total bs1.
Proof.
  revert p. induction bs as [|b bs IH]; intros p; simpl.
  - by intros ?%not_elem_of_nil.
  - rewrite elem_of_app. intros [Hx|Hx].
    + case_decide; [|by apply not_elem_of_nil in Hx].
      apply list_elem_of_singleton in Hx as ->.
      exists [], b, bs. simpl. split_and!; [done|done|lia].
    + destruct (IH _ Hx) as (bs1 & b' & bs2 & -> & Hb & ->).
      exists (b :: bs1), b', bs2. simpl. split_and!; [done|done|lia].
Qed.

(** A free block's tags are what the allocator reads. *)
Lemma frees_tag a p bs x :
  tiles a p bs → x ∈ frees p bs → 0 < a x.
Proof.
  intros Ht (bs1 & b & bs2 & -> & Hb & ->)%frees_inv.
  apply tiles_app in Ht as [_ [-> _]]. done.
Qed.

Lemma tiles_frame a a' p bs :
  (∀ i, p ≤ i < p + total bs → a' i = a i) →
  Forall ok_size bs → tiles a p bs → tiles a' p bs.
Proof.
  intros Heq Hok. revert p Heq.
  induction Hok as [|b bs Hb Hok IH]; intros p Heq; simpl; [done|].
  pose proof (total_nonneg bs). unfold ok_size in Hb. simpl in Heq.
  intros (H1 & H2 & H3). split_and!.
  - rewrite Heq; [done|lia].
  - rewrite Heq; [done|lia].
  - apply IH; [|done]. intros i Hi. apply Heq. lia.
Qed.

(** Writing a link word of an available block leaves every tag alone. *)
Lemma tiles_link a p bs x j v :
  Forall ok_size bs → x ∈ frees p bs → x + 1 ≤ j ≤ x + 2 →
  tiles a p bs → tiles (upd a j v) p bs.
Proof.
  intros Hok. revert p. induction Hok as [|b bs Hb Hok IH]; intros p; simpl; [done|].
  rewrite elem_of_app. unfold ok_size in Hb. intros [Hx|Hx] Hj (H1 & H2 & H3).
  - case_decide; [|by apply not_elem_of_nil in Hx].
    apply list_elem_of_singleton in Hx as ->. upd_simp. split_and!; [done..|].
    apply (tiles_frame a); [|done|done]. intros i Hi. by upd_simp.
  - pose proof (frees_bound _ _ _ Hok Hx). upd_simp.
    split_and!; [done..|]. by apply IH.
Qed.

(** ** The list of available blocks *)

Fixpoint dll (a : Z → Z) (prev cur : Z) (fl : list Z) : Prop :=
  match fl with
  | [] => cur = 0
  | x :: fl' => cur = x ∧ x ≠ 0 ∧ a (x + 2) = prev ∧ dll a x (a (x + 1)) fl'
  end.

Lemma dll_frame a a' prev cur fl :
  (∀ x, x ∈ fl → a' (x + 1) = a (x + 1) ∧ a' (x + 2) = a (x + 2)) →
  dll a prev cur fl → dll a' prev cur fl.
Proof.
  revert prev cur. induction fl as [|x fl IH]; intros prev cur Heq; simpl; [done|].
  intros (-> & Hx & H2 & H3). destruct (Heq x) as [E1 E2]; [by left|].
  rewrite E1, E2. split_and!; [done..|].
  apply IH; [|done]. intros y Hy. apply Heq. by right.
Qed.

Lemma dll_nonzero a prev cur fl x : dll a prev cur fl → x ∈ fl → x ≠ 0.
Proof.
  revert prev cur. induction fl as [|y fl IH]; intros prev cur; simpl.
  - by intros _ ?%not_elem_of_nil.
  - intros (_ & Hy & _ & Hd) [->|Hx]%elem_of_cons; [done|by eapply IH].
Qed.

(** Free-list members are at least a minimal block apart. *)
Definition apart (fl : list Z) : Prop :=
  ∀ x y, x ∈ fl → y ∈ fl → x ≠ y → x + 4 ≤ y ∨ y + 4 ≤ x.

Lemma frees_apart p bs : Forall ok_size bs → apart (frees p bs).
Proof.
  intros Hok. revert p. induction Hok as [|b bs Hb Hok IH]; intros p x y; simpl.
  - by intros ?%not_elem_of_nil.
  - unfold ok_size in Hb. rewrite !elem_of_app.
    intros [Hx|Hx] [Hy|Hy] Hne; [| | |by eapply IH]; case_decide;
      repeat match goal with
             | H : _ ∈ [] |- _ => by apply not_elem_of_nil in H
             | H : _ ∈ [_] |- _ => apply list_elem_of_singleton in H
             | H : _ ∈ frees _ _ |- _ => apply frees_bound in H; [|done]
             end; lia.
Qed.

Lemma apart_sub fl fl' : (∀ x, x ∈ fl → x ∈ fl') → apart fl' → apart fl.
Proof. intros Hsub Ha x y Hx Hy. apply Ha; auto. Qed.

(** Making the predecessor link of the list's head point elsewhere. *)
Definition relink (a : Z → Z) (cur prev : Z) : Z → Z :=
  if decide (cur ≠ 0) then upd a (cur + 2) prev else a.

Lemma dll_relink a prev prev' cur fl :
  apart fl → NoDup fl → dll a prev cur fl → dll (relink a cur prev') prev' cur fl.
Proof.
  intros Ha Hnd. destruct fl as [|x fl]; simpl; [done|].
  intros (-> & Hx & H2 & H3). unfold relink. rewrite decide_True by done.
  apply NoDup_cons in Hnd as [Hnx Hnd]. upd_simp. split_and!; [done..|].
  apply (dll_frame a); [|done]. intros y Hy.
  assert (y ≠ x) by congruence.
  assert (x + 4 ≤ y ∨ y + 4 ≤ x) by (apply Ha; set_solver).
  split; by upd_simp.
Qed.

(** [remove] of the sources on the array and the list head. *)
Definition unlink_array (a : Z → Z) (x : Z) (head : bool) : Z → Z :=
  relink (if head then a else upd a (a (x + 2) + 1) (a (x + 1))) (a (x + 1)) (a (x + 2)).

Lemma dll_last a prev cur l1 x l2 :
  dll a prev cur (l1 ++ x :: l2) → a (x + 2) = default prev (last l1).
Proof.
  revert prev cur. induction l1 as [|y l1 IH]; intros prev cur; simpl.
  - tauto.
  - intros (_ & _ & _ & Hd%IH). rewrite Hd. by rewrite last_cons; destruct (last l1).
Qed.

Lemma dll_next a prev cur l1 x l2 :
  dll a prev cur (l1 ++ x :: l2) → dll a x (a (x + 1)) l2.
Proof.
  revert prev cur. induction l1 as [|y l1 IH]; intros prev cur; simpl; [tauto|].
  intros (_ & _ & _ & Hd). by apply IH in Hd.
Qed.

Lemma dll_head a prev cur fl : dll a prev cur fl → cur = default 0 (head fl).
Proof. destruct fl; simpl; tauto. Qed.

(** The successor of a list member is 0 or another member. *)
Lemma dll_next_cases a prev cur l1 x l2 :
  dll a prev cur (l1 ++ x :: l2) → a (x + 1) = 0 ∨ a (x + 1) ∈ l2.
Proof.
  intros ->%dll_next%dll_head. destruct l2; simpl; [by left|right; by left].
Qed.

Lemma dll_unlink a prev cur l1 x l2 :
  apart (l1 ++ x :: l2) → NoDup (l1 ++ x :: l2) → dll a prev cur (l1 ++ x :: l2) →
  dll (unlink_array a x (bool_decide (l1 = []))) prev
      (if decide (l1 = []) then a (x + 1) else cur) (l1 ++ l2).
Proof.
  revert prev cur. induction l1 as [|y l1 IH]; intros prev cur Ha Hnd Hd.
  - destruct Hd as (-> & Hx & H2 & Hd). unfold unlink_array. simpl.
    apply NoDup_cons in Hnd as [_ Hnd]. rewrite H2.
    apply (dll_relink _ x); [|done|done]. eapply apart_sub; [|done]. set_solver.
  - pose proof (dll_last _ _ _ _ _ _ Hd) as Hlast.
    pose proof (dll_next_cases _ _ _ _ _ _ Hd) as Hnext.
    rewrite <-app_comm_cons in *. pose proof Hnd as Hnd0.
    apply NoDup_cons in Hnd as [Hny Hnd]. simpl in Hd.
    destruct Hd as (-> & Hy & H2 & Hd).
    assert (Hap : apart (l1 ++ x :: l2)) by (eapply apart_sub; [|done]; set_solver).
    assert (Hoff : ∀ z, z ∈ l1 ++ x :: l2 → y + 4 ≤ z ∨ z + 4 ≤ y).
    { intros z Hz. apply Ha; [set_solver..|]. intros ->. done. }
    assert (Hrel : ∀ b, relink b (a (x + 1)) (a (x + 2)) (y + 2) = b (y + 2) ∧
                        relink b (a (x + 1)) (a (x + 2)) (y + 1) = b (y + 1)).
    { intros b. unfold relink. goal_decide; [|by split].
      destruct Hnext as [|Hin]; [done|].
      destruct (Hoff (a (x + 1))); [set_solver|upd_simp; by split..]. }
    destruct (decide (l1 = [])) as [->|Hl1].
    + simpl in Hd. destruct Hd as (Hc & Hx & Hp & Hd).
      cbn. unfold unlink_array. rewrite Hp in *. cbn.
      destruct (Hrel (upd a (y + 1) (a (x + 1)))) as [-> ->].
      upd_simp. split_and!; [done..|].
      apply (dll_relink _ x); [by eapply apart_sub; [|done]; set_solver|..].
      { by apply NoDup_cons in Hnd as [_ ?]. }
      apply (dll_frame a); [|done]. intros z Hz.
      destruct (Hoff z); [set_solver|upd_simp; by split..].
    + specialize (IH _ _ Hap Hnd Hd).
      rewrite bool_decide_false in IH by done. cbn [bool_decide decide].
      rewrite bool_decide_false by done. rewrite decide_False by done.
      assert (Hpin : a (x + 2) ∈ l1).
      { rewrite last_cons in Hlast. destruct (last l1) as [z|] eqn:El.
        - rewrite Hlast. simpl. by apply last_Some_elem_of.
        - by apply last_None in El. }
      assert (Hpo := Hoff (a (x + 2)) ltac:(set_solver)).
      simpl. unfold unlink_array in *.
      destruct (Hrel (upd a (a (x + 2) + 1) (a (x + 1)))) as [-> ->].
      upd_simp. by split_and!.
Qed.

(** ** Well-formed heaps *)

(** The blocks tile the array and the list threads exactly [fl], a set of
    available blocks.  [rep] below adds that [fl] is all of them and that
    the array is fenced by two taken two-word blocks. *)
Record linked (h : heap) (bs fl : list Z) : Prop := {
  lk_tiles : tiles (array h) 0 bs;
  lk_total : total bs = len h;
  lk_len : len h ≤ int_max;
  lk_sizes : Forall ok_size bs;
  lk_dll : dll (array h) 0 (avail h) fl;
  lk_nodup : NoDup fl;
  lk_sub : ∀ x, x ∈ fl → x ∈ frees 0 bs;
}.

(** The same with [n] words between [bs1] and [bs2] that no block owns. *)
Record hole (h : heap) (bs1 : list Z) (n : Z) (bs2 fl : list Z) : Prop := {
  ho_tiles1 : tiles (array h) 0 bs1;
  ho_tiles2 : tiles (array h) (total bs1 + n) bs2;
  ho_total : total bs1 + n + total bs2 = len h;
  ho_len : len h ≤ int_max;
  ho_n : 0 ≤ n;
  ho_sizes1 : Forall ok_size bs1;
  ho_sizes2 : Forall ok_size bs2;
  ho_dll : dll (array h) 0 (avail h) fl;
  ho_nodup : NoDup fl;
  ho_sub : ∀ x, x ∈ fl → x ∈ frees 0 bs1 ∨ x ∈ frees (total bs1 + n) bs2;
}.

(** Word [j] belongs to a taken block of the tiling. *)
Fixpoint taken_word (p : Z) (bs : list Z) (j : Z) : Prop :=
  match bs with
  | [] => False
  | b :: bs' => (b < 0 ∧ p ≤ j < p + Z.abs b) ∨ taken_word (p + Z.abs b) bs' j
  end.

Lemma taken_word_app p bs1 bs2 j :
  taken_word p (bs1 ++ bs2) j ↔ taken_word p bs1 j ∨ taken_word (p + total bs1) bs2 j.
Proof.
  revert p. induction bs1 as [|b bs1 IH]; intros p; simpl.
  - rewrite Z.add_0_r. tauto.
  - rewrite IH, Z.add_assoc. tauto.
Qed.

Lemma taken_word_bound p bs j : taken_word p bs j → p ≤ j < p + total bs.
Proof.
  revert p. induction bs as [|b bs IH]; intros p; simpl; [done|].
  pose proof (total_nonneg bs). intros [?|?%IH]; lia.
Qed.

Lemma taken_word_link p bs x j :
  Forall ok_size bs → x ∈ frees p bs → x + 1 ≤ j ≤ x + 2 → ¬ taken_word p bs j.
Proof.
  intros Hok. revert p. induction Hok as [|b bs Hb Hok IH]; intros p; simpl; [tauto|].
  unfold ok_size in Hb. rewrite elem_of_app. intros [Hx|Hx] Hj [Ht|Ht].
  - case_decide; [lia|by apply not_elem_of_nil in Hx].
  - case_decide; [|by apply not_elem_of_nil in Hx].
    apply list_elem_of_singleton in Hx as ->. apply taken_word_bound in Ht. lia.
  - apply frees_bound in Hx; [lia|done].
  - by eapply IH.
Qed.

(** What an operation that only touches available words preserves. *)
Definition keeps (P : Z → Prop) (h h' : heap) : Prop :=
  len h' = len h ∧ safe h' = safe h ∧ ∀ j, P j → array h' j = array h j.

Lemma keeps_refl P h : keeps P h h.
Proof. done. Qed.

Lemma keeps_trans (P : Z → Prop) h1 h2 h3 : keeps P h1 h2 → keeps P h2 h3 → keeps P h1 h3.
Proof.
  intros (?&?&E1) (?&?&E2). split_and!; [congruence..|].
  intros j Hj. by rewrite E2, E1.
Qed.

Lemma keeps_weaken (P P' : Z → Prop) h h' :
  (∀ j, P' j → P j) → keeps P h h' → keeps P' h h'.
Proof. intros HP (?&?&E). split_and!; auto. Qed.

Lemma linked_member h bs fl x :
  linked h bs fl → x ∈ fl → 0 < x ∧ x + 4 ≤ len h ∧ 0 < array h x.
Proof.
  intros [Ht Htot ? Hok Hd ? Hsub] Hx.
  pose proof (frees_bound _ _ _ Hok (Hsub _ Hx)).
  pose proof (dll_nonzero _ _ _ _ _ Hd Hx).
  pose proof (frees_tag _ _ _ _ Ht (Hsub _ Hx)). lia.
Qed.

Lemma linked_apart h bs fl : linked h bs fl → apart fl.
Proof.
  intros [? ? ? Hok ? ? Hsub]. eapply apart_sub; [exact Hsub|by apply frees_apart].
Qed.

(** [remove(x)] of the sources as one function of the heap. *)
Definition unlink (x : Z) (h : heap) : heap :=
  mkHeap (unlink_array (array h) x (bool_decide (array h (x + 2) = 0)))
         (len h) (safe h)
         (if decide (array h (x + 2) = 0) then array h (x + 1) else avail h).

(** The neighbours of [x] in the list are 0 or members. *)
Lemma linked_neighbours h bs fl1 x fl2 :
  linked h bs (fl1 ++ x :: fl2) →
  (array h (x + 2) = 0 ∧ fl1 = [] ∨ array h (x + 2) ≠ 0 ∧ array h (x + 2) ∈ fl1) ∧
  (array h (x + 1) = 0 ∨ array h (x + 1) ∈ fl2).
Proof.
  intros Hl. pose proof (lk_dll _ _ _ Hl) as Hd. split.
  - rewrite (dll_last _ _ _ _ _ _ Hd). destruct (last fl1) as [z|] eqn:E; simpl.
    + right. apply last_Some_elem_of in E. split; [|done].
      eapply dll_nonzero; [exact Hd|]. set_solver.
    + left. by apply last_None in E.
  - by eapply dll_next_cases.
Qed.

Lemma relink_other a cur prev j : cur = 0 ∨ j ≠ cur + 2 → relink a cur prev j = a j.
Proof. intros H. unfold relink. goal_decide; [|done]. upd_simp. done. Qed.

(** Any property of arrays stable under writes to the links of list
    members is preserved by [unlink]. *)
Lemma unlink_array_ind (P : (Z → Z) → Prop) h bs fl1 x fl2 :
  linked h bs (fl1 ++ x :: fl2) →
  (∀ a y j v, P a → y ∈ fl1 ++ x :: fl2 → y + 1 ≤ j ≤ y + 2 → P (upd a j v)) →
  P (array h) → P (array (unlink x h)).
Proof.
  intros Hl Hstep HP. destruct (linked_neighbours _ _ _ _ _ Hl) as [Hp Hn].
  simpl. unfold unlink_array, relink.
  assert (P (if bool_decide (array h (x + 2) = 0) then array h
             else upd (array h) (array h (x + 2) + 1) (array h (x + 1)))) as HP'.
  { case_bool_decide; [done|]. apply (Hstep _ (array h (x + 2))); [done| |lia].
    destruct Hp as [[]|[]]; [done|]. set_solver. }
  goal_decide; [|done]. destruct Hn; [done|].
  apply (Hstep _ (array h (x + 1))); [done| |lia]. set_solver.
Qed.

Lemma unlink_linked h bs fl1 x fl2 :
  linked h bs (fl1 ++ x :: fl2) →
  linked (unlink x h) bs (fl1 ++ fl2) ∧ keeps (taken_word 0 bs) h (unlink x h).
Proof.
  intros Hl. pose proof Hl as [Ht Htot Hlen Hok Hd Hnd Hsub].
  pose proof (linked_apart _ _ _ Hl) as Hap.
  destruct (linked_neighbours _ _ _ _ _ Hl) as [Hp _].
  split; [split|]; try done.
  - eapply (unlink_array_ind (λ a, tiles a 0 bs)); [done| |done].
    intros a y j v ? Hy ?. by eapply tiles_link; [|apply Hsub| |].
  - pose proof (dll_unlink _ _ _ _ _ _ Hap Hnd Hd) as Hu. simpl.
    destruct Hp as [[E ->]|[E Hin]].
    + rewrite bool_decide_true, decide_True by done.
      rewrite bool_decide_true, decide_True in Hu by done. done.
    + assert (fl1 ≠ []) by (intros ->; by apply not_elem_of_nil in Hin).
      rewrite bool_decide_false, decide_False by done.
      rewrite bool_decide_false, decide_False in Hu by done. done.
  - apply NoDup_app in Hnd as (?&?&Hnd%NoDup_cons). apply NoDup_app. set_solver.
  - set_solver.
  - split_and!; [done..|]. intros j Hj.
    eapply (unlink_array_ind (λ a, a j = array h j)); [done| |done].
    intros a y j' v <- Hy ?. apply upd_ne. intros ->.
    by eapply taken_word_link; [|apply Hsub| |].
Qed.

(** Forgetting a run of blocks none of which is in the list. *)
Lemma linked_hole h bs1 mid bs2 fl :
  linked h (bs1 ++ mid ++ bs2) fl →
  (∀ x, x ∈ fl → x ∉ frees (total bs1) mid) →
  hole h bs1 (total mid) bs2 fl.
Proof.
  intros [Ht Htot Hlen Hok Hd Hnd Hsub] Hmid.
  rewrite !tiles_app in Ht. destruct Ht as (?&?&?).
  rewrite !total_app in Htot. rewrite !Forall_app in Hok. destruct Hok as (?&?&?).
  pose proof (total_nonneg mid). split; try done; [lia|].
  intros x Hx. specialize (Hsub x Hx). specialize (Hmid x Hx).
  rewrite !frees_app, !elem_of_app in Hsub. simpl in *. tauto.
Qed.

Lemma hole_linked h bs1 n mid bs2 fl :
  hole h bs1 n bs2 fl → total mid = n → Forall ok_size mid →
  tiles (array h) (total bs1) mid → linked h (bs1 ++ mid ++ bs2) fl.
Proof.
  intros [? ? ? ? ? ? ? ? ? Hsub] <- Hok Ht. split; try done.
  - rewrite !tiles_app. by split_and!.
  - rewrite !total_app. lia.
  - by rewrite !Forall_app.
  - intros x Hx. rewrite !frees_app, !elem_of_app. simpl.
    destruct (Hsub x Hx); auto.
Qed.

(** The allocator may write anything into a hole. *)
Lemma hole_write h bs1 n bs2 fl j v :
  hole h bs1 n bs2 fl → total bs1 ≤ j < total bs1 + n →
  hole (set_array (λ a, upd a j v) h) bs1 n bs2 fl.
Proof.
  intros [Ht1 Ht2 ? ? ? Hok1 Hok2 Hd ? Hsub] Hj. split; try done.
  - eapply tiles_frame; [|done|exact Ht1]. intros i Hi. simpl. by upd_simp.
  - eapply tiles_frame; [|done|exact Ht2]. intros i Hi. simpl. by upd_simp.
  - eapply dll_frame; [|exact Hd]. intros x Hx. simpl.
    assert (x + 4 ≤ total bs1 ∨ total bs1 + n ≤ x).
    { pose proof (total_nonneg bs2).
      destruct (Hsub x Hx) as [Hf|Hf]; apply frees_bound in Hf; first [done|lia]. }
    split; by upd_simp.
Qed.

(** The list part of [makeAvail(x, _)]. *)
Definition push (x : Z) (h : heap) : heap :=
  let a := upd (upd (array h) (x + 1) (avail h)) (x + 2) 0 in
  mkHeap (relink a (avail h) x) (len h) (safe h) x.

Lemma push_linked h bs fl x :
  linked h bs fl → x ∈ frees 0 bs → x ∉ fl → x ≠ 0 →
  linked (push x h) bs (x :: fl) ∧ keeps (taken_word 0 bs) h (push x h).
Proof.
  intros Hl Hx Hnin Hx0. pose proof Hl as [Ht Htot Hlen Hok Hd Hnd Hsub].
  pose proof (frees_apart 0 _ Hok) as Hap. pose proof (linked_apart _ _ _ Hl).
  assert (Hav : avail h = 0 ∨ avail h ∈ fl).
  { rewrite (dll_head _ _ _ _ Hd). destruct fl; simpl; [by left|set_solver]. }
  assert (Hfar : ∀ y, y ∈ fl → x + 4 ≤ y ∨ y + 4 ≤ x).
  { intros y Hy. apply Hap; [done|by apply Hsub|]. congruence. }
  split; [split|]; try done; simpl.
  - unfold relink. goal_decide; [destruct Hav; [done|]|].
    + eapply tiles_link; [done|apply Hsub; eassumption|lia|].
      eapply tiles_link; [done|exact Hx|lia|]. eapply tiles_link; [done|exact Hx|lia|done].
    + eapply tiles_link; [done|exact Hx|lia|]. eapply tiles_link; [done|exact Hx|lia|done].
  - assert (avail h = 0 ∨ x + 4 ≤ avail h ∨ avail h + 4 ≤ x).
    { destruct Hav; [by left|right; by apply Hfar]. }
    rewrite !relink_other by lia. upd_simp. split_and!; [done..|].
    apply (dll_relink _ 0); [done..|]. apply (dll_frame (array h)); [|done].
    intros y Hy. destruct (Hfar y Hy); split; by upd_simp.
  - by apply NoDup_cons.
  - set_solver.
  - split_and!; [done..|]. intros j Hj. simpl.
    assert (¬ (x + 1 ≤ j ≤ x + 2)) by (intros ?; by eapply taken_word_link).
    rewrite relink_other; [by upd_simp|].
    destruct Hav; [by left|right]. intros ->.
    eapply (taken_word_link _ _ (avail h)); [done|by apply Hsub| |exact Hj]. lia.
Qed.

(** ** Representation: an abstract allocator *)

(** What the heap means: the signed sizes of its blocks in address order
    and the available blocks in list order. *)
Record astate := mkA { blocks : list Z; flist : list Z }.

Definition fenced (bs : list Z) : Prop :=
  ∃ mid, bs = -2 :: mid ++ [-2] ∧ Forall (λ b, 4 ≤ Z.abs b) mid.

Record rep (h : heap) (A : astate) : Prop := {
  rep_linked : linked h (blocks A) (flist A);
  rep_all : ∀ x, x ∈ frees 0 (blocks A) → x ∈ flist A;
  rep_fenced : fenced (blocks A);
}.

(** The block whose header is at [x], and what is around it. *)
Fixpoint split_at (p : Z) (bs : list Z) (x : Z) : option (list Z * Z * list Z) :=
  match bs with
  | [] => None
  | b :: bs' =>
      if decide (p = x) then Some ([], b, bs')
      else '(l, c, r) ← split_at (p + Z.abs b) bs' x; Some (b :: l, c, r)
  end.

Definition without (x : Z) (fl : list Z) : list Z := filter (λ y, y ≠ x) fl.

(** Take [ints] words from the available block at [x]; the rest stays
    available when it is large enough to be a block. *)
Definition carve (x ints : Z) (A : astate) : astate :=
  match split_at 0 (blocks A) x with
  | Some (l, n, r) =>
      if decide (4 ≤ n - ints)
      then mkA (l ++ - ints :: (n - ints) :: r) (x + ints :: without x (flist A))
      else mkA (l ++ - n :: r) (without x (flist A))
  | None => A
  end.

(** Give the block at [x] back, merged with its available neighbours. *)
Definition release (x : Z) (A : astate) : astate :=
  match split_at 0 (blocks A) x with
  | Some (l, b, r) =>
      let '(l', ln) := match last l with
                       | Some c => if decide (0 < c) then (removelast l, c) else (l, 0)
                       | None => (l, 0)
                       end in
      let '(r', rn) := match r with
                       | c :: r0 => if decide (0 < c) then (r0, c) else (r, 0)
                       | [] => (r, 0)
                       end in
      mkA (l' ++ (ln + Z.abs b + rn) :: r')
          (x - ln :: without (x + Z.abs b) (without (x - ln) (flist A)))
  | None => A
  end.

(** No two neighbouring blocks are both available. *)
Fixpoint coalesced (bs : list Z) : Prop :=
  match bs with
  | b :: (c :: _) as bs' => ¬ (0 < b ∧ 0 < c) ∧ coalesced bs'
  | _ => True
  end.

(** ** Facts about blocks found in a tiling *)

Definition valid_block (h : heap) (i : Z) : Prop :=
  0 ≤ i ∧ 2 ≤ Z.abs (array h i) ∧ i + Z.abs (array h i) ≤ len h ∧
  array h (i + Z.abs (array h i) - 1) = array h i.

Lemma ok_size_2 b : ok_size b → 2 ≤ Z.abs b.
Proof. unfold ok_size. lia. Qed.

Lemma linked_valid h bs1 b bs2 fl :
  linked h (bs1 ++ b :: bs2) fl →
  array h (total bs1) = b ∧ valid_block h (total bs1).
Proof.
  intros [Ht Htot Hlen Hok _ _ _].
  apply tiles_app in Ht as (_ & H1 & H2 & _). rewrite Z.add_0_l in H1, H2.
  rewrite total_app in Htot. simpl in Htot. apply Forall_app in Hok as [_ Hok].
  apply Forall_cons in Hok as [Hb%ok_size_2 _].
  pose proof (total_nonneg bs1). pose proof (total_nonneg bs2).
  unfold valid_block. rewrite H1. split_and!; [done|lia..|done].
Qed.

Lemma linked_member_valid h bs fl x : linked h bs fl → x ∈ fl → valid_block h x.
Proof.
  intros Hl Hx. pose proof (lk_sub _ _ _ Hl _ Hx) as Hf.
  apply frees_inv in Hf as (bs1 & b & bs2 & -> & _ & ->).
  by apply linked_valid in Hl as [_ ?].
Qed.

Lemma split_at_app p bs1 b bs2 :
  Forall ok_size bs1 →
  split_at p (bs1 ++ b :: bs2) (p + total bs1) = Some (bs1, b, bs2).
Proof.
  intros Hok. revert p. induction Hok as [|c bs1 Hc%ok_size_2 Hok IH]; intros p; simpl.
  - by rewrite decide_True by lia.
  - pose proof (total_nonneg bs1). rewrite decide_False by lia.
    rewrite Z.add_assoc, IH. done.
Qed.

Lemma split_at_spec p bs x l b r :
  split_at p bs x = Some (l, b, r) → bs = l ++ b :: r ∧ x = p + total l.
Proof.
  revert p l. induction bs as [|c bs IH]; intros p l; simpl; [done|].
  case_decide.
  - intros [= <- <- <-]. simpl. split; [done|lia].
  - destruct (split_at _ bs x) as [[[l' b'] r']|] eqn:E; [|done].
    intros [= <- -> ->]. apply IH in E as [-> ->]. simpl. split; [done|lia].
Qed.

Lemma without_app x fl1 fl2 :
  NoDup (fl1 ++ x :: fl2) → without x (fl1 ++ x :: fl2) = fl1 ++ fl2.
Proof.
  intros (_ & Hn & [Hx _]%NoDup_cons)%NoDup_app. unfold without.
  rewrite filter_app, filter_cons_False by tauto.
  f_equal; apply filter_id; intros y Hy ->; set_solver.
Qed.

Lemma without_notin x fl : x ∉ fl → without x fl = fl.
Proof. intros Hx. apply filter_id. by intros y Hy ->. Qed.

(** ** Re-establishing the invariant *)

(** Taken words on either side of a hole. *)
Definition outside (bs1 : list Z) (n : Z) (bs2 : list Z) (j : Z) : Prop :=
  taken_word 0 bs1 j ∨ taken_word (total bs1 + n) bs2 j.

Lemma outside_hole bs1 n bs2 j :
  0 ≤ n → outside bs1 n bs2 j → ¬ (total bs1 ≤ j < total bs1 + n).
Proof. intros Hn [Ht|Ht]; apply taken_word_bound in Ht; lia. Qed.

Lemma outside_app bs1 mid bs2 j :
  outside bs1 (total mid) bs2 j → taken_word 0 (bs1 ++ mid ++ bs2) j.
Proof. unfold outside. rewrite !taken_word_app. simpl. tauto. Qed.

(** Writing the two tags of a block of size [n] whose signed size is [v]. *)
Definition tag (x n v : Z) (h : heap) : heap :=
  set_array (λ a, upd (upd a x v) (x + n - 1) v) h.

Lemma hole_tag h bs1 n bs2 fl x m v :
  hole h bs1 n bs2 fl → total bs1 ≤ x → 1 ≤ m → x + m ≤ total bs1 + n →
  hole (tag x m v h) bs1 n bs2 fl ∧ keeps (outside bs1 n bs2) h (tag x m v h).
Proof.
  intros Hh ? ? ?. pose proof (ho_n _ _ _ _ _ Hh). split.
  - change (tag x m v h) with
      (set_array (λ a, upd a (x + m - 1) v) (set_array (λ a, upd a x v) h)).
    apply hole_write; [apply hole_write|]; [done|lia..].
  - split_and!; [done..|]. intros j Hj%outside_hole; [|done]. simpl. by upd_simp.
Qed.

(** Available blocks of the abstract state in address order. *)
Lemma hole_push h bs1 n bs2 fl mid m y :
  hole h bs1 n bs2 fl → tiles (array h) (total bs1) mid → Forall ok_size mid →
  n = total mid + m → 4 ≤ m → y = total bs1 + total mid → 0 < y →
  linked (push y (tag y m m h)) (bs1 ++ (mid ++ [m]) ++ bs2) (y :: fl) ∧
  keeps (outside bs1 n bs2) h (push y (tag y m m h)).
Proof.
  intros Hh Ht Hok Hn Hm -> Hy. pose proof (total_nonneg mid).
  destruct (hole_tag _ _ _ _ _ (total bs1 + total mid) m m Hh) as [Hh' Hk]; [lia..|].
  assert (Hl : linked (tag (total bs1 + total mid) m m h)
                 (bs1 ++ (mid ++ [m]) ++ bs2) fl).
  { eapply hole_linked; [exact Hh'|rewrite total_app; simpl; lia| |].
    - apply Forall_app. split; [done|]. constructor; [left; lia|done].
    - apply tiles_app. split.
      + eapply tiles_frame; [|done|exact Ht]. intros i Hi. simpl. by upd_simp.
      + simpl. upd_simp. split_and!; [done| |done]. upd_simp. done. }
  destruct (push_linked _ _ _ (total bs1 + total mid) Hl) as [Hl' Hk'].
  - rewrite !frees_app, !elem_of_app. simpl. rewrite decide_True by lia. set_solver.
  - intros Hin. destruct (ho_sub _ _ _ _ _ Hh _ Hin) as [Hf|Hf];
      (apply frees_bound in Hf; [lia|by destruct Hh]).
  - lia.
  - split; [done|]. eapply keeps_trans; [exact Hk|].
    eapply keeps_weaken; [|exact Hk']. intros j Hj. apply outside_app.
    rewrite total_app. simpl. by replace (total mid + (Z.abs m + 0)) with n by lia.
Qed.

Lemma fenced_mid l mid r :
  fenced (l ++ mid ++ r) → mid ≠ [] → Forall (λ b, 4 ≤ Z.abs b) mid →
  ∃ l' r', l = -2 :: l' ∧ r = r' ++ [-2] ∧
           Forall (λ b, 4 ≤ Z.abs b) l' ∧ Forall (λ b, 4 ≤ Z.abs b) r'.
Proof.
  intros (m & E & Hm) Hne Hmid. destruct l as [|a l].
  { destruct mid as [|c mid]; [done|]. injection E as -> _.
    apply Forall_cons in Hmid. lia. }
  destruct r as [|z r _] using rev_ind.
  { rewrite app_nil_r in E. destruct mid as [|c mid _] using rev_ind; [done|].
    rewrite app_assoc in E. simpl in E. injection E as _ E.
    apply app_inj_tail in E as [_ ->]. apply Forall_app in Hmid as [_ Hc].
    apply Forall_cons in Hc. lia. }
  simpl in E. rewrite !app_assoc in E. injection E as -> E.
  apply app_inj_tail in E as [<- ->].
  rewrite !Forall_app in Hm. exists l, r. tauto.
Qed.

Lemma fenced_replace l mid mid' r :
  fenced (l ++ mid ++ r) → mid ≠ [] → Forall (λ b, 4 ≤ Z.abs b) mid →
  Forall (λ b, 4 ≤ Z.abs b) mid' → fenced (l ++ mid' ++ r).
Proof.
  intros Hf Hne Hm Hm'. destruct (fenced_mid _ _ _ Hf Hne Hm) as (l' & r' & -> & -> & ? & ?).
  exists (l' ++ mid' ++ r'). split; [by rewrite <-!app_assoc|]. by rewrite !Forall_app.
Qed.

Lemma fenced_pos l mid r :
  fenced (l ++ mid ++ r) → mid ≠ [] → Forall (λ b, 4 ≤ Z.abs b) mid → 2 ≤ total l.
Proof.
  intros Hf Hne Hm. destruct (fenced_mid _ _ _ Hf Hne Hm) as (l' & r' & -> & _).
  simpl. pose proof (total_nonneg l'). lia.
Qed.

(** A member of the free list in context. *)
Lemma rep_find h A x :
  rep h A → x ∈ flist A →
  ∃ l n r fl1 fl2, blocks A = l ++ n :: r ∧ 4 ≤ n ∧ x = total l ∧
    split_at 0 (blocks A) x = Some (l, n, r) ∧ array h x = n ∧
    flist A = fl1 ++ x :: fl2 ∧ without x (flist A) = fl1 ++ fl2.
Proof.
  intros [Hl Hall Hf] Hx. pose proof (lk_sizes _ _ _ Hl) as Hok.
  pose proof (lk_sub _ _ _ Hl _ Hx) as Hfr.
  apply frees_inv in Hfr as (l & n & r & E & Hn & ->). rewrite Z.add_0_l in *.
  apply list_elem_of_split in Hx as (fl1 & fl2 & Efl).
  rewrite E in Hok. apply Forall_app in Hok as [Hok1 [Hb _]%Forall_cons].
  exists l, n, r, fl1, fl2. split_and!; [done| |done| | |done|].
  - unfold ok_size in Hb. lia.
  - rewrite E. by apply (split_at_app 0).
  - rewrite E in Hl. by apply linked_valid in Hl as [? _].
  - rewrite Efl. apply without_app. rewrite <-Efl. apply Hl.
Qed.

Definition bsize (bs : list Z) (x : Z) : Z :=
  match split_at 0 bs x with Some (_, b, _) => b | None => 0 end.

Lemma rep_bsize h A x : rep h A → x ∈ flist A → bsize (blocks A) x = array h x.
Proof.
  intros Hr Hx. destruct (rep_find _ _ _ Hr Hx) as (l&n&r&fl1&fl2&_&_&_&E&Ea&_).
  unfold bsize. by rewrite E.
Qed.

Lemma length_frees p bs : (length (frees p bs) ≤ length bs)%nat.
Proof.
  revert p. induction bs as [|b bs IH]; intros p; simpl; [lia|].
  rewrite length_app. specialize (IH (p + Z.abs b)). case_decide; simpl; lia.
Qed.

Lemma length_total bs : Forall ok_size bs → Z.of_nat (length bs) ≤ total bs.
Proof. induction 1 as [|b bs Hb%ok_size_2]; simpl; lia. Qed.

(** The list is never longer than the array: enough fuel to traverse it. *)
Lemma linked_length h bs fl : linked h bs fl → (length fl ≤ Z.to_nat (len h))%nat.
Proof.
  intros [_ Htot _ Hok _ Hnd Hsub].
  pose proof (length_total _ Hok). pose proof (length_frees 0 bs).
  pose proof (submseteq_length _ _ (NoDup_submseteq _ _ Hnd Hsub)). lia.
Qed.

Lemma hole_avail h bs1 n bs2 fl :
  hole h bs1 n bs2 fl → avail h = 0 ∨ 0 < avail h ∧ avail h + 4 ≤ len h.
Proof.
  intros [? ? ? ? ? ? ? Hd _ Hsub]. pose proof (dll_head _ _ _ _ Hd) as E.
  destruct fl as [|x fl]; simpl in E; [by left|right].
  assert (x ≠ 0) by (eapply dll_nonzero; [exact Hd|set_solver]).
  pose proof (total_nonneg bs1). pose proof (total_nonneg bs2).
  destruct (Hsub x) as [Hf|Hf]; [set_solver|..];
    (apply frees_bound in Hf; [lia|done]).
Qed.

(** A heap whose middle blocks were replaced represents the abstract state
    with those blocks replaced. *)
Lemma rep_fill h A h' l mid mid' r fl' :
  rep h A → blocks A = l ++ mid ++ r → mid ≠ [] → total mid' = total mid →
  Forall (λ b, 4 ≤ Z.abs b) mid → Forall (λ b, 4 ≤ Z.abs b) mid' →
  linked h' (l ++ mid' ++ r) fl' →
  (∀ x, x ∈ flist A → x ∈ frees 0 l ∨ x ∈ frees (total l + total mid) r → x ∈ fl') →
  (∀ x, x ∈ frees (total l) mid' → x ∈ fl') →
  rep h' (mkA (l ++ mid' ++ r) fl').
Proof.
  intros [Hl Hall Hf] E Hne Htot Hm Hm' Hl' Hold Hnew. rewrite E in *.
  split; [done| |by eapply fenced_replace].
  intros x. simpl. rewrite !frees_app, !elem_of_app in *. simpl. rewrite Htot.
  rewrite Z.add_0_l in *.
  intros [?|[?|?]]; [|by apply Hnew|]; (apply Hold; [apply Hall; rewrite !elem_of_app|]; tauto).
Qed.

(** Everything [malloc] needs about a listed block once it is unlinked. *)
Lemma unlink_listed h A x :
  rep h A → x ∈ flist A →
  ∃ l n r fl1 fl2,
    (blocks A = l ++ [n] ++ r ∧ split_at 0 (blocks A) x = Some (l, n, r) ∧
     flist A = fl1 ++ x :: fl2 ∧ without x (flist A) = fl1 ++ fl2) ∧
    (4 ≤ n ∧ x = total l ∧ 2 ≤ x ∧ array h x = n ∧ x + n ≤ len h ∧ len h ≤ int_max) ∧
    hole (unlink x h) l n r (fl1 ++ fl2) ∧
    keeps (taken_word 0 (blocks A)) h (unlink x h) ∧
    (∀ j, taken_word 0 (blocks A) j → outside l n r j) ∧
    (∀ y, y ∈ flist A → y ∈ frees 0 l ∨ y ∈ frees (total l + total [n]) r →
          y ∈ fl1 ++ fl2).
Proof.
  intros Hr Hx.
  destruct (rep_find _ _ _ Hr Hx) as (l & n & r & fl1 & fl2 & Eb & Hn & Ex & Es & Ea & Efl & Ew).
  pose proof (rep_linked _ _ Hr) as Hl. pose proof (lk_len _ _ _ Hl) as Hlen.
  rewrite Efl in Hl. destruct (unlink_linked _ _ _ _ _ Hl) as [Hl1 Hk1].
  assert (Hnin : x ∉ fl1 ++ fl2).
  { pose proof (lk_nodup _ _ _ Hl) as (?&?&[]%NoDup_cons)%NoDup_app. set_solver. }
  assert (Hn1 : total [n] = n) by (simpl; lia).
  pose proof (total_nonneg l). pose proof (total_nonneg r).
  pose proof (lk_total _ _ _ Hl) as Ht. rewrite Eb, total_app in Ht. simpl in Ht.
  exists l, n, r, fl1, fl2. split_and!; try done.
  - subst x. apply (fenced_pos _ [n] r); [simpl; rewrite <-Eb; apply Hr|done|].
    constructor; [lia|done].
  - lia.
  - rewrite <-Hn1. apply linked_hole; [simpl; by rewrite <-Eb|].
    intros y Hy. simpl. rewrite decide_True by lia. set_solver.
  - intros j. rewrite Eb, taken_word_app. simpl. unfold outside.
    replace (Z.abs n) with n by lia. intros [|[[]|]]; [auto|lia|auto].
  - intros y Hy Hyf. rewrite Efl in Hy.
    assert (y ≠ x); [intros ->|set_solver].
    pose proof (lk_sizes _ _ _ Hl) as Hok. rewrite Eb in Hok.
    apply Forall_app in Hok as [Hok1 [_ Hok2]%Forall_cons].
    destruct Hyf as [Hf|Hf]; (apply frees_bound in Hf; [simpl in *; lia|done]).
Qed.

Lemma elem_of_without x y fl : y ∈ without x fl ↔ y ∈ fl ∧ y ≠ x.
Proof. unfold without. rewrite list_elem_of_filter. tauto. Qed.

(** A taken block that a client may give back, with its neighbours. *)
Lemma taken_neighbours h A l b r :
  rep h A → blocks A = l ++ b :: r → b ≤ -4 →
  ∃ l0 c d r0, l = l0 ++ [c] ∧ r = d :: r0 ∧ 2 ≤ Z.abs c ∧ 2 ≤ Z.abs d ∧
    (0 < c → 2 ≤ total l0 ∧ 4 ≤ c) ∧ (0 < d → 4 ≤ d) ∧ 2 ≤ total l.
Proof.
  intros [Hl _ Hf] E Hb. pose proof (lk_sizes _ _ _ Hl) as Hok. rewrite E in *.
  destruct (fenced_mid l [b] r Hf) as (l' & r' & El & Er & Hl' & Hr');
    [done|constructor; [lia|done]|].
  apply Forall_app in Hok as [Hok1 [_ Hok2]%Forall_cons].
  destruct l as [|c l0 _] using rev_ind; [done|].
  destruct r as [|d r0]; [by destruct r'|].
  apply Forall_app in Hok1 as [? [Hc _]%Forall_cons].
  apply Forall_cons in Hok2 as [Hd _].
  pose proof (total_nonneg l0). rewrite total_app. simpl.
  exists l0, c, d, r0. pose proof (ok_size_2 _ Hc). pose proof (ok_size_2 _ Hd).
  do 4 (split; [done|]). split; [|unfold ok_size in *; split; lia].
  intros Hpos. destruct l0 as [|e l0]; simpl in El; injection El as -> _; [lia|].
  simpl. pose proof (total_nonneg l0). unfold ok_size in *. lia.
Qed.

(** Giving back a block whose available neighbours were unlinked. *)
Lemma rep_release h A h2 l b r l1 ml mr r1 fl2 :
  rep h A → blocks A = l ++ b :: r → b ≤ -4 →
  l = l1 ++ ml → r = mr ++ r1 → 2 ≤ total l1 →
  Forall (λ c, 4 ≤ c) ml → Forall (λ c, 4 ≤ c) mr →
  linked h2 (blocks A) fl2 → keeps (taken_word 0 (blocks A)) h h2 →
  (∀ y, y ∈ fl2 → y ∉ frees (total l1) (ml ++ b :: mr)) →
  (∀ y, y ∈ flist A → y ∉ frees (total l1) (ml ++ b :: mr) → y ∈ fl2) →
  let m := total (ml ++ b :: mr) in
  let h3 := push (total l1) (tag (total l1) m m h2) in
  rep h3 (mkA (l1 ++ m :: r1) (total l1 :: fl2)) ∧ keeps (outside l (Z.abs b) r) h h3.
Proof.
  intros Hr E Hb -> -> Hpos Hml Hmr Hl2 Hk2 Hnot Hold m h3.
  pose proof (rep_linked _ _ Hr) as Hl. pose proof (lk_sizes _ _ _ Hl) as Hok.
  assert (E' : blocks A = l1 ++ (ml ++ b :: mr) ++ r1).
  { rewrite E. simplify_list_eq. done. }
  assert (Hmid : Forall (λ c, 4 ≤ Z.abs c) (ml ++ b :: mr)).
  { rewrite Forall_app, Forall_cons. split_and!; [|lia|];
      (eapply Forall_impl; [eassumption|]; simpl; lia). }
  assert (Hm : 4 ≤ m).
  { unfold m. rewrite total_app. simpl. pose proof (total_nonneg ml).
    pose proof (total_nonneg mr). lia. }
  pose proof Hl2 as Hh. rewrite E' in Hh. apply linked_hole in Hh; [|done]. fold m in Hh.
  destruct (hole_push _ _ _ _ _ [] m (total l1) Hh) as [Hl3 Hk3];
    [done|done|simpl; lia|done|simpl; lia|lia|].
  split.
  - apply (rep_fill h A _ l1 (ml ++ b :: mr) [m] r1); try done.
    + by destruct ml.
    + unfold m. simpl. pose proof (total_nonneg (ml ++ b :: mr)). lia.
    + constructor; [lia|done].
    + intros y Hy Hyf. right. apply Hold; [done|]. intros Hym.
      rewrite E' in Hok. rewrite !Forall_app in Hok. destruct Hok as (?&?&?).
      apply frees_bound in Hym; [|by apply Forall_app].
      destruct Hyf as [Hf|Hf]; (apply frees_bound in Hf; [lia|done]).
    + intros y. simpl. rewrite decide_True by lia. set_solver.
  - eapply keeps_trans; [eapply keeps_weaken; [|exact Hk2]|eapply keeps_weaken; [|exact Hk3]].
    + intros j. unfold outside. rewrite E, (taken_word_app 0 (l1 ++ ml)). simpl. tauto.
    + intros j. unfold outside, m. rewrite !taken_word_app, !total_app. simpl.
      assert (Hfree : ∀ p bs, Forall (λ c, 4 ≤ c) bs → ¬ taken_word p bs j).
      { intros p bs Hbs. revert p. induction Hbs as [|c bs Hc _ IH]; intros p; simpl; [tauto|].
        intros [[]|?]; [lia|by eapply IH]. }
      intros [[?|Ht]|[Ht|?]]; [auto|by apply Hfree in Ht..|right].
      by replace (total l1 + (total ml + (Z.abs b + total mr)))
        with (total l1 + total ml + Z.abs b + total mr) by lia.
Qed.

(** ** Block sizes by address *)

Fixpoint bsize_at (p : Z) (bs : list Z) (x : Z) : Z :=
  match bs with
  | [] => 0
  | b :: bs' => if decide (p = x) then b else bsize_at (p + Z.abs b) bs' x
  end.

Lemma bsize_eq bs x : bsize bs x = bsize_at 0 bs x.
Proof.
  enough (∀ p, match split_at p bs x with Some (_, b, _) => b | None => 0 end
               = bsize_at p bs x) as Hp by apply Hp.
  induction bs as [|b bs IH]; intros p; simpl; [done|].
  goal_decide; [done|]. specialize (IH (p + Z.abs b)).
  destruct (split_at (p + Z.abs b) bs x) as [[[??]?]|]; exact IH.
Qed.

Lemma bsize_at_out p bs x :
  Forall ok_size bs → x < p ∨ p + total bs ≤ x → bsize_at p bs x = 0.
Proof.
  intros Hok. revert p. induction Hok as [|b bs Hb%ok_size_2 Hok IH]; intros p; simpl; [done|].
  pose proof (total_nonneg bs). intros Hx. rewrite decide_False by lia. apply IH. lia.
Qed.

Lemma bsize_at_app p bs1 bs2 x :
  Forall ok_size (bs1 ++ bs2) →
  bsize_at p (bs1 ++ bs2) x = bsize_at p bs1 x + bsize_at (p + total bs1) bs2 x.
Proof.
  revert p. induction bs1 as [|b bs1 IH]; intros p; simpl.
  - by rewrite Z.add_0_r.
  - intros [Hb%ok_size_2 [Hok1 Hok2]%Forall_app]%Forall_cons.
    pose proof (total_nonneg bs1). goal_decide.
    + rewrite (bsize_at_out _ bs2) by (done || lia). lia.
    + rewrite IH by by apply Forall_app. by rewrite Z.add_assoc.
Qed.

(** The signed size of a header strictly outside a replaced run. *)
Lemma bsize_replace l mid mid' r x :
  Forall ok_size (l ++ mid ++ r) → Forall ok_size mid' → total mid' = total mid →
  bsize (l ++ mid' ++ r) x =
    bsize (l ++ mid ++ r) x - bsize_at (total l) mid x + bsize_at (total l) mid' x.
Proof.
  intros Hok Hm' Et. pose proof Hok as Hok0. rewrite !Forall_app in Hok0.
  rewrite !bsize_eq, !bsize_at_app by (rewrite ?Forall_app; tauto).
  rewrite Et, !Z.add_0_l. lia.
Qed.

(** A taken header that is not one of the run's lies outside the run. *)
Lemma bsize_outside l mid r y :
  Forall ok_size (l ++ mid ++ r) → bsize (l ++ mid ++ r) y < 0 →
  ¬ bsize_at (total l) mid y < 0 → y < total l ∨ total l + total mid ≤ y.
Proof.
  intros Hok Hy Hm. destruct (decide (total l ≤ y < total l + total mid)); [|lia].
  pose proof Hok as Hok0. rewrite !Forall_app in Hok0. destruct Hok0 as (?&?&?).
  rewrite bsize_eq, !bsize_at_app, Z.add_0_l in Hy by (rewrite ?Forall_app; tauto).
  rewrite (bsize_at_out _ l), (bsize_at_out _ r) in Hy by (done || lia). lia.
Qed.

Lemma bsize_replace_taken l mid mid' r y :
  Forall ok_size (l ++ mid ++ r) → Forall ok_size mid' → total mid' = total mid →
  bsize (l ++ mid ++ r) y < 0 → ¬ bsize_at (total l) mid y < 0 →
  bsize (l ++ mid' ++ r) y = bsize (l ++ mid ++ r) y.
Proof.
  intros Hok Hm' Et Hy Hm. pose proof (bsize_outside _ _ _ _ Hok Hy Hm).
  rewrite (bsize_replace _ mid) by done. rewrite !Forall_app in Hok.
  rewrite !bsize_at_out; [lia|tauto|lia|tauto|lia].
Qed.

Lemma coalesced_app l r :
  coalesced (l ++ r) ↔ coalesced l ∧ coalesced r ∧
    ∀ c d, last l = Some c → head r = Some d → ¬ (0 < c ∧ 0 < d).
Proof.
  induction l as [|b l IH]; [simpl; naive_solver|].
  destruct l as [|c l].
  - simpl. destruct r as [|d r]; simpl; naive_solver.
  - rewrite <-!app_comm_cons in *. cbn [coalesced].
    change (last (b :: c :: l)) with (last (c :: l)). naive_solver.
Qed.

(** Distinct blocks do not overlap. *)
Lemma bsize_at_disjoint p bs x y :
  Forall ok_size bs → bsize_at p bs x ≠ 0 → bsize_at p bs y ≠ 0 → x < y →
  x + Z.abs (bsize_at p bs x) ≤ y.
Proof.
  intros Hok. revert p. induction Hok as [|b bs Hb%ok_size_2 Hok IH]; intros p; simpl; [done|].
  destruct (decide (p = x)), (decide (p = y)); intros Hx Hy Hlt.
  - lia.
  - destruct (decide (y < p + Z.abs b)); [|lia].
    by rewrite bsize_at_out in Hy by (done || lia).
  - subst y. by rewrite bsize_at_out in Hx by (done || lia).
  - by apply IH.
Qed.

Lemma bsize_at_bounds p bs x :
  Forall ok_size bs → bsize_at p bs x ≠ 0 →
  p ≤ x ∧ x + Z.abs (bsize_at p bs x) ≤ p + total bs.
Proof.
  intros Hok. revert p. induction Hok as [|b bs Hb%ok_size_2 Hok IH]; intros p; simpl; [done|].
  pose proof (total_nonneg bs). destruct (decide (p = x)); [lia|].
  intros ?%IH. lia.
Qed.

Lemma bsize_split bs x :
  bsize bs x ≠ 0 → ∃ l r, bs = l ++ bsize bs x :: r ∧ x = total l.
Proof.
  unfold bsize. destruct (split_at 0 bs x) as [[[l b] r]|] eqn:E; [|done].
  intros _. apply split_at_spec in E as [-> ->]. by exists l, r.
Qed.
