(* ===== verification/Heap.v ===== *)
(** * The kernel heap (kernel/heap.cc)

    [heapInit], [malloc], [free] and their helpers over the store of
    [HeapInv], with every [int] operation checked for overflow and every
    array access checked for range.  The lock [theLock] makes each of
    [malloc] and [free] one atomic operation on this state (its own
    behaviour is in the semaphore component). *)

From S2P Require Import Prelude.
From S2P Require Import HeapInv.

Section heap.
(** The address in [static int *array]. *)
Variable base : Z.

Definition abs (x : Z) : M heap Z :=
  if decide (x < 0) then chk (- x) else mret x.

Definition size (i : Z) : M heap Z := v ← rd i; abs v.

Definition headerFromFooter (i : Z) : M heap Z :=
  n ← size i; t ← chk (i - n); chk (t + 1).

Definition footerFromHeader (i : Z) : M heap Z :=
  n ← size i; t ← chk (i + n); chk (t - 1).

Definition sanity (i : Z) : M heap Z :=
  sf ← gets safe;
  if decide (sf ≠ 0) then
    if decide (i = 0) then mret 0 else
    l ← gets len;
    if decide (i < 0 ∨ i >= l) then panic else
    footer ← footerFromHeader i;
    if decide (footer < 0 ∨ footer >= l) then panic else
    hv ← rd i;
    fv ← rd footer;
    if decide (hv ≠ fv) then panic else mret i
  else mret i.

Definition left (i : Z) : M heap Z :=
  j ← chk (i - 1); k ← headerFromFooter j; sanity k.

Definition right (i : Z) : M heap Z :=
  n ← size i; k ← chk (i + n); sanity k.

Definition next (i : Z) : M heap Z :=
  j ← chk (i + 1); k ← rd j; sanity k.

Definition prev (i : Z) : M heap Z :=
  j ← chk (i + 2); k ← rd j; sanity k.

Definition setNext (i x : Z) : M heap () := j ← chk (i + 1); wr j x.

Definition setPrev (i x : Z) : M heap () := j ← chk (i + 2); wr j x.

Definition remove (i : Z) : M heap () :=
  prevIndex ← prev i;
  nextIndex ← next i;
  (if decide (prevIndex = 0)
   then modify (set_avail nextIndex)
   else setNext prevIndex nextIndex);;
  (if decide (nextIndex ≠ 0)
   then setPrev nextIndex prevIndex
   else mret ()).

Definition makeAvail (i ints : Z) : M heap () :=
  wr i ints;;
  f ← footerFromHeader i;
  wr f ints;;
  av ← gets avail;
  setNext i av;;
  setPrev i 0;;
  (av ← gets avail; if decide (av ≠ 0) then setPrev av i else mret ());;
  modify (set_avail i).

Definition makeTaken (i ints : Z) : M heap () :=
  neg ← chk (- ints);
  wr i neg;;
  f ← footerFromHeader i;
  neg ← chk (- ints);
  wr f neg.

Definition isAvail (i : Z) : M heap bool :=
  v ← rd i; mret (bool_decide (0 < v)).

Definition isTaken (i : Z) : M heap bool :=
  v ← rd i; mret (bool_decide (v < 0)).

(** [(bytes + 3) / 4 + 2], a [size_t] computation stored in an [int]. *)
Definition ints_of (bytes : Z) : Z :=
  let ints := i32 (u32 (u32 (bytes + 3) / 4 + 2)) in
  if decide (ints < 4) then 4 else ints.

(** The body of the search loop of [malloc]; the loop state is
    [(countDown, p, mx, it)], and leaving yields [(mx, it)]. *)
Definition search_body (ints : Z) (st : Z * Z * Z * Z) :
    M heap ((Z * Z * Z * Z) + (Z * Z)) :=
  let '(countDown, p, mx, it) := st in
  if decide (p ≠ 0) then
    av ← isAvail p;
    if negb av then panic else
    sz ← size p;
    if decide (sz >= ints) then
      let '(mx, it) := if decide (sz < mx) then (sz, p) else (mx, it) in
      countDown ← chk (countDown - 1);
      if decide (countDown = 0) then mret (inr (mx, it)) else
      p ← next p;
      mret (inl (countDown, p, mx, it))
    else
      p ← next p;
      mret (inl (countDown, p, mx, it))
  else mret (inr (mx, it)).

(** [&array[i]] as an address. *)
Definition addr_of (i : Z) : Z := u32 (base + 4 * i).

Definition malloc (bytes : Z) : M heap Z :=
  if decide (bytes = 0) then mret base else
  let ints := ints_of bytes in
  p ← gets avail;
  l ← gets len;
  r ← iter (Datatypes.S (Z.to_nat l)) (search_body ints) (20, p, int_max, 0);
  let '(mx, it) := r in
  if decide (it ≠ 0) then
    remove it;;
    extra ← chk (mx - ints);
    (if decide (extra >= 4) then
       makeTaken it ints;;
       rest ← chk (it + ints);
       makeAvail rest extra
     else makeTaken it mx);;
    j ← chk (it + 1);
    mret (addr_of j)
  else mret 0.

Definition free (p : Z) : M heap () :=
  if decide (p = 0) then mret () else
  if decide (p = base) then mret () else
  let idx := i32 (u32 (u32 (p - base) / 4 - 1)) in
  _ ← sanity idx;
  tk ← isTaken idx;
  if negb tk then panic else
  sz ← size idx;
  leftIndex ← left idx;
  rightIndex ← right idx;
  la ← isAvail leftIndex;
  r ← (if (la : bool) then
         remove leftIndex;;
         n ← size leftIndex;
         sz ← chk (sz + n);
         mret (leftIndex, sz)
       else mret (idx, sz));
  let '(idx, sz) := r in
  ra ← isAvail rightIndex;
  sz ← (if (ra : bool) then
          remove rightIndex;;
          n ← size rightIndex;
          chk (sz + n)
        else mret sz);
  makeAvail idx sz.

(** [operator new]: a null result stops the kernel. *)
Definition operator_new (bytes : Z) : M heap Z :=
  p ← malloc bytes;
  if decide (p = 0) then panic else mret p.

Definition operator_delete (p : Z) : M heap () := free p.
End heap.

(** The statics before [heapInit]: [safe] and [avail] start at 0, the
    memory behind the array holds whatever it held. *)
Definition boot (memory : Z → Z) : heap := mkHeap memory 0 0 0.

(** [heapInit(base, bytes)].  The last step is [theLock = new
    BlockingLock()], an allocation of [lock_bytes] bytes. *)
Definition heapInit (base bytes lock_bytes : Z) : M heap Z :=
  l ← chk (bytes / 4);
  modify (λ h, mkHeap (array h) l (safe h) (avail h));;
  makeTaken 0 2;;
  n ← chk (l - 4);
  makeAvail 2 n;;
  m ← chk (l - 2);
  makeTaken m 2;;
  operator_new base lock_bytes.

Example heapInit_small :
  match heapInit 4096 128 32 (boot (λ _, 99)) with
  | Ok p h => (p, array h 2, array h 11, array h 12, avail h, map (array h) [0;1;30;31])
  | _ => (0,0,0,0,0,[])
  end = (4108, -10, -10, 18, 12, [-2;-2;-2;-2]).
Proof. vm_compute. reflexivity. Qed.

(** ** Execution rules of the helpers *)

Ltac heap_step :=
  first
    [ wp_step
    | lazymatch goal with
      | |- wp (chk _) _ _ => apply wp_chk; [cbn [len avail array safe set_array set_avail]; unfold int_min, int_max in *; lia|]
      | |- wp (rd _) _ _ => apply wp_rd; [simpl; lia|]
      | |- wp (wr _ _) _ _ => apply wp_wr; [simpl; lia|]
      end ].
Ltac heap_steps := repeat heap_step.

Section rules.
Implicit Types (h : heap) (bs fl : list Z).

Lemma wp_size i (Q : Z → heap → Prop) h :
  0 ≤ i < len h → Z.abs (array h i) ≤ int_max → Q (Z.abs (array h i)) h →
  wp (size i) Q h.
Proof.
  intros Hi Hv HQ. unfold size, abs. heap_steps.
  - by replace (- array h i) with (Z.abs (array h i)) by lia.
  - by replace (array h i) with (Z.abs (array h i)) by lia.
Qed.

Lemma wp_footerFromHeader i (Q : Z → heap → Prop) h :
  0 ≤ i < len h → Z.abs (array h i) ≤ int_max →
  i + Z.abs (array h i) ≤ int_max →
  Q (i + Z.abs (array h i) - 1) h → wp (footerFromHeader i) Q h.
Proof.
  intros Hi Hv Hs HQ. unfold footerFromHeader. apply wp_bind, wp_size; [done..|].
  heap_steps. done.
Qed.

Lemma wp_sanity i (Q : Z → heap → Prop) h :
  len h ≤ int_max → i = 0 ∨ valid_block h i → Q i h → wp (sanity i) Q h.
Proof.
  intros Hlen Hv HQ. unfold sanity. do 2 heap_step. heap_step; [|by apply wp_ret].
  heap_step; [by subst; apply wp_ret|].
  destruct Hv as [|(H1 & H2 & H3 & H4)]; [done|].
  do 2 heap_step. heap_step; [lia|].
  apply wp_bind, wp_footerFromHeader; [lia..|].
  heap_step; [lia|]. heap_steps; [congruence|done].
Qed.

Lemma wp_next i (Q : Z → heap → Prop) h :
  len h ≤ int_max → 0 ≤ i + 1 < len h →
  array h (i + 1) = 0 ∨ valid_block h (array h (i + 1)) →
  Q (array h (i + 1)) h → wp (next i) Q h.
Proof. intros. unfold next. heap_steps. by apply wp_sanity. Qed.

Lemma wp_prev i (Q : Z → heap → Prop) h :
  len h ≤ int_max → 0 ≤ i + 2 < len h →
  array h (i + 2) = 0 ∨ valid_block h (array h (i + 2)) →
  Q (array h (i + 2)) h → wp (prev i) Q h.
Proof. intros. unfold prev. heap_steps. by apply wp_sanity. Qed.

Lemma linked_sizes h bs fl x :
  linked h bs fl → valid_block h x → 0 ≤ x < len h ∧ Z.abs (array h x) ≤ int_max ∧
  x + Z.abs (array h x) ≤ len h ∧ len h ≤ int_max.
Proof. intros Hl (?&?&?&?). pose proof (lk_len _ _ _ Hl). lia. Qed.

(** [remove] is the list operation [unlink]. *)
Lemma wp_remove h bs fl1 x fl2 (Q : () → heap → Prop) :
  linked h bs (fl1 ++ x :: fl2) → Q () (unlink x h) → wp (remove x) Q h.
Proof.
  intros Hl HQ. pose proof (lk_len _ _ _ Hl) as Hlen.
  destruct (linked_neighbours _ _ _ _ _ Hl) as [Hp Hn].
  destruct (linked_member _ _ _ x Hl) as (? & ? & _); [set_solver|].
  assert (Hm : ∀ y, y ∈ fl1 ∨ y ∈ fl2 → valid_block h y ∧ 0 < y ∧ y + 4 ≤ len h).
  { intros y Hy. assert (y ∈ fl1 ++ x :: fl2) by set_solver.
    pose proof (linked_member _ _ _ _ Hl H1).
    split; [by eapply linked_member_valid|lia]. }
  assert (Hp' : array h (x + 2) = 0 ∨ valid_block h (array h (x + 2)) ∧
      0 < array h (x + 2) ∧ array h (x + 2) + 4 ≤ len h)
    by (destruct Hp as [[]|[]]; auto).
  assert (Hn' : array h (x + 1) = 0 ∨ valid_block h (array h (x + 1)) ∧
      0 < array h (x + 1) ∧ array h (x + 1) + 4 ≤ len h)
    by (destruct Hn; auto).
  unfold remove. apply wp_bind, wp_prev; [done|lia|tauto|].
  apply wp_bind, wp_next; [done|lia|tauto|].
  unfold setNext, setPrev, unlink, unlink_array, relink in *. apply wp_bind.
  destruct (decide (array h (x + 2) = 0)) as [E|E].
  - rewrite bool_decide_true in HQ by done. heap_step.
    unfold set_avail. goal_decide; heap_steps; rewrite ?decide_True in HQ by done;
      by rewrite ?decide_False in HQ by done.
  - rewrite bool_decide_false in HQ by done. destruct Hp' as [|(_&?&?)]; [done|].
    heap_step. heap_step. heap_step.
    destruct (decide (array h (x + 1) ≠ 0)); [|by apply wp_ret].
    destruct Hn' as [|(_&?&?)]; [done|]. heap_steps. done.
Qed.

Lemma wp_makeTaken i n h (Q : () → heap → Prop) :
  0 ≤ i → 1 ≤ n → i + n ≤ len h → len h ≤ int_max →
  Q () (set_array (λ a, upd (upd a i (- n)) (i + n - 1) (- n)) h) →
  wp (makeTaken i n) Q h.
Proof.
  intros ? ? ? ? HQ. unfold makeTaken. heap_step. heap_step. heap_step. heap_step.
  heap_step. apply wp_footerFromHeader; simpl; rewrite ?upd_eq; [lia..|].
  replace (Z.abs (- n)) with n by lia. heap_steps. done.
Qed.

(** Tags written by [makeAvail] followed by its list insertion. *)
Lemma wp_makeAvail i n h (Q : () → heap → Prop) :
  0 < i → 4 ≤ n → i + n ≤ len h → len h ≤ int_max →
  avail h = 0 ∨ 0 < avail h ∧ avail h + 4 ≤ len h →
  Q () (push i (set_array (λ a, upd (upd a i n) (i + n - 1) n) h)) →
  wp (makeAvail i n) Q h.
Proof.
  intros ? ? ? ? Hav HQ. unfold makeAvail. heap_step. heap_step. heap_step.
  apply wp_footerFromHeader; simpl; rewrite ?upd_eq; [lia..|].
  replace (Z.abs n) with n by lia.
  unfold setNext, setPrev, push, relink in *. simpl in *.
  do 11 heap_step. simpl.
  destruct (decide (avail h ≠ 0)); [destruct Hav as [|[]]; [done|]|];
    heap_steps; first [exact HQ|contradiction].
Qed.
End rules.

(** ** The abstract allocator the kernel heap implements *)

(** The search of [malloc] over the sizes of the listed blocks. *)
Fixpoint best_fit (sz : Z → Z) (ints cd mx it : Z) (fl : list Z) : Z * Z :=
  match fl with
  | [] => (mx, it)
  | x :: fl' =>
      if decide (ints ≤ sz x) then
        let '(mx, it) := if decide (sz x < mx) then (sz x, x) else (mx, it) in
        if decide (cd - 1 = 0) then (mx, it) else best_fit sz ints (cd - 1) mx it fl'
      else best_fit sz ints cd mx it fl'
  end.

Definition a_malloc (ints : Z) (A : astate) : Z * astate :=
  let '(_, it) := best_fit (bsize (blocks A)) ints 20 int_max 0 (flist A) in
  if decide (it ≠ 0) then (it, carve it ints A) else (0, A).

Lemma best_fit_ext sz sz' ints cd mx it fl :
  (∀ x, x ∈ fl → sz x = sz' x) →
  best_fit sz ints cd mx it fl = best_fit sz' ints cd mx it fl.
Proof.
  revert cd mx it. induction fl as [|x fl IH]; intros cd mx it Heq; simpl; [done|].
  assert (∀ cd mx it, best_fit sz ints cd mx it fl = best_fit sz' ints cd mx it fl)
    as IH' by (intros; apply IH; set_solver).
  rewrite (Heq x) by set_solver. repeat goal_decide; auto.
Qed.

(** The candidates: the first [cd] listed blocks that are large enough. *)
Definition candidates (sz : Z → Z) (ints : Z) (cd : nat) (fl : list Z) : list Z :=
  take cd (filter (λ x, ints ≤ sz x) fl).

Lemma best_fit_spec sz ints cd mx it fl mx' it' :
  best_fit sz ints (Z.of_nat (Datatypes.S cd)) mx it fl = (mx', it') →
  (mx' = mx ∧ it' = it ∨ it' ∈ fl ∧ mx' = sz it' ∧ ints ≤ mx' < mx) ∧
  ∀ x, x ∈ candidates sz ints (Datatypes.S cd) fl → mx' ≤ sz x.
Proof.
  unfold candidates. revert cd mx it.
  induction fl as [|x fl IH]; intros cd mx it; simpl best_fit.
  { intros [= <- <-]. split; [by left|]. intros y. rewrite filter_nil. set_solver. }
  destruct (decide (ints ≤ sz x)) as [Hx|Hx].
  2: { rewrite filter_cons_False by done. intros [Hc Hm]%IH. split; [|done].
       destruct Hc as [|[]]; [by left|right]. set_solver. }
  rewrite filter_cons_True by done.
  assert (Hcd : Z.of_nat (Datatypes.S cd) - 1 = Z.of_nat cd) by lia. rewrite Hcd.
  intros Hb.
  assert (∃ mx1 it1, (if decide (sz x < mx) then (sz x, x) else (mx, it)) = (mx1, it1)
    ∧ mx1 ≤ sz x ∧ (mx1 = mx ∧ it1 = it ∨ it1 = x ∧ mx1 = sz x ∧ ints ≤ mx1 < mx))
    as (mx1 & it1 & E & Hle & Hc1).
  { destruct (decide (sz x < mx)); do 2 eexists; (split; [done|]);
      (split; [lia|]); [right|left]; repeat split; lia. }
  rewrite E in Hb. destruct (decide (Z.of_nat cd = 0)) as [E0|E0].
  - injection Hb as <- <-. replace cd with O by lia. simpl. split.
    + destruct Hc1 as [|(->&->&?)]; [by left|right]. set_solver.
    + intros y. rewrite take_0. set_solver.
  - destruct cd as [|cd]; [lia|]. destruct (IH _ _ _ Hb) as [Hc2 Hm]. split.
    + destruct Hc2 as [[-> ->]|(?&->&?)]; [|right; set_solver by lia].
      destruct Hc1 as [|(->&->&?)]; [by left|right]. set_solver.
    + intros y Hy. simpl in Hy. apply elem_of_cons in Hy as [->|Hy]; [|by apply Hm].
      destruct Hc2 as [[-> _]|(_&_&?)]; lia.
Qed.

(** The smallest of a list, and the first of these. *)
Definition first_smallest (sz : Z → Z) (it : Z) (l : list Z) : Prop :=
  ∃ l1 l2, l = l1 ++ it :: l2 ∧ Forall (λ x, sz it < sz x) l1 ∧ Forall (λ x, sz it ≤ sz x) l2.

Lemma best_fit_first sz ints cd mx it fl mx' it' :
  best_fit sz ints (Z.of_nat (Datatypes.S cd)) mx it fl = (mx', it') →
  let cs := candidates sz ints (Datatypes.S cd) fl in
  mx' = mx ∧ it' = it ∧ Forall (λ x, mx ≤ sz x) cs ∨ mx' = sz it' ∧ mx' < mx ∧ first_smallest sz it' cs.
Proof.
  unfold candidates. cbv zeta. revert cd mx it.
  induction fl as [|x fl IH]; intros cd mx it; simpl best_fit.
  { intros [= <- <-]. left. rewrite filter_nil. split_and!; [done|done|by rewrite take_nil]. }
  destruct (decide (ints ≤ sz x)) as [Hx|Hx]; [rewrite filter_cons_True by done|rewrite filter_cons_False by done; apply IH].
  assert (Hcd : Z.of_nat (Datatypes.S cd) - 1 = Z.of_nat cd) by lia. rewrite Hcd. cbn [take].
  assert (Hrest : ∀ mx1 it1, (if decide (Z.of_nat cd = 0) then (mx1, it1) else best_fit sz ints (Z.of_nat cd) mx1 it1 fl) = (mx', it') →
    mx' = mx1 ∧ it' = it1 ∧ Forall (λ x, mx1 ≤ sz x) (take cd (filter (λ x, ints ≤ sz x) fl)) ∨
    mx' = sz it' ∧ mx' < mx1 ∧ first_smallest sz it' (take cd (filter (λ x, ints ≤ sz x) fl))).
  { intros mx1 it1. destruct cd as [|cd]; [intros [= <- <-]; left; by rewrite take_0|]. rewrite decide_False by lia. apply IH. }
  destruct (decide (sz x < mx)) as [Hlt|Hge]; intros [(-> & -> & Hall)|(-> & Hl & l1 & l2 & -> & H1 & H2)]%Hrest.
  - right. split_and!; [done|done|]. exists [], (take cd (filter (λ x, ints ≤ sz x) fl)). by split_and!.
  - right. split_and!; [done|lia|]. exists (x :: l1), l2. split_and!; [done|by constructor|done].
  - left. split_and!; [done|done|]. constructor; [lia|done].
  - right. split_and!; [done|lia|]. exists (x :: l1), l2. split_and!; [done|constructor; [lia|done]|done].
Qed.

(** ** Refinement *)

Section refinement.
Variable base : Z.
Implicit Types (h : heap) (A : astate).

Lemma wp_search_body h A ints cd p mx it fl1 fl2 (Q : _ → heap → Prop) :
  rep h A → flist A = fl1 ++ p :: fl2 → 1 ≤ cd ≤ 20 →
  (let '(mx1, it1) := if decide (array h p < mx) then (array h p, p) else (mx, it) in
   Q (if decide (ints ≤ array h p)
      then if decide (cd - 1 = 0) then inr (mx1, it1)
           else inl (cd - 1, array h (p + 1), mx1, it1)
      else inl (cd, array h (p + 1), mx, it)) h) →
  wp (search_body ints (cd, p, mx, it)) Q h.
Proof.
  intros Hr Efl Hcd HQ. pose proof (rep_linked _ _ Hr) as Hl.
  assert (Hin : p ∈ flist A) by (rewrite Efl; set_solver).
  destruct (linked_member _ _ _ _ Hl Hin) as (?&?&?).
  pose proof (linked_member_valid _ _ _ _ Hl Hin) as Hv.
  destruct (linked_sizes _ _ _ _ Hl Hv) as (?&?&?&?).
  rewrite Efl in Hl. destruct (linked_neighbours _ _ _ _ _ Hl) as [_ Hn].
  assert (Hn' : array h (p + 1) = 0 ∨ valid_block h (array h (p + 1))).
  { destruct Hn; [by left|right]. eapply linked_member_valid; [done|]. set_solver. }
  unfold search_body. rewrite decide_True by lia. unfold isAvail. heap_steps.
  rewrite bool_decide_true by done. simpl. apply wp_bind, wp_size; [done..|].
  replace (Z.abs (array h p)) with (array h p) in * by lia.
  destruct (decide (array h p >= ints)).
  - destruct (if decide (array h p < mx) then _ else _) as [mx1 it1].
    rewrite (decide_True (P := ints ≤ array h p)) in HQ by lia.
    heap_steps; [done|]. apply wp_next; [lia..|done|]. by apply wp_ret.
  - destruct (if decide (array h p < mx) then _ else _) as [mx1 it1].
    rewrite (decide_False (P := ints ≤ array h p)) in HQ by lia.
    apply wp_bind, wp_next; [lia..|done|]. by apply wp_ret.
Qed.

Lemma wp_search h A ints fl2 : ∀ fuel fl1 prv cd p mx it (Q : Z * Z → heap → Prop),
  rep h A → flist A = fl1 ++ fl2 → dll (array h) prv p fl2 →
  (length fl2 < fuel)%nat → 1 ≤ cd ≤ 20 →
  Q (best_fit (array h) ints cd mx it fl2) h →
  wp (iter fuel (search_body ints) (cd, p, mx, it)) Q h.
Proof.
  induction fl2 as [|x fl2 IH];
    intros [|fuel] fl1 prv cd p mx it Q Hr Efl Hd Hfuel Hcd HQ; simpl in Hfuel; try lia;
    cbn [iter]; apply wp_bind.
  - simpl in Hd. subst p. cbn. by repeat wp_step.
  - destruct Hd as (-> & Hx & _ & Hd). eapply wp_search_body; [done..|].
    assert (Efl' : flist A = (fl1 ++ [x]) ++ fl2) by by rewrite <-app_assoc.
    simpl in HQ.
    destruct (if decide (array h x < mx) then _ else _) as [mx1 it1].
    repeat goal_decide; [by apply wp_ret|eapply IH..]; try done; lia.
Qed.

(** Taking [ints] words from a listed block, as [malloc] does once the
    search has chosen it. *)
Definition take_block (it mx ints : Z) : M heap Z :=
  remove it;;
  extra ← chk (mx - ints);
  (if decide (extra >= 4) then
     makeTaken it ints;;
     rest ← chk (it + ints);
     makeAvail rest extra
   else makeTaken it mx);;
  j ← chk (it + 1);
  mret (addr_of base j).

Lemma wp_take_block h A x ints :
  rep h A → x ∈ flist A → 4 ≤ ints ≤ array h x →
  wp (take_block x (array h x) ints)
     (λ p h', p = addr_of base (x + 1) ∧ rep h' (carve x ints A) ∧
              keeps (taken_word 0 (blocks A)) h h') h.
Proof.
  intros Hr Hx Hi.
  destruct (unlink_listed _ _ _ Hr Hx) as (l & n & r & fl1 & fl2 & (Eb & Es & Efl & Ew)
    & (Hn & Ex & Hx2 & Ea & Hxn & Hlen) & Hh1 & Hk1 & Hout & Hold).
  pose proof (rep_linked _ _ Hr) as Hl. rewrite Efl in Hl.
  unfold take_block. apply wp_bind. eapply wp_remove; [exact Hl|].
  unfold carve. rewrite Es, Ea, Ew in *.
  heap_step. heap_step. apply wp_bind. destruct (decide (4 ≤ n - ints)).
  - rewrite decide_True by lia. apply wp_bind, wp_makeTaken; simpl; [lia..|].
    destruct (hole_tag _ _ _ _ _ x ints (- ints) Hh1) as [Hh2 Hk2]; [lia..|].
    heap_step. heap_step. apply wp_makeAvail; [simpl; lia..|by eapply hole_avail|].
    destruct (hole_push _ _ _ _ _ [- ints] (n - ints) (x + ints) Hh2) as [Hl3 Hk3].
    { simpl. subst x. upd_simp. by upd_simp. }
    { constructor; [left; lia|done]. }
    1-4: simpl; lia.
    heap_step. heap_step. heap_step. split_and!; [done| |].
    + apply (rep_fill h A _ l [n] [- ints; n - ints] r); try done; simpl; [lia|..].
      * constructor; [lia|done].
      * constructor; [lia|constructor; [lia|done]].
      * intros y Hy Hyf. right. by apply Hold.
      * intros y. rewrite decide_False by lia. rewrite decide_True by lia.
        replace (total l + Z.abs (- ints)) with (x + ints) by lia. set_solver.
    + eapply keeps_trans; [exact Hk1|eapply keeps_weaken; [exact Hout|]].
      by eapply keeps_trans.
  - rewrite decide_False by lia. apply wp_makeTaken; simpl; [lia..|].
    destruct (hole_tag _ _ _ _ _ x n (- n) Hh1) as [Hh2 Hk2]; [lia..|].
    heap_step. heap_step. heap_step. split_and!; [done| |].
    + apply (rep_fill h A _ l [n] [- n] r); try done; simpl; [lia|..].
      * constructor; [lia|done].
      * constructor; [lia|done].
      * eapply (hole_linked _ _ _ [- n]); [exact Hh2|simpl; lia| |].
        { constructor; [left; lia|done]. }
        simpl. subst x. upd_simp. by upd_simp.
      * intros y. rewrite decide_False by lia. set_solver.
    + eapply keeps_trans; [exact Hk1|by eapply keeps_weaken; [exact Hout|]].
Qed.

Lemma ints_of_bound bytes : 4 ≤ ints_of bytes.
Proof. unfold ints_of. goal_decide; lia. Qed.

Lemma wp_malloc h A bytes :
  rep h A → bytes ≠ 0 →
  wp (malloc base bytes)
     (λ p h', let '(it, A') := a_malloc (ints_of bytes) A in
              p = (if decide (it = 0) then 0 else addr_of base (it + 1)) ∧
              rep h' A' ∧ keeps (taken_word 0 (blocks A)) h h') h.
Proof.
  intros Hr Hb. unfold malloc. rewrite decide_False by done.
  pose proof (rep_linked _ _ Hr) as Hl. pose proof (linked_length _ _ _ Hl).
  heap_steps. eapply (wp_search h A _ (flist A) _ []); [done..|apply Hl|lia|lia|].
  assert (Ee : best_fit (array h) (ints_of bytes) 20 int_max 0 (flist A) =
               best_fit (bsize (blocks A)) (ints_of bytes) 20 int_max 0 (flist A)).
  { apply best_fit_ext. intros x Hx. by rewrite (rep_bsize h A). }
  unfold a_malloc. rewrite <-Ee.
  destruct (best_fit (array h) _ 20 _ _ _) as [mx it] eqn:Ebf.
  apply (best_fit_spec _ _ 19) in Ebf as [[[-> ->]|(Hin & -> & Hle & Hlt)] _].
  - rewrite !decide_False by lia. rewrite decide_True by lia.
    by apply wp_ret.
  - destruct (linked_member _ _ _ _ Hl Hin) as (?&?&?).
    rewrite !decide_True by lia. rewrite decide_False by lia.
    apply wp_take_block; [done..|]. pose proof (ints_of_bound bytes). lia.
Qed.

(** A neighbour is unlinked when it is available. *)
Lemma wp_absorb {B C} h bs fl l0 c r0 (k : Z → M heap B) k0 (f : B → M heap C) Q :
  linked h bs fl → bs = l0 ++ c :: r0 → (0 < c → total l0 ∈ fl) →
  (∀ h', linked h' bs (without (total l0) fl) → keeps (taken_word 0 bs) h h' →
     wp (if decide (0 < c) then k c else k0) (λ r s, wp (f r) Q s) h') →
  wp (la ← isAvail (total l0);
      r ← (if (la : bool)
           then remove (total l0);; n ← size (total l0); k n
           else k0);
      f r) Q h.
Proof.
  intros Hl E Hin Hk. pose proof Hl as Hl0. rewrite E in Hl0.
  apply linked_valid in Hl0 as [Ea Hv]. destruct (linked_sizes _ _ _ _ Hl Hv) as (?&?&_).
  unfold isAvail. heap_steps. rewrite Ea. case_bool_decide as Hc.
  - destruct (list_elem_of_split _ _ (Hin Hc)) as (fl1 & fl2 & Efl).
    pose proof (lk_nodup _ _ _ Hl) as Hnd. rewrite Efl in Hl, Hnd.
    destruct (unlink_linked _ _ _ _ _ Hl) as [Hl1 Hk1].
    rewrite <-(without_app _ _ _ Hnd), <-Efl in Hl1.
    specialize (Hk _ Hl1 Hk1). rewrite decide_True in Hk by done.
    apply wp_bind. eapply wp_remove; [exact Hl|].
    pose proof Hl1 as Hl2. rewrite E in Hl2.
    apply linked_valid in Hl2 as [Ea' Hv']. destruct (linked_sizes _ _ _ _ Hl1 Hv') as (?&?&_).
    apply wp_bind, wp_size; [done..|]. rewrite Ea'. by replace (Z.abs c) with c by lia.
  - specialize (Hk h). rewrite decide_False in Hk by done. apply Hk; [|done].
    rewrite without_notin; [done|]. intros Hf. apply (lk_sub _ _ _ Hl) in Hf.
    pose proof (frees_tag _ _ _ _ (lk_tiles _ _ _ Hl) Hf). lia.
Qed.

Lemma idx_of_addr x l :
  0 < base → 0 ≤ x → x + 1 < l → l ≤ int_max → base + 4 * l ≤ 2 ^ 32 →
  i32 (u32 (u32 (addr_of base (x + 1) - base) / 4 - 1)) = x ∧
  addr_of base (x + 1) ≠ 0 ∧ addr_of base (x + 1) ≠ base.
Proof.
  intros. unfold addr_of, int_max in *. rewrite (u32_small (base + _)) by lia.
  split_and!; [|lia|lia].
  replace (base + 4 * (x + 1) - base) with ((x + 1) * 4) by lia.
  rewrite (u32_small ((x + 1) * 4)) by lia. rewrite Z.div_mul by lia.
  replace (x + 1 - 1) with x by lia. rewrite u32_small by lia.
  apply i32_small. unfold int_min, int_max. lia.
Qed.

Lemma wp_left h l0 c r fl (Q : Z → heap → Prop) :
  linked h (l0 ++ c :: r) fl → Q (total l0) h → wp (left (total l0 + Z.abs c)) Q h.
Proof.
  intros Hl HQ. pose proof (lk_tiles _ _ _ Hl) as Ht.
  destruct (linked_valid _ _ _ _ _ Hl) as [Ea Hv].
  destruct (linked_sizes _ _ _ _ Hl Hv) as (?&?&?&?). rewrite Ea in *.
  apply tiles_app in Ht as (_ & _ & Hf & _). simpl in Hf.
  assert (2 ≤ Z.abs c) by (destruct Hv; rewrite Ea in *; lia).
  unfold left. do 2 heap_step. unfold headerFromFooter.
  rewrite Z.add_0_l in Hf. apply wp_bind, wp_bind, wp_size; rewrite ?Hf; [lia..|].
  heap_steps. replace (_ - _ + 1) with (total l0) by lia.
  apply wp_sanity; [done|by right|done].
Qed.

Lemma wp_right h l b d r fl (Q : Z → heap → Prop) :
  linked h (l ++ b :: d :: r) fl → Q (total l + Z.abs b) h → wp (right (total l)) Q h.
Proof.
  intros Hl HQ. destruct (linked_valid _ _ _ _ _ Hl) as [Ea Hv].
  destruct (linked_sizes _ _ _ _ Hl Hv) as (?&?&?&?).
  unfold right. apply wp_bind, wp_size; [done..|]. rewrite Ea in *.
  heap_steps. apply wp_sanity; [done| |done]. right.
  replace (l ++ b :: d :: r) with ((l ++ [b]) ++ d :: r) in Hl by by rewrite <-app_assoc.
  apply linked_valid in Hl as [_ Hv']. rewrite total_app in Hv'. simpl in Hv'.
  by rewrite Z.add_0_r in Hv'.
Qed.

Lemma wp_free_finish h A h2 l b r l1 ml mr r1 fl2 :
  rep h A → blocks A = l ++ b :: r → b ≤ -4 →
  l = l1 ++ ml → r = mr ++ r1 → 2 ≤ total l1 →
  Forall (λ c, 4 ≤ c) ml → Forall (λ c, 4 ≤ c) mr →
  linked h2 (blocks A) fl2 → keeps (taken_word 0 (blocks A)) h h2 →
  (∀ y, y ∈ fl2 ↔ y ∈ flist A ∧ y ∉ frees (total l1) (ml ++ b :: mr)) →
  let m := total (ml ++ b :: mr) in
  wp (makeAvail (total l1) m)
     (λ _ h', rep h' (mkA (l1 ++ m :: r1) (total l1 :: fl2)) ∧
              keeps (outside l (Z.abs b) r) h h') h2.
Proof.
  intros Hr E Hb El Er Hl1 Hml Hmr Hl2 Hk Hfl m.
  pose proof (lk_total _ _ _ Hl2) as Ht. rewrite E, El, Er, !total_app in Ht.
  pose proof (total_nonneg ml). pose proof (total_nonneg mr). pose proof (total_nonneg r1).
  assert (Hm : m = total ml + (Z.abs b + total mr)) by (unfold m; by rewrite total_app).
  simpl in Ht. rewrite total_app in Ht.
  apply wp_makeAvail; [lia|lia|lia|apply Hl2| |].
  { pose proof (dll_head _ _ _ _ (lk_dll _ _ _ Hl2)) as Ea.
    destruct fl2 as [|y fl2]; simpl in Ea; [by left|right].
    destruct (linked_member _ _ _ y Hl2) as (?&?&_); [by left|lia]. }
  eapply rep_release; try done; intros y Hy; [by apply Hfl|].
  intros ?. by apply Hfl.
Qed.

(** The second half of [free]: the left neighbour has been dealt with,
    [l1] are the blocks before the merged one. *)
Definition free_right (rightIndex idx sz : Z) : M heap () :=
  ra ← isAvail rightIndex;
  sz ← (if (ra : bool) then
          remove rightIndex;;
          n ← size rightIndex;
          chk (sz + n)
        else mret sz);
  makeAvail idx sz.

Lemma wp_free_right h A l1 ml b d r0 h1 fl1 :
  rep h A → blocks A = (l1 ++ ml) ++ b :: d :: r0 → b ≤ -4 →
  2 ≤ total l1 → Forall (λ c, 4 ≤ c) ml → (0 < d → 4 ≤ d) →
  linked h1 (blocks A) fl1 → keeps (taken_word 0 (blocks A)) h h1 →
  (∀ y, y ∈ fl1 ↔ y ∈ flist A ∧ y ∉ frees (total l1) ml) →
  let fl2 := without (total (l1 ++ ml) + Z.abs b) fl1 in
  let '(dn, r1) := if decide (0 < d) then (d, r0) else (0, d :: r0) in
  wp (free_right (total (l1 ++ ml) + Z.abs b) (total l1) (total ml + Z.abs b))
     (λ _ h', rep h' (mkA (l1 ++ (total ml + Z.abs b + dn) :: r1) (total l1 :: fl2)) ∧
              keeps (outside (l1 ++ ml) (Z.abs b) (d :: r0)) h h') h1.
Proof.
  intros Hr E Hb Hl1 Hml Hd Hl Hk Hfl fl2.
  pose proof (lk_total _ _ _ Hl) as Ht. pose proof (lk_len _ _ _ Hl) as Hlen.
  pose proof (lk_sizes _ _ _ Hl) as Hok. rewrite E, !Forall_app in Hok.
  rewrite E, !total_app in Ht. simpl in Ht.
  pose proof (total_nonneg ml). pose proof (total_nonneg r0).
  assert (E' : blocks A = ((l1 ++ ml) ++ [b]) ++ d :: r0)
    by (rewrite E; by simplify_list_eq).
  assert (Et : total ((l1 ++ ml) ++ [b]) = total (l1 ++ ml) + Z.abs b)
    by (rewrite (total_app (l1 ++ ml)); simpl; lia).
  assert (Hnml : total (l1 ++ ml) + Z.abs b ∉ frees (total l1) ml).
  { intros Hf. apply frees_bound in Hf; [|tauto]. rewrite total_app in Hf. lia. }
  assert (Hdin : 0 < d → total (l1 ++ ml) + Z.abs b ∈ fl1).
  { intros Hd0. apply Hfl. split; [|done]. apply (rep_all _ _ Hr).
    rewrite E', frees_app. simpl. rewrite Et, decide_True by done. set_solver. }
  assert (Hfr : ∀ mr, frees (total l1) (ml ++ b :: mr) =
            frees (total l1) ml ++ frees (total (l1 ++ ml) + Z.abs b) mr).
  { intros mr. rewrite frees_app. simpl. rewrite decide_False by lia. by rewrite total_app. }
  destruct (decide (0 < d)) as [Hd0|Hd0]; unfold free_right; rewrite <-Et;
    (eapply wp_absorb; [exact Hl|exact E'|by rewrite Et|]);
    intros h2 Hl2 Hk2; rewrite Et in *; fold fl2 in Hl2;
    pose proof (keeps_trans _ _ _ _ Hk Hk2);
    [rewrite decide_True by done|rewrite decide_False by done]; heap_step.
  - replace (total ml + Z.abs b + d) with (total (ml ++ b :: [d]))
      by (rewrite total_app; simpl; lia).
    eapply (wp_free_finish h A h2 (l1 ++ ml) b (d :: r0) l1 ml [d] r0); try done.
    { constructor; [auto|done]. }
    intros y. unfold fl2. rewrite elem_of_without, Hfl, Hfr. simpl.
    rewrite decide_True by done. set_solver.
  - replace (total ml + Z.abs b) with (total (ml ++ b :: []))
      by (rewrite total_app; simpl; lia).
    rewrite Z.add_0_r.
    eapply (wp_free_finish h A h2 (l1 ++ ml) b (d :: r0) l1 ml [] (d :: r0)); try done.
    intros y. unfold fl2. rewrite elem_of_without, Hfl, Hfr. simpl.
    rewrite app_nil_r. split; [tauto|]. intros [Hy1 Hy2]. split; [done|]. intros ->.
    apply (lk_sub _ _ _ (rep_linked _ _ Hr)) in Hy1.
    pose proof (frees_tag _ _ _ _ (lk_tiles _ _ _ Hl) Hy1) as Htag.
    rewrite E' in Hl. apply linked_valid in Hl as [Ea _]. rewrite Et in Ea.
    lia.
Qed.

Lemma release_eq A l0 c b d r0 :
  Forall ok_size (blocks A) → blocks A = (l0 ++ [c]) ++ b :: d :: r0 →
  let x := total (l0 ++ [c]) in
  let '(l1, ln) := if decide (0 < c) then (l0, c) else (l0 ++ [c], 0) in
  let '(dn, r1) := if decide (0 < d) then (d, r0) else (0, d :: r0) in
  release x A = mkA (l1 ++ (ln + Z.abs b + dn) :: r1)
                    (x - ln :: without (x + Z.abs b) (without (x - ln) (flist A))).
Proof.
  intros Hok E x. unfold release. rewrite E in Hok |- *.
  apply Forall_app in Hok as [Hok _].
  replace x with (0 + total (l0 ++ [c])) at 1 by (unfold x; lia).
  rewrite split_at_app by done. rewrite last_snoc, removelast_last.
  by destruct (decide (0 < c)), (decide (0 < d)).
Qed.

Lemma wp_free h A l b r :
  rep h A → blocks A = l ++ b :: r → b ≤ -4 →
  0 < base → base + 4 * len h ≤ 2 ^ 32 →
  wp (free base (addr_of base (total l + 1)))
     (λ _ h', rep h' (release (total l) A) ∧ keeps (outside l (Z.abs b) r) h h') h.
Proof.
  intros Hr E Hb Hb0 Hb1.
  destruct (taken_neighbours _ _ _ _ _ Hr E Hb)
    as (l0 & c & d & r0 & -> & -> & Hc & Hd & Hc4 & Hd4 & Hl2).
  pose proof (rep_linked _ _ Hr) as Hl. pose proof Hl as Hl'. rewrite E in Hl'.
  destruct (linked_valid _ _ _ _ _ Hl') as [Ea Hv].
  destruct (linked_sizes _ _ _ _ Hl' Hv) as (?&?&?&?). rewrite Ea in *.
  destruct (idx_of_addr (total (l0 ++ [c])) (len h)) as (Ei & Hn1 & Hn2); [lia..|].
  assert (Et : total (l0 ++ [c]) = total l0 + Z.abs c) by (rewrite total_app; simpl; lia).
  assert (El : blocks A = l0 ++ c :: b :: d :: r0) by (rewrite E; by simplify_list_eq).
  pose proof (release_eq _ _ _ _ _ _ (lk_sizes _ _ _ Hl) E) as Hre. cbv zeta in Hre.
  unfold free. rewrite !decide_False by done. rewrite Ei. cbv zeta.
  apply wp_bind, wp_sanity; [done|by right|]. unfold isTaken.
  do 4 heap_step. rewrite Ea, bool_decide_true by lia. simpl negb. cbv iota.
  apply wp_bind, wp_size; rewrite ?Ea; [done..|].
  apply wp_bind. rewrite Et at 1. rewrite El in Hl. eapply wp_left; [exact Hl|].
  apply wp_bind. eapply wp_right; [exact Hl'|]. rewrite <-El in Hl.
  eapply (wp_absorb _ _ _ _ _ _ _ _
    (λ r, let '(idx, sz) := r in free_right (total (l0 ++ [c]) + Z.abs b) idx sz));
    [exact Hl|exact El| |].
  { intros Hc0. apply (rep_all _ _ Hr). rewrite El, frees_app. simpl.
    rewrite decide_True by done. set_solver. }
  intros h1 Hl1 Hk1. destruct (decide (0 < c)) as [Hc0|Hc0].
  - destruct (Hc4 Hc0) as [Hl0 Hc4'].
    assert (Hfr := wp_free_right h A l0 [c] b d r0 h1 (without (total l0) (flist A)) Hr E Hb
      Hl0 ltac:(constructor; [done|done]) Hd4 Hl1 Hk1).
    cbv zeta in Hfr. destruct (if decide (0 < d) then _ else _) as [dn r1].
    assert (Ex : total (l0 ++ [c]) - c = total l0) by (rewrite Et; lia).
    assert (Es : total [c] + Z.abs b = Z.abs b + c) by (simpl; lia).
    rewrite Hre, Ex. rewrite Es in Hfr.
    replace (c + Z.abs b) with (Z.abs b + c) by lia.
    pose proof (lk_total _ _ _ Hl1) as Ht. rewrite El, total_app in Ht. simpl in Ht.
    pose proof (lk_len _ _ _ Hl1). pose proof (total_nonneg r0).
    heap_steps.
    apply Hfr. intros y. rewrite elem_of_without. simpl.
    rewrite decide_True by done. set_solver.
  - assert (Hfr := wp_free_right h A (l0 ++ [c]) [] b d r0 h1 (without (total l0) (flist A)) Hr).
    rewrite app_nil_r in Hfr. specialize (Hfr E Hb Hl2 ltac:(done) Hd4 Hl1 Hk1).
    cbv zeta in Hfr. destruct (if decide (0 < d) then _ else _) as [dn r1].
    assert (Hw : without (total l0 + Z.abs c - 0) (flist A) = without (total l0) (flist A)).
    { rewrite !without_notin; [done|..]; intros Hf; apply (lk_sub _ _ _ Hl) in Hf;
        pose proof (frees_tag _ _ _ _ (lk_tiles _ _ _ Hl) Hf);
        [rewrite El in Hl; apply linked_valid in Hl as [? _]|rewrite Z.sub_0_r, <-Et in *];
        lia. }
    rewrite Hre, Et, Hw, Z.sub_0_r. rewrite Et in Hfr. simpl total in Hfr.
    rewrite !Z.add_0_l in Hfr. rewrite Z.add_0_l. heap_steps. apply Hfr.
    intros y. simpl. rewrite without_notin; [set_solver|].
    intros Hf; apply (lk_sub _ _ _ Hl) in Hf.
    pose proof (frees_tag _ _ _ _ (lk_tiles _ _ _ Hl) Hf).
    rewrite El in Hl; apply linked_valid in Hl as [? _]; lia.
Qed.
End refinement.
