(* ===== verification/HeapProps.v ===== *)
(** * What the kernel heap guarantees

    The theorems about kernel/heap.cc: initialisation, the refinement of
    [malloc] and [free], best fit, coalescing, and the safety of any
    client that frees only what it holds. *)

From S2P Require Import Prelude.
From S2P Require Import HeapInv.
From S2P Require Import Heap.

(** ** Helper facts on the abstract operations *)

Section abstract.
Implicit Types (h : heap) (A : astate).

(** [carve] replaces one available block. *)
Lemma carve_shape h A x ints :
  rep h A → x ∈ flist A → 4 ≤ ints ≤ bsize (blocks A) x →
  ∃ l n r mid, blocks A = l ++ [n] ++ r ∧ x = total l ∧ 0 < n ∧ bsize (blocks A) x = n ∧
    blocks (carve x ints A) = l ++ mid ++ r ∧ total mid = total [n] ∧
    Forall ok_size mid ∧
    (mid = [- ints; n - ints] ∧ 4 ≤ n - ints ∨ mid = [- n] ∧ n - ints < 4).
Proof.
  intros Hr Hx Hi.
  destruct (rep_find _ _ _ Hr Hx) as (l & n & r & fl1 & fl2 & Eb & Hn & Ex & Es & _).
  assert (Hbs : bsize (blocks A) x = n) by (unfold bsize; by rewrite Es).
  rewrite Hbs in Hi. unfold carve. rewrite Es.
  destruct (decide (4 ≤ n - ints)) as [H4|H4].
  - exists l, n, r, [- ints; n - ints]. simpl. split_and!; try done; [lia|lia| |auto].
    repeat (constructor; [left; lia|]). done.
  - exists l, n, r, [- n]. simpl. split_and!; try done; [lia|lia| |right; split; [done|lia]].
    repeat (constructor; [left; lia|]). done.
Qed.

Lemma carve_bsize h A x ints :
  rep h A → x ∈ flist A → 4 ≤ ints ≤ bsize (blocks A) x →
  0 < bsize (blocks A) x ∧ bsize (blocks (carve x ints A)) x ≤ - ints ∧
  ∀ y, bsize (blocks A) y < 0 → y ≠ x ∧ bsize (blocks (carve x ints A)) y = bsize (blocks A) y.
Proof.
  intros Hr Hx Hi.
  destruct (carve_shape _ _ _ _ Hr Hx Hi)
    as (l & n & r & mid & Eb & Ex & Hn & Hbs & Ec & Et & Hok & Hmid).
  pose proof (lk_sizes _ _ _ (rep_linked _ _ Hr)) as Hoks.
  rewrite Hbs in *. rewrite Ec, Eb in *.
  assert (Hrep := λ y, bsize_replace l [n] mid r y Hoks Hok Et).
  split_and!; [done| |].
  - rewrite Hrep, Hbs. simpl. rewrite decide_True by done.
    destruct Hmid as [[-> _]|[-> _]]; simpl; rewrite decide_True by done; lia.
  - intros y Hy. split; [intros ->; lia|].
    apply bsize_replace_taken; [done..|]. simpl. goal_decide; lia.
Qed.

Lemma carve_coalesced h A x ints :
  rep h A → x ∈ flist A → 4 ≤ ints ≤ bsize (blocks A) x →
  coalesced (blocks A) → coalesced (blocks (carve x ints A)).
Proof.
  intros Hr Hx Hi.
  destruct (carve_shape _ _ _ _ Hr Hx Hi)
    as (l & n & r & mid & Eb & Ex & Hn & Hbs & Ec & _ & _ & Hmid).
  rewrite Ec, Eb, !coalesced_app. simpl.
  intros (Hl & (_ & Hcr & Hnr) & Hln).
  assert (Hr0 : ∀ d, head r = Some d → ¬ 0 < d) by (intros d Hd ?; by eapply Hnr).
  destruct Hmid as [[-> ?]|[-> ?]]; simpl; split_and!; try done.
  - lia.
  - intros c d _ Hd [_ ?]. by eapply Hr0.
  - intros c d _ [= <-]. lia.
  - intros c d _ Hd [_ ?]. by eapply Hr0.
  - intros c d _ [= <-]. lia.
Qed.

(** [release] merges a run of blocks, one of them taken. *)
Lemma release_shape h A l b r :
  rep h A → blocks A = l ++ b :: r → b ≤ -4 →
  ∃ l1 ml mr r1, l = l1 ++ ml ∧ r = mr ++ r1 ∧
    Forall (λ c, 4 ≤ c) ml ∧ Forall (λ c, 4 ≤ c) mr ∧
    (ml = [] ∧ (∀ c, last l1 = Some c → ¬ 0 < c) ∨ ∃ c, ml = [c]) ∧
    (mr = [] ∧ (∀ d, head r1 = Some d → ¬ 0 < d) ∨ ∃ d, mr = [d]) ∧
    blocks (release (total l) A) = l1 ++ [total (ml ++ b :: mr)] ++ r1.
Proof.
  intros Hr E Hb.
  destruct (taken_neighbours _ _ _ _ _ Hr E Hb)
    as (l0 & c & d & r0 & -> & -> & Hc & Hd & Hc4 & Hd4 & Hl2).
  pose proof (release_eq _ _ _ _ _ _ (lk_sizes _ _ _ (rep_linked _ _ Hr)) E) as Hre.
  cbv zeta in Hre.
  exists (if decide (0 < c) then l0 else l0 ++ [c]), (if decide (0 < c) then [c] else []),
    (if decide (0 < d) then [d] else []), (if decide (0 < d) then r0 else d :: r0).
  split_and!.
  - destruct (decide (0 < c)); by rewrite ?app_nil_r.
  - by destruct (decide (0 < d)).
  - destruct (decide (0 < c)); [|done]. apply Forall_singleton. by apply Hc4.
  - destruct (decide (0 < d)); [|done]. apply Forall_singleton. by apply Hd4.
  - destruct (decide (0 < c)) as [|Hnc]; [right; by eexists|left].
    split; [done|]. rewrite last_snoc. by intros ? [= <-].
  - destruct (decide (0 < d)) as [|Hnd]; [right; by eexists|left].
    split; [done|]. by intros ? [= <-].
  - destruct (decide (0 < c)), (decide (0 < d)); rewrite Hre; cbn [blocks app];
      rewrite ?total_app; do 2 f_equal; simpl; lia.
Qed.

Lemma release_facts h A l b r :
  rep h A → blocks A = l ++ b :: r → b ≤ -4 →
  let A' := release (total l) A in
  (coalesced (blocks A) → coalesced (blocks A')) ∧
  ∀ y, y ≠ total l → bsize (blocks A) y < 0 → bsize (blocks A') y = bsize (blocks A) y.
Proof.
  intros Hr E Hb A'. pose proof (lk_sizes _ _ _ (rep_linked _ _ Hr)) as Hok.
  destruct (release_shape _ _ _ _ _ Hr E Hb)
    as (l1 & ml & mr & r1 & -> & -> & Hml & Hmr & Hcl & Hcr & Eb).
  assert (E' : blocks A = l1 ++ (ml ++ b :: mr) ++ r1) by (rewrite E; by simplify_list_eq).
  unfold A'. rewrite Eb, E' in *. split.
  - rewrite !coalesced_app. intros (H1 & (Hm & H2 & H3) & H4). split_and!; [done..| |].
    + simpl. intros ? d [= <-] Hd [_ Hd0].
      destruct Hcr as [[-> Hnr]|[d' ->]]; [by eapply Hnr|].
      eapply (H3 d' d); [by rewrite last_app|done|].
      apply Forall_cons in Hmr. lia.
    + intros c ? Hc [= <-] [Hc0 _].
      destruct Hcl as [[-> Hnl]|[c' ->]]; [by eapply Hnl|].
      eapply (H4 c c'); [done|done|]. apply Forall_cons in Hml. lia.
  - intros y Hy Hneg. rewrite !Forall_app in Hok. destruct Hok as (?&(?&?)&?).
    pose proof (total_nonneg ml). pose proof (total_nonneg mr).
    assert (4 ≤ total (ml ++ b :: mr)) by (rewrite total_app; simpl; lia).
    apply bsize_replace_taken; [by rewrite !Forall_app| | |done|].
    + constructor; [left; lia|done].
    + simpl. lia.
    + rewrite total_app in Hy.
      destruct Hcl as [[-> _]|[c' ->]], Hcr as [[-> _]|[d' ->]]; simpl in *;
        repeat (goal_decide || rewrite Forall_cons in * ); lia.
Qed.
End abstract.

(** ** Sizes *)

Lemma ints_of_payload bytes : 0 < bytes < 2 ^ 32 - 3 → bytes ≤ 4 * (ints_of bytes - 2).
Proof.
  intros Hb. unfold ints_of. rewrite (u32_small (bytes + 3)) by lia.
  assert (0 ≤ (bytes + 3) / 4 < 2 ^ 30) by
    (split; [apply Z.div_pos; lia|apply Z.div_lt_upper_bound; lia]).
  rewrite u32_small by lia. rewrite i32_small by (unfold int_min, int_max; lia).
  pose proof (Z.div_mod (bytes + 3) 4 ltac:(lia)).
  pose proof (Z.mod_pos_bound (bytes + 3) 4 ltac:(lia)). goal_decide; lia.
Qed.

Lemma a_malloc_spec h A ints :
  rep h A →
  (a_malloc ints A = (0, A) ∧ ∀ x, x ∈ flist A → bsize (blocks A) x < ints) ∨
  ∃ it, a_malloc ints A = (it, carve it ints A) ∧ it ∈ flist A ∧ 2 ≤ it ∧
        ints ≤ bsize (blocks A) it ∧ it + bsize (blocks A) it ≤ len h ∧
        first_smallest (bsize (blocks A)) it (candidates (bsize (blocks A)) ints 20 (flist A)).
Proof.
  intros Hr. unfold a_malloc.
  destruct (best_fit _ ints 20 int_max 0 (flist A)) as [mx it] eqn:E.
  pose proof (best_fit_first _ _ 19 _ _ _ _ _ E) as Hfirst. apply (best_fit_spec _ _ 19) in E as [Hc Hm].
  assert (Hsz : ∀ x, x ∈ flist A → 2 ≤ x ∧ x + bsize (blocks A) x ≤ len h).
  { intros x Hx. destruct (unlink_listed _ _ _ Hr Hx)
      as (l & n & r & fl1 & fl2 & (_&Es&_) & (?&?&?&?&?&_) & _).
    unfold bsize. rewrite Es. lia. }
  pose proof (lk_len _ _ _ (rep_linked _ _ Hr)).
  destruct Hc as [[-> ->]|(Hin & -> & Hle & Hlt)].
  - left. rewrite decide_False by lia. split; [done|]. intros x Hx.
    destruct (Hsz _ Hx). destruct (decide (bsize (blocks A) x < ints)) as [|Hge]; [done|].
    exfalso. destruct (filter (λ x, ints ≤ bsize (blocks A) x) (flist A)) as [|y ys] eqn:Ef.
    + assert (x ∈ filter (λ x, ints ≤ bsize (blocks A) x) (flist A))
        by (apply list_elem_of_filter; split; [lia|done]).
      rewrite Ef in *. set_solver.
    + assert (y ∈ filter (λ x, ints ≤ bsize (blocks A) x) (flist A)) as Hy
        by (rewrite Ef; by left).
      apply list_elem_of_filter in Hy as [_ Hy]. destruct (Hsz _ Hy).
      specialize (Hm y). unfold candidates in Hm. rewrite Ef in Hm.
      specialize (Hm ltac:(by left)). lia.
  - right. exists it. destruct (Hsz _ Hin). rewrite decide_True by lia. split_and!; try done.
    destruct Hfirst as [(? & _)|(_ & _ & ?)]; [lia|done].
Qed.

(** ** Initialisation *)

Lemma rep_fresh l a sf :
  8 ≤ l ≤ int_max → a 0 = -2 → a 1 = -2 → a 2 = l - 4 → a (l - 3) = l - 4 →
  a (l - 2) = -2 → a (l - 1) = -2 → a 3 = 0 → a 4 = 0 →
  rep (mkHeap a l sf 2) (mkA [-2; l - 4; -2] [2]).
Proof.
  intros. split; [split|..]; simpl.
  - change (0 + Z.abs (-2)) with 2. replace (2 + Z.abs (l - 4)) with (l - 2) by lia.
    replace (l - 2 + Z.abs (-2) - 1) with (l - 1) by lia.
    replace (l - 2 - 1) with (l - 3) by lia. by split_and!.
  - lia.
  - lia.
  - repeat constructor; unfold ok_size; lia.
  - by split_and!.
  - apply NoDup_singleton.
  - intros x. rewrite decide_True by lia. set_solver.
  - intros x. rewrite decide_True by lia. set_solver.
  - exists [l - 4]. split; [done|]. constructor; [lia|done].
Qed.

Lemma wp_heapInit base bytes lock_bytes memory :
  32 ≤ bytes < 2 ^ 32 → lock_bytes ≠ 0 → ints_of lock_bytes ≤ bytes / 4 - 4 →
  0 < base → base + bytes ≤ 2 ^ 32 →
  wp (heapInit base bytes lock_bytes)
     (λ p h, p = addr_of base 3 ∧ ∃ A, rep h A ∧ len h = bytes / 4 ∧
             coalesced (blocks A) ∧ bsize (blocks A) 2 ≤ - ints_of lock_bytes)
     (boot memory).
Proof.
  intros Hb Hlk Hfit Hbase Hend. pose proof (ints_of_bound lock_bytes) as Hio.
  assert (Hl : 8 ≤ bytes / 4 < 2 ^ 30).
  { split; [apply Z.div_le_lower_bound; lia|apply Z.div_lt_upper_bound; lia]. }
  pose proof (Z.mul_div_le bytes 4 ltac:(lia)). unfold heapInit.
  set (l := bytes / 4) in *. do 4 heap_step.
  apply wp_bind, wp_makeTaken; simpl; [lia|lia|lia|unfold int_max; lia|].
  heap_step. heap_step.
  apply wp_bind, wp_makeAvail; simpl; [lia|lia|lia|unfold int_max; lia|by left|].
  heap_step. heap_step.
  apply wp_bind, wp_makeTaken; simpl; [lia|lia|lia|unfold int_max; lia|].
  match goal with |- wp _ _ ?hh => set (h := hh) end.
  assert (Hr : rep h (mkA [-2; l - 4; -2] [2])).
  { subst h. apply rep_fresh; simpl; unfold relink; rewrite ?decide_False by lia;
      upd_simp; try lia; [|done..]. unfold int_max. lia. }
  unfold operator_new. apply wp_bind. eapply wp_mono; [by apply wp_malloc|].
  intros p h' Hp. simpl in Hp.
  destruct (a_malloc_spec h _ (ints_of lock_bytes) Hr) as [[Ea Hno]|(it & Ea & Hin & Hm)].
  { specialize (Hno 2 ltac:(by left)). simpl in Hno. unfold bsize in Hno. simpl in Hno. lia. }
  rewrite Ea in Hp. simpl in Hin. apply list_elem_of_singleton in Hin as ->.
  destruct Hm as (_ & Hsz & _). rewrite decide_False in Hp by lia.
  destruct Hp as (-> & Hr' & (Elen & _)).
  assert (addr_of base (2 + 1) ≠ 0).
  { unfold addr_of. rewrite u32_small by lia. lia. }
  rewrite decide_False by done. heap_step. split; [done|].
  eexists. split; [exact Hr'|]. split; [by rewrite Elen|].
  destruct (carve_bsize h _ 2 (ints_of lock_bytes) Hr) as (_ & ? & _); [by left|lia|].
  split; [|done]. eapply carve_coalesced; [exact Hr|by left|lia|].
  simpl. lia.
Qed.

(** ** Words of taken blocks *)

Section words.
Implicit Types (h : heap) (A : astate).

Lemma taken_word_bsize bs x j :
  bsize bs x < 0 → x ≤ j < x - bsize bs x → taken_word 0 bs j.
Proof.
  intros Hb Hj. destruct (bsize_split bs x) as (l & r & E & Ex); [lia|].
  rewrite E, taken_word_app. right. simpl. left. lia.
Qed.

Lemma outside_bsize l b r y j :
  Forall ok_size (l ++ b :: r) → y ≠ total l → bsize (l ++ b :: r) y < 0 →
  y ≤ j < y - bsize (l ++ b :: r) y → outside l (Z.abs b) r j.
Proof.
  intros Hok Hne Hy Hj. pose proof (taken_word_bsize _ _ _ Hy Hj) as Ht.
  rewrite taken_word_app in Ht. unfold outside. destruct Ht as [|Ht]; [by left|].
  simpl in Ht. rewrite Z.add_0_l in Ht. destruct Ht as [[Hb Hin]|]; [|by right].
  exfalso. rewrite bsize_eq in Hy, Hj.
  assert (Hx : bsize_at 0 (l ++ b :: r) (total l) = b).
  { rewrite bsize_at_app by done. apply Forall_app in Hok as [Hok _].
    rewrite bsize_at_out by (done || lia). simpl. rewrite decide_True by lia. lia. }
  destruct (decide (y < total l)) as [Hlt|Hge].
  - pose proof (bsize_at_disjoint 0 _ y (total l) Hok ltac:(lia) ltac:(lia) Hlt). lia.
  - pose proof (bsize_at_disjoint 0 _ (total l) y Hok ltac:(lia) ltac:(lia) ltac:(lia)). lia.
Qed.

(** The owner of a taken block may write its payload. *)
Lemma rep_write h A x j v :
  rep h A → bsize (blocks A) x < 0 → x < j < x - bsize (blocks A) x - 1 →
  rep (set_array (λ a, upd a j v) h) A.
Proof.
  intros Hr Hb Hj. destruct (bsize_split (blocks A) x) as (l & r & E & Ex); [lia|].
  set (b := bsize (blocks A) x) in *. destruct Hr as [Hl Hall Hf].
  pose proof Hl as Hl0. rewrite E in Hl0. pose proof (lk_sizes _ _ _ Hl0) as Hok.
  apply Forall_app in Hok as (_ & [Hokb _]%Forall_cons).
  destruct (linked_valid _ _ _ _ _ Hl0) as [Ea (_&_&_&Eb)].
  split; [|done|done]. rewrite E. change (l ++ b :: r) with (l ++ [b] ++ r) in *.
  apply (hole_linked _ _ (total [b])).
  - apply hole_write; [|simpl; lia]. apply linked_hole; [exact Hl0|].
    intros y _. simpl. rewrite decide_False by lia. set_solver.
  - done.
  - by constructor.
  - simpl. rewrite Ea in Eb. upd_simp. by upd_simp.
Qed.
End words.

(** ** Clients of the heap *)

(** A client holds objects: the address it was given, the size it asked
    for and what it expects the object's words to contain. *)
Record object := mkObj { ptr : Z; osize : Z; contents : Z → Z }.

Inductive request :=
| Malloc (bytes : Z)
| Free (k : nat)              (** free the [k]-th object held *)
| Store (k : nat) (i v : Z).  (** word [i] of the [k]-th object := [v] *)

Section client.
Variable base : Z.

(** The header index of the block behind an address. *)
Definition index_of (p : Z) : Z := (p - base) / 4 - 1.

Definition serve (live : list object) (r : request) : M heap (list object) :=
  match r with
  | Malloc bytes =>
      p ← malloc base bytes;
      if decide (p = 0) then mret live else
      a ← gets array;
      mret (mkObj p bytes (λ i, a (index_of p + 1 + i)) :: live)
  | Free k =>
      match live !! k with
      | Some o => free base (ptr o);; mret (delete k live)
      | None => mret live
      end
  | Store k i v =>
      match live !! k with
      | Some o =>
          if decide (0 ≤ i ∧ 4 * i < osize o) then
            wr (index_of (ptr o) + 1 + i) v;;
            mret (<[k := mkObj (ptr o) (osize o) (upd (contents o) i v)]> live)
          else mret live
      | None => mret live
      end
  end.

Fixpoint client (live : list object) (rs : list request) : M heap (list object) :=
  match rs with
  | [] => mret live
  | r :: rs => live ← serve live r; client live rs
  end.

Definition sane_request (r : request) : Prop :=
  match r with Malloc bytes => 0 < bytes < 2 ^ 32 - 3 | _ => True end.

(** Object [o] owns a taken block of [A] and finds its words there. *)
Definition holds (h : heap) (A : astate) (o : object) : Prop :=
  ∃ x, ptr o = addr_of base (x + 1) ∧ 0 < osize o < 2 ^ 32 - 3 ∧
       bsize (blocks A) x ≤ - ints_of (osize o) ∧
       ∀ i, 0 ≤ i → 4 * i < osize o → array h (x + 1 + i) = contents o i.

Record client_inv (h : heap) (A : astate) (live : list object) : Prop := {
  ci_rep : rep h A;
  ci_base : 0 < base ∧ base + 4 * len h ≤ 2 ^ 32;
  ci_coalesced : coalesced (blocks A);
  ci_nodup : NoDup (ptr <$> live);
  ci_holds : Forall (holds h A) live;
}.
End client.

Section client_proofs.
Context {base : Z}.
Implicit Types (h : heap) (A : astate) (o : object) (live : list object).

Lemma taken_bounds h A x :
  rep h A → bsize (blocks A) x < 0 →
  0 ≤ x ∧ x - bsize (blocks A) x ≤ len h ∧ len h ≤ int_max.
Proof.
  intros [Hl _ _] Hb. pose proof (lk_total _ _ _ Hl). pose proof (lk_len _ _ _ Hl).
  rewrite bsize_eq in *. destruct (bsize_at_bounds 0 (blocks A) x); [apply Hl|lia|lia].
Qed.

Lemma index_of_addr x l :
  0 < base → 0 ≤ x → x + 1 < l → base + 4 * l ≤ 2 ^ 32 →
  addr_of base (x + 1) = base + 4 * (x + 1) ∧ index_of base (addr_of base (x + 1)) = x.
Proof.
  intros. unfold index_of, addr_of. rewrite u32_small by lia. split; [done|].
  replace (base + 4 * (x + 1) - base) with ((x + 1) * 4) by lia.
  rewrite Z.div_mul by lia. lia.
Qed.

(** What the words of a held object survive: any step that keeps its
    block and the words of the block. *)
Lemma holds_keep h A h' A' o :
  rep h A → 0 < base ∧ base + 4 * len h ≤ 2 ^ 32 → holds base h A o →
  (∀ x, ptr o = addr_of base (x + 1) → bsize (blocks A) x < 0 →
    bsize (blocks A') x = bsize (blocks A) x ∧
    ∀ j, x ≤ j < x - bsize (blocks A) x → array h' j = array h j) →
  holds base h' A' o.
Proof.
  intros Hr Hb (x & Ep & Ho & Hx & Hc) Hk. exists x. pose proof (ints_of_bound (osize o)).
  destruct (Hk x Ep) as [Ex Ea]; [lia|].
  split; [done|]. split; [done|]. split; [lia|].
  intros i Hi0 Hi. rewrite Ea; [by apply Hc|].
  pose proof (ints_of_payload _ Ho). lia.
Qed.

Lemma ptr_index x y l :
  0 < base → 0 ≤ x < l - 1 → 0 ≤ y < l - 1 → base + 4 * l ≤ 2 ^ 32 →
  addr_of base (x + 1) = addr_of base (y + 1) → x = y.
Proof.
  intros. destruct (index_of_addr x l) as [? E]; [lia..|].
  destruct (index_of_addr y l) as [? E']; [lia..|]. lia.
Qed.

Lemma serve_malloc h A live bytes :
  client_inv base h A live → 0 < bytes < 2 ^ 32 - 3 →
  wp (serve base live (Malloc bytes))
     (λ live' h', len h' = len h ∧ ∃ A', client_inv base h' A' live') h.
Proof.
  intros [Hr Hb Hc Hnd Hh] Hby. simpl. apply wp_bind.
  eapply wp_mono; [apply (wp_malloc base h A); [done|lia]|].
  intros p h' Hp. pose proof (ints_of_bound bytes).
  destruct (a_malloc_spec h A (ints_of bytes) Hr) as [[Ea _]|(it & Ea & Hin & Hit & Hsz & Hlen & _)];
    rewrite Ea in Hp.
  - rewrite decide_True in Hp by done. destruct Hp as (-> & Hr' & Hk). rewrite decide_True by done.
    apply wp_ret. pose proof (proj1 Hk). split; [done|]. exists A. split; try done; [by rewrite H0|].
    eapply Forall_impl; [exact Hh|]. intros o Ho.
    eapply holds_keep; [exact Hr|exact Hb|exact Ho|]. intros x _ Hx. split; [done|].
    intros j Hj. apply Hk. by eapply taken_word_bsize.
  - rewrite decide_False in Hp by lia. destruct Hp as (-> & Hr' & Hk).
    destruct (carve_bsize h A it (ints_of bytes) Hr Hin) as (Hpos & Hnew & Hold); [lia|].
    destruct (index_of_addr it (len h)) as [Eaddr Eidx]; [lia..|].
    rewrite decide_False by lia. heap_steps. split; [apply Hk|].
    exists (carve it (ints_of bytes) A). split; simpl.
    + done.
    + by rewrite (proj1 Hk).
    + eapply carve_coalesced; [exact Hr|done|lia|done].
    + constructor; [|done]. intros (o & Eo & Ho)%list_elem_of_fmap.
      rewrite Forall_forall in Hh. destruct (Hh _ Ho) as (y & Ey & _ & Hy & _).
      pose proof (ints_of_bound (osize o)).
      destruct (taken_bounds h A y Hr) as (?&?&?); [lia|].
      destruct (Hold y) as [Hne _]; [lia|]. apply Hne.
      apply (ptr_index y it (len h)); lia.
    + constructor.
      * exists it. simpl. rewrite Eidx. split; [done|]. split; [done|]. done.
      * eapply Forall_impl; [exact Hh|]. intros o Ho.
        eapply holds_keep; [exact Hr|exact Hb|exact Ho|].
        intros x _ Hx. destruct (Hold x Hx) as [_ ->]. split; [done|].
        intros j Hj. apply Hk. by eapply taken_word_bsize.
Qed.

Lemma serve_free h A live k :
  client_inv base h A live →
  wp (serve base live (Free k))
     (λ live' h', len h' = len h ∧ ∃ A', client_inv base h' A' live') h.
Proof.
  intros [Hr Hb Hc Hnd Hh]. simpl.
  destruct (live !! k) as [o|] eqn:Ek; [|apply wp_ret; split; [done|by exists A]].
  pose proof (proj1 (Forall_lookup _ _) Hh _ _ Ek) as (x & Ep & Ho & Hx & _).
  pose proof (ints_of_bound (osize o)).
  destruct (bsize_split (blocks A) x) as (l & r & E & Ex); [lia|].
  set (b := bsize (blocks A) x) in *. rewrite Ep, Ex.
  apply wp_bind. eapply wp_mono; [apply (wp_free base h A l b r); [done|done|lia|lia|lia]|].
  intros _ h' [Hr' Hk]. apply wp_ret. split; [apply Hk|].
  destruct (release_facts _ _ _ _ _ Hr E) as [Hco Hold]; [lia|].
  exists (release (total l) A). split.
  - done.
  - by rewrite (proj1 Hk).
  - by apply Hco.
  - rewrite list_fmap_delete. by eapply sublist_NoDup, sublist_delete.
  - rewrite Forall_forall in Hh |- *. intros o' Ho'.
    assert (∃ i, live !! i = Some o' ∧ i ≠ k) as (i & Ei & Hik).
    { apply list_elem_of_lookup in Ho' as [i Hi].
      destruct (decide (i < k)%nat).
      - exists i. rewrite list_lookup_delete_lt in Hi by done. split; [done|lia].
      - exists (S i). rewrite list_lookup_delete_ge in Hi by lia. split; [done|lia]. }
    eapply holds_keep; [exact Hr|exact Hb|by eapply Hh, list_elem_of_lookup_2|].
    intros y Ey Hy. assert (y ≠ total l).
    { intros ->. apply Hik, (NoDup_lookup (ptr <$> live) i k (ptr o)); [done|..];
        rewrite list_lookup_fmap; [rewrite Ei|by rewrite Ek]; simpl; congruence. }
    split; [by apply Hold|]. intros j Hj. apply Hk.
    rewrite E in Hy, Hj. pose proof (lk_sizes _ _ _ (rep_linked _ _ Hr)) as Hok.
    rewrite E in Hok. by eapply outside_bsize.
Qed.

Lemma taken_disjoint h A x y :
  rep h A → bsize (blocks A) x < 0 → bsize (blocks A) y < 0 → x ≠ y →
  x - bsize (blocks A) x ≤ y ∨ y - bsize (blocks A) y ≤ x.
Proof.
  intros [Hl _ _] Hx Hy Hne. rewrite bsize_eq in *. rewrite (bsize_eq _ y) in *.
  pose proof (lk_sizes _ _ _ Hl) as Hok.
  destruct (decide (x < y)).
  - left. pose proof (bsize_at_disjoint 0 (blocks A) x y Hok). lia.
  - right. pose proof (bsize_at_disjoint 0 (blocks A) y x Hok). lia.
Qed.

Lemma serve_store h A live k i v :
  client_inv base h A live →
  wp (serve base live (Store k i v))
     (λ live' h', len h' = len h ∧ ∃ A', client_inv base h' A' live') h.
Proof.
  intros [Hr Hb Hc Hnd Hh]. simpl.
  destruct (live !! k) as [o|] eqn:Ek; [|apply wp_ret; split; [done|by exists A]].
  wp_step; [|apply wp_ret; split; [done|by exists A]].
  pose proof (proj1 (Forall_lookup _ _) Hh _ _ Ek) as (x & Ep & Ho & Hx & Hcon).
  pose proof (ints_of_bound (osize o)). pose proof (ints_of_payload _ Ho).
  destruct (taken_bounds h A x Hr) as (?&?&?); [lia|].
  destruct (index_of_addr x (len h)) as [_ Eidx]; [lia..|].
  rewrite Ep, Eidx. heap_steps. split; [done|]. exists A.
  split; [eapply (rep_write h A x); [done|lia..]|done|done| |].
  - rewrite list_fmap_insert. simpl. rewrite list_insert_id; [done|].
    rewrite list_lookup_fmap, Ek. simpl. congruence.
  - apply Forall_lookup. intros j o' Ej.
    apply list_lookup_insert_Some in Ej as [(<- & <- & _)|[Hne Ej]].
    + exists x. simpl. split; [congruence|]. split; [done|]. split; [lia|].
      intros i' Hi0 Hi1. destruct (decide (i' = i)) as [->|]; [by upd_simp|].
      upd_simp. by apply Hcon.
    + eapply holds_keep; [exact Hr|exact Hb|by eapply (proj1 (Forall_lookup _ _) Hh)|].
      intros y Ey Hy. split; [done|]. intros w Hw. simpl. apply upd_ne.
      destruct (taken_disjoint h A x y Hr) as [|]; [lia|lia| |lia|lia].
      intros ->. apply Hne, (NoDup_lookup (ptr <$> live) k j (ptr o)); [done|..];
        rewrite list_lookup_fmap; [by rewrite Ek|rewrite Ej]; simpl; congruence.
Qed.

Lemma client_safe h A live rs :
  client_inv base h A live → Forall sane_request rs →
  wp (client base live rs)
     (λ live' h', len h' = len h ∧ ∃ A', client_inv base h' A' live') h.
Proof.
  intros Hi Hrs. revert h A live Hi.
  induction Hrs as [|r rs Hr Hrs IH]; intros h A live Hi; simpl.
  { apply wp_ret. split; [done|by exists A]. }
  apply wp_bind. eapply wp_mono with (Q := λ live' h', len h' = len h ∧ ∃ A', client_inv base h' A' live').
  - destruct r; [by eapply serve_malloc|by eapply serve_free|by eapply serve_store].
  - intros live' h' (Hlen & A' & Hi'). rewrite <-Hlen. by eapply IH.
Qed.

(** What the invariant says of two objects held. *)
Lemma client_inv_disjoint h A live i j o o' :
  client_inv base h A live → live !! i = Some o → live !! j = Some o' → i ≠ j →
  ptr o + osize o ≤ ptr o' ∨ ptr o' + osize o' ≤ ptr o.
Proof.
  intros [Hr Hb _ Hnd Hh] Ei Ej Hne.
  destruct (proj1 (Forall_lookup _ _) Hh _ _ Ei) as (x & Ex & Ho & Hx & _).
  destruct (proj1 (Forall_lookup _ _) Hh _ _ Ej) as (y & Ey & Ho' & Hy & _).
  pose proof (ints_of_bound (osize o)). pose proof (ints_of_bound (osize o')).
  pose proof (ints_of_payload _ Ho). pose proof (ints_of_payload _ Ho').
  destruct (taken_bounds h A x Hr) as (?&?&?); [lia|].
  destruct (taken_bounds h A y Hr) as (?&?&?); [lia|].
  destruct (index_of_addr x (len h)) as [Eax _]; [lia..|].
  destruct (index_of_addr y (len h)) as [Eay _]; [lia..|].
  rewrite Ex, Ey, Eax, Eay.
  destruct (taken_disjoint h A x y Hr) as [|]; [lia|lia| |lia|lia].
  intros ->. apply Hne, (NoDup_lookup (ptr <$> live) i j (ptr o)); [done|..];
    rewrite list_lookup_fmap; [by rewrite Ei|rewrite Ej]; simpl; congruence.
Qed.

(** What it says of one: inside the heap, with its words in place. *)
Lemma client_inv_in h A live o :
  client_inv base h A live → o ∈ live →
  base + 4 ≤ ptr o ∧ ptr o + osize o ≤ base + 4 * len h ∧ ptr o mod 4 = base mod 4 ∧
  ∀ i, 0 ≤ i → 4 * i < osize o → array h (index_of base (ptr o) + 1 + i) = contents o i.
Proof.
  intros [Hr Hb _ _ Hh] Hin. rewrite Forall_forall in Hh.
  destruct (Hh _ Hin) as (x & Ex & Ho & Hx & Hc).
  pose proof (ints_of_bound (osize o)). pose proof (ints_of_payload _ Ho).
  destruct (taken_bounds h A x Hr) as (?&?&?); [lia|].
  destruct (index_of_addr x (len h)) as [Eax Eix]; [lia..|].
  rewrite Ex, Eix, Eax. split_and!; [lia|lia| |done].
  rewrite (Z.mul_comm 4), Z.mod_add; lia.
Qed.
End client_proofs.

(** ** The properties *)

Section properties.
Implicit Types (h : heap) (A : astate) (o : object).

(** C2. From the state the kernel boots with, [heapInit] followed by any
    sequence of allocations, frees of held objects and writes into held
    objects runs to completion: no panic, no access outside the array,
    no signed overflow and no endless search.  Afterwards every held
    object lies inside the heap's memory, is word aligned, still contains
    what its owner last wrote, and shares no byte with another one. *)
Theorem heap_client_safe base bytes lock_bytes memory rs :
  32 ≤ bytes < 2 ^ 32 → 0 < lock_bytes < 2 ^ 32 - 3 →
  ints_of lock_bytes ≤ bytes / 4 - 4 → 0 < base → base + bytes ≤ 2 ^ 32 →
  Forall sane_request rs →
  ∃ p h0 live h,
    heapInit base bytes lock_bytes (boot memory) = Ok p h0 ∧
    client base [mkObj p lock_bytes (λ i, array h0 (3 + i))] rs h0 = Ok live h ∧
    (∀ o, o ∈ live →
      base + 4 ≤ ptr o ∧ ptr o + osize o ≤ base + bytes ∧ ptr o mod 4 = base mod 4 ∧
      ∀ i, 0 ≤ i → 4 * i < osize o → array h (index_of base (ptr o) + 1 + i) = contents o i) ∧
    (∀ i j o o', live !! i = Some o → live !! j = Some o' → i ≠ j →
      ptr o + osize o ≤ ptr o' ∨ ptr o' + osize o' ≤ ptr o).
Proof.
  intros Hb Hlk Hfit Hbase Hend Hrs.
  pose proof (Z.mul_div_le bytes 4 ltac:(lia)).
  destruct (proj1 (wp_Ok _ _ _) (wp_heapInit base bytes lock_bytes memory Hb
    ltac:(lia) Hfit Hbase Hend)) as (p & h0 & E0 & -> & A & Hr & Hlen & Hc & Hs).
  assert (Hi : client_inv base h0 A
    [mkObj (addr_of base 3) lock_bytes (λ i, array h0 (3 + i))]).
  { split; [done|lia|done|apply NoDup_singleton|].
    constructor; [|done]. exists 2. split_and!; simpl; done || lia. }
  destruct (proj1 (wp_Ok _ _ _) (client_safe h0 A _ rs Hi Hrs))
    as (live & h & E1 & El & A' & Hi').
  exists (addr_of base 3), h0, live, h. split_and!; [done|done| |].
  - intros o Ho. destruct (client_inv_in h A' live o Hi' Ho) as (?&?&?&?).
    split_and!; [done|lia|done|done].
  - intros. by eapply client_inv_disjoint.
Qed.

(** C25. [malloc] on a well-formed heap is best fit among the first twenty
    blocks of the free list that are large enough: it returns null,
    leaving the heap as it was, exactly when no available block fits the
    request, and otherwise the payload of one of those twenty, the first of
    the smallest, carved to the requested size with the rest left
    available.  Words of taken blocks are untouched. *)
Theorem malloc_best_fit base h A bytes :
  rep h A → 0 < bytes < 2 ^ 32 - 3 → 0 < base → base + 4 * len h ≤ 2 ^ 32 →
  ∃ p h', malloc base bytes h = Ok p h' ∧ keeps (taken_word 0 (blocks A)) h h' ∧
    bytes ≤ 4 * (ints_of bytes - 2) ∧
    ((p = 0 ∧ rep h' A ∧ ∀ x, x ∈ flist A → bsize (blocks A) x < ints_of bytes) ∨
     ∃ it, p = base + 4 * (it + 1) ∧ it ∈ flist A ∧ ints_of bytes ≤ bsize (blocks A) it ∧
           rep h' (carve it (ints_of bytes) A) ∧
           (coalesced (blocks A) → coalesced (blocks (carve it (ints_of bytes) A))) ∧
           first_smallest (bsize (blocks A)) it (candidates (bsize (blocks A)) (ints_of bytes) 20 (flist A))).
Proof.
  intros Hr Hb Hbase Hend. pose proof (ints_of_bound bytes).
  destruct (proj1 (wp_Ok _ _ _) (wp_malloc base h A bytes Hr ltac:(lia))) as (p & h' & E & Hp).
  exists p, h'. split; [done|].
  destruct (a_malloc_spec h A (ints_of bytes) Hr)
    as [[Ea Hno]|(it & Ea & Hin & Hit & Hsz & Hlen & Hbest)]; rewrite Ea in Hp.
  - rewrite decide_True in Hp by done. destruct Hp as (-> & Hr' & Hk).
    split; [done|]. split; [by apply ints_of_payload|]. by left.
  - rewrite decide_False in Hp by lia. destruct Hp as (-> & Hr' & Hk).
    split; [done|]. split; [by apply ints_of_payload|]. right. exists it.
    destruct (index_of_addr (base := base) it (len h)) as [-> _]; [lia..|].
    split_and!; try done. eapply carve_coalesced; [exact Hr|done|lia].
Qed.

(** C24. [free] of a block [b] between the blocks [l] and [r] succeeds,
    leaves every word of the other taken blocks alone, and puts back one
    available block made of [b] and of whichever neighbours were
    available, so that a heap without adjacent available blocks stays
    without them. *)
Theorem free_merges base h A l b r :
  rep h A → blocks A = l ++ b :: r → b ≤ -4 → 0 < base → base + 4 * len h ≤ 2 ^ 32 →
  ∃ h' l1 ml mr r1,
    free base (base + 4 * (total l + 1)) h = Ok () h' ∧
    rep h' (release (total l) A) ∧ keeps (outside l (Z.abs b) r) h h' ∧
    l = l1 ++ ml ∧ r = mr ++ r1 ∧ Forall (λ c, 0 < c) (ml ++ mr) ∧
    blocks (release (total l) A) = l1 ++ [total (ml ++ b :: mr)] ++ r1 ∧
    (coalesced (blocks A) → coalesced (blocks (release (total l) A))).
Proof.
  intros Hr E Hb Hbase Hend.
  destruct (proj1 (wp_Ok _ _ _) (wp_free base h A l b r Hr E Hb Hbase Hend))
    as ([] & h' & Ef & Hr' & Hk).
  destruct (release_shape _ _ _ _ _ Hr E Hb)
    as (l1 & ml & mr & r1 & El & Er & Hml & Hmr & _ & _ & Eb).
  exists h', l1, ml, mr, r1.
  pose proof (lk_total _ _ _ (rep_linked _ _ Hr)) as Ht.
  rewrite E, total_app in Ht. simpl in Ht.
  pose proof (total_nonneg l). pose proof (total_nonneg r).
  destruct (index_of_addr (base := base) (total l) (len h)) as [Ea _]; [lia..|].
  rewrite Ea in Ef. split_and!; try done.
  - apply Forall_app; split; (eapply Forall_impl; [eassumption|]); simpl; lia.
  - by destruct (release_facts _ _ _ _ _ Hr E Hb).
Qed.

(** [heapInit] turns any memory into a well-formed heap of
    [bytes / 4] words with two-word fences at both ends, and the lock's
    object is its first allocation, right after the low fence. *)
Theorem heapInit_establishes base bytes lock_bytes memory :
  32 ≤ bytes < 2 ^ 32 → 0 < lock_bytes < 2 ^ 32 - 3 →
  ints_of lock_bytes ≤ bytes / 4 - 4 → 0 < base → base + bytes ≤ 2 ^ 32 →
  ∃ h A, heapInit base bytes lock_bytes (boot memory) = Ok (base + 12) h ∧
         rep h A ∧ len h = bytes / 4 ∧ coalesced (blocks A) ∧
         bsize (blocks A) 2 ≤ - ints_of lock_bytes.
Proof.
  intros Hb Hlk Hfit Hbase Hend.
  pose proof (Z.mul_div_le bytes 4 ltac:(lia)).
  destruct (proj1 (wp_Ok _ _ _) (wp_heapInit base bytes lock_bytes memory Hb
    ltac:(lia) Hfit Hbase Hend)) as (p & h & E & -> & A & Hr & Hlen & Hc & Hs).
  exists h, A. unfold addr_of in E. rewrite u32_small in E by lia. by split_and!.
Qed.

(** The size computation wraps around: a request for the largest
    three sizes a [size_t] holds is served like one for eight bytes. *)
Theorem malloc_size_wraps base bytes h :
  2 ^ 32 - 3 ≤ bytes < 2 ^ 32 → malloc base bytes h = malloc base 8 h.
Proof.
  intros Hb. unfold malloc. rewrite !decide_False by lia.
  assert (ints_of bytes = ints_of 8) as ->; [|done].
  unfold ints_of. replace (u32 (bytes + 3)) with (bytes + 3 - 2 ^ 32).
  - assert (bytes + 3 - 2 ^ 32 = 0 ∨ bytes + 3 - 2 ^ 32 = 1 ∨ bytes + 3 - 2 ^ 32 = 2)
      as [->|[->| ->]] by lia; reflexivity.
  - unfold u32. rewrite <-(Z_mod_plus_full _ (-1)). symmetry. apply Z.mod_small. lia.
Qed.
End properties.

(** ** Witnesses *)

(** A heap of 32 words at address 4096 whose lock takes 32 bytes. *)
Lemma heap_client_safe_witness :
  ∃ p h0 live h,
    heapInit 4096 128 32 (boot (λ _, 99)) = Ok p h0 ∧
    client 4096 [mkObj p 32 (λ i, array h0 (3 + i))]
      [Malloc 8; Store 0 1 7; Malloc 12; Free 1; Malloc 16] h0 = Ok live h ∧
    (∀ o, o ∈ live →
      4096 + 4 ≤ ptr o ∧ ptr o + osize o ≤ 4096 + 128 ∧ ptr o mod 4 = 4096 mod 4 ∧
      ∀ i, 0 ≤ i → 4 * i < osize o → array h (index_of 4096 (ptr o) + 1 + i) = contents o i) ∧
    (∀ i j o o', live !! i = Some o → live !! j = Some o' → i ≠ j →
      ptr o + osize o ≤ ptr o' ∨ ptr o' + osize o' ≤ ptr o).
Proof.
  apply (heap_client_safe 4096 128 32 (λ _, 99) [Malloc 8; Store 0 1 7; Malloc 12; Free 1; Malloc 16]);
    [lia|lia|vm_compute; congruence|lia|lia|].
  repeat constructor; simpl; lia.
Defined.

(** The heap used by the witnesses: one taken block and one available. *)
Definition sample_heap : heap :=
  mkHeap (λ i, default 0 ([-2; -2; -6; 1; 2; 3; 4; -6; 6; 0; 0; 9; 9; 6; -2; -2] !! Z.to_nat i))
    16 0 8.
Definition sample_state : astate := mkA [-2; -6; 6; -2] [8].

Lemma sample_rep : rep sample_heap sample_state.
Proof.
  split; [split|..]; simpl; try done.
  - repeat constructor; unfold ok_size; lia.
  - apply NoDup_singleton.
  - exists [-6; 6]. split; [done|]. repeat constructor; lia.
Qed.

Lemma malloc_best_fit_witness :
  ∃ p h', malloc 4096 8 sample_heap = Ok p h' ∧
    keeps (taken_word 0 (blocks sample_state)) sample_heap h' ∧ 8 ≤ 4 * (ints_of 8 - 2) ∧
    ((p = 0 ∧ rep h' sample_state ∧
        ∀ x, x ∈ flist sample_state → bsize (blocks sample_state) x < ints_of 8) ∨
     ∃ it, p = 4096 + 4 * (it + 1) ∧ it ∈ flist sample_state ∧
           ints_of 8 ≤ bsize (blocks sample_state) it ∧
           rep h' (carve it (ints_of 8) sample_state) ∧
           (coalesced (blocks sample_state) → coalesced (blocks (carve it (ints_of 8) sample_state))) ∧
           first_smallest (bsize (blocks sample_state)) it
             (candidates (bsize (blocks sample_state)) (ints_of 8) 20 (flist sample_state))).
Proof. apply (malloc_best_fit 4096 sample_heap sample_state 8); [apply sample_rep|lia|lia|simpl; lia]. Defined.

Lemma free_merges_witness :
  ∃ h' l1 ml mr r1,
    free 4096 (4096 + 4 * (total [-2] + 1)) sample_heap = Ok () h' ∧
    rep h' (release (total [-2]) sample_state) ∧ keeps (outside [-2] (Z.abs (-6)) [6; -2]) sample_heap h' ∧
    [-2] = l1 ++ ml ∧ [6; -2] = mr ++ r1 ∧ Forall (λ c, 0 < c) (ml ++ mr) ∧
    blocks (release (total [-2]) sample_state) = l1 ++ [total (ml ++ (-6) :: mr)] ++ r1 ∧
    (coalesced (blocks sample_state) → coalesced (blocks (release (total [-2]) sample_state))).
Proof.
  apply (free_merges 4096 sample_heap sample_state [-2] (-6) [6; -2]);
    [apply sample_rep|done|lia|lia|simpl; lia].
Defined.

Lemma heapInit_establishes_witness :
  ∃ h A, heapInit 4096 128 32 (boot (λ _, 99)) = Ok (4096 + 12) h ∧
         rep h A ∧ len h = 128 / 4 ∧ coalesced (blocks A) ∧
         bsize (blocks A) 2 ≤ - ints_of 32.
Proof.
  apply (heapInit_establishes 4096 128 32); [lia|lia|vm_compute; congruence|lia|lia].
Defined.

Lemma malloc_size_wraps_witness :
  malloc 4096 (2 ^ 32 - 1) sample_heap = malloc 4096 8 sample_heap.
Proof. apply malloc_size_wraps. lia. Defined.
