(* ===== verification/Libk.v ===== *)
(** * C strings and libk.cc

    A pointer to characters is modelled by the characters from it to the
    end of its object, so that reading past the object is undefined; the
    functions of kernel/libk.cc over such pointers, and the literals of
    the other components. *)

From S2P Require Import Prelude.
From Stdlib Require Export Ascii.

(** ** Characters and literals *)

Definition chr (a : ascii) : Z := Z.of_N (N_of_ascii a).
#[global] Arguments chr a%_char.

(** The characters of a literal, without its terminating zero. *)
Definition lit (s : string) : list Z := map chr (String.list_ascii_of_string s).

(** The object a literal is stored in. *)
Definition cstring (s : list Z) : list Z := s ++ [0].

(** [p[i]]. *)
Definition char_at {S} (p : list Z) (i : Z) : M S Z :=
  if decide (0 ≤ i) then
    match p !! Z.to_nat i with Some c => mret c | None => fault end
  else fault.

(** [*p++]: the character and the advanced pointer. *)
Definition char_next {S} (p : list Z) : M S (Z * list Z) :=
  match p with c :: p' => mret (c, p') | [] => fault end.

(** ** libk.cc *)

Definition strlen_body {S} (st : list Z * Z) : M S ((list Z * Z) + Z) :=
  let '(str, n) := st in
  r ← char_next str;
  let '(c, str) := r : Z * list Z in
  if decide (c ≠ 0) then n ← chk (n + 1); mret (inl (str, n)) else mret (inr n).

Definition strlen {S} (str : list Z) : M S Z :=
  iter (Datatypes.S (List.length str)) strlen_body (str, 0).

Definition isdigit (c : Z) : bool :=
  bool_decide (c >= chr "0") && bool_decide (c <= chr "9").

Definition streq_body {S} (a b : list Z) (i : Z) : M S (Z + bool) :=
  x ← char_at a i;
  y ← char_at b i;
  if decide (x ≠ y) then mret (inr false) else
  if decide (x = 0) then mret (inr true) else
  i ← chk (i + 1);
  mret (inl i).

Definition streq {S} (a b : list Z) : M S bool :=
  iter (Datatypes.S (List.length a)) (streq_body a b) 0.

(** ** What they compute *)

(** [p] points to the string [s]. *)
Definition points_to (p s : list Z) : Prop := (0 ∉ s) ∧ ∃ rest, p = s ++ 0 :: rest.

Lemma points_to_cons c p s :
  points_to (c :: p) s → (c = 0 ∧ s = []) ∨ ∃ s', c ≠ 0 ∧ s = c :: s' ∧ points_to p s'.
Proof.
  intros (Hs & rest & E). destruct s as [|d s]; [by simplify_eq/=; left|].
  simplify_eq/=. right. exists s. apply not_elem_of_cons in Hs as [? Hs].
  split_and!; [done|done|]. split; [done|by eexists].
Qed.

Lemma points_to_cstring s : 0 ∉ s → points_to (cstring s) s.
Proof. intros. split; [done|by exists []]. Qed.

Lemma points_to_length p s : points_to p s → (List.length s < List.length p)%nat.
Proof. intros (_ & rest & ->). rewrite length_app. simpl. lia. Qed.

Lemma wp_strlen {S} p s (Q : Z → S → Prop) σ :
  points_to p s → Z.of_nat (List.length s) ≤ int_max →
  Q (Z.of_nat (List.length s)) σ → wp (strlen p) Q σ.
Proof.
  intros Hp Hlen HQ. unfold strlen.
  enough (∀ fuel n p s, points_to p s → (List.length s < fuel)%nat → 0 ≤ n →
    n + Z.of_nat (List.length s) ≤ int_max → Q (n + Z.of_nat (List.length s)) σ →
    wp (iter fuel strlen_body (p, n)) Q σ) as H.
  { apply (H _ 0 p s); [done| |lia|lia|done]. apply points_to_length in Hp. lia. }
  clear. induction fuel as [|fuel IH]; intros n p s Hp Hf Hn Hlen HQ; [lia|].
  cbn [iter]. apply wp_bind. pose proof (points_to_length _ _ Hp).
  destruct p as [|c p]; [simpl in *; lia|].
  unfold strlen_body, char_next. apply wp_bind, wp_ret.
  destruct (points_to_cons _ _ _ Hp) as [[-> ->]|(s' & Hc & -> & Hp')].
  - rewrite decide_False by congruence. apply wp_ret, wp_ret. by rewrite Z.add_0_r in HQ.
  - rewrite decide_True by done. simpl in *. apply wp_bind, wp_chk.
    { unfold int_min, int_max in *. lia. }
    apply wp_ret, (IH _ _ s'); [done|lia|lia|lia|].
    by replace (n + 1 + _) with (n + Z.pos (Pos.of_succ_nat (List.length s'))) by lia.
Qed.

(** The characters of a pointed-to string, and its end. *)
Lemma points_to_at p s i :
  points_to p s → 0 ≤ i ≤ Z.of_nat (List.length s) →
  p !! Z.to_nat i = Some (default 0 (s !! Z.to_nat i)).
Proof.
  intros (_ & rest & ->) Hi. destruct (decide (i = Z.of_nat (List.length s))) as [->|].
  - rewrite Nat2Z.id, list_lookup_middle by done. by rewrite lookup_ge_None_2 by lia.
  - rewrite lookup_app_l by lia.
    destruct (lookup_lt_is_Some_2 s (Z.to_nat i)) as [c ->]; [lia|done].
Qed.

Lemma wp_char_at {S} p i c (Q : Z → S → Prop) σ :
  0 ≤ i → p !! Z.to_nat i = Some c → Q c σ → wp (char_at p i) Q σ.
Proof. intros Hi E HQ. unfold char_at. rewrite decide_True by done. by rewrite E. Qed.

(** Two strings that agree up to [i] and beyond. *)
Lemma wp_streq {S} p q s t (Q : bool → S → Prop) σ :
  points_to p s → points_to q t → Z.of_nat (List.length s) < int_max →
  Q (bool_decide (s = t)) σ → wp (streq p q) Q σ.
Proof.
  intros Hp Hq Hlen HQ. unfold streq.
  apply (wp_iter (λ i σ', σ' = σ ∧ 0 ≤ i ∧ i ≤ Z.of_nat (List.length s) ∧
                          i ≤ Z.of_nat (List.length t) ∧
                          take (Z.to_nat i) s = take (Z.to_nat i) t)
                 (λ i _, (List.length s - Z.to_nat i)%nat)).
  - intros i σ' (-> & Hi & His & Hit & Et). unfold streq_body.
    apply wp_bind. eapply wp_char_at; [done|by apply points_to_at|].
    apply wp_bind. eapply wp_char_at; [done|by apply points_to_at|].
    destruct Hp as [Hs _], Hq as [Ht _].
    assert (∀ c, s !! Z.to_nat i = Some c → c ≠ 0) as Hs'.
    { intros c Hc ->. by apply list_elem_of_lookup_2 in Hc. }
    assert (∀ c, t !! Z.to_nat i = Some c → c ≠ 0) as Ht'.
    { intros c Hc ->. by apply list_elem_of_lookup_2 in Hc. }
    repeat wp_step.
    + rewrite bool_decide_false in HQ; [done|]. by intros ->.
    + apply dec_stable in n.
      destruct (s !! Z.to_nat i) eqn:Es; [by edestruct Hs'|].
      destruct (t !! Z.to_nat i) eqn:Et'; simpl in *; [by edestruct Ht'|].
      apply lookup_ge_None in Es, Et'.
      rewrite !take_ge in Et by done. subst t. by rewrite bool_decide_true in HQ.
    + apply dec_stable in n.
      destruct (s !! Z.to_nat i) as [c|] eqn:Es; simpl in *; [|done].
      destruct (t !! Z.to_nat i) as [d|] eqn:Et'; simpl in *; [|done]. subst d.
      pose proof (lookup_lt_Some _ _ _ Es). pose proof (lookup_lt_Some _ _ _ Et').
      apply wp_chk; [unfold int_min, int_max in *; lia|]. apply wp_ret.
      replace (Z.to_nat (i + 1)) with (Datatypes.S (Z.to_nat i)) by lia.
      split_and!; try done; try lia.
      by rewrite (take_S_r _ _ _ Es), (take_S_r _ _ _ Et'), Et.
  - split_and!; try done; lia.
  - apply points_to_length in Hp. lia.
Qed.
