(* ===== verification/Snprintf.v ===== *)
(** * Formatted output (kernel/snprintf.cc)

    [dopr], the interpreter of format strings behind [K::vsnprintf] and
    the user library's [vprintf], and the three functions that lay out a
    string, an integer and a floating-point number.  The output stream is
    a state [W] with a [put]; an argument list is the list of its 32-bit
    words (i386 calling convention) and [deref] gives the characters a
    [char *] argument points to.  A [long double] is a floating-point
    number of 64-bit precision and 15-bit exponent (x87). *)

From S2P Require Import Prelude.
From S2P Require Import Libk.
From Stdlib Require Import SpecFloat.

(** ** Data *)

Inductive dp_state :=
| DP_S_DEFAULT | DP_S_FLAGS | DP_S_MIN | DP_S_DOT | DP_S_MAX | DP_S_MOD | DP_S_CONV
| DP_S_DONE.

#[export] Instance dp_state_eq_dec : EqDecision dp_state.
Proof. solve_decision. Defined.

Definition DP_F_MINUS : Z := Z.shiftl 1 0.
Definition DP_F_PLUS : Z := Z.shiftl 1 1.
Definition DP_F_SPACE : Z := Z.shiftl 1 2.
Definition DP_F_NUM : Z := Z.shiftl 1 3.
Definition DP_F_ZERO : Z := Z.shiftl 1 4.
Definition DP_F_UP : Z := Z.shiftl 1 5.
Definition DP_F_UNSIGNED : Z := Z.shiftl 1 6.

Definition DP_C_SHORT : Z := 1.
Definition DP_C_LONG : Z := 2.
Definition DP_C_LDOUBLE : Z := 3.

(** [flags & f] as a condition. *)
Definition has (flags f : Z) : bool := bool_decide (Z.land flags f ≠ 0).

Definition char_to_int (p : Z) : Z := p - chr "0".
Definition MAX (p q : Z) : Z := if decide (p >= q) then p else q.

(** The local variables of [dopr]. *)
Record dp := mkDp { ch : Z; state : dp_state; flags : Z; cflags : Z; dmin : Z; dmax : Z }.

(** ** x87 arithmetic of [fmtfp] *)

Definition ldouble := spec_float.
Definition ld_of_int (z : Z) : ldouble := binary_normalize 64 16384 z 0 false.
Definition ld_mul : ldouble → ldouble → ldouble := SFmul 64 16384.
Definition ld_sub : ldouble → ldouble → ldouble := SFsub 64 16384.

(** Conversion to [long] truncates; a value out of range is undefined. *)
Definition ld_to_long {S} (f : ldouble) : M S Z :=
  match f with
  | S754_zero _ => mret 0
  | S754_finite s m e =>
      let a := if decide (0 ≤ e) then Z.shiftl (Z.pos m) e else Z.shiftr (Z.pos m) (- e) in
      chk (if s then - a else a)
  | _ => fault
  end.

(** Decoding of a [double] (two words) and a [long double] (three). *)
Definition double_of (lo hi : Z) : ldouble :=
  let bits := lo + 2 ^ 32 * hi in
  let s := Z.testbit bits 63 in
  let e := Z.shiftr bits 52 mod 2 ^ 11 in
  let m := bits mod 2 ^ 52 in
  let mk m e := binary_normalize 64 16384 (if s then - m else m) e s in
  if decide (e = 2047) then (if decide (m = 0) then S754_infinity s else S754_nan)
  else if decide (e = 0) then mk m (-1074)
  else mk (m + 2 ^ 52) (e - 1075).

Definition ldouble_of (lo hi ex : Z) : ldouble :=
  let m := lo + 2 ^ 32 * hi in
  let s := Z.testbit ex 15 in
  let e := ex mod 2 ^ 15 in
  if decide (e = 32767) then (if decide (m = 2 ^ 63) then S754_infinity s else S754_nan)
  else binary_normalize 64 16384 (if s then - m else m) (Z.max e 1 - 16383 - 63) s.

(** ** The formatter *)

Section snprintf.
Context {W : Type} (put : Z → W → W) (deref : Z → list Z).

(** What the formatter works on: the stream, [currlen], the rest of the
    format and of the arguments, and the stores made for [%n] (address,
    width in bytes, value). *)
Record fmt := mkFmt {
  sink : W; currlen : Z; format : list Z; args : list Z; stores : list (Z * Z * Z)
}.

Definition dopr_outch (c : Z) : M fmt () :=
  n ← gets currlen;
  n ← chk (n + 1);
  modify (λ f, mkFmt (put c (sink f)) n (format f) (args f) (stores f)).

(** [*format++]. *)
Definition next_ch : M fmt Z :=
  p ← gets format;
  r ← char_next p;
  let '(c, p) := r : Z * list Z in
  modify (λ f, mkFmt (sink f) (currlen f) p (args f) (stores f));;
  mret c.

(** One word of [va_arg]. *)
Definition va_word : M fmt Z :=
  l ← gets args;
  match l with
  | w :: l => modify (λ f, mkFmt (sink f) (currlen f) (format f) l (stores f));; mret w
  | [] => fault
  end.

(** [va_arg] at [int], [long], [unsigned int] and [unsigned long], stored
    in a [long]. *)
Definition va_int : M fmt Z := w ← va_word; mret (i32 w).

Definition va_double : M fmt ldouble :=
  lo ← va_word; hi ← va_word; mret (double_of lo hi).
Definition va_ldouble : M fmt ldouble :=
  lo ← va_word; hi ← va_word; ex ← va_word; mret (ldouble_of lo hi ex).

(** The [char] an [int] converts to. *)
Definition i8 (z : Z) : Z := (z + 2 ^ 7) mod 2 ^ 8 - 2 ^ 7.

(** [while (n > 0) { dopr_outch(c); --n; }] and its mirror image. *)
Definition pad_down (c n : Z) : M fmt Z :=
  while (Datatypes.S (Z.to_nat n)) (λ n, bool_decide (n > 0))
    (λ n, dopr_outch c;; chk (n - 1)) n.
Definition pad_up (c n : Z) : M fmt Z :=
  while (Datatypes.S (Z.to_nat (- n))) (λ n, bool_decide (n < 0))
    (λ n, dopr_outch c;; chk (n + 1)) n.

(** The bytes of a string argument; [strln] is counted by a loop. *)
Definition fmtstr (value : option (list Z)) (flags min max : Z) : M fmt () :=
  let value := match value with None => cstring (lit "<NULL>") | Some v => v end in
  strln ← strlen value;
  padlen ← chk (min - strln);
  let padlen := if decide (padlen < 0) then 0 else padlen in
  padlen ← (if has flags DP_F_MINUS then chk (- padlen) else mret padlen);
  r ← while (Datatypes.S (Z.to_nat padlen))
        (λ '(padlen, cnt), bool_decide (padlen > 0) && bool_decide (cnt < max))
        (λ '(padlen, cnt), dopr_outch (chr " ");;
                           padlen ← chk (padlen - 1); cnt ← chk (cnt + 1);
                           mret (padlen, cnt)) (padlen, 0);
  let '(padlen, cnt) := r : Z * Z in
  r ← iter (Datatypes.S (List.length value))
        (λ st, let '(value, cnt) := st : list Z * Z in
               c ← char_at value 0;
               if bool_decide (c ≠ 0) && bool_decide (cnt < max) then
                 r ← char_next value;
                 let '(c, value) := r : Z * list Z in
                 dopr_outch c;;
                 cnt ← chk (cnt + 1);
                 mret (inl (value, cnt))
               else mret (inr cnt)) (value, cnt);
  while (Datatypes.S (Z.to_nat (- padlen)))
    (λ '(padlen, cnt), bool_decide (padlen < 0) && bool_decide (cnt < max))
    (λ '(padlen, cnt), dopr_outch (chr " ");;
                       padlen ← chk (padlen + 1); cnt ← chk (cnt + 1);
                       mret (padlen, cnt)) (padlen, r);;
  mret ().

(** The digit characters, and a buffer of 20 of them filled from the least
    significant digit up. *)
Definition digit_chars (caps : bool) : list Z :=
  if caps then lit "0123456789ABCDEF" else lit "0123456789abcdef".

Definition convert_body (caps : bool) (base : Z) (st : Z * list Z) :
    M fmt ((Z * list Z) + list Z) :=
  let '(uvalue, convert) := st in
  require (List.length convert < 20)%nat;;
  c ← char_at (digit_chars caps) (uvalue mod base);
  let convert := convert ++ [c] in
  let uvalue := uvalue / base in
  if bool_decide (uvalue ≠ 0) && bool_decide (List.length convert < 20)%nat
  then mret (inl (uvalue, convert))
  else mret (inr convert).

(** [if (place == 20) place--; convert[place] = 0]. *)
Definition convert_digits (caps : bool) (base uvalue : Z) : M fmt (list Z) :=
  convert ← iter 20 (convert_body caps base) (uvalue, []);
  mret (take 19 convert).

(** [while (place > 0) dopr_outch(convert[--place])]. *)
Fixpoint put_digits (convert : list Z) : M fmt () :=
  match convert with
  | [] => mret ()
  | c :: convert => put_digits convert;; dopr_outch c
  end.

Definition fmtint (value base min max flags : Z) : M fmt () :=
  let max := if decide (max < 0) then 0 else max in
  r ← (if has flags DP_F_UNSIGNED then mret (0, u32 value) else
       if decide (value < 0) then neg ← chk (- value); mret (chr "-", u32 neg) else
       if has flags DP_F_PLUS then mret (chr "+", u32 value) else
       if has flags DP_F_SPACE then mret (chr " ", u32 value) else
       mret (0, u32 value));
  let '(signvalue, uvalue) := r : Z * Z in
  let caps := has flags DP_F_UP in
  convert ← convert_digits caps base uvalue;
  let place := Z.of_nat (List.length convert) in
  zpadlen ← chk (max - place);
  spadlen ← chk (min - MAX max place);
  spadlen ← chk (spadlen - (if decide (signvalue ≠ 0) then 1 else 0));
  let zpadlen := if decide (zpadlen < 0) then 0 else zpadlen in
  let spadlen := if decide (spadlen < 0) then 0 else spadlen in
  let '(zpadlen, spadlen) :=
    if has flags DP_F_ZERO then (MAX zpadlen spadlen, 0) else (zpadlen, spadlen) in
  spadlen ← (if has flags DP_F_MINUS then chk (- spadlen) else mret spadlen);
  spadlen ← pad_down (chr " ") spadlen;
  (if decide (signvalue ≠ 0) then dopr_outch signvalue else mret ());;
  pad_down (chr "0") zpadlen;;
  put_digits convert;;
  pad_up (chr " ") spadlen;;
  mret ().

Definition abs_val (value : ldouble) : ldouble :=
  if SFltb value (ld_of_int 0) then SFopp value else value.

Definition pow10 (exp : nat) : ldouble :=
  Nat.iter exp (λ result, ld_mul result (ld_of_int 10)) (ld_of_int 1).

Definition xround (value : ldouble) : M fmt Z :=
  intpart ← ld_to_long value;
  let value := ld_sub value (ld_of_int intpart) in
  if SFleb (S754_finite false (2 ^ 63) (-64)) value then chk (intpart + 1) else mret intpart.

(** The padding variables of [fmtfp] from [padlen] on. *)
Definition fp_layout (flags signvalue padlen zpadlen max : Z) (iconvert fconvert : list Z) :
    M fmt () :=
  padlen ← (if has flags DP_F_MINUS then chk (- padlen) else mret padlen);
  r ← (if has flags DP_F_ZERO && bool_decide (padlen > 0) then
         r ← (if decide (signvalue ≠ 0) then
                dopr_outch signvalue;; padlen ← chk (padlen - 1); mret (0, padlen)
              else mret (signvalue, padlen));
         let '(signvalue, padlen) := r : Z * Z in
         padlen ← pad_down (chr "0") padlen;
         mret (signvalue, padlen)
       else mret (signvalue, padlen));
  let '(signvalue, padlen) := r : Z * Z in
  padlen ← pad_down (chr " ") padlen;
  (if decide (signvalue ≠ 0) then dopr_outch signvalue else mret ());;
  put_digits iconvert;;
  (if decide (max > 0) then dopr_outch (chr ".");; put_digits fconvert else mret ());;
  pad_down (chr "0") zpadlen;;
  pad_up (chr " ") padlen;;
  mret ().

Definition fmtfp (fvalue : ldouble) (min max flags : Z) : M fmt () :=
  let max := if decide (max < 0) then 6 else max in
  let ufvalue := abs_val fvalue in
  let signvalue := if SFltb fvalue (ld_of_int 0) then chr "-"
                   else if has flags DP_F_PLUS then chr "+"
                   else if has flags DP_F_SPACE then chr " " else 0 in
  intpart ← ld_to_long ufvalue;
  let max := if decide (max > 9) then 9 else max in
  let p := pow10 (Z.to_nat max) in
  fracpart ← xround (ld_mul p (ld_sub ufvalue (ld_of_int intpart)));
  r ← (if SFleb p (ld_of_int fracpart) then
         intpart ← chk (intpart + 1);
         fracpart ← ld_to_long (ld_sub (ld_of_int fracpart) p);
         mret (intpart, fracpart)
       else mret (intpart, fracpart));
  let '(intpart, fracpart) := r : Z * Z in
  iconvert ← convert_digits false 10 intpart;
  fconvert ← convert_digits false 10 fracpart;
  padlen ← chk (min - Z.of_nat (List.length iconvert));
  padlen ← chk (padlen - max);
  padlen ← chk (padlen - 1);
  padlen ← chk (padlen - (if decide (signvalue ≠ 0) then 1 else 0));
  let zpadlen := max - Z.of_nat (List.length fconvert) in
  let zpadlen := if decide (zpadlen < 0) then 0 else zpadlen in
  let padlen := if decide (padlen < 0) then 0 else padlen in
  fp_layout flags signvalue padlen zpadlen max iconvert fconvert.

(** A [char *] argument: null or what it points to. *)
Definition str_arg (w : Z) : option (list Z) :=
  if decide (w = 0) then None else Some (deref w).

(** The conversion switch of state [DP_S_CONV], before the variables are
    reset; it yields the character last read. *)
Definition dopr_conv (maxlen : Z) (d : dp) : M fmt Z :=
  let flags := flags d in
  let c := ch d in
  let fvalue := if decide (cflags d = DP_C_LDOUBLE) then va_ldouble else va_double in
  if decide (c = chr "d" ∨ c = chr "i") then
    value ← va_int; fmtint value 10 (dmin d) (dmax d) flags;; mret c
  else if decide (c = chr "o") then
    value ← va_int;
    fmtint value 8 (dmin d) (dmax d) (Z.lor flags DP_F_UNSIGNED);; mret c
  else if decide (c = chr "u") then
    value ← va_int;
    fmtint value 10 (dmin d) (dmax d) (Z.lor flags DP_F_UNSIGNED);; mret c
  else if decide (c = chr "X") then
    value ← va_int;
    fmtint value 16 (dmin d) (dmax d) (Z.lor (Z.lor flags DP_F_UP) DP_F_UNSIGNED);; mret c
  else if decide (c = chr "x") then
    value ← va_int;
    fmtint value 16 (dmin d) (dmax d) (Z.lor flags DP_F_UNSIGNED);; mret c
  else if decide (c = chr "f") then
    value ← fvalue; fmtfp value (dmin d) (dmax d) flags;; mret c
  else if decide (c = chr "E" ∨ c = chr "e" ∨ c = chr "G" ∨ c = chr "g") then
    fvalue;; mret c
  else if decide (c = chr "c") then
    value ← va_int; dopr_outch (i8 value);; mret c
  else if decide (c = chr "s") then
    w ← va_word;
    fmtstr (str_arg w) flags (dmin d) (if decide (dmax d < 0) then maxlen else dmax d);;
    mret c
  else if decide (c = chr "p") then
    value ← va_int; fmtint value 16 (dmin d) (dmax d) flags;; mret c
  else if decide (c = chr "n") then
    w ← va_word;
    n ← gets currlen;
    let width := if decide (cflags d = DP_C_SHORT) then 2 else 4 in
    modify (λ f, mkFmt (sink f) (currlen f) (format f) (args f)
                       ((w, width, n mod 2 ^ (8 * width)) :: stores f));;
    mret c
  else if decide (c = chr "%") then dopr_outch c;; mret c
  else if decide (c = chr "w") then next_ch
  else mret c.

(** One round of the loop of [dopr]. *)
Definition dopr_body (maxlen : Z) (d : dp) : M fmt (dp + ()) :=
  if decide (state d = DP_S_DONE) then mret (inr ()) else
  n ← gets currlen;
  let st := if decide (ch d = 0 ∨ n >= maxlen) then DP_S_DONE else state d in
  match st with
  | DP_S_DEFAULT =>
      st ← (if decide (ch d = chr "%") then mret DP_S_FLAGS
            else dopr_outch (ch d);; mret DP_S_DEFAULT);
      c ← next_ch;
      mret (inl (mkDp c st (flags d) (cflags d) (dmin d) (dmax d)))
  | DP_S_FLAGS =>
      let flag f := c ← next_ch;
                    mret (inl (mkDp c DP_S_FLAGS (Z.lor (flags d) f) (cflags d) (dmin d) (dmax d))) in
      if decide (ch d = chr "-") then flag DP_F_MINUS else
      if decide (ch d = chr "+") then flag DP_F_PLUS else
      if decide (ch d = chr " ") then flag DP_F_SPACE else
      if decide (ch d = chr "#") then flag DP_F_NUM else
      if decide (ch d = chr "0") then flag DP_F_ZERO else
      mret (inl (mkDp (ch d) DP_S_MIN (flags d) (cflags d) (dmin d) (dmax d)))
  | DP_S_MIN =>
      if isdigit (ch d) then
        m ← chk (10 * dmin d);
        m ← chk (m + char_to_int (ch d));
        c ← next_ch;
        mret (inl (mkDp c DP_S_MIN (flags d) (cflags d) m (dmax d)))
      else if decide (ch d = chr "*") then
        m ← va_int;
        c ← next_ch;
        mret (inl (mkDp c DP_S_DOT (flags d) (cflags d) m (dmax d)))
      else mret (inl (mkDp (ch d) DP_S_DOT (flags d) (cflags d) (dmin d) (dmax d)))
  | DP_S_DOT =>
      if decide (ch d = chr ".") then
        c ← next_ch;
        mret (inl (mkDp c DP_S_MAX (flags d) (cflags d) (dmin d) (dmax d)))
      else mret (inl (mkDp (ch d) DP_S_MOD (flags d) (cflags d) (dmin d) (dmax d)))
  | DP_S_MAX =>
      if isdigit (ch d) then
        let m := if decide (dmax d < 0) then 0 else dmax d in
        m ← chk (10 * m);
        m ← chk (m + char_to_int (ch d));
        c ← next_ch;
        mret (inl (mkDp c DP_S_MAX (flags d) (cflags d) (dmin d) m))
      else if decide (ch d = chr "*") then
        m ← va_int;
        c ← next_ch;
        mret (inl (mkDp c DP_S_MOD (flags d) (cflags d) (dmin d) m))
      else mret (inl (mkDp (ch d) DP_S_MOD (flags d) (cflags d) (dmin d) (dmax d)))
  | DP_S_MOD =>
      let modifier f := c ← next_ch;
                        mret (inl (mkDp c DP_S_CONV (flags d) f (dmin d) (dmax d))) in
      if decide (ch d = chr "h") then modifier DP_C_SHORT else
      if decide (ch d = chr "l") then modifier DP_C_LONG else
      if decide (ch d = chr "L") then modifier DP_C_LDOUBLE else
      mret (inl (mkDp (ch d) DP_S_CONV (flags d) (cflags d) (dmin d) (dmax d)))
  | DP_S_CONV =>
      dopr_conv maxlen d;;
      c ← next_ch;
      mret (inl (mkDp c DP_S_DEFAULT 0 0 0 (-1)))
  | DP_S_DONE => mret (inl (mkDp (ch d) DP_S_DONE (flags d) (cflags d) (dmin d) (dmax d)))
  end.

(** Every round reads a character or moves to a later state, so seven
    rounds per character of the format are enough. *)
Definition dopr (maxlen : Z) : M fmt () :=
  c ← next_ch;
  p ← gets format;
  iter (8 * List.length p + 16) (dopr_body maxlen) (mkDp c DP_S_DEFAULT 0 0 0 (-1)).

(** [K::vsnprintf] and [K::snprintf]: the arguments are the words after
    the format. *)
Definition vsnprintf (maxlen : Z) (fmt_ args_ : list Z) (w : W) : outcome fmt () :=
  dopr maxlen (mkFmt w 0 fmt_ args_ []).
End snprintf.

Arguments mkFmt {W}.
Arguments sink {W}.
Arguments currlen {W}.
Arguments format {W}.
Arguments args {W}.
Arguments stores {W}.

(** Streams that collect characters, for examples. *)
Definition collect (deref : Z → list Z) (maxlen : Z) (f : string) (a : list Z) :
    option (list Z) :=
  match vsnprintf (λ c w, c :: w) deref maxlen (cstring (lit f)) a [] with
  | Ok _ s => Some (rev (sink s))
  | _ => None
  end.

Example collect_ints :
  collect (λ _, []) 1000 "[%5d|%-5d|%05d|%+d|%x|%X|%5.3d|%c%%]" [42; 42; 42; 7; 255; 255; 9; 65]
  = Some (lit "[   42|42   |00042|+7|ff|FF|  009|A%]").
Proof. vm_compute. reflexivity. Qed.

Example collect_strings :
  collect (λ w, if decide (w = 5) then cstring (lit "hello") else cstring (lit "abc")) 1000
    "%s|%-7s|%7s|%.2s|%s" [5; 5; 6; 5; 0]
  = Some (lit "hello|hello  |    abc|he|<NULL>").
Proof. vm_compute. reflexivity. Qed.

(** The limit only stops the next item: this prints five characters. *)
Example collect_limit : collect (λ _, []) 1 "%5dx" [7] = Some (lit "    7").
Proof. vm_compute. reflexivity. Qed.

(** [%p] of an address in the upper half is printed as a negative number. *)
Example collect_pointer : collect (λ _, []) 100 "%p" [0xF0000000] = Some (lit "-10000000").
Proof. vm_compute. reflexivity. Qed.

(** [%w] at the end of a format reads past its terminating zero. *)
Example collect_unsupported : collect (λ _, []) 100 "%w" [] = None.
Proof. vm_compute. reflexivity. Qed.

(** 1.0625 comes out as 1.60: the zeros between the point and the digits
    of the fraction are written after them. *)
Example collect_fraction :
  collect (λ _, []) 1000 "%.2f" [0; 0x3FF10000] = Some (lit "1.60").
Proof. vm_compute. reflexivity. Qed.

(** 1.5, -2.25 and 3.0 as doubles. *)
Example collect_floats :
  collect (λ _, []) 1000 "%f|%8.2f|%.0f" [0; 0x3FF80000; 0; 0xC0020000; 0; 0x40080000]
  = Some (lit "1.500000|   -2.25|3").
Proof. vm_compute. reflexivity. Qed.
