(* ===== verification/SnprintfProps.v ===== *)
(** * What the formatter prints

    The layout of an integer and of a string, and the correctness of the
    state machine [dopr] as an interpreter of format directives. *)

From S2P Require Import Prelude.
From S2P Require Import Libk.
From S2P Require Import Snprintf.

(** ** Output *)

Section output.
Context {W : Type} (put : Z → W → W) (deref : Z → list Z).
Implicit Types (f : fmt (W := W)) (l : list Z).

(** The state after printing [l]. *)
Definition emit l f : fmt :=
  mkFmt (foldl (λ w c, put c w) (sink f) l) (currlen f + Z.of_nat (length l))
        (format f) (args f) (stores f).

(** There is room for [n] more characters in [currlen]. *)
Definition room f (n : Z) : Prop := 0 ≤ currlen f ∧ currlen f + n ≤ int_max.

Lemma emit_nil f : emit [] f = f.
Proof. destruct f. unfold emit. simpl. f_equal. lia. Qed.

Lemma emit_app l1 l2 f : emit (l1 ++ l2) f = emit l2 (emit l1 f).
Proof.
  unfold emit. simpl. rewrite foldl_app, length_app. f_equal. lia.
Qed.

Lemma room_emit l f n : room f (Z.of_nat (length l) + n) → room (emit l f) n.
Proof. unfold room. simpl. lia. Qed.

Lemma room_le f n m : room f n → m ≤ n → room f m.
Proof. unfold room. lia. Qed.

Lemma wp_outch c (Q : () → fmt → Prop) f :
  room f 1 → Q () (emit [c] f) → wp (dopr_outch put c) Q f.
Proof.
  intros [H1 H2] HQ. unfold dopr_outch. wp_go. exact HQ.
Qed.

(** Printing one more of a run of characters. *)
Lemma wp_outch_run c k f (Q : () → fmt → Prop) :
  room f (Z.of_nat (S k)) → Q () (emit (replicate (S k) c) f) →
  wp (dopr_outch put c) Q (emit (replicate k c) f).
Proof.
  intros Hr HQ. apply wp_outch.
  - apply room_emit. rewrite length_replicate. eapply room_le; [done|lia].
  - by rewrite <-emit_app, <-replicate_S_end.
Qed.

(** The padding loops print [n] times [c]. *)
Lemma wp_pad_down c n (Q : Z → fmt → Prop) f :
  n ≤ int_max → room f (Z.max n 0) →
  Q (Z.min n 0) (emit (replicate (Z.to_nat n) c) f) → wp (pad_down put c n) Q f.
Proof.
  intros Hn Hroom HQ. unfold pad_down, while.
  apply (wp_iter (λ m g, ∃ k : nat, m = n - Z.of_nat k ∧ (k = 0%nat ∨ 0 ≤ m) ∧
                              g = emit (replicate k c) f)
                 (λ m _, Z.to_nat m)); [|exists 0%nat; simpl; rewrite emit_nil; split_and!; [lia|by left|done]|lia].
  intros m g (k & -> & Hpos & ->). case_bool_decide as Hm.
  - do 2 apply wp_bind. apply wp_outch_run; [eapply room_le; [done|lia]|].
    wp_go. split; [|lia]. exists (S k). split_and!; [lia|lia|done].
  - apply wp_ret. replace (n - Z.of_nat k) with (Z.min n 0) by lia.
    by replace k with (Z.to_nat n) by lia.
Qed.

Lemma wp_pad_up c n (Q : Z → fmt → Prop) f :
  int_min < n → room f (Z.max (- n) 0) →
  Q (Z.max n 0) (emit (replicate (Z.to_nat (- n)) c) f) → wp (pad_up put c n) Q f.
Proof.
  intros Hn Hroom HQ. unfold pad_up, while.
  apply (wp_iter (λ m g, ∃ k : nat, m = n + Z.of_nat k ∧ (k = 0%nat ∨ m ≤ 0) ∧
                              g = emit (replicate k c) f)
                 (λ m _, Z.to_nat (- m))); [|exists 0%nat; simpl; rewrite emit_nil; split_and!; [lia|by left|done]|lia].
  intros m g (k & -> & Hpos & ->). case_bool_decide as Hm.
  - do 2 apply wp_bind. apply wp_outch_run; [eapply room_le; [done|lia]|].
    wp_go. split; [|lia]. exists (S k). split_and!; [lia|lia|done].
  - apply wp_ret. replace (n + Z.of_nat k) with (Z.max n 0) by lia.
    by replace k with (Z.to_nat (- n)) by lia.
Qed.

Lemma wp_put_digits l (Q : () → fmt → Prop) f :
  room f (Z.of_nat (length l)) → Q () (emit (rev l) f) → wp (put_digits put l) Q f.
Proof.
  revert f Q. induction l as [|c l IH]; intros f Q Hr HQ; simpl in *.
  - apply wp_ret. by rewrite emit_nil in HQ.
  - apply wp_bind, IH; [eapply room_le; [done|lia]|].
    rewrite emit_app in HQ. apply wp_outch; [|done].
    apply room_emit. rewrite length_rev. eapply room_le; [done|lia].
Qed.

(** ** Digits *)

(** The digits of [n], least significant first. *)
Fixpoint lsd (fuel : nat) (base n : Z) : list Z :=
  match fuel with
  | O => []
  | S fuel => n mod base :: if decide (n / base = 0) then [] else lsd fuel base (n / base)
  end.

(** The number a most-significant-first list of digits denotes. *)
Definition number (base : Z) (ds : list Z) : Z := foldl (λ a d, base * a + d) 0 ds.

Lemma number_rev_cons base d ds : number base (rev (d :: ds)) = base * number base (rev ds) + d.
Proof. unfold number. simpl. by rewrite foldl_app. Qed.

Lemma lsd_spec k base n :
  2 ≤ base → 0 ≤ n < base ^ Z.of_nat k → k ≠ 0%nat →
  number base (rev (lsd k base n)) = n ∧ Forall (λ d, 0 ≤ d < base) (lsd k base n) ∧
  (n ≠ 0 → last (lsd k base n) ≠ Some 0) ∧ (n = 0 → lsd k base n = [0]).
Proof.
  intros Hb. revert n. induction k as [|k IH]; intros n Hn Hk; [done|].
  pose proof (Z.div_mod n base ltac:(lia)). pose proof (Z.mod_pos_bound n base ltac:(lia)).
  cbn [lsd]. rewrite number_rev_cons. destruct (decide (n / base = 0)) as [E|E].
  - rewrite E in *. split_and!; [unfold number; simpl; lia|by apply Forall_singleton| |].
    + intros ? [= ?]. lia.
    + intros ->. by rewrite Z.mod_0_l by lia.
  - destruct (decide (k = 0%nat)) as [->|Hk'].
    { exfalso. change (Z.of_nat 1) with 1 in Hn. rewrite Z.pow_1_r in Hn.
      by rewrite Z.div_small in E by lia. }
    assert (0 ≤ n / base < base ^ Z.of_nat k).
    { rewrite Nat2Z.inj_succ, Z.pow_succ_r in Hn by lia.
      split; [apply Z.div_pos; lia|apply Z.div_lt_upper_bound; lia]. }
    destruct (IH (n / base)) as (Hnum & Hds & Hlast & _); [done|done|].
    rewrite Hnum. split_and!; [lia|by constructor| |].
    + intros _. rewrite last_cons. specialize (Hlast E).
      destruct (last _) eqn:El; [congruence|]. intros [= ?].
      by apply last_None in El; destruct k.
    + intros ->. by rewrite Z.div_0_l in E by lia.
Qed.

Lemma lsd_length k base n m :
  2 ≤ base → 0 ≤ n < base ^ Z.of_nat m → m ≠ 0%nat → (length (lsd k base n) ≤ m)%nat.
Proof.
  intros Hb. revert n m. induction k as [|k IH]; intros n m Hn Hm; simpl; [lia|].
  destruct (decide (n / base = 0)) as [E|E]; simpl; [lia|].
  destruct m as [|m]; [done|].
  destruct (decide (m = 0%nat)) as [->|Hm'].
  { exfalso. change (Z.of_nat 1) with 1 in Hn. rewrite Z.pow_1_r in Hn.
    by rewrite Z.div_small in E by lia. }
  rewrite Nat2Z.inj_succ, Z.pow_succ_r in Hn by lia.
  enough (length (lsd k base (n / base)) ≤ m)%nat by lia.
  apply IH; [|done]. split; [apply Z.div_pos; lia|apply Z.div_lt_upper_bound; lia].
Qed.

(** The character of a digit. *)
Definition digit (caps : bool) (d : Z) : Z := default 0 (digit_chars caps !! Z.to_nat d).

Lemma wp_digit_char caps d (Q : Z → fmt → Prop) f :
  0 ≤ d < 16 → Q (digit caps d) f → wp (char_at (digit_chars caps) d) Q f.
Proof.
  intros Hd HQ. eapply wp_char_at; [lia| |exact HQ]. unfold digit.
  destruct (lookup_lt_is_Some_2 (digit_chars caps) (Z.to_nat d)) as [c ->]; [|done].
  destruct caps; simpl; lia.
Qed.

Lemma wp_convert_loop caps base m fuel u convert (Q : list Z → fmt → Prop) f :
  2 ≤ base ≤ 16 → 0 ≤ u < base ^ Z.of_nat m → m ≠ 0%nat →
  (length convert + m ≤ 19)%nat → (m ≤ fuel)%nat →
  Q (convert ++ map (digit caps) (lsd m base u)) f →
  wp (iter fuel (convert_body caps base) (u, convert)) Q f.
Proof.
  intros Hb. revert fuel u convert. induction m as [|m IH]; intros fuel u convert Hu Hm Hl Hf HQ; [done|].
  destruct fuel as [|fuel]; [lia|]. cbn [iter]. apply wp_bind. unfold convert_body.
  apply wp_bind, wp_require; [lia|].
  pose proof (Z.mod_pos_bound u base ltac:(lia)).
  apply wp_bind, wp_digit_char; [lia|]. cbn [lsd map] in HQ.
  assert (Hlen : (length (convert ++ [digit caps (u mod base)]) < 20)%nat).
  { rewrite length_app. simpl. lia. }
  rewrite (bool_decide_true _ Hlen), andb_true_r.
  destruct (decide (u / base = 0)) as [E|E].
  - rewrite bool_decide_false by congruence. by do 2 apply wp_ret.
  - rewrite bool_decide_true by done. apply wp_ret.
    destruct (decide (m = 0%nat)) as [->|Hm'].
    { exfalso. change (Z.of_nat 1) with 1 in Hu. rewrite Z.pow_1_r in Hu.
      by rewrite Z.div_small in E by lia. }
    rewrite Nat2Z.inj_succ, Z.pow_succ_r in Hu by lia.
    apply IH; [split; [apply Z.div_pos; lia|apply Z.div_lt_upper_bound; lia]|done| |lia|].
    + rewrite length_app. simpl. lia.
    + by rewrite <-app_assoc.
Qed.

Lemma wp_convert_digits caps base u (Q : list Z → fmt → Prop) f :
  8 ≤ base ≤ 16 → 0 ≤ u < 2 ^ 32 → Q (map (digit caps) (lsd 11 base u)) f →
  wp (convert_digits caps base u) Q f.
Proof.
  intros Hb Hu HQ. unfold convert_digits. apply wp_bind.
  assert (Hu' : 0 ≤ u < base ^ Z.of_nat 11).
  { pose proof (Z.pow_le_mono_l 8 base 11). change (8 ^ 11) with (2 ^ 33) in *. lia. }
  apply (wp_convert_loop _ _ 11); [lia|done|done|simpl; lia|lia|]. apply wp_ret.
  rewrite take_ge; [done|]. rewrite app_nil_l, length_map.
  pose proof (lsd_length 11 base u 11 ltac:(lia) Hu' ltac:(done)). lia.
Qed.

(** ** Integers *)

(** The layout of a converted integer: [ds] its digits, [sign] its sign
    character or 0. *)
Definition int_text (flags min max sign : Z) (ds : list Z) : list Z :=
  let max := Z.max max 0 in
  let place := Z.of_nat (length ds) in
  let zeros := Z.max 0 (max - place) in
  let spaces := Z.max 0 (min - Z.max max place - (if decide (sign ≠ 0) then 1 else 0)) in
  let '(zeros, spaces) :=
    if has flags DP_F_ZERO then (Z.max zeros spaces, 0) else (zeros, spaces) in
  let pad := replicate (Z.to_nat spaces) (chr " ") in
  let zs := replicate (Z.to_nat zeros) (chr "0") in
  let s := if decide (sign ≠ 0) then [sign] else [] in
  if has flags DP_F_MINUS then s ++ zs ++ ds ++ pad else pad ++ s ++ zs ++ ds.

(** Its sign character and magnitude. *)
Definition int_sign (flags value : Z) : Z :=
  if has flags DP_F_UNSIGNED then 0 else
  if decide (value < 0) then chr "-" else
  if has flags DP_F_PLUS then chr "+" else
  if has flags DP_F_SPACE then chr " " else 0.

Definition int_magnitude (flags value : Z) : Z :=
  if has flags DP_F_UNSIGNED then u32 value else Z.abs value.

Lemma MAX_eq p q : MAX p q = Z.max p q.
Proof. unfold MAX. goal_decide; lia. Qed.

(** The output loops of [fmtint], with the sign of [spadlen] giving the
    side of the padding. *)
Lemma wp_int_output sign zeros spadlen ds (Q : () → fmt → Prop) f :
  - 2 ^ 30 ≤ spadlen ≤ 2 ^ 30 → 0 ≤ zeros ≤ 2 ^ 30 →
  let s := if decide (sign ≠ 0) then [sign] else [] in
  let text := replicate (Z.to_nat spadlen) (chr " ") ++ s ++
              replicate (Z.to_nat zeros) (chr "0") ++ rev ds ++
              replicate (Z.to_nat (- spadlen)) (chr " ") in
  room f (Z.of_nat (length text)) → Q () (emit text f) →
  wp (spadlen ← pad_down put (chr " ") spadlen;
      (if decide (sign ≠ 0) then dopr_outch put sign else mret ());;
      pad_down put (chr "0") zeros;;
      put_digits put ds;;
      pad_up put (chr " ") spadlen;;
      mret ()) Q f.
Proof.
  intros Hs Hz s text Hr HQ. unfold text in *.
  rewrite !length_app, !length_replicate, length_rev in Hr. rewrite !emit_app in HQ.
  apply wp_bind, wp_pad_down; [unfold int_max; lia|eapply room_le; [done|lia]|].
  assert (Hr1 : room (emit (replicate (Z.to_nat spadlen) (chr " ")) f)
    (Z.of_nat (length s + (Z.to_nat zeros + (length ds + Z.to_nat (- spadlen)))))).
  { apply room_emit. rewrite length_replicate. eapply room_le; [done|lia]. }
  apply wp_bind. assert (∀ (P : () → fmt → Prop) g, room g (Z.of_nat (length s)) → P () (emit s g) →
    wp (if decide (sign ≠ 0) then dopr_outch put sign else mret ()) P g) as Hsign.
  { intros P g Hg HP. unfold s in *. destruct (decide (sign ≠ 0)); [by apply wp_outch|].
    apply wp_ret. by rewrite emit_nil in HP. }
  apply Hsign; [eapply room_le; [done|lia]|].
  apply wp_bind, wp_pad_down; [unfold int_max; lia|apply room_emit; eapply room_le; [done|lia]|].
  apply wp_bind, wp_put_digits.
  { do 2 apply room_emit. rewrite length_replicate. eapply room_le; [done|lia]. }
  apply wp_bind, wp_pad_up; [unfold int_min; lia| |].
  { do 3 apply room_emit. rewrite length_replicate, length_rev. eapply room_le; [done|lia]. }
  apply wp_ret. by replace (- Z.min spadlen 0) with (Z.max (- spadlen) 0) by lia; 
    replace (Z.to_nat (Z.max (- spadlen) 0)) with (Z.to_nat (- spadlen)) by lia.
Qed.

(** The digits [fmtint] converts, most significant first. *)
Definition int_digits (base flags value : Z) : list Z := rev (lsd 11 base (int_magnitude flags value)).

Lemma int_digits_spec base flags value :
  8 ≤ base ≤ 16 → int_min ≤ value ≤ int_max →
  let ds := int_digits base flags value in
  number base ds = int_magnitude flags value ∧ Forall (λ d, 0 ≤ d < base) ds ∧
  (ds = [0] ∨ head ds ≠ Some 0) ∧ (1 ≤ length ds ≤ 11)%nat.
Proof.
  intros Hb Hv ds. unfold ds, int_digits.
  assert (Hm : 0 ≤ int_magnitude flags value < base ^ Z.of_nat 11).
  { pose proof (Z.pow_le_mono_l 8 base 11). change (8 ^ 11) with (2 ^ 33) in *.
    pose proof (u32_range value). unfold int_magnitude, int_min, int_max in *.
    destruct (has _ _); lia. }
  destruct (lsd_spec 11 base _ ltac:(lia) Hm ltac:(done)) as (H1 & H2 & H3 & H4).
  pose proof (lsd_length 11 base _ 11 ltac:(lia) Hm ltac:(done)).
  split_and!; [done|by apply Forall_rev| | |by rewrite length_rev].
  - destruct (decide (int_magnitude flags value = 0)) as [E|E]; [left; by rewrite H4|right].
    rewrite rev_alt. fold (reverse (lsd 11 base (int_magnitude flags value))).
    rewrite head_reverse. by apply H3.
  - rewrite length_rev. simpl. lia.
Qed.

Lemma wp_fmtint value base min max flags (Q : () → fmt → Prop) f :
  8 ≤ base ≤ 16 → int_min ≤ value ≤ int_max → (has flags DP_F_UNSIGNED = false → int_min < value) →
  - 2 ^ 30 ≤ min ≤ 2 ^ 30 → max ≤ 2 ^ 29 →
  let text := int_text flags min max (int_sign flags value)
                (map (digit (has flags DP_F_UP)) (int_digits base flags value)) in
  room f (Z.of_nat (length text)) → Q () (emit text f) →
  wp (fmtint put value base min max flags) Q f.
Proof.
  intros Hb Hv Hmin Hw Hp text Hr HQ. unfold fmtint.
  destruct (int_digits_spec base flags value Hb Hv) as (_ & _ & _ & Hlen).
  set (max' := if decide (max < 0) then 0 else max).
  assert (Em : max' = Z.max max 0) by (unfold max'; goal_decide; lia).
  (* the sign and the magnitude *)
  apply wp_bind. eapply wp_mono with (Q := λ r g, r = (int_sign flags value, int_magnitude flags value) ∧ g = f).
  { unfold int_sign, int_magnitude. destruct (has flags DP_F_UNSIGNED); [by apply wp_ret|].
    specialize (Hmin eq_refl). wp_step.
    - apply wp_bind, wp_chk; [unfold int_min, int_max in *; lia|]. apply wp_ret.
      rewrite u32_small by (unfold int_min in *; lia). by replace (- value) with (Z.abs value) by lia.
    - rewrite u32_small by (unfold int_max in *; lia). replace (Z.abs value) with value by lia.
      destruct (has flags DP_F_PLUS); [by apply wp_ret|].
      destruct (has flags DP_F_SPACE); by apply wp_ret. }
  intros r g [-> ->]. set (sign := int_sign flags value) in *.
  assert (Hmag : 0 ≤ int_magnitude flags value < 2 ^ 32).
  { pose proof (u32_range value). unfold int_magnitude, int_min, int_max in *. destruct (has _ _); lia. }
  cbv zeta. apply wp_bind, wp_convert_digits; [done|done|].
  unfold int_digits in *. set (ds := lsd 11 base (int_magnitude flags value)) in *.
  unfold text, int_text in Hr, HQ. rewrite length_rev in Hlen.
  rewrite length_map, length_rev in Hr, HQ. rewrite length_map.
  rewrite !MAX_eq, <-Em in *. set (place := Z.of_nat (length ds)) in *.
  set (sg := if decide (sign ≠ 0) then 1 else 0) in *.
  assert (0 ≤ sg ≤ 1) by (unfold sg; goal_decide; lia).
  do 3 (apply wp_bind, wp_chk; [unfold int_min, int_max; lia|]).
  set (zp := if decide (max' - place < 0) then 0 else max' - place).
  assert (Ez : zp = Z.max 0 (max' - place)) by (unfold zp; goal_decide; lia).
  set (sp := if decide (min - Z.max max' place - sg < 0) then 0 else min - Z.max max' place - sg).
  assert (Esp : sp = Z.max 0 (min - Z.max max' place - sg)) by (unfold sp; goal_decide; lia).
  rewrite <-Ez, <-Esp in *. rewrite (MAX_eq zp sp).
  set (zs := if has flags DP_F_ZERO then (Z.max zp sp, 0) else (zp, sp)) in *.
  assert (Hzs : 0 ≤ zs.1 ≤ 2 ^ 30 ∧ 0 ≤ zs.2 ≤ 2 ^ 30).
  { unfold zs. destruct (has flags DP_F_ZERO); simpl; lia. }
  destruct zs as [zeros spaces]. simpl in Hzs. rewrite map_rev in Hr, HQ.
  apply wp_bind. destruct (has flags DP_F_MINUS).
  - apply wp_chk; [unfold int_min, int_max; lia|].
    apply (wp_int_output sign zeros (- spaces) (map (digit _) ds)); [lia|lia|..];
      replace (Z.to_nat (- spaces)) with 0%nat by lia; rewrite Z.opp_involutive;
      by rewrite ?app_nil_l.
  - apply wp_ret.
    apply (wp_int_output sign zeros spaces (map (digit _) ds)); [lia|lia|..];
      replace (Z.to_nat (- spaces)) with 0%nat by lia; by rewrite ?app_nil_r.
Qed.

(** The layout is not longer than the width, the precision and the digits
    allow. *)
Lemma int_text_room flags min max sign ds f :
  - 2 ^ 30 ≤ min ≤ 2 ^ 30 → max ≤ 2 ^ 29 → 0 ≤ currlen f ≤ 2 ^ 29 → (length ds ≤ 11)%nat →
  room f (Z.of_nat (length (int_text flags min max sign ds))).
Proof.
  intros Hw Hp Hf Hd. split; [lia|]. unfold int_max, int_text.
  assert (length (if decide (sign ≠ 0%Z) then [sign] else []) ≤ 1)%nat by (goal_decide; simpl; lia).
  destruct (has flags DP_F_ZERO), (has flags DP_F_MINUS);
    rewrite !length_app, !length_replicate; goal_decide; simpl; lia.
Qed.

(** ** Strings *)

(** The layout of a string argument: the padding counts against [max]. *)
Definition str_padded (flags min : Z) (s : list Z) : list Z :=
  let pad := replicate (Z.to_nat (min - Z.of_nat (length s))) (chr " ") in
  if has flags DP_F_MINUS then s ++ pad else pad ++ s.

Definition str_text (flags min max : Z) (s : list Z) : list Z :=
  take (Z.to_nat max) (str_padded flags min s).

(** Printing the next character of [t]. *)
Lemma wp_outch_take t k c f (Q : () → fmt → Prop) :
  t !! k = Some c → room f (Z.of_nat (length t)) → Q () (emit (take (S k) t) f) →
  wp (dopr_outch put c) Q (emit (take k t) f).
Proof.
  intros Hc Hr HQ. pose proof (lookup_lt_Some _ _ _ Hc). apply wp_outch.
  - apply room_emit. rewrite length_take. eapply room_le; [done|lia].
  - by rewrite <-emit_app, <-take_S_r.
Qed.

(** How far the loops of [fmtstr] have come: [k] characters of [t]. *)
Definition printed f t max (cnt : Z) g : Prop :=
  0 ≤ cnt ≤ Z.max 0 max ∧ cnt ≤ Z.of_nat (length t) ∧ g = emit (take (Z.to_nat cnt) t) f.

(** A padding loop over [n] spaces of [t] that start at position [a]; [δ]
    is the direction [padlen] counts in. *)
Lemma wp_str_pad δ f t a n max cnt padlen (cond : Z → bool) (Q : Z * Z → fmt → Prop) g :
  (δ = 1 ∨ δ = -1) → (∀ m, cond m = bool_decide (δ * m < 0)) →
  0 ≤ n ≤ 2 ^ 30 → max ≤ int_max → Z.of_nat (length t) ≤ 2 ^ 31 - 2 →
  (∀ i, a ≤ i < a + n → t !! Z.to_nat i = Some (chr " ")) →
  room f (Z.of_nat (length t)) → printed f t max cnt g → cnt ≤ a → (cnt = a ∨ max ≤ cnt) →
  padlen = - δ * n →
  (∀ padlen' cnt' g', printed f t max cnt' g' → cnt' ≤ a + n → (cnt' = a + n ∨ max ≤ cnt') →
     padlen' = - δ * (a + n - cnt') ∨ max ≤ cnt' → δ * padlen' ≤ 0 → Q (padlen', cnt') g') →
  wp (while (Datatypes.S (Z.to_nat n))
        (λ '(padlen, cnt), cond padlen && bool_decide (cnt < max))
        (λ '(padlen, cnt), dopr_outch put (chr " ");;
                           padlen ← chk (padlen + δ); cnt ← chk (cnt + 1);
                           mret (padlen, cnt)) (padlen, cnt)) Q g.
Proof.
  intros Hδ Hcond Hn Hmax Hlen Ht Hr Hp Ha Hca -> HQ. unfold while.
  apply (wp_iter (λ st g, printed f t max st.2 g ∧ st.2 ≤ a + n ∧
                   (st.1 = - δ * (a + n - st.2) ∧ a ≤ st.2 ∨ max ≤ st.2 ∧ δ * st.1 ≤ 0))
                 (λ st _, Z.to_nat (- δ * st.1))).
  - intros [pl c] g' (Hp' & Hc & Hst). simpl in *. pose proof Hp' as (H1 & H2 & ->).
    rewrite Hcond. destruct (decide (δ * pl < 0 ∧ c < max)) as [[Hd Hcm]|Hno].
    + destruct Hst as [[Hst Hac]|]; [|lia].
      rewrite !bool_decide_true by done. simpl.
      do 2 apply wp_bind. eapply wp_outch_take; [apply Ht; lia|done|].
      assert (c < a + n) as Hcn by (destruct Hδ; subst δ; lia).
      assert (c < Z.of_nat (length t)) as Hct.
      { specialize (Ht c ltac:(lia)). apply lookup_lt_Some in Ht. lia. }
      assert (int_min ≤ pl + δ ≤ int_max ∧ pl + δ = - δ * (a + n - (c + 1)) ∧
              (Z.to_nat (- δ * (pl + δ)) < Z.to_nat (- δ * pl))%nat) as (? & ? & ?)
        by (unfold int_min, int_max; destruct Hδ; subst δ; lia).
      apply wp_bind, wp_chk; [done|]. wp_go. simpl.
      split; [split; [|split; [lia|left; lia]]|done].
      unfold printed. split; [lia|]. split; [lia|].
      by replace (Z.to_nat (c + 1)) with (S (Z.to_nat c)) by lia.
    + assert (bool_decide (δ * pl < 0) && bool_decide (c < max) = false) as ->.
      { apply andb_false_iff. rewrite !bool_decide_eq_false. lia. }
      apply wp_ret. destruct Hδ; subst δ; apply HQ; try done; lia.
  - simpl. split; [done|]. split; [lia|].
    destruct Hca as [->|]; [left|right]; destruct Hδ; subst δ; lia.
  - simpl. destruct Hδ; subst δ; lia.
Qed.

(** The loop over the characters of the string [s], which starts at
    position [a] of [t]. *)
Definition str_loop_body (max : Z) (st : list Z * Z) : M fmt ((list Z * Z) + Z) :=
  let '(value, cnt) := st in
  c ← char_at value 0;
  if bool_decide (c ≠ 0) && bool_decide (cnt < max) then
    r ← char_next value;
    let '(c, value) := r : Z * list Z in
    dopr_outch put c;;
    cnt ← chk (cnt + 1);
    mret (inl (value, cnt))
  else mret (inr cnt).

Lemma wp_str_chars f t a max p s fuel cnt (Q : Z → fmt → Prop) g :
  points_to p s → (length s < fuel)%nat → max ≤ int_max →
  (∀ i : nat, (i < length s)%nat → t !! (Z.to_nat a + i)%nat = s !! i) →
  room f (Z.of_nat (length t)) → printed f t max cnt g → 0 ≤ a → cnt ≤ a → (cnt = a ∨ max ≤ cnt) →
  (∀ cnt' g', printed f t max cnt' g' → cnt' ≤ a + Z.of_nat (length s) →
     (cnt' = a + Z.of_nat (length s) ∨ max ≤ cnt') → Q cnt' g') →
  wp (iter fuel (str_loop_body max) (p, cnt)) Q g.
Proof.
  revert p s a cnt g. induction fuel as [|fuel IH]; intros p s a cnt g Hp Hf Hmax Ht Hr Hpr Ha0 Ha Hca HQ;
    [lia|]. cbn [iter]. apply wp_bind. unfold str_loop_body.
  pose proof (points_to_length _ _ Hp). destruct p as [|c p]; [simpl in *; lia|].
  apply wp_bind. eapply wp_char_at; [done|done|].
  assert (Hstop : ∀ b, b = false ∧ (cnt = a + Z.of_nat (length s) ∨ max ≤ cnt) →
    wp (if (b : bool) then
          r ← char_next (c :: p); let '(c, value) := r : Z * list Z in
          dopr_outch put c;; cnt ← chk (cnt + 1); mret (inl (value, cnt))
        else mret (inr cnt))
       (λ r s', wp (match r with inl x' => iter fuel (str_loop_body max) x' | inr res => mret res end) Q s') g).
  { intros b [-> Hc]. do 2 apply wp_ret. apply HQ; [done|lia|done]. }
  destruct (points_to_cons _ _ _ Hp) as [[-> ->]|(s' & Hc & -> & Hp')].
  - apply Hstop. rewrite bool_decide_false by congruence. split; [done|]. simpl. lia.
  - destruct (decide (cnt < max)) as [Hcm|Hcm];
      [|apply Hstop; rewrite (bool_decide_false (_ < _)) by done; rewrite andb_false_r; split; [done|lia]].
    rewrite !bool_decide_true by done. simpl.
    assert (cnt = a) as -> by lia. destruct Hpr as (H1 & H2 & ->).
    assert (Hca' : t !! Z.to_nat a = Some c).
    { specialize (Ht 0%nat). rewrite Nat.add_0_r in Ht. apply Ht. simpl. lia. }
    pose proof (lookup_lt_Some _ _ _ Hca').
    apply wp_bind, wp_ret. apply wp_bind. eapply wp_outch_take; [done|done|].
    apply wp_bind, wp_chk; [unfold int_min, int_max in *; lia|]. apply wp_ret.
    apply (IH _ s' (a + 1)); [done|simpl in *; lia|done| |done| |lia|lia|by left|].
    + intros i Hi. specialize (Ht (S i) ltac:(simpl; lia)). simpl in Ht. rewrite <-Ht. f_equal. lia.
    + split; [lia|]. split; [lia|]. by replace (Z.to_nat (a + 1)) with (S (Z.to_nat a)) by lia.
    + intros cnt' g' Hpr Hc1 Hc2. apply HQ; [done|simpl in *; lia..].
Qed.

Lemma wp_fmtstr p s flags min max (Q : () → fmt → Prop) f :
  points_to (default (cstring (lit "<NULL>")) p) s →
  Z.of_nat (length s) ≤ 2 ^ 30 → - 2 ^ 30 ≤ min ≤ 2 ^ 30 → max ≤ int_max →
  room f (Z.of_nat (length (str_padded flags min s))) →
  Q () (emit (str_text flags min max s) f) → wp (fmtstr put p flags min max) Q f.
Proof.
  intros Hp Hs Hmin Hmax Hr HQ. unfold fmtstr.
  set (v := match p with Some v => v | None => _ end).
  assert (Ev : v = default (cstring (lit "<NULL>")) p) by by destruct p.
  rewrite <-Ev in Hp. clearbody v. clear Ev p.
  apply wp_bind. eapply wp_strlen; [done|unfold int_max; lia|].
  apply wp_bind, wp_chk; [unfold int_min, int_max; lia|].
  set (n := Z.max 0 (min - Z.of_nat (length s))).
  assert (En : (if decide (min - Z.of_nat (length s) < 0) then 0 else min - Z.of_nat (length s)) = n)
    by (unfold n; goal_decide; lia).
  rewrite En. clear En. pose proof (points_to_length _ _ Hp) as Hlv.
  assert (Et : str_padded flags min s =
    if has flags DP_F_MINUS then s ++ replicate (Z.to_nat n) (chr " ")
    else replicate (Z.to_nat n) (chr " ") ++ s).
  { unfold str_padded. by replace (Z.to_nat (min - Z.of_nat (length s))) with (Z.to_nat n) by (unfold n; lia). }
  assert (Hn : 0 ≤ n ∧ n + Z.of_nat (length s) ≤ 2 ^ 30) by (unfold n; lia). clearbody n.
  unfold str_text in HQ. rewrite Et in HQ, Hr. set (t := if has flags DP_F_MINUS then _ else _) in *.
  assert (Hlt : Z.of_nat (length t) = n + Z.of_nat (length s)).
  { unfold t. destruct (has _ _); rewrite length_app, length_replicate; lia. }
  assert (Hfin : ∀ cnt g, printed f t max cnt g → (cnt = Z.of_nat (length t) ∨ max ≤ cnt) → Q () g).
  { intros cnt g (H1 & H2 & ->) H3.
    replace (take (Z.to_nat cnt) t) with (take (Z.to_nat max) t); [done|].
    destruct (decide (max ≤ cnt)); [by replace cnt with (Z.max 0 max) by lia; f_equal; lia|].
    rewrite !take_ge by lia. done. }
  assert (H0 : printed f t max 0 f) by (unfold printed; rewrite emit_nil; split_and!; [lia..|done]).
  apply wp_bind. destruct (has flags DP_F_MINUS) eqn:Em; unfold t in *; clear t.
  - apply wp_chk; [unfold int_min, int_max; lia|].
    apply wp_bind, wp_while_false; [by rewrite bool_decide_false by lia|].
    apply wp_bind. eapply (wp_str_chars f _ 0 max v s); [done|lia|done| |done|done|lia|lia|by left|].
    { intros i Hi. by rewrite lookup_app_l by done. }
    intros cnt g Hg Hc1 Hc2. apply wp_bind.
    replace (Z.to_nat (- - n)) with (Z.to_nat n) by lia.
    eapply (wp_str_pad 1 f _ (Z.of_nat (length s)) n max cnt (- n));
      try done; try lia.
    + intros m. by rewrite Z.mul_1_l.
    + intros i Hi. rewrite lookup_app_r by lia. apply lookup_replicate_2. lia.
    + intros pl c g' Hg' Hc Hc' _ _. apply wp_ret. eapply Hfin; [done|]. lia.
  - apply wp_ret. apply wp_bind.
    eapply (wp_str_pad (-1) f _ 0 n max 0 n); try done; try lia.
    + intros m. apply bool_decide_ext. lia.
    + intros i Hi. rewrite lookup_app_l by (rewrite length_replicate; lia). apply lookup_replicate_2. lia.
    + intros pl c g Hg Hc Hc' Hpl Hpl'. apply wp_bind.
      eapply (wp_str_chars f _ n max v s); [done|lia|done| |done|done|lia|lia|lia|].
      { intros i Hi. rewrite lookup_app_r by (rewrite length_replicate; lia).
        rewrite length_replicate. f_equal. lia. }
      intros cnt g' Hg' Hc1 Hc2. apply wp_bind, wp_while_false; [by rewrite bool_decide_false by lia|].
      apply wp_ret. eapply Hfin; [done|]. lia.
Qed.
End output.
