(* ===== verification/Directives.v ===== *)
(** * The formatter as an interpreter of directives

    The language of format strings as data, what each item does, and the
    proof that the character-at-a-time state machine [dopr] performs the
    items of any well-formed format in order, up to the length limit. *)

From S2P Require Import Prelude.
From S2P Require Import Libk.
From S2P Require Import Snprintf.
From S2P Require Import SnprintfProps.

(** ** Format strings as data *)

(** A width or precision: decimal digits, or taken from the arguments. *)
Inductive number_field := Digits (ds : list Z) | Star.

Record directive := mkDir {
  dr_flags : list Z;
  dr_width : number_field;
  dr_prec : option number_field;
  dr_mod : option Z;
  dr_conv : Z
}.

Inductive item := Text (c : Z) | Directive (d : directive).

Definition unparse_field (n : number_field) : list Z :=
  match n with Digits ds => ds | Star => [chr "*"] end.

Definition unparse_prec (p : option number_field) : list Z :=
  match p with None => [] | Some n => chr "." :: unparse_field n end.

Definition unparse_item (it : item) : list Z :=
  match it with
  | Text c => [c]
  | Directive d =>
      chr "%" :: dr_flags d ++ unparse_field (dr_width d) ++ unparse_prec (dr_prec d) ++
      option_list (dr_mod d) ++ [dr_conv d]
  end.

Definition unparse (its : list item) : list Z := concat (map unparse_item its).

Definition flag_bit (c : Z) : option Z :=
  if decide (c = chr "-") then Some DP_F_MINUS else
  if decide (c = chr "+") then Some DP_F_PLUS else
  if decide (c = chr " ") then Some DP_F_SPACE else
  if decide (c = chr "#") then Some DP_F_NUM else
  if decide (c = chr "0") then Some DP_F_ZERO else None.

Definition mod_flag (c : Z) : option Z :=
  if decide (c = chr "h") then Some DP_C_SHORT else
  if decide (c = chr "l") then Some DP_C_LONG else
  if decide (c = chr "L") then Some DP_C_LDOUBLE else None.

(** The conversions; ['w'] ("not supported yet") skips a character and is
    not one of them. *)
Definition conversions : list Z := lit "dioxXucspn%feEgG".

Definition field_ok (n : number_field) : Prop :=
  match n with Digits ds => Forall (λ c, isdigit c = true) ds | Star => True end.

Definition item_ok (it : item) : Prop :=
  match it with
  | Text c => c ≠ 0 ∧ c ≠ chr "%"
  | Directive d =>
      Forall (λ c, is_Some (flag_bit c)) (dr_flags d) ∧
      field_ok (dr_width d) ∧ head (unparse_field (dr_width d)) ≠ Some (chr "0") ∧
      match dr_prec d with Some n => field_ok n | None => True end ∧
      match dr_mod d with Some c => is_Some (mod_flag c) | None => True end ∧
      dr_conv d ∈ conversions
  end.

(** ** What an item does *)

Section directives.
Context {W : Type} (put : Z → W → W) (deref : Z → list Z) (maxlen : Z).
Abbreviation F := (fmt (W := W)).
Implicit Types (f g : F).

Fixpoint read_number (m : Z) (ds : list Z) : M F Z :=
  match ds with
  | [] => mret m
  | c :: ds => m ← chk (10 * m); m ← chk (m + char_to_int c); read_number m ds
  end.

Definition field_value (start : Z) (n : number_field) : M F Z :=
  match n with
  | Digits [] => mret start
  | Digits ds => read_number 0 ds
  | Star => va_int
  end.

Definition flags_value (fs : list Z) : Z :=
  foldl (λ a c, Z.lor a (default 0 (flag_bit c))) 0 fs.

Definition perform (it : item) : M F () :=
  match it with
  | Text c => dopr_outch put c
  | Directive d =>
      min ← field_value 0 (dr_width d);
      max ← match dr_prec d with Some n => field_value (-1) n | None => mret (-1) end;
      dopr_conv put deref maxlen
        (mkDp (dr_conv d) DP_S_CONV (flags_value (dr_flags d))
              (default 0 (dr_mod d ≫= mod_flag)) min max);;
      mret ()
  end.

(** The items in order, each one started only below the limit. *)
Fixpoint perform_all (its : list item) : M F () :=
  match its with
  | [] => mret ()
  | it :: its =>
      n ← gets currlen;
      if decide (n >= maxlen) then mret () else perform it;; perform_all its
  end.

(** ** Operations that ignore the rest of the format *)

Definition set_format (p : list Z) f : F := mkFmt (sink f) (currlen f) p (args f) (stores f).

Definition frames {A} (m : M F A) : Prop :=
  ∀ p f a g, m f = Ok a g → m (set_format p f) = Ok a (set_format p g).

Lemma frames_ret {A} (a : A) : frames (mret a).
Proof. intros p f a' g [= <- <-]. done. Qed.

Lemma frames_fault {A} : frames (fault (A := A)).
Proof. by intros p f a' g ?. Qed.

Lemma frames_bind {A B} (m : M F A) (k : A → M F B) :
  frames m → (∀ a, frames (k a)) → frames (m ≫= k).
Proof.
  intros Hm Hk p f b g. unfold mbind, M_bind. destruct (m f) as [a h| | |] eqn:E; try done.
  intros Hb. rewrite (Hm _ _ _ _ E). by apply Hk.
Qed.

Lemma frames_if (P : Prop) `{Decision P} {A} (m1 m2 : M F A) :
  frames m1 → frames m2 → frames (if decide P then m1 else m2).
Proof. by destruct (decide P). Qed.

Lemma frames_if_bool (b : bool) {A} (m1 m2 : M F A) :
  frames m1 → frames m2 → frames (if b then m1 else m2).
Proof. by destruct b. Qed.

Lemma frames_chk z : frames (chk z).
Proof. unfold chk. apply frames_if; [apply frames_ret|apply frames_fault]. Qed.

Lemma frames_require P `{Decision P} : frames (require P).
Proof. unfold require. apply frames_if; [apply frames_ret|apply frames_fault]. Qed.

Lemma frames_currlen : frames (gets currlen).
Proof. intros p f a g [= <- <-]. done. Qed.

Lemma frames_iter {X R} fuel (body : X → M F (X + R)) x :
  (∀ x, frames (body x)) → frames (iter fuel body x).
Proof.
  intros Hb. revert x. induction fuel as [|fuel IH]; intros x; cbn [iter].
  - by intros p f a g ?.
  - apply frames_bind; [done|]. intros [x'|r]; [done|apply frames_ret].
Qed.

Lemma frames_outch c : frames (dopr_outch put c).
Proof.
  unfold dopr_outch. apply frames_bind; [apply frames_currlen|]. intros n.
  apply frames_bind; [apply frames_chk|]. intros m p f a g [= <- <-]. done.
Qed.

Lemma frames_va_word : frames va_word.
Proof.
  intros p [w n q l st] a g. unfold va_word, set_format. simpl.
  unfold mbind, M_bind, gets. simpl. destruct l; [done|]. by intros [= <- <-].
Qed.
End directives.

Create HintDb framedb.
#[export] Hint Resolve frames_ret frames_fault frames_chk frames_require frames_currlen
  frames_outch frames_va_word : framedb.

Ltac frame_step :=
  lazymatch goal with
  | |- frames (iter _ _ _) => apply frames_iter; intros
  | |- frames (_ ≫= _) => apply frames_bind; [|intros]
  | |- frames (if decide _ then _ else _) => apply frames_if
  | |- frames (match ?x with _ => _ end) => destruct x
  | |- frames _ => solve [auto with framedb]
  end.
Ltac frame := repeat frame_step.

Section frames.
Context {W : Type} (put : Z → W → W) (deref : Z → list Z) (maxlen : Z).

Lemma frames_pad_down c n : frames (pad_down put c n).
Proof. unfold pad_down, while. frame. Qed.

Lemma frames_pad_up c n : frames (pad_up put c n).
Proof. unfold pad_up, while. frame. Qed.

Lemma frames_char_at p i : frames (W := W) (char_at p i).
Proof. unfold char_at. frame. Qed.

Lemma frames_char_next p : frames (W := W) (char_next p).
Proof. unfold char_next. frame. Qed.

Lemma frames_put_digits l : frames (put_digits put l).
Proof. induction l; simpl; frame. Qed.

Lemma frames_ld_to_long v : frames (W := W) (ld_to_long v).
Proof. unfold ld_to_long. frame. Qed.

Hint Resolve frames_char_at frames_char_next frames_put_digits frames_ld_to_long : framedb.
Hint Resolve frames_pad_down frames_pad_up : framedb.

Lemma frames_strlen p : frames (W := W) (strlen p).
Proof. unfold strlen, strlen_body. frame. Qed.

Lemma frames_convert_digits caps base u : frames (W := W) (convert_digits caps base u).
Proof. unfold convert_digits, convert_body. frame. Qed.

Hint Resolve frames_strlen frames_convert_digits : framedb.

Lemma frames_fmtint v base min max flags : frames (fmtint put v base min max flags).
Proof. unfold fmtint. cbv zeta. frame. Qed.

Lemma frames_fmtstr v flags min max : frames (fmtstr put v flags min max).
Proof. unfold fmtstr, while. cbv zeta. frame. Qed.

Lemma frames_xround v : frames (W := W) (xround v).
Proof. unfold xround. frame. Qed.

Lemma frames_fp_layout flags sign padlen zpadlen max l1 l2 :
  frames (fp_layout put flags sign padlen zpadlen max l1 l2).
Proof. unfold fp_layout. frame. Qed.

Hint Resolve frames_xround frames_fp_layout : framedb.

Lemma frames_fmtfp v min max flags : frames (fmtfp put v min max flags).
Proof. unfold fmtfp. cbv zeta. frame. Qed.

Lemma frames_va_int : frames (W := W) va_int.
Proof. unfold va_int. frame. Qed.

Lemma frames_va_double : frames (W := W) va_double.
Proof. unfold va_double. frame. Qed.

Lemma frames_va_ldouble : frames (W := W) va_ldouble.
Proof. unfold va_ldouble. frame. Qed.

Lemma frames_store a width v :
  frames (W := W) (modify (λ f, mkFmt (sink f) (currlen f) (format f) (args f)
                                      ((a, width, v) :: stores f))).
Proof. intros p f x g [= <- <-]. done. Qed.

Hint Resolve frames_fmtint frames_fmtstr frames_fmtfp frames_va_int frames_va_double
  frames_va_ldouble frames_store : framedb.

Lemma frames_conv d : ch d ≠ chr "w" → frames (dopr_conv put deref maxlen d).
Proof.
  intros Hw. unfold dopr_conv. cbv zeta. rewrite (decide_False (P := ch d = chr "w")) by done.
  frame.
Qed.

Lemma frames_read_number m ds : frames (W := W) (read_number m ds).
Proof. revert m. induction ds; intros m; simpl; frame. Qed.

Lemma frames_field_value m n : frames (W := W) (field_value m n).
Proof. destruct n as [[|c ds]|]; cbn [field_value]; frame. apply frames_read_number. Qed.
End frames.

#[export] Hint Resolve frames_conv frames_read_number frames_field_value : framedb.

(** ** Running the state machine *)

Section machine.
Context {W : Type} (put : Z → W → W) (deref : Z → list Z) (maxlen : Z).
Abbreviation F := (fmt (W := W)).
Implicit Types (f g : F) (s : list Z).

(** The variables of [dopr] and the state when the characters from [ch]
    on are [s]. *)
Definition vars (st : dp_state) (fl cf mn mx : Z) s : dp := mkDp (hd 0 s) st fl cf mn mx.
Definition at_ s f : F := set_format (tl s) f.

(** [k] rounds of the loop lead from one configuration to another. *)
Definition rounds (k : nat) (d : dp) f (d' : dp) f' : Prop :=
  ∀ n, iter (k + n) (dopr_body put deref maxlen) d f = iter n (dopr_body put deref maxlen) d' f'.

Lemma rounds_refl d f : rounds 0 d f d f.
Proof. done. Qed.

Lemma rounds_trans k1 k2 d1 f1 d2 f2 d3 f3 :
  rounds k1 d1 f1 d2 f2 → rounds k2 d2 f2 d3 f3 → rounds (k1 + k2) d1 f1 d3 f3.
Proof. intros H1 H2 n. by rewrite <-Nat.add_assoc, H1. Qed.

Lemma rounds_one d f d' f' :
  dopr_body put deref maxlen d f = Ok (inl d') f' → rounds 1 d f d' f'.
Proof. intros E n. simpl. unfold mbind at 1, M_bind. by rewrite E. Qed.

(** Configurations in which a round looks at its state. *)
Definition live (s : list Z) f : Prop := currlen f < maxlen ∧ hd 0 s ≠ 0 ∧ (2 ≤ length s)%nat.

Lemma next_ch_at s f : (2 ≤ length s)%nat → next_ch (at_ s f) = Ok (hd 0 (tl s)) (at_ (tl s) f).
Proof. destruct s as [|c [|c' s]]; simpl; [lia|lia|done]. Qed.

(** The round of a live configuration in state [st]. *)
Lemma body_live st fl cf mn mx s f :
  st ≠ DP_S_DONE → live s f →
  dopr_body put deref maxlen (vars st fl cf mn mx s) (at_ s f) =
  (let d := vars st fl cf mn mx s in
   match st with
   | DP_S_DEFAULT =>
       st ← (if decide (ch d = chr "%") then mret DP_S_FLAGS
             else dopr_outch put (ch d);; mret DP_S_DEFAULT);
       c ← next_ch;
       mret (inl (mkDp c st fl cf mn mx))
   | DP_S_FLAGS =>
       match flag_bit (ch d) with
       | Some b => c ← next_ch; mret (inl (mkDp c DP_S_FLAGS (Z.lor fl b) cf mn mx))
       | None => mret (inl (mkDp (ch d) DP_S_MIN fl cf mn mx))
       end
   | DP_S_MIN =>
       if isdigit (ch d) then
         m ← chk (10 * mn); m ← chk (m + char_to_int (ch d));
         c ← next_ch; mret (inl (mkDp c DP_S_MIN fl cf m mx))
       else if decide (ch d = chr "*") then
         m ← va_int; c ← next_ch; mret (inl (mkDp c DP_S_DOT fl cf m mx))
       else mret (inl (mkDp (ch d) DP_S_DOT fl cf mn mx))
   | DP_S_DOT =>
       if decide (ch d = chr ".") then c ← next_ch; mret (inl (mkDp c DP_S_MAX fl cf mn mx))
       else mret (inl (mkDp (ch d) DP_S_MOD fl cf mn mx))
   | DP_S_MAX =>
       if isdigit (ch d) then
         m ← chk (10 * (if decide (mx < 0) then 0 else mx));
         m ← chk (m + char_to_int (ch d));
         c ← next_ch; mret (inl (mkDp c DP_S_MAX fl cf mn m))
       else if decide (ch d = chr "*") then
         m ← va_int; c ← next_ch; mret (inl (mkDp c DP_S_MOD fl cf mn m))
       else mret (inl (mkDp (ch d) DP_S_MOD fl cf mn mx))
   | DP_S_MOD =>
       match mod_flag (ch d) with
       | Some b => c ← next_ch; mret (inl (mkDp c DP_S_CONV fl b mn mx))
       | None => mret (inl (mkDp (ch d) DP_S_CONV fl cf mn mx))
       end
   | DP_S_CONV =>
       dopr_conv put deref maxlen d;; c ← next_ch; mret (inl (mkDp c DP_S_DEFAULT 0 0 0 (-1)))
   | DP_S_DONE => mret (inl d)
   end) (at_ s f).
Proof.
  intros Hst (Hlen & Hch & _). unfold dopr_body, vars. cbn [state ch flags cflags dmin dmax].
  rewrite decide_False by done. unfold mbind at 1, M_bind at 1, gets at 1.
  cbn [currlen at_ set_format].
  rewrite (decide_False (P := hd 0 s = 0 ∨ _)) by lia. cbv zeta.
  destruct st; try done; unfold flag_bit, mod_flag; repeat (goal_decide; [done|]); done.
Qed.

Lemma live_cons c s f :
  currlen f < maxlen → c ≠ 0 → s ≠ [] → live (c :: s) f.
Proof. intros. destruct s; [done|]. split_and!; simpl; [done|done|lia]. Qed.

(** A round that reads a character, and one that only changes state. *)
Lemma rounds_read st fl cf mn mx c s f st' fl' cf' mn' mx' g :
  st ≠ DP_S_DONE → live (c :: s) f →
  dopr_body put deref maxlen (vars st fl cf mn mx (c :: s)) (at_ (c :: s) f) =
    (c ← next_ch; mret (inl (mkDp c st' fl' cf' mn' mx'))) (at_ (c :: s) g) →
  rounds 1 (vars st fl cf mn mx (c :: s)) (at_ (c :: s) f)
           (vars st' fl' cf' mn' mx' s) (at_ s g).
Proof.
  intros Hst Hl E. apply rounds_one. rewrite E. unfold mbind, M_bind.
  rewrite next_ch_at by apply Hl. done.
Qed.

Lemma rounds_flags fl cf mn mx fs c s f :
  currlen f < maxlen → Forall (λ c, is_Some (flag_bit c)) fs →
  flag_bit c = None → c ≠ 0 → s ≠ [] →
  rounds (length fs + 1) (vars DP_S_FLAGS fl cf mn mx (fs ++ c :: s)) (at_ (fs ++ c :: s) f)
    (vars DP_S_MIN (foldl (λ a c, Z.lor a (default 0 (flag_bit c))) fl fs) cf mn mx (c :: s))
    (at_ (c :: s) f).
Proof.
  intros Hf Hfs Hc Hc0 Hs. revert fl. induction Hfs as [|x fs [b Hb] Hfs IH]; intros fl; simpl.
  - apply rounds_one. rewrite body_live by (done || by apply live_cons). simpl. by rewrite Hc.
  - apply (rounds_trans 1 _ _ _ (vars DP_S_FLAGS (Z.lor fl b) cf mn mx (fs ++ c :: s))
             (at_ (fs ++ c :: s) f)); [|rewrite Hb; apply IH].
    assert (Hl : live (x :: fs ++ c :: s) f).
    { apply live_cons; [done| |by destruct fs]. intros ->. by vm_compute in Hb. }
    apply rounds_read; [done|done|]. rewrite body_live by done. simpl. by rewrite Hb.
Qed.

(** Reading digits does not touch the state. *)
Lemma read_number_state m ds f m' g : read_number m ds f = Ok m' g → g = f.
Proof.
  revert m. induction ds as [|c ds IH]; intros m; simpl.
  - by intros [= _ <-].
  - intros (m1 & ? & (_ & -> & _)%chk_Ok & (m2 & ? & (_ & -> & _)%chk_Ok & E)%bind_Ok)%bind_Ok.
    by eapply IH.
Qed.

Lemma read_number_cons m c ds f m' g :
  read_number m (c :: ds) f = Ok m' g →
  chk (10 * m) f = Ok (10 * m) f ∧
  chk (10 * m + char_to_int c) f = Ok (10 * m + char_to_int c) f ∧
  read_number (10 * m + char_to_int c) ds f = Ok m' g.
Proof.
  simpl. intros (m1 & f1 & H1 & (m2 & f2 & H2 & E)%bind_Ok)%bind_Ok.
  pose proof H1 as (-> & -> & _)%chk_Ok. pose proof H2 as (-> & -> & _)%chk_Ok. done.
Qed.

(** The checks do not look at the format. *)
Lemma chk_at z s f : chk z f = Ok z f → chk z (at_ s f) = Ok z (at_ s f).
Proof. intros (_ & _ & ?)%chk_Ok. by apply chk_Ok. Qed.

Lemma isdigit_nonzero c : isdigit c = true → c ≠ 0.
Proof. intros Hc ->. by vm_compute in Hc. Qed.

Lemma rounds_min_digits fl cf mn mx ds s f m g :
  currlen f < maxlen → Forall (λ c, isdigit c = true) ds → s ≠ [] →
  read_number mn ds f = Ok m g →
  rounds (length ds) (vars DP_S_MIN fl cf mn mx (ds ++ s)) (at_ (ds ++ s) f)
    (vars DP_S_MIN fl cf m mx s) (at_ s f).
Proof.
  intros Hf Hds Hs. revert mn. induction Hds as [|c ds Hc Hds IH]; intros mn E.
  - injection E as -> _. apply rounds_refl.
  - destruct (read_number_cons _ _ _ _ _ _ E) as (E1 & E2 & E3).
    apply (rounds_trans 1 _ _ _ (vars DP_S_MIN fl cf (10 * mn + char_to_int c) mx (ds ++ s)) (at_ (ds ++ s) f));
      [|by apply IH].
    assert (Hl : live (c :: ds ++ s) f).
    { apply live_cons; [done|by apply isdigit_nonzero|]. by destruct ds. }
    apply rounds_read; [done|done|]. simpl app. rewrite body_live by done. simpl. rewrite Hc.
    unfold mbind at 1, M_bind at 1. rewrite chk_at by done.
    unfold mbind at 1, M_bind at 1. by rewrite chk_at by done.
Qed.

Lemma rounds_max_digits fl cf mn mx ds s f m g :
  currlen f < maxlen → Forall (λ c, isdigit c = true) ds → s ≠ [] → 0 ≤ mx →
  read_number mx ds f = Ok m g →
  rounds (length ds) (vars DP_S_MAX fl cf mn mx (ds ++ s)) (at_ (ds ++ s) f)
    (vars DP_S_MAX fl cf mn m s) (at_ s f).
Proof.
  intros Hf Hds Hs. revert mx. induction Hds as [|c ds Hc Hds IH]; intros mx Hmx E.
  - injection E as -> _. apply rounds_refl.
  - destruct (read_number_cons _ _ _ _ _ _ E) as (E1 & E2 & E3).
    assert (Hm1 : 0 ≤ 10 * mx + char_to_int c).
    { unfold isdigit in Hc. apply andb_true_iff in Hc as [Hc%bool_decide_eq_true _].
      unfold char_to_int. lia. }
    apply (rounds_trans 1 _ _ _ (vars DP_S_MAX fl cf mn (10 * mx + char_to_int c) (ds ++ s)) (at_ (ds ++ s) f));
      [|by apply IH].
    assert (Hl : live (c :: ds ++ s) f).
    { apply live_cons; [done|by apply isdigit_nonzero|]. by destruct ds. }
    apply rounds_read; [done|done|]. simpl app. rewrite body_live by done. simpl. rewrite Hc.
    rewrite (decide_False (P := mx < 0)) by lia.
    unfold mbind at 1, M_bind at 1. rewrite chk_at by done.
    unfold mbind at 1, M_bind at 1. by rewrite chk_at by done.
Qed.

(** The first digit of a precision replaces the default -1. *)
Lemma rounds_max_start fl cf mn c ds s f m g :
  currlen f < maxlen → Forall (λ c, isdigit c = true) (c :: ds) → s ≠ [] →
  read_number 0 (c :: ds) f = Ok m g →
  rounds (length (c :: ds)) (vars DP_S_MAX fl cf mn (-1) (c :: ds ++ s)) (at_ (c :: ds ++ s) f)
    (vars DP_S_MAX fl cf mn m s) (at_ s f).
Proof.
  intros Hf Hds Hs E n. rewrite <-(rounds_max_digits fl cf mn 0 (c :: ds) s f m g) by done.
  apply Forall_cons in Hds as [Hc Hds].
  assert (Hl : live (c :: ds ++ s) f).
  { apply live_cons; [done|by apply isdigit_nonzero|]. by destruct ds. }
  assert (Eb : dopr_body put deref maxlen (vars DP_S_MAX fl cf mn (-1) (c :: ds ++ s))
                 (at_ (c :: ds ++ s) f) =
               dopr_body put deref maxlen (vars DP_S_MAX fl cf mn 0 (c :: ds ++ s))
                 (at_ (c :: ds ++ s) f)).
  { rewrite !body_live by done. cbv zeta. cbn [vars ch hd]. rewrite Hc.
    by rewrite (decide_True (P := -1 < 0)), (decide_False (P := 0 < 0)) by lia. }
  simpl. unfold mbind, M_bind. simpl in Eb. by rewrite Eb.
Qed.

(** Characters that may follow a width, and those that may follow a
    precision. *)
Definition after_prec : list Z := lit "hlL" ++ conversions.
Definition after_width : list Z := chr "." :: after_prec.

Lemma after_width_facts c :
  c ∈ after_width → flag_bit c = None ∧ isdigit c = false ∧ c ≠ chr "*" ∧ c ≠ 0.
Proof.
  assert (Forall (λ c, flag_bit c = None ∧ isdigit c = false ∧ c ≠ chr "*" ∧ c ≠ 0) after_width)
    as Hall by (apply (bool_decide_unpack _); by vm_compute).
  rewrite Forall_forall in Hall. apply Hall.
Qed.

Lemma after_prec_facts c : c ∈ after_prec → c ∈ after_width ∧ c ≠ chr ".".
Proof.
  intros Hc. split; [by right|].
  assert (Forall (λ c, c ≠ chr ".") after_prec) as Hall by (apply (bool_decide_unpack _); by vm_compute).
  rewrite Forall_forall in Hall. by apply Hall.
Qed.

Lemma conversions_facts c :
  c ∈ conversions → c ∈ after_prec ∧ mod_flag c = None ∧ c ≠ chr "w".
Proof.
  intros Hc. split; [by apply elem_of_app; right|].
  assert (Forall (λ c, mod_flag c = None ∧ c ≠ chr "w") conversions) as Hall
    by (apply (bool_decide_unpack _); by vm_compute).
  rewrite Forall_forall in Hall. by apply Hall.
Qed.

Lemma mod_flag_facts c : is_Some (mod_flag c) → c ∈ after_prec.
Proof.
  unfold mod_flag. intros [b Hb].
  destruct (decide (c = chr "h")) as [->|]; [by apply (bool_decide_unpack _)|].
  destruct (decide (c = chr "l")) as [->|]; [by apply (bool_decide_unpack _)|].
  destruct (decide (c = chr "L")) as [->|]; [by apply (bool_decide_unpack _)|]. done.
Qed.

(** At most [n] rounds lead from one configuration to the other. *)
Definition within (n : nat) d f d' f' : Prop := ∃ k, (k ≤ n)%nat ∧ rounds k d f d' f'.

Lemma within_rounds k d f d' f' : rounds k d f d' f' → within k d f d' f'.
Proof. intros. by exists k. Qed.

Lemma within_trans n m d1 f1 d2 f2 d3 f3 :
  within n d1 f1 d2 f2 → within m d2 f2 d3 f3 → within (n + m) d1 f1 d3 f3.
Proof.
  intros (k1 & ? & H1) (k2 & ? & H2). exists (k1 + k2)%nat. split; [lia|]. by eapply rounds_trans.
Qed.

Lemma within_le n m d f d' f' : within n d f d' f' → (n ≤ m)%nat → within m d f d' f'.
Proof. intros (k & ? & H) ?. exists k. split; [lia|done]. Qed.

Lemma va_int_currlen f m g : va_int f = Ok m g → currlen g = currlen f.
Proof.
  intros (w & f1 & E & [= _ <-])%bind_Ok. revert E. unfold va_word, mbind, M_bind, gets, fault.
  destruct (args f); [done|]. by intros [= _ <-].
Qed.

Lemma field_value_currlen start n f m g : field_value start n f = Ok m g → currlen g = currlen f.
Proof.
  destruct n as [[|c ds]|]; cbn [field_value]; [by intros [= _ <-]| |apply va_int_currlen].
  by intros ->%read_number_state.
Qed.

Lemma within_width fl cf w c s f m g :
  currlen f < maxlen → field_ok w → c ∈ after_width → s ≠ [] → field_value 0 w f = Ok m g →
  within (length (unparse_field w) + 1)
    (vars DP_S_MIN fl cf 0 (-1) (unparse_field w ++ c :: s)) (at_ (unparse_field w ++ c :: s) f)
    (vars DP_S_DOT fl cf m (-1) (c :: s)) (at_ (c :: s) g).
Proof.
  intros Hf Hw (Hfl & Hd & Hst & H0)%after_width_facts Hs E.
  assert (Hexit : ∀ mn, rounds 1 (vars DP_S_MIN fl cf mn (-1) (c :: s)) (at_ (c :: s) f)
                                (vars DP_S_DOT fl cf mn (-1) (c :: s)) (at_ (c :: s) f)).
  { intros mn. apply rounds_one. rewrite body_live by (done || by apply live_cons).
    simpl. rewrite Hd. by rewrite decide_False by done. }
  destruct w as [ds|]; cbn [unparse_field].
  - assert (E' : read_number 0 ds f = Ok m g) by by destruct ds.
    pose proof (read_number_state _ _ _ _ _ E') as ->.
    eapply within_trans; apply within_rounds; [by eapply rounds_min_digits|apply Hexit].
  - apply (within_le 1); [apply within_rounds|simpl; lia].
    assert (Hl : live (chr "*" :: c :: s) f) by by apply live_cons.
    cbn [app]. apply rounds_read; [done|done|]. rewrite body_live by done. simpl.
    unfold mbind at 1, M_bind at 1.
    pose proof (frames_va_int (c :: s) _ _ _ E) as Ev. unfold at_. simpl tl. by rewrite Ev.
Qed.

Lemma within_prec fl cf mn p c s f m g :
  currlen f < maxlen → match p with Some n => field_ok n | None => True end →
  c ∈ after_prec → s ≠ [] →
  match p with Some n => field_value (-1) n | None => mret (-1) end f = Ok m g →
  within (length (unparse_prec p) + 2)
    (vars DP_S_DOT fl cf mn (-1) (unparse_prec p ++ c :: s)) (at_ (unparse_prec p ++ c :: s) f)
    (vars DP_S_MOD fl cf mn m (c :: s)) (at_ (c :: s) g).
Proof.
  intros Hf Hp [Hc Hdot]%after_prec_facts Hs E.
  apply after_width_facts in Hc as (Hfl & Hd & Hst & H0).
  destruct p as [n|]; cbn [unparse_prec].
  - assert (Hdots : within 1 (vars DP_S_DOT fl cf mn (-1) ((chr "." :: unparse_field n) ++ c :: s))
        (at_ ((chr "." :: unparse_field n) ++ c :: s) f)
        (vars DP_S_MAX fl cf mn (-1) (unparse_field n ++ c :: s)) (at_ (unparse_field n ++ c :: s) f)).
    { assert (Hl : live (chr "." :: unparse_field n ++ c :: s) f).
      { apply live_cons; [done|done|]. destruct n as [[|]|]; done. }
      apply within_rounds. cbn [app]. apply rounds_read; [done|done|]. by rewrite body_live by done. }
    assert (Hexit : ∀ mx, rounds 1 (vars DP_S_MAX fl cf mn mx (c :: s)) (at_ (c :: s) f)
                                  (vars DP_S_MOD fl cf mn mx (c :: s)) (at_ (c :: s) f)).
    { intros mx. apply rounds_one. rewrite body_live by (done || by apply live_cons).
      simpl. rewrite Hd. by rewrite (decide_False (P := c = chr "*")) by done. }
    apply (within_le (1 + (length (unparse_field n) + 1))); [eapply within_trans; [exact Hdots|]|].
    + destruct n as [[|d ds]|]; cbn [unparse_field].
      * injection E as <- <-. apply within_rounds, Hexit.
      * cbn [field_value] in E. pose proof (read_number_state _ _ _ _ _ E) as ->.
        eapply within_trans; apply within_rounds; [by eapply rounds_max_start|apply Hexit].
      * apply (within_le 1); [apply within_rounds|simpl; lia].
        assert (Hl : live (chr "*" :: c :: s) f) by by apply live_cons.
        cbn [app]. apply rounds_read; [done|done|]. rewrite body_live by done. simpl.
        unfold mbind at 1, M_bind at 1.
        pose proof (frames_va_int (c :: s) _ _ _ E) as Ev. unfold at_. simpl tl. by rewrite Ev.
    + simpl. lia.
  - injection E as <- <-. apply (within_le 1); [apply within_rounds, rounds_one|simpl; lia].
    cbn [app]. rewrite body_live by (done || by apply live_cons). simpl.
    by rewrite decide_False by done.
Qed.

Lemma within_mod fl mn mx o c s f :
  currlen f < maxlen → match o with Some c => is_Some (mod_flag c) | None => True end →
  c ∈ conversions → s ≠ [] →
  within 1 (vars DP_S_MOD fl 0 mn mx (option_list o ++ c :: s)) (at_ (option_list o ++ c :: s) f)
    (vars DP_S_CONV fl (default 0 (o ≫= mod_flag)) mn mx (c :: s)) (at_ (c :: s) f).
Proof.
  intros Hf Ho (Hc & Hmod & _)%conversions_facts Hs.
  apply after_prec_facts in Hc as [(_ & _ & _ & H0)%after_width_facts _].
  apply within_rounds. destruct o as [m|]; simpl.
  - destruct Ho as [b Hb]. assert (Hl : live (m :: c :: s) f).
    { apply live_cons; [done| |done]. intros ->. by vm_compute in Hb. }
    apply rounds_read; [done|done|]. rewrite body_live by done. simpl. by rewrite Hb.
  - apply rounds_one. rewrite body_live by (done || by apply live_cons). simpl. by rewrite Hmod.
Qed.

Lemma within_conv fl cf mn mx c s f x g :
  currlen f < maxlen → c ∈ conversions → s ≠ [] →
  dopr_conv put deref maxlen (mkDp c DP_S_CONV fl cf mn mx) f = Ok x g →
  within 1 (vars DP_S_CONV fl cf mn mx (c :: s)) (at_ (c :: s) f)
           (vars DP_S_DEFAULT 0 0 0 (-1) s) (at_ s g).
Proof.
  intros Hf (Hc & _ & Hw)%conversions_facts Hs E.
  apply after_prec_facts in Hc as [(_ & _ & _ & H0)%after_width_facts _].
  assert (Hl : live (c :: s) f) by by apply live_cons.
  apply within_rounds, rounds_read; [done|done|]. rewrite body_live by done. cbv zeta.
  unfold vars. simpl hd. unfold mbind at 1, M_bind at 1.
  pose proof (frames_conv put deref maxlen (mkDp c DP_S_CONV fl cf mn mx) Hw s f x g E) as E'.
  unfold at_ at 1. simpl tl. by rewrite E'.
Qed.

(** The first character of what follows the flags of a directive. *)
Lemma after_flags w p o c s :
  field_ok w → head (unparse_field w) ≠ Some (chr "0") → 
  match p with Some n => field_ok n | None => True end →
  match o with Some c => is_Some (mod_flag c) | None => True end → c ∈ conversions →
  ∃ x r, unparse_field w ++ unparse_prec p ++ option_list o ++ c :: s = x :: r ∧
         flag_bit x = None ∧ x ≠ 0.
Proof.
  intros Hw Hz Hp Ho Hc. destruct w as [[|d ds]|]; [| |by eexists _, _; split].
  - simpl. assert (∃ x r, unparse_prec p ++ option_list o ++ c :: s = x :: r ∧ x ∈ after_width)
      as (x & r & -> & (? & _ & _ & ?)%after_width_facts); [|by eexists _, _].
    destruct p as [n|]; [by eexists _, _; split; [done|left]|].
    destruct o as [m|]; eexists _, _; (split; [done|]); apply after_prec_facts;
      [by apply mod_flag_facts|by apply conversions_facts].
  - eexists _, _. split; [done|]. apply Forall_cons in Hw as [Hd _].
    split; [|by apply isdigit_nonzero].
    unfold flag_bit. unfold isdigit in Hd. apply andb_true_iff in Hd as [Hd1 Hd2].
    apply bool_decide_eq_true in Hd1, Hd2.
    repeat (goal_decide; [subst; exfalso; first [by apply Hd1|by apply Hz]|]); done.
Qed.

(** What may follow the width. *)
Lemma after_field p o c s :
  match o with Some c => is_Some (mod_flag c) | None => True end → c ∈ conversions →
  (∃ x r, unparse_prec p ++ option_list o ++ c :: s = x :: r ∧ x ∈ after_width ∧ (s ≠ [] → r ≠ [])) ∧
  (∃ x r, option_list o ++ c :: s = x :: r ∧ x ∈ after_prec ∧ (s ≠ [] → r ≠ [])).
Proof.
  intros Ho Hc.
  assert (∃ x r, option_list o ++ c :: s = x :: r ∧ x ∈ after_prec ∧ (s ≠ [] → r ≠ []))
    as (x & r & E & Hx & Hr).
  { destruct o as [m|]; eexists _, _; (split; [done|split]);
      [by apply mod_flag_facts|by intros|by apply conversions_facts|done]. }
  split; [|by exists x, r]. rewrite E. destruct p as [n|]; simpl.
  - eexists _, _. split; [done|]. split; [by left|]. intros _. by destruct (unparse_field n).
  - exists x, r. split; [done|]. split; [by right|done].
Qed.

(** The state between two items. *)
Definition boundary s : dp := vars DP_S_DEFAULT 0 0 0 (-1) s.

Lemma within_text c s f g :
  currlen f < maxlen → c ≠ 0 → c ≠ chr "%" → s ≠ [] → dopr_outch put c f = Ok () g →
  within 1 (boundary (c :: s)) (at_ (c :: s) f) (boundary s) (at_ s g).
Proof.
  intros Hf H0 Hp Hs E. assert (Hl : live (c :: s) f) by by apply live_cons.
  apply within_rounds, rounds_read; [done|done|].
  pose proof (frames_outch put c s f () g E) as E'.
  rewrite body_live by done. cbv zeta. unfold vars. cbn [ch hd]. rewrite decide_False by done.
  unfold mbind, M_bind. unfold at_ at 1. simpl tl. by rewrite E'.
Qed.

Lemma within_directive d s f g :
  currlen f < maxlen → item_ok (Directive d) → s ≠ [] →
  perform put deref maxlen (Directive d) f = Ok () g →
  within (8 * length (unparse_item (Directive d)))
    (boundary (unparse_item (Directive d) ++ s)) (at_ (unparse_item (Directive d) ++ s) f)
    (boundary s) (at_ s g).
Proof.
  destruct d as [fs w p o c]. intros Hf (Hfs & Hw & Hz & Hp & Ho & Hc) Hs. simpl in *.
  intros (mn & f1 & E1 & (mx & f2 & E2 & (x & f3 & E3 & [= <-])%bind_Ok)%bind_Ok)%bind_Ok.
  pose proof (field_value_currlen _ _ _ _ _ E1) as Hf1.
  assert (Hf2 : currlen f2 = currlen f1).
  { destruct p; [by eapply field_value_currlen|]. by injection E2 as _ <-. }
  set (r1 := unparse_field w ++ unparse_prec p ++ option_list o ++ c :: s).
  assert (Es : ∀ l, (fs ++ unparse_field w ++ unparse_prec p ++ option_list o ++ [c]) ++ l =
                    fs ++ unparse_field w ++ unparse_prec p ++ option_list o ++ c :: l)
    by (intros l; by rewrite <-!app_assoc).
  rewrite Es. fold r1.
  destruct (after_flags w p o c s Hw Hz Hp Ho Hc) as (x1 & t1 & Ex1 & Hx1 & Hx1').
  destruct (after_field p o c s Ho Hc) as [(x2 & t2 & Ex2 & Hx2 & Ht2) (x3 & t3 & Ex3 & Hx3 & Ht3)].
  assert (Hr1 : r1 = x1 :: t1) by done.
  assert (Hpct : within 1 (boundary (chr "%" :: fs ++ r1)) (at_ (chr "%" :: fs ++ r1) f)
            (vars DP_S_FLAGS 0 0 0 (-1) (fs ++ r1)) (at_ (fs ++ r1) f)).
  { assert (Hl : live (chr "%" :: fs ++ r1) f) by (apply live_cons; [done|done|rewrite Hr1; by destruct fs]).
    apply within_rounds, rounds_read; [done|done|]. by rewrite body_live by done. }
  assert (Hflags : within (length fs + 1) (vars DP_S_FLAGS 0 0 0 (-1) (fs ++ r1)) (at_ (fs ++ r1) f)
            (vars DP_S_MIN (flags_value fs) 0 0 (-1) r1) (at_ r1 f)).
  { rewrite Hr1. apply within_rounds, rounds_flags; try done.
    unfold r1 in Hr1. destruct t1; [|done].
    apply (f_equal length) in Hr1. rewrite !length_app in Hr1. simpl in Hr1.
    destruct s; [done|simpl in Hr1; lia]. }
  assert (Hwidth : within (length (unparse_field w) + 1)
            (vars DP_S_MIN (flags_value fs) 0 0 (-1) r1) (at_ r1 f)
            (vars DP_S_DOT (flags_value fs) 0 mn (-1) (x2 :: t2)) (at_ (x2 :: t2) f1)).
  { unfold r1. rewrite Ex2. apply within_width; auto. }
  assert (Hprec : within (length (unparse_prec p) + 2)
            (vars DP_S_DOT (flags_value fs) 0 mn (-1) (x2 :: t2)) (at_ (x2 :: t2) f1)
            (vars DP_S_MOD (flags_value fs) 0 mn mx (x3 :: t3)) (at_ (x3 :: t3) f2)).
  { rewrite <-Ex2, Ex3. apply within_prec; auto. lia. }
  assert (Hmod : within 1 (vars DP_S_MOD (flags_value fs) 0 mn mx (x3 :: t3)) (at_ (x3 :: t3) f2)
            (vars DP_S_CONV (flags_value fs) (default 0 (o ≫= mod_flag)) mn mx (c :: s)) (at_ (c :: s) f2)).
  { rewrite <-Ex3. apply within_mod; auto. lia. }
  assert (Hconv := within_conv (flags_value fs) (default 0 (o ≫= mod_flag)) mn mx c s f2 x f3
                     ltac:(lia) Hc Hs E3).
  eapply within_le; [do 5 (eapply within_trans; [eassumption|]); exact Hconv|].
  rewrite !length_app. simpl. lia.
Qed.

(** The machine stops at the end of the format and at the limit. *)
Lemma machine_stops n s f :
  hd 0 s = 0 ∨ currlen f >= maxlen → (2 ≤ n)%nat →
  iter n (dopr_body put deref maxlen) (boundary s) (at_ s f) = Ok () (at_ s f).
Proof.
  intros Hstop Hn. destruct n as [|[|n]]; [lia|lia|]. cbn [iter].
  assert (E : dopr_body put deref maxlen (boundary s) (at_ s f) =
              Ok (inl (vars DP_S_DONE 0 0 0 (-1) s)) (at_ s f)).
  { unfold dopr_body, boundary, vars. cbn [state ch flags cflags dmin dmax].
    rewrite decide_False by done. unfold mbind, M_bind, gets. cbn [currlen at_ set_format].
    by rewrite decide_True by done. }
  unfold mbind, M_bind. by rewrite E.
Qed.

Lemma machine_performs its rest f g n :
  Forall item_ok its → perform_all put deref maxlen its f = Ok () g →
  (8 * length (unparse its) + 2 ≤ n)%nat →
  ∃ q, iter n (dopr_body put deref maxlen) (boundary (unparse its ++ 0 :: rest))
         (at_ (unparse its ++ 0 :: rest) f) = Ok () (at_ q g).
Proof.
  intros Hok. revert f n. induction Hok as [|it its Hit Hok IH]; intros f n; simpl.
  - intros [= <-] Hn. exists (0 :: rest). apply machine_stops; [by left|lia].
  - intros (m & ? & [= <- <-] & E)%bind_Ok Hn. revert E. destruct (decide _) as [Hm|Hm].
    { intros [= <-]. eexists. apply machine_stops; [by right|]. lia. }
    intros ([] & f1 & E1 & E2)%bind_Ok.
    change (unparse (it :: its)) with (unparse_item it ++ unparse its) in *.
    rewrite length_app in Hn. rewrite <-app_assoc.
    assert (Hs : unparse its ++ 0 :: rest ≠ []) by by destruct (unparse its).
    assert (within (8 * length (unparse_item it)) (boundary (unparse_item it ++ unparse its ++ 0 :: rest))
      (at_ (unparse_item it ++ unparse its ++ 0 :: rest) f)
      (boundary (unparse its ++ 0 :: rest)) (at_ (unparse its ++ 0 :: rest) f1)) as (k & Hk & Hr).
    { destruct it as [c|d].
      - destruct Hit. eapply within_le; [apply within_text; [lia|done..]|simpl; lia].
      - apply within_directive; [lia|done..]. }
    destruct (IH f1 (n - k)%nat E2) as [q Hq]; [lia|]. exists q.
    replace n with (k + (n - k))%nat by lia. by rewrite Hr.
Qed.
End machine.

Lemma dopr_performs {W} (put : Z → W → W) deref maxlen its rest words w g :
  Forall item_ok its →
  perform_all put deref maxlen its (mkFmt w 0 [] words []) = Ok () g →
  ∃ q, dopr put deref maxlen (mkFmt w 0 (unparse its ++ 0 :: rest) words []) = Ok () (set_format q g).
Proof.
  intros Hok E. unfold dopr. set (s := unparse its ++ 0 :: rest).
  assert (Hs : ∃ c p, s = c :: p) by (unfold s; destruct (unparse its); by eexists _, _).
  destruct Hs as (c & p & Es).
  destruct (machine_performs put deref maxlen its rest _ g (8 * length p + 16) Hok E) as [q Hq].
  { apply (f_equal length) in Es. unfold s in Es. rewrite length_app in Es. simpl in Es. lia. }
  exists (tl q). fold s in Hq. rewrite Es in *. exact Hq.
Qed.

(** ** Properties *)

(** C7. [vsnprintf] on the format made of any list of well-formed items
    does what the items say, in order, starting each only while fewer than
    [maxlen] characters are out: when performing the items succeeds, the
    state machine terminates with the same stream, count, remaining
    arguments and stores. *)
Theorem dopr_performs_items {W} (put : Z → W → W) deref maxlen its rest words w g :
  Forall item_ok its →
  perform_all put deref maxlen its (mkFmt w 0 [] words []) = Ok () g →
  ∃ q, vsnprintf put deref maxlen (unparse its ++ 0 :: rest) words w = Ok () (set_format q g).
Proof.
  intros Hok E. by apply dopr_performs.
Qed.

(** C37. A converted integer, for each of the bases the formatter uses:
    padding, sign, zeros and digits are laid out as [int_text] says; the
    digits denote the magnitude of the value (its two's complement when
    unsigned), lie below the base, and have no leading zero. *)
Theorem fmtint_prints_number {W} (put : Z → W → W) value base min max flags f :
  8 ≤ base ≤ 16 → int_min ≤ value ≤ int_max → (has flags DP_F_UNSIGNED = false → int_min < value) →
  - 2 ^ 30 ≤ min ≤ 2 ^ 30 → max ≤ 2 ^ 29 → 0 ≤ currlen f ≤ 2 ^ 29 →
  ∃ ds, number base ds = (if has flags DP_F_UNSIGNED then value mod 2 ^ 32 else Z.abs value) ∧
        Forall (λ d, 0 ≤ d < base) ds ∧ (ds = [0] ∨ head ds ≠ Some 0) ∧
        fmtint put value base min max flags f =
          Ok () (emit put (int_text flags min max (int_sign flags value)
                            (map (digit (has flags DP_F_UP)) ds)) f).
Proof.
  intros Hb Hv Hmin Hw Hp Hlen. exists (int_digits base flags value).
  destruct (int_digits_spec base flags value Hb Hv) as (Hn & Hd & Hz & Hl).
  split; [exact Hn|]. split; [exact Hd|]. split; [exact Hz|].
  set (ds := map (digit (has flags DP_F_UP)) (int_digits base flags value)).
  assert (Hr := int_text_room flags min max (int_sign flags value) ds f Hw Hp Hlen
                  ltac:(unfold ds; rewrite length_map; lia)).
  destruct (proj1 (wp_Ok (fmtint put value base min max flags) (λ _ g, g = _) f)
    (wp_fmtint put value base min max flags _ f Hb Hv Hmin Hw Hp Hr eq_refl)) as ([] & g & E & ->).
  exact E.
Qed.

(** A string argument is padded to the width on the side the flags
    choose and the result, padding included, is cut to the precision; a
    null pointer prints as [<NULL>]. *)
Theorem fmtstr_prints_string {W} (put : Z → W → W) p s flags min max f :
  points_to (default (cstring (lit "<NULL>")) p) s →
  Z.of_nat (length s) ≤ 2 ^ 30 → - 2 ^ 30 ≤ min ≤ 2 ^ 30 → max ≤ int_max →
  0 ≤ currlen f < 2 ^ 30 →
  fmtstr put p flags min max f =
    Ok () (emit put (take (Z.to_nat max)
             (let pad := replicate (Z.to_nat (min - Z.of_nat (length s))) (chr " ") in
              if has flags DP_F_MINUS then s ++ pad else pad ++ s)) f).
Proof.
  intros Hp Hs Hmin Hmax Hlen.
  assert (Hr : room f (Z.of_nat (length (str_padded flags min s)))).
  { unfold room, str_padded, int_max. destruct (has _ _); rewrite length_app, length_replicate; lia. }
  destruct (proj1 (wp_Ok (fmtstr put p flags min max) (λ _ g, g = _) f)
    (wp_fmtstr put p s flags min max _ f Hp Hs Hmin Hmax Hr eq_refl)) as ([] & g & E & ->).
  exact E.
Qed.

(** ** Witnesses *)

Definition sample_items : list item :=
  [Text (chr "x"); Directive (mkDir [chr "-"; chr "0"] (Digits (lit "12")) (Some Star) (Some (chr "l")) (chr "d"));
   Text (chr "y")].

Lemma dopr_performs_items_witness :
  ∃ q, vsnprintf (λ c w, c :: w) (λ _, []) 100 (unparse sample_items ++ 0 :: []) [3; 42] [] =
       Ok () (set_format q (mkFmt (rev (lit "x00000000042y")) 13 [] [] [])).
Proof.
  apply dopr_performs_items.
  - repeat constructor; first [done|by eexists|by (apply (bool_decide_unpack _); vm_compute)|idtac].
    all: try (by eexists); try (intros [=]); try (apply (bool_decide_unpack _); by vm_compute).
  - vm_compute. reflexivity.
Defined.

Lemma fmtint_prints_number_witness :
  ∃ ds, number 16 ds = 305 ∧ Forall (λ d, 0 ≤ d < 16) ds ∧ (ds = [0] ∨ head ds ≠ Some 0) ∧
        fmtint (λ c w, c :: w) 305 16 8 4 0 (mkFmt [] 0 [] [] []) =
          Ok () (emit (λ c w, c :: w) (int_text 0 8 4 (int_sign 0 305) (map (digit (has 0 DP_F_UP)) ds))
                  (mkFmt [] 0 [] [] [])).
Proof.
  apply (fmtint_prints_number (λ c w, c :: w) 305 16 8 4 0);
    unfold int_min, int_max; simpl; try lia; intros _; lia.
Defined.

Lemma fmtstr_prints_string_witness :
  fmtstr (λ c w, c :: w) (Some (cstring (lit "ab"))) 0 5 100 (mkFmt [] 0 [] [] []) =
    Ok () (emit (λ c w, c :: w) (take (Z.to_nat 100)
             (let pad := replicate (Z.to_nat (5 - Z.of_nat (length (lit "ab")))) (chr " ") in
              if has 0 DP_F_MINUS then lit "ab" ++ pad else pad ++ lit "ab")) (mkFmt [] 0 [] [] [])).
Proof.
  apply fmtstr_prints_string; unfold int_max; simpl; try lia.
  apply points_to_cstring. apply (bool_decide_unpack _). by vm_compute.
Defined.
