(* ===== verification/PhysMem.v ===== *)
(** * Physical frames (kernel/physmem.cc)

    The frame allocator: a free list threaded through the first word of
    each free frame, in front of a bump pointer.  Memory is a store of
    32-bit words at the byte addresses that are multiples of four; the
    kernel reaches a physical address through the identity map, so an
    access below the first frame or beyond [limit] is a page fault it does
    not survive.  The interrupt-safe lock makes each operation one step. *)

From S2P Require Import Prelude.

(** ** State and operations *)

Record phys := mkPhys {
  mem : Z → Z;
  firstFree : Z;   (** [Frame *firstFree], 0: null *)
  avail : Z;
  limit : Z
}.

Definition FRAME_SIZE : Z := Z.shiftl 1 12.

Definition offset (pa : Z) : Z := Z.land pa 0xFFF.
Definition ppn (pa : Z) : Z := Z.shiftr pa 12.
Definition framedown (pa : Z) : Z := u32 (pa / FRAME_SIZE * FRAME_SIZE).
Definition frameup (pa : Z) : Z := framedown (u32 (u32 (pa + FRAME_SIZE) - 1)).

(** A word of memory read and written by the kernel. *)
Definition load (a : Z) : M phys Z :=
  l ← gets limit;
  require (FRAME_SIZE ≤ a < l);;
  gets (λ s, mem s a).

Definition store (a v : Z) : M phys () :=
  l ← gets limit;
  require (FRAME_SIZE ≤ a < l);;
  modify (λ s, mkPhys (upd (mem s) a v) (firstFree s) (avail s) (limit s)).

(** [bzero(p, FRAME_SIZE)]. *)
Definition bzero_frame (p : Z) : M phys () :=
  l ← gets limit;
  require (FRAME_SIZE ≤ p ∧ p + FRAME_SIZE ≤ l);;
  modify (λ s, mkPhys (λ a, if decide (p ≤ a < p + FRAME_SIZE) then 0 else mem s a)
                      (firstFree s) (avail s) (limit s)).

Definition alloc_frame : M phys Z :=
  ff ← gets firstFree;
  p ← (if decide (ff ≠ 0) then
         n ← load ff;
         modify (λ s, mkPhys (mem s) n (avail s) (limit s));;
         mret ff
       else
         av ← gets avail;
         l ← gets limit;
         (if decide (av = l) then panic else mret ());;
         modify (λ s, mkPhys (mem s) (firstFree s) (u32 (av + FRAME_SIZE)) (limit s));;
         mret av);
  assert (offset p = 0);;
  bzero_frame p;;
  mret p.

Definition dealloc_frame (p : Z) : M phys () :=
  assert (offset p = 0);;
  ff ← gets firstFree;
  store p ff;;
  modify (λ s, mkPhys (mem s) p (avail s) (limit s)).

(** [PhysMem::init] on the state before it. *)
Definition init (start size : Z) : M phys () :=
  assert (offset start = 0);;
  assert (offset size = 0);;
  modify (λ s, mkPhys (mem s) (firstFree s) start (u32 (start + size))).

(** ** Alignment *)

Lemma land_fff p : offset p = p mod 4096.
Proof. apply (Z.land_ones p 12). lia. Qed.

Lemma FRAME_SIZE_eq : FRAME_SIZE = 4096.
Proof. done. Qed.

(** ** The allocator's invariant *)

Fixpoint chain (m : Z → Z) (cur : Z) (fl : list Z) : Prop :=
  match fl with
  | [] => cur = 0
  | x :: fl' => cur = x ∧ chain m (m x) fl'
  end.

(** A frame of the memory between [base] and [top]. *)
Definition frame (base top p : Z) : Prop := p mod 4096 = 0 ∧ base ≤ p < top.

(** The frames below the bump pointer are split into the free list and the
    frames in use. *)
Record frames_inv (base : Z) (s : phys) (fl : list Z) (used : gset Z) : Prop := {
  fi_base : base mod 4096 = 0 ∧ 4096 ≤ base;
  fi_avail : avail s mod 4096 = 0 ∧ base ≤ avail s ≤ limit s;
  fi_limit : limit s mod 4096 = 0 ∧ limit s < 2 ^ 32;
  fi_chain : chain (mem s) (firstFree s) fl;
  fi_nodup : NoDup fl;
  fi_disjoint : ∀ p, p ∈ fl → p ∉ used;
  fi_frames : ∀ p, p ∈ fl ∨ p ∈ used ↔ frame base (avail s) p
}.

(** What an operation on other frames leaves alone. *)
Definition same_outside (P : Z → Prop) (s s' : phys) : Prop :=
  limit s' = limit s ∧ ∀ a, ¬ P a → mem s' a = mem s a.

Definition in_frame (p a : Z) : Prop := p ≤ a < p + 4096.

Lemma chain_frame m m' cur fl :
  (∀ x, x ∈ fl → m' x = m x) → chain m cur fl → chain m' cur fl.
Proof.
  revert cur. induction fl as [|x fl IH]; intros cur Heq; simpl; [done|].
  intros [-> Hc]. split; [done|]. rewrite Heq by (by left).
  apply IH; [|done]. intros y Hy. apply Heq. by right.
Qed.

Lemma frame_apart base top p q a :
  frame base top p → frame base top q → p ≠ q → in_frame p a → ¬ in_frame q a.
Proof.
  intros [Hp _] [Hq _] Hne Ha Ha'. unfold in_frame in *.
  pose proof (Z.div_mod p 4096 ltac:(lia)). pose proof (Z.div_mod q 4096 ltac:(lia)). lia.
Qed.

(** Frames that could still be handed out. *)
Definition free_count (s : phys) (fl : list Z) : Z :=
  Z.of_nat (length fl) + (limit s - avail s) / 4096.

Section allocator.
Context (base : Z).
Implicit Types (s : phys) (fl : list Z) (used : gset Z).

Lemma fi_frame_bounds s fl used p :
  frames_inv base s fl used → frame base (avail s) p → 4096 ≤ p ∧ p + 4096 ≤ avail s ∧ avail s ≤ limit s.
Proof.
  intros [[? ?] [? ?] _ _ _ _ _] [Hp ?].
  pose proof (Z.div_mod p 4096 ltac:(lia)). pose proof (Z.div_mod (avail s) 4096 ltac:(lia)). lia.
Qed.

(** Writing inside a frame in use keeps the invariant. *)
Lemma fi_write s fl used p m' :
  frames_inv base s fl used → p ∈ used → (∀ a, ¬ in_frame p a → m' a = mem s a) →
  frames_inv base (mkPhys m' (firstFree s) (avail s) (limit s)) fl used.
Proof.
  intros Hi Hp Hm. pose proof Hi as [? ? ? Hc ? Hd Hf]. split; try done. simpl.
  eapply chain_frame; [|done]. intros x Hx. apply Hm.
  eapply (frame_apart base (avail s) x p); [apply Hf; by left|apply Hf; by right| |].
  - intros ->. by eapply Hd.
  - unfold in_frame. lia.
Qed.

(** The frame [alloc_frame] takes, before it is cleared. *)
Definition takes s fl used (p : Z) s' : Prop :=
  (p ∉ used) ∧ frame base (avail s') p ∧ same_outside (λ _, False) s s' ∧
  ∃ fl', frames_inv base s' fl' ({[p]} ∪ used) ∧ free_count s' fl' = free_count s fl - 1.

Lemma take_listed s x fl used :
  frames_inv base s (x :: fl) used →
  takes s (x :: fl) used x (mkPhys (mem s) (mem s x) (avail s) (limit s)).
Proof.
  intros Hi. pose proof Hi as [? ? ? [Ex Hc] [Hnx Hnd]%NoDup_cons Hd Hf].
  split_and!; try done; [apply Hd; by left|apply Hf; left; by left|].
  exists fl. split; [|unfold free_count; simpl; lia]. split; try done; simpl.
  - intros p Hp. pose proof (Hd p ltac:(by right)). intros [->%elem_of_singleton|]%elem_of_union; done.
  - intros p. rewrite <-Hf. set_solver.
Qed.

Lemma take_fresh s used :
  frames_inv base s [] used → avail s ≠ limit s →
  takes s [] used (avail s) (mkPhys (mem s) (firstFree s) (u32 (avail s + FRAME_SIZE)) (limit s)).
Proof.
  intros Hi Hne. pose proof Hi as [[Hb0 Hb] [Ha ?] [Hl ?] Hc _ Hd Hf].
  pose proof (Z.div_mod (avail s) 4096 ltac:(lia)) as Ea.
  pose proof (Z.div_mod (limit s) 4096 ltac:(lia)) as El.
  pose proof (Z.div_mod base 4096 ltac:(lia)) as Eb.
  assert (Hn : u32 (avail s + FRAME_SIZE) = avail s + 4096) by (rewrite FRAME_SIZE_eq, u32_small; lia).
  assert (Hm : (avail s + 4096) mod 4096 = 0).
  { replace (avail s + 4096) with (avail s + 1 * 4096) by lia. by rewrite Z.mod_add. }
  unfold takes. simpl. rewrite Hn. split_and!; try done.
  - intros Hin. assert (frame base (avail s) (avail s)) as [_ ?] by (apply Hf; by right). lia.
  - split; [done|lia].
  - exists []. split.
    + split; simpl; try done; [split; [done|lia]|apply NoDup_nil_2|intros p Hp; set_solver|].
      intros p. rewrite elem_of_union, elem_of_singleton. split.
      * intros [?|[->|Hp]]; [set_solver|split; [done|lia]|].
        assert (frame base (avail s) p) as [? ?] by (apply Hf; by right). split; [done|lia].
      * intros [Hp0 Hp]. right. destruct (decide (p = avail s)); [by left|right].
        assert (p ∈ [] ∨ p ∈ used) as [?|]; [|set_solver|done].
        apply Hf. split; [done|]. pose proof (Z.div_mod p 4096 ltac:(lia)). lia.
    + unfold free_count. simpl.
      replace (limit s - avail s) with ((limit s - (avail s + 4096)) + 1 * 4096) by lia.
      rewrite Z.div_add by lia. lia.
Qed.

(** [alloc_frame] succeeds while a frame is left: the frame is new, zero,
    and nothing else changes. *)
Definition allocated s fl used (p : Z) s' : Prop :=
  (p ∉ used) ∧ frame base (avail s') p ∧ same_outside (in_frame p) s s' ∧
  (∀ a, in_frame p a → mem s' a = 0) ∧
  ∃ fl', frames_inv base s' fl' ({[p]} ∪ used) ∧ free_count s' fl' = free_count s fl - 1.

Lemma wp_clear s fl used p s' (Q : Z → phys → Prop) :
  takes s fl used p s' → (∀ s'', allocated s fl used p s'' → Q p s'') →
  wp (assert (offset p = 0);; bzero_frame p;; mret p) Q s'.
Proof.
  intros (Hp & Hf & [Hlim Hm] & fl' & Hi & Hc) HQ.
  pose proof (fi_frame_bounds _ _ _ _ Hi Hf). destruct Hf as [Hp0 Hpb].
  apply wp_bind, wp_assert; [by rewrite land_fff|].
  unfold bzero_frame. repeat wp_step.
  apply wp_require; [rewrite FRAME_SIZE_eq; lia|]. repeat wp_step.
  apply HQ. split; [done|]. split; [by split|]. split; [|split]; simpl.
  - split; [done|]. intros a Ha. simpl. rewrite decide_False; [apply Hm; tauto|]. by rewrite FRAME_SIZE_eq.
  - intros a Ha. by rewrite FRAME_SIZE_eq, decide_True.
  - exists fl'. split; [|done].
    eapply (fi_write s'); [done|by apply elem_of_union_l, elem_of_singleton|].
    intros a Ha. rewrite decide_False; [done|]. by rewrite FRAME_SIZE_eq.
Qed.

Lemma wp_alloc_frame s fl used (Q : Z → phys → Prop) :
  frames_inv base s fl used → 0 < free_count s fl →
  (∀ p s', allocated s fl used p s' → Q p s') → wp alloc_frame Q s.
Proof.
  intros Hi Hc HQ. unfold alloc_frame. apply wp_bind, wp_gets.
  pose proof Hi as [[Hb0 Hb] [Ha ?] [Hl ?] Hch _ Hd Hf].
  destruct fl as [|x fl]; simpl in Hch.
  - rewrite decide_False by congruence. apply wp_bind. do 4 wp_step.
    assert (avail s ≠ limit s).
    { intros E. unfold free_count in Hc. rewrite E, Z.sub_diag in Hc. rewrite Z.div_0_l in Hc by lia. simpl in Hc. lia. }
    apply wp_bind. rewrite decide_False by done. apply wp_ret, wp_bind, wp_modify, wp_ret.
    eapply wp_clear; [by apply take_fresh|]. intros s' Hs'. by apply HQ.
  - destruct Hch as [E _]. assert (frame base (avail s) x) as Hx by (apply Hf; left; by left).
    pose proof (fi_frame_bounds _ _ _ _ Hi Hx). rewrite E, decide_True by lia.
    unfold load. repeat wp_step.
    apply wp_require; [rewrite FRAME_SIZE_eq; lia|]. apply wp_gets, wp_bind, wp_modify, wp_ret.
    eapply wp_clear; [by apply take_listed|]. intros s' Hs'. by apply HQ.
Qed.

(** With no frame left it stops the kernel. *)
Lemma alloc_frame_exhausted s fl used :
  frames_inv base s fl used → ¬ 0 < free_count s fl →
  free_count s fl = 0 ∧ alloc_frame s = Panicked s.
Proof.
  intros [_ [Ha Hal] [Hl _] Hch _ _ _] Hc. unfold free_count in *.
  pose proof (Z.div_mod (limit s - avail s) 4096 ltac:(lia)).
  pose proof (Z.mod_pos_bound (limit s - avail s) 4096 ltac:(lia)).
  pose proof (Z.div_mod (avail s) 4096 ltac:(lia)). pose proof (Z.div_mod (limit s) 4096 ltac:(lia)).
  assert (0 ≤ (limit s - avail s) / 4096) by (apply Z.div_pos; lia).
  destruct fl as [|x fl]; simpl in *; [|lia].
  assert (E : avail s = limit s) by lia. rewrite E, Z.sub_diag. split; [done|].
  unfold alloc_frame, mbind, M_bind, gets. rewrite Hch. simpl. by rewrite decide_True by done.
Qed.

Lemma wp_dealloc_frame s fl used p (Q : () → phys → Prop) :
  frames_inv base s fl used → p ∈ used →
  (∀ s', frames_inv base s' (p :: fl) (used ∖ {[p]}) → same_outside (λ a, a = p) s s' →
         free_count s' (p :: fl) = free_count s fl + 1 → Q () s') →
  wp (dealloc_frame p) Q s.
Proof.
  intros Hi Hp HQ. pose proof Hi as [? ? ? Hc ? Hd Hf].
  assert (frame base (avail s) p) as Hfr by (apply Hf; by right).
  pose proof (fi_frame_bounds _ _ _ _ Hi Hfr). destruct Hfr as [Hp0 _].
  unfold dealloc_frame. apply wp_bind, wp_assert; [by rewrite land_fff|].
  unfold store. repeat wp_step. apply wp_require; [rewrite FRAME_SIZE_eq; lia|].
  repeat wp_step. apply HQ.
  - assert (p ∉ fl) by (intros Hin; by apply Hd in Hin).
    split; simpl; try done.
    + split; [done|]. rewrite upd_eq. eapply chain_frame; [|done].
      intros x Hx. apply upd_ne. by intros ->.
    + by apply NoDup_cons.
    + intros q [->|Hq]%elem_of_cons; [set_solver|]. specialize (Hd q Hq). set_solver.
    + intros q. rewrite <-Hf. destruct (decide (q = p)) as [->|]; set_solver.
  - split; [done|]. intros a Ha. simpl. by apply upd_ne.
  - unfold free_count. simpl. lia.
Qed.
End allocator.

(** ** Clients of the frame allocator *)

Inductive frame_request :=
| Alloc
| Dealloc (k : nat)           (** give back the [k]-th frame held *)
| Poke (k : nat) (i v : Z).   (** word [i] of the [k]-th frame := [v] *)

Definition serve (held : list Z) (r : frame_request) : M phys (list Z) :=
  match r with
  | Alloc => p ← alloc_frame; mret (p :: held)
  | Dealloc k =>
      match held !! k with
      | Some p => dealloc_frame p;; mret (delete k held)
      | None => mret held
      end
  | Poke k i v =>
      match held !! k with
      | Some p => if decide (0 ≤ i < 1024) then store (p + 4 * i) v;; mret held else mret held
      | None => mret held
      end
  end.

Fixpoint client (held : list Z) (rs : list frame_request) : M phys (list Z) :=
  match rs with
  | [] => mret held
  | r :: rs => held ← serve held r; client held rs
  end.

(** Serving the requests never needs more than [total] frames at once,
    starting with [n] of them held. *)
Fixpoint fits (total : Z) (n : nat) (rs : list frame_request) : Prop :=
  match rs with
  | [] => True
  | Alloc :: rs => Z.of_nat n < total ∧ fits total (S n) rs
  | Dealloc k :: rs => fits total (if decide (k < n)%nat then pred n else n) rs
  | Poke _ _ _ :: rs => fits total n rs
  end.

Section client_proofs.
Context (base total : Z).
Implicit Types (s : phys) (held : list Z).

Definition holds s held : Prop :=
  NoDup held ∧ ∃ fl, frames_inv base s fl (list_to_set held) ∧
                     free_count s fl + Z.of_nat (length held) = total.

Lemma holds_frame s held p :
  holds s held → p ∈ held → frame base (avail s) p ∧ 4096 ≤ p ∧ p + 4096 ≤ avail s ∧ avail s ≤ limit s.
Proof.
  intros (_ & fl & Hi & _) Hp. assert (frame base (avail s) p) as Hf.
  { apply (fi_frames _ _ _ _ Hi). right. by apply elem_of_list_to_set. }
  split; [done|]. by eapply fi_frame_bounds.
Qed.

Lemma wp_serve_poke s held k i v :
  holds s held →
  wp (serve held (Poke k i v)) (λ held' s', limit s' = limit s ∧ holds s' held ∧ held' = held) s.
Proof.
  intros Hh. pose proof Hh as (Hnd & fl & Hi & Hc). simpl.
  destruct (held !! k) as [p|] eqn:Ek; [|by apply wp_ret].
  apply list_elem_of_lookup_2 in Ek. destruct (holds_frame _ _ _ Hh Ek) as (_ & ?).
  destruct (decide (0 ≤ i < 1024)); [|by apply wp_ret].
  unfold store. repeat wp_step. apply wp_require; [rewrite FRAME_SIZE_eq; lia|].
  repeat wp_step. split; [done|]. split; [|done]. split; [done|]. exists fl. split; [|done].
  eapply fi_write; [done|by apply elem_of_list_to_set|].
  intros b Hb. apply upd_ne. unfold in_frame in Hb. lia.
Qed.

Lemma wp_serve_alloc s held :
  holds s held → Z.of_nat (length held) < total →
  wp (serve held Alloc)
     (λ held' s', limit s' = limit s ∧ holds s' held' ∧ length held' = S (length held)) s.
Proof.
  intros (Hnd & fl & Hi & Hc) Hlt. simpl. apply wp_bind. eapply wp_alloc_frame; [done|lia|].
  intros p s' (Hp & _ & [Hl _] & _ & fl' & Hi' & Hc'). apply wp_ret.
  split; [done|]. split; [|done]. split.
  - apply NoDup_cons. split; [|done]. by rewrite elem_of_list_to_set in Hp.
  - exists fl'. split; [done|]. simpl. lia.
Qed.

Lemma wp_serve_dealloc s held k :
  holds s held →
  wp (serve held (Dealloc k))
     (λ held' s', limit s' = limit s ∧ holds s' held' ∧
        length held' = if decide (k < length held)%nat then pred (length held) else length held) s.
Proof.
  intros (Hnd & fl & Hi & Hc). simpl. destruct (held !! k) as [p|] eqn:Ek.
  - apply wp_bind. pose proof (lookup_lt_Some _ _ _ Ek) as Hlt.
    eapply wp_dealloc_frame; [done|by eapply elem_of_list_to_set, list_elem_of_lookup_2|].
    intros s' Hi' [Hl _] Hc'. apply wp_ret. rewrite decide_True by done.
    pose proof (length_delete held k ltac:(by eexists)) as Hlen.
    split; [done|]. split; [|rewrite Hlen; lia].
    split; [by eapply sublist_NoDup, sublist_delete|]. exists (p :: fl). split; [|rewrite Hlen; lia].
    replace (list_to_set (delete k held) : gset Z) with (list_to_set held ∖ {[p]} : gset Z); [done|].
    pose proof (delete_take_drop held k) as Ed. rewrite <-(take_drop_middle held k p Ek) in Hnd |- * at 1.
    apply set_eq. intros q. rewrite elem_of_difference, !elem_of_list_to_set, Ed, elem_of_singleton.
    rewrite (take_drop_middle held k p Ek) in *.
    rewrite <-(take_drop_middle held k p Ek) in Hnd. rewrite <-(take_drop_middle held k p Ek) at 1.
    apply NoDup_app in Hnd as (_ & Hd & [Hp _]%NoDup_cons). rewrite !elem_of_app, elem_of_cons.
    split; [intros [[?|[?|?]] ?]; auto; done|]. intros [Hq|Hq].
    + split; [by left|]. intros ->. eapply Hd; [exact Hq|by left].
    + split; [right; by right|]. by intros ->.
  - apply wp_ret. rewrite decide_False; [|by apply lookup_ge_None in Ek; lia].
    split; [done|]. split; [|done]. split; [done|]. by exists fl.
Qed.

Lemma wp_client s held rs :
  holds s held → fits total (length held) rs →
  wp (client held rs) (λ held' s', limit s' = limit s ∧ holds s' held') s.
Proof.
  revert s held. induction rs as [|r rs IH]; intros s held Hh Hf; simpl; [by apply wp_ret|].
  apply wp_bind. destruct r as [|k|k i v]; simpl in Hf.
  - destruct Hf as [Hlt Hf]. eapply wp_mono; [by apply wp_serve_alloc|].
    intros held' s' (Hl & Hh' & Hlen). rewrite <-Hl. apply IH; [done|by rewrite Hlen].
  - eapply wp_mono; [by apply wp_serve_dealloc|].
    intros held' s' (Hl & Hh' & Hlen). rewrite <-Hl. apply IH; [done|by rewrite Hlen].
  - eapply wp_mono; [by apply wp_serve_poke|].
    intros held' s' (Hl & Hh' & ->). rewrite <-Hl. by apply IH.
Qed.
End client_proofs.

(** [init] on the boot state, whose free list is empty. *)
Lemma wp_init m start size :
  start mod 4096 = 0 → size mod 4096 = 0 → 4096 ≤ start → 0 ≤ size → start + size < 2 ^ 32 →
  wp (init start size)
     (λ _ s, holds start (size / 4096) s [] ∧ limit s = start + size) (mkPhys m 0 0 0).
Proof.
  intros Hs Hz Hlo Hsz Hhi. unfold init.
  apply wp_bind, wp_assert; [by rewrite land_fff|].
  apply wp_bind, wp_assert; [by rewrite land_fff|]. apply wp_modify. simpl.
  pose proof (Z.div_mod start 4096 ltac:(lia)). pose proof (Z.div_mod size 4096 ltac:(lia)).
  rewrite u32_small by lia. split; [|done]. split; [apply NoDup_nil_2|]. exists []. split.
  - split; simpl; try done; [lia| |apply NoDup_nil_2|].
    + split; [|done]. replace (start + size) with (0 + (start / 4096 + size / 4096) * 4096) by lia.
      by rewrite Z.mod_add.
    + intros p. unfold frame. set_solver by lia.
  - unfold free_count. simpl. replace (start + size - start) with size by lia. lia.
Qed.

(** C6. From boot, any sequence of allocations, deallocations of held
    frames and writes into held frames whose outstanding frames fit in the
    memory given to [init] runs to completion, and the frames held are
    distinct, page aligned and inside that memory. *)
Theorem frames_client_safe m start size rs :
  start mod 4096 = 0 → size mod 4096 = 0 → 4096 ≤ start → 0 ≤ size → start + size < 2 ^ 32 →
  fits (size / 4096) 0 rs →
  ∃ s0 held s, init start size (mkPhys m 0 0 0) = Ok () s0 ∧
    client [] rs s0 = Ok held s ∧ NoDup held ∧
    ∀ p, p ∈ held → p mod 4096 = 0 ∧ start ≤ p ∧ p + 4096 ≤ start + size.
Proof.
  intros Hs Hz Hlo Hsz Hhi Hf.
  destruct (proj1 (wp_Ok _ _ _) (wp_init m start size Hs Hz Hlo Hsz Hhi)) as ([] & s0 & E0 & Hh & Hl).
  destruct (proj1 (wp_Ok _ _ _) (wp_client _ _ s0 [] rs Hh Hf)) as (held & s & E & Hl' & Hh').
  exists s0, held, s. split; [done|]. split; [done|]. split; [by apply Hh'|].
  intros p Hp. destruct (holds_frame _ _ _ _ _ Hh' Hp) as ([Hp0 ?] & ?). split; [done|]. lia.
Qed.

(** [alloc_frame] returns a frame that was not in use, filled with
    zeros, changes no other word of memory, and stops the kernel exactly
    when no frame is left. *)
Theorem alloc_frame_fresh base s fl used :
  frames_inv base s fl used →
  (0 < free_count s fl ∧ ∃ p s' fl', alloc_frame s = Ok p s' ∧ (p ∉ used) ∧
     frame base (limit s) p ∧ (∀ a, p ≤ a < p + 4096 → mem s' a = 0) ∧
     (∀ a, ¬ (p ≤ a < p + 4096) → mem s' a = mem s a) ∧
     frames_inv base s' fl' ({[p]} ∪ used) ∧ free_count s' fl' = free_count s fl - 1) ∨
  (free_count s fl = 0 ∧ alloc_frame s = Panicked s).
Proof.
  intros Hi. destruct (decide (0 < free_count s fl)) as [Hc|Hc].
  - left. split; [done|].
    destruct (proj1 (wp_Ok alloc_frame (λ p s', allocated base s fl used p s') s)) as (p & s' & E & Ha).
    { by eapply wp_alloc_frame. }
    destruct Ha as (Hp & [Hf Hb] & [Hl Hm] & Hz & fl' & Hi' & Hc'). exists p, s', fl'.
    pose proof (fi_avail _ _ _ _ Hi'). split; [done|]. split; [done|].
    split; [split; [done|lia]|]. by split_and!.
  - right. by eapply alloc_frame_exhausted.
Qed.

(** ** Witnesses *)

Lemma frames_client_safe_witness :
  ∃ s0 held s, init 8192 8192 (mkPhys (λ _, 5) 0 0 0) = Ok () s0 ∧
    client [] [Alloc; Alloc; Poke 0 3 7; Dealloc 1; Alloc] s0 = Ok held s ∧ NoDup held ∧
    ∀ p, p ∈ held → p mod 4096 = 0 ∧ 8192 ≤ p ∧ p + 4096 ≤ 8192 + 8192.
Proof.
  apply (frames_client_safe (λ _, 5) 8192 8192 [Alloc; Alloc; Poke 0 3 7; Dealloc 1; Alloc]);
    try done; try lia.
Defined.

Definition sample_phys : phys := mkPhys (λ a, if decide (a = 8192) then 0 else 9) 8192 12288 16384.

Lemma sample_frames : frames_inv 8192 sample_phys [8192] ∅.
Proof.
  split; [done|done|done|done|apply NoDup_singleton|intros p _; apply not_elem_of_empty|].
  intros p. unfold frame. simpl. rewrite list_elem_of_singleton. split.
  - intros [->|?]; [split; [done|lia]|set_solver].
  - intros [Hp Hb]. left. pose proof (Z.div_mod p 4096 ltac:(lia)). lia.
Qed.

Lemma alloc_frame_fresh_witness :
  (0 < free_count sample_phys [8192] ∧ ∃ p s' fl', alloc_frame sample_phys = Ok p s' ∧ (p ∉ (∅ : gset Z)) ∧
     frame 8192 (limit sample_phys) p ∧ (∀ a, p ≤ a < p + 4096 → mem s' a = 0) ∧
     (∀ a, ¬ (p ≤ a < p + 4096) → mem s' a = mem sample_phys a) ∧
     frames_inv 8192 s' fl' ({[p]} ∪ ∅) ∧ free_count s' fl' = free_count sample_phys [8192] - 1) ∨
  (free_count sample_phys [8192] = 0 ∧ alloc_frame sample_phys = Panicked sample_phys).
Proof. apply alloc_frame_fresh. apply sample_frames. Defined.
