(* ===== verification/Vmm.v ===== *)
(** * Address spaces (kernel/vmm.cc)

    Two-level page tables over the frames of [PhysMem]: [map], [unmap],
    [make_pd], [delete_pd], the initial identity map and the page-fault
    handler, and the two loops over an address space in sys.cc (the copy
    made by [fork] and the unmapping done by [execl]). *)

From S2P Require Import Prelude.
From S2P Require Import PhysMem.

(** Both fields of a page-table entry. *)
Definition present (e : Z) : bool := bool_decide (Z.land e 1 ≠ 0).
Definition frame_of (e : Z) : Z := Z.land e 0xFFFFF000.

Definition pdi (va : Z) : Z := Z.shiftr va 22.
Definition pti (va : Z) : Z := Z.land (Z.shiftr va 12) 0x3FF.

(** [pd[i]] for a table of words. *)
Definition read_entry (pd i : Z) : M phys Z := load (pd + 4 * i).
Definition write_entry (pd i v : Z) : M phys () := store (pd + 4 * i) v.

Section vmm.
(** The fields of [kConfig] and the static [shared]. *)
Context (memSize ioAPIC localAPIC shared : Z).

Definition map (pd va pa : Z) : M phys () :=
  pde ← read_entry pd (pdi va);
  pde ← (if decide (Z.land pde 1 = 0) then
           f ← alloc_frame;
           let pde := Z.lor f 7 in
           write_entry pd (pdi va) pde;;
           mret pde
         else mret pde);
  write_entry (frame_of pde) (pti va) (Z.lor pa 7).

(** [invlpg] acts on the processor's cache of translations only. *)
Definition unmap (pd va : Z) : M phys () :=
  pde ← read_entry pd (pdi va);
  if decide (Z.land pde 1 = 0) then mret () else
  pde ← read_entry pd (pdi va);
  let pt := frame_of pde in
  pte ← read_entry pt (pti va);
  if decide (Z.land pte 1 = 0) then mret () else
  let pa := frame_of pte in
  write_entry pt (pti va) 0;;
  dealloc_frame pa.

(** [shared_size / 4], the directory entries of physical memory. *)
Definition shared_entries : Z :=
  let m4 := 4 * 1024 * 1024 in u32 (u32 (memSize + m4) - 1) / m4.

Definition make_pd : M phys Z :=
  pd ← alloc_frame;
  for_range 0 (Z.to_nat shared_entries) (λ i, e ← read_entry shared i; write_entry pd i e);;
  map pd ioAPIC ioAPIC;;
  map pd localAPIC localAPIC;;
  mret pd.

Definition delete_pd (pd : Z) : M phys () :=
  for_range 512 512 (λ i,
    pde ← read_entry pd i;
    if decide (Z.land pde 1 ≠ 0) then dealloc_frame (frame_of pde) else mret ());;
  dealloc_frame pd.

(** [vmm_pageFault] in the address space [pd] of the current thread, with
    [saved] in the [cr3] of its save area, where its constructor has put
    [pd]. *)
Definition vmm_pageFault (pd saved cr3 va_ : Z) : M phys () :=
  assert (pd = cr3);;
  assert (saved = cr3);;
  let va := framedown va_ in
  if decide (va >= 0x80000000) then
    pa ← alloc_frame;
    map pd va pa
  else panic.

(** What the processor does with an address: [None] is a page fault. *)
Definition translate (m : Z → Z) (pd va : Z) : option Z :=
  let pde := m (pd + 4 * pdi va) in
  if present pde then
    let pte := m (frame_of pde + 4 * pti va) in
    if present pte then Some (frame_of pte + offset va) else None
  else None.

(** [memcpy(pa, va, 4096)] while [pd] is the active address
    space; an access it does not translate is a fault. *)
Definition copy_page (pd pa va : Z) : M phys () :=
  for_range 0 1024 (λ k,
    m ← gets mem;
    match translate m pd (va + 4 * k) with
    | Some a => w ← load a; store (pa + 4 * k) w
    | None => fault
    end).

(** The loops of [fork] and [execl] over the pages of an address space. *)
Definition for_user_pages (pd : Z) (body : Z → M phys ()) : M phys () :=
  for_range 512 512 (λ i,
    pde ← read_entry pd i;
    if decide (pde mod 2 = 1) then
      let pt := frame_of pde in
      for_range 0 1024 (λ j,
        let va := u32 (Z.shiftl i 22 + j * 4096) in
        pte ← read_entry pt j;
        if decide (pte mod 2 = 1 ∧ va ≠ ioAPIC ∧ va ≠ localAPIC) then body va else mret ())
    else mret ()).

Definition fork_copy (parent child : Z) : M phys () :=
  for_user_pages parent (λ va,
    pa ← alloc_frame;
    map child va pa;;
    copy_page parent pa va).

Definition execl_clear (pd : Z) : M phys () := for_user_pages pd (unmap pd).
End vmm.

(** [VMM::global_init]: the identity map of physical memory. *)
Definition global_init (memSize : Z) : M phys Z :=
  shared ← alloc_frame;
  iter (Datatypes.S (Z.to_nat (memSize / FRAME_SIZE)))
    (λ va, if decide (va < memSize) then
             map shared va va;; mret (inl (u32 (va + FRAME_SIZE)))
           else mret (inr ())) FRAME_SIZE;;
  mret shared.
