(* ===== verification/VmmInv.v ===== *)
(** * Ownership of the frames of address spaces

    Every frame in use has a role: kernel page table, directory of an
    address space, second-level table of a directory, page mapped at an
    address, or none of these.  The invariant ties the roles to the bits in
    memory; the lemmas below re-establish it after each kind of write the
    operations of [Vmm] perform. *)

From S2P Require Import Prelude.
From S2P Require Import PhysMem.
From S2P Require Import Vmm.

(** ** Entries and addresses *)

Lemma frame_of_div e : 0 ≤ e < 2 ^ 32 → frame_of e = e / 4096 * 4096.
Proof.
  intros He. unfold frame_of. change 0xFFFFF000 with (Z.shiftl (Z.ones 20) 12).
  replace 4096 with (2 ^ 12) by done.
  rewrite <-Z.shiftr_div_pow2, <-Z.shiftl_mul_pow2 by lia.
  apply Z.bits_inj'. intros n Hn. rewrite Z.land_spec.
  destruct (decide (n < 12)).
  - rewrite !Z.shiftl_spec_low by lia. apply andb_false_r.
  - rewrite !Z.shiftl_spec, Z.shiftr_spec by lia.
    replace (n - 12 + 12) with n by lia. destruct (decide (n < 32)).
    + rewrite Z.ones_spec_low by lia. apply andb_true_r.
    + rewrite Z.ones_spec_high by lia. rewrite andb_false_r. symmetry.
      destruct (decide (e = 0)) as [->|]; [apply Z.bits_0|].
      apply Z.bits_above_log2; [lia|]. apply Z.log2_lt_pow2; [lia|].
      pose proof (Z.pow_le_mono_r 2 32 n). lia.
Qed.

(** The entry for a frame: all permissions. *)
Lemma entry_bits p :
  p mod 4096 = 0 → 0 ≤ p → p < 2 ^ 32 →
  Z.lor p 7 = p + 7 ∧ frame_of (p + 7) = p ∧ Z.land (p + 7) 1 = 1 ∧ (p + 7) mod 2 = 1.
Proof.
  intros Hp H0 H1. pose proof (Z.div_mod p 4096 ltac:(lia)) as E. rewrite Hp, Z.add_0_r in E.
  assert (Hs : p = Z.shiftl (p / 4096) 12) by (rewrite Z.shiftl_mul_pow2 by lia; lia).
  assert (Hmod : (p + 7) mod 2 = 1).
  { rewrite E. replace (4096 * (p / 4096) + 7) with (1 + (2048 * (p / 4096) + 3) * 2) by lia.
    by rewrite Z.mod_add. }
  split_and!.
  - assert (Hland : Z.land p 7 = 0).
    { rewrite Hs. apply Z.bits_inj'. intros n Hn. rewrite Z.land_spec, Z.bits_0.
      destruct (decide (n < 12)); [by rewrite Z.shiftl_spec_low by lia|].
      change 7 with (Z.ones 3). by rewrite Z.ones_spec_high, andb_false_r by lia. }
    by rewrite Z.add_nocarry_lxor, Z.lxor_lor.
  - rewrite frame_of_div by lia. rewrite E at 1.
    replace (4096 * (p / 4096) + 7) with (7 + (p / 4096) * 4096) by lia.
    rewrite Z.div_add by lia. change (7 / 4096) with 0. lia.
  - change 1 with (Z.ones 1) at 1. rewrite Z.land_ones by lia. exact Hmod.
  - exact Hmod.
Qed.

Lemma pdi_eq va : pdi va = va / 2 ^ 22.
Proof. unfold pdi. by rewrite Z.shiftr_div_pow2. Qed.

Lemma pti_eq va : pti va = va / 4096 mod 1024.
Proof. unfold pti. change 0x3FF with (Z.ones 10). by rewrite Z.land_ones, Z.shiftr_div_pow2. Qed.

(** The page address with directory index [i] and table index [j]. *)
Definition va_of (i j : Z) : Z := i * 2 ^ 22 + j * 4096.

Lemma va_of_indices i j o :
  0 ≤ j < 1024 → 0 ≤ o < 4096 → pdi (va_of i j + o) = i ∧ pti (va_of i j + o) = j.
Proof.
  intros Hj Ho. rewrite pdi_eq, pti_eq. unfold va_of. split.
  - replace (i * 2 ^ 22 + j * 4096 + o) with (j * 4096 + o + i * 2 ^ 22) by lia.
    rewrite Z.div_add by lia. rewrite Z.div_small by lia. lia.
  - replace (i * 2 ^ 22 + j * 4096 + o) with (o + (j + i * 1024) * 4096) by lia.
    rewrite Z.div_add, (Z.div_small o) by lia. rewrite Z.add_0_l, Z.mod_add by lia.
    apply Z.mod_small. lia.
Qed.

Lemma va_of_pdi_pti va : va mod 4096 = 0 → va_of (pdi va) (pti va) = va ∧ 0 ≤ pti va < 1024.
Proof.
  intros Hva. rewrite pdi_eq, pti_eq. unfold va_of.
  pose proof (Z.div_mod va 4096 ltac:(lia)). pose proof (Z.div_mod (va / 4096) 1024 ltac:(lia)).
  pose proof (Z.mod_pos_bound (va / 4096) 1024 ltac:(lia)).
  change (2 ^ 22) with (4096 * 1024). rewrite <-Z.div_div by lia. lia.
Qed.

(** ** Roles *)

Inductive role := Kernel | Dir | Table (pd i : Z) | Page (pd va : Z) | Lost.

#[export] Instance role_eq_dec : EqDecision role.
Proof. solve_decision. Defined.

Definition user_va (va : Z) : Prop := va mod 4096 = 0 ∧ 2 ^ 31 ≤ va < 2 ^ 32.

Lemma user_va_pdi va : user_va va → 512 ≤ pdi va < 1024.
Proof.
  intros [_ H]. rewrite pdi_eq. split.
  - apply Z.div_le_lower_bound; lia.
  - apply Z.div_lt_upper_bound; lia.
Qed.

Section roles.
Context (base memSize ioAPIC localAPIC shared : Z).
(** Physical memory lies below the addresses of user pages. *)
Context (Hmem : 0 ≤ memSize ≤ 2 ^ 31).
Implicit Types (s : phys) (fl : list Z) (own : gmap Z role).

Definition device (va : Z) : Prop := va = ioAPIC ∨ va = localAPIC.

#[export] Instance device_dec va : Decision (device va).
Proof. unfold device. apply _. Defined.

(** Entry [e] names the table for index [i] of [pd], the page at [va]. *)
Definition table_for own (pd i e : Z) : Prop := ∃ T, own !! T = Some (Table pd i) ∧ e = T + 7.
Definition page_for own (pd va e : Z) : Prop := ∃ P, own !! P = Some (Page pd va) ∧ e = P + 7.

Definition entry_ok own (pd i j e : Z) : Prop :=
  e = 0 ∨ page_for own pd (va_of i j) e ∨ (device (va_of i j) ∧ e = va_of i j + 7).

(** The identity map of physical memory, in the directory [shared]. *)
Definition kernel_map s own : Prop :=
  own !! shared = Some Kernel ∧
  (∀ va, va mod 4096 = 0 → 4096 ≤ va < memSize →
    ∃ K, own !! K = Some Kernel ∧ mem s (shared + 4 * pdi va) = K + 7 ∧
         mem s (K + 4 * pti va) = va + 7) ∧
  ∀ i, shared_entries memSize ≤ i < 1024 → mem s (shared + 4 * i) = 0.

Record vm_inv s fl own : Prop := {
  vi_frames : frames_inv base s fl (dom own);
  vi_dir : ∀ pd i, own !! pd = Some Dir → 512 ≤ i < 1024 →
    mem s (pd + 4 * i) = 0 ∨ table_for own pd i (mem s (pd + 4 * i));
  vi_table : ∀ T pd i, own !! T = Some (Table pd i) →
    own !! pd = Some Dir ∧ 512 ≤ i < 1024 ∧ mem s (pd + 4 * i) = T + 7;
  vi_entry : ∀ T pd i j, own !! T = Some (Table pd i) → 0 ≤ j < 1024 →
    entry_ok own pd i j (mem s (T + 4 * j));
  vi_page : ∀ P pd va, own !! P = Some (Page pd va) →
    user_va va ∧ ∃ T, own !! T = Some (Table pd (pdi va)) ∧ mem s (T + 4 * pti va) = P + 7;
  vi_low : ∀ pd i, own !! pd = Some Dir → 0 ≤ i < 512 → mem s (pd + 4 * i) = mem s (shared + 4 * i);
  vi_kernel : kernel_map s own
}.

(** ** Frames with a role *)

Lemma own_frame s fl own p r :
  vm_inv s fl own → own !! p = Some r →
  p mod 4096 = 0 ∧ base ≤ p ∧ 4096 ≤ p ∧ p + 4096 ≤ limit s ∧ limit s < 2 ^ 32 ∧ p ∈ dom own.
Proof.
  intros Hi Hp. pose proof (vi_frames _ _ _ Hi) as Hf. apply elem_of_dom_2 in Hp.
  assert (frame base (avail s) p) as Hfr by (apply (fi_frames _ _ _ _ Hf); by right).
  pose proof (fi_frame_bounds _ _ _ _ _ Hf Hfr). pose proof (fi_limit _ _ _ _ Hf).
  destruct Hfr as [? ?]. split_and!; try done; lia.
Qed.

Lemma own_apart s fl own p q r r' a :
  vm_inv s fl own → own !! p = Some r → own !! q = Some r' → p ≠ q → in_frame p a → ¬ in_frame q a.
Proof.
  intros Hi Hp Hq. pose proof (vi_frames _ _ _ Hi) as Hf.
  apply elem_of_dom_2 in Hp, Hq.
  apply (frame_apart base (avail s)); apply (fi_frames _ _ _ _ Hf); by right.
Qed.

Lemma in_frame_entry p i : 0 ≤ i < 1024 → in_frame p (p + 4 * i).
Proof. unfold in_frame. lia. Qed.

Lemma entry_ne s fl own p q r r' i j :
  vm_inv s fl own → own !! p = Some r → own !! q = Some r' → p ≠ q →
  0 ≤ i < 1024 → 0 ≤ j < 1024 → p + 4 * i ≠ q + 4 * j.
Proof.
  intros Hi Hp Hq Hne Hi' Hj E.
  eapply (own_apart s fl own p q r r' (p + 4 * i)); try done; [by apply in_frame_entry|].
  rewrite E. by apply in_frame_entry.
Qed.

(** The bits of an entry that names a frame with a role. *)
Lemma own_entry s fl own p r :
  vm_inv s fl own → own !! p = Some r →
  Z.lor p 7 = p + 7 ∧ frame_of (p + 7) = p ∧ Z.land (p + 7) 1 = 1 ∧ (p + 7) mod 2 = 1.
Proof. intros Hi Hp. destruct (own_frame _ _ _ _ _ Hi Hp) as (?&?&?&?&?&_). apply entry_bits; lia. Qed.

Lemma own_range own s fl p r i :
  vm_inv s fl own → own !! p = Some r → 0 ≤ i < 1024 → FRAME_SIZE ≤ p + 4 * i < limit s.
Proof. intros Hi Hp ?. destruct (own_frame _ _ _ _ _ Hi Hp) as (?&?&?&?&_). rewrite FRAME_SIZE_eq. lia. Qed.

(** ** Re-establishing the invariant *)

Definition is_table (r : role) : Prop :=
  match r with Kernel | Dir | Table _ _ => True | _ => False end.

Lemma entry_ok_agree own own' pd i j e :
  (∀ p r, r ≠ Lost → own !! p = Some r → own' !! p = Some r) →
  entry_ok own pd i j e → entry_ok own' pd i j e.
Proof.
  intros Ho [->|[(P & HP & ->)|?]]; [by left|right; left|by right; right].
  exists P. split; [by apply Ho|done].
Qed.

Lemma low_pdi va : 0 ≤ va < memSize → 0 ≤ pdi va < 1024.
Proof.
  intros Hva. rewrite pdi_eq. split; [apply Z.div_pos; lia|apply Z.div_lt_upper_bound; lia].
Qed.

Lemma shared_entries_nonneg : 0 ≤ shared_entries memSize.
Proof.
  unfold shared_entries. cbv zeta. apply Z.div_pos; [apply u32_range|done].
Qed.

(** Memory outside the tables, and frames without a role, do not matter. *)
Lemma vm_inv_agree s s' fl fl' own own' :
  vm_inv s fl own → frames_inv base s' fl' (dom own') →
  (∀ p r, r ≠ Lost → own !! p = Some r ↔ own' !! p = Some r) →
  (∀ p r i, own !! p = Some r → is_table r → 0 ≤ i < 1024 → mem s' (p + 4 * i) = mem s (p + 4 * i)) →
  vm_inv s' fl' own'.
Proof.
  intros [_ Hd Ht He Hp Hl (Hk1 & Hk2 & Hk3)] Hf Ho Hm.
  assert (Ho1 : ∀ p r, r ≠ Lost → own !! p = Some r → own' !! p = Some r) by (intros; by apply Ho).
  assert (Ho2 : ∀ p r, r ≠ Lost → own' !! p = Some r → own !! p = Some r) by (intros; by apply Ho).
  split; [done|..].
  - intros pd i Hpd Hi. apply Ho2 in Hpd; [|done]. rewrite (Hm pd Dir) by (done || lia).
    destruct (Hd pd i Hpd Hi) as [?|(T & HT & ?)]; [by left|right]. exists T. split; [by apply Ho1|done].
  - intros T pd i HT. apply Ho2 in HT; [|done]. destruct (Ht T pd i HT) as (Hpd & Hi & E).
    rewrite (Hm pd Dir) by (done || lia). split_and!; [by apply Ho1|lia|lia|done].
  - intros T pd i j HT Hj. apply Ho2 in HT; [|done]. rewrite (Hm T (Table pd i)) by (done || lia).
    eapply entry_ok_agree; [exact Ho1|by apply He].
  - intros P pd va HP. apply Ho2 in HP; [|done]. destruct (Hp P pd va HP) as (Hva & T & HT & E).
    split; [done|]. exists T. split; [by apply Ho1|].
    destruct (va_of_pdi_pti va (proj1 Hva)) as [_ ?]. by rewrite (Hm T (Table pd (pdi va))).
  - intros pd i Hpd Hi. apply Ho2 in Hpd; [|done].
    rewrite (Hm pd Dir), (Hm shared Kernel) by (done || lia). by apply Hl.
  - split; [by apply Ho1|]. split.
    + intros va Hva Hr. destruct (Hk2 va Hva Hr) as (K & HK & E1 & E2).
      exists K. destruct (va_of_pdi_pti va Hva) as [_ ?]. split; [by apply Ho1|].
      rewrite (Hm K Kernel) by done. split; [|done].
      by rewrite (Hm shared Kernel) by (done || by apply low_pdi; lia).
    + intros i Hi. pose proof shared_entries_nonneg.
      rewrite (Hm shared Kernel) by (done || lia). by apply Hk3.
Qed.

Definition with_mem (m : Z → Z) s : phys := mkPhys m (firstFree s) (avail s) (limit s).

(** Frames without a role: giving one, taking one back, writing to one. *)
Lemma vm_inv_lost s s' fl fl' own p :
  vm_inv s fl own → frames_inv base s' fl' ({[p]} ∪ dom own) → p ∉ dom own →
  (∀ a, ¬ in_frame p a → mem s' a = mem s a) → vm_inv s' fl' (<[p := Lost]> own).
Proof.
  intros Hi Hf Hp Hm. apply not_elem_of_dom in Hp. eapply vm_inv_agree; [done| | |].
  - by rewrite dom_insert_L.
  - intros q r Hr. rewrite lookup_insert_Some. split.
    + intros Hq. right. split; [|done]. intros ->. by rewrite Hp in Hq.
    + intros [[_ <-]|[_ ?]]; [done|done].
  - intros q r i Hq Hr Hi'. apply Hm. intros Ha.
    assert (Hf1 : frame base (avail s') p) by (apply (fi_frames _ _ _ _ Hf); right; set_solver).
    assert (Hf2 : frame base (avail s') q).
    { apply (fi_frames _ _ _ _ Hf). right. apply elem_of_union_r. by eapply elem_of_dom_2. }
    eapply (frame_apart base (avail s') q p); [done|done| |by apply in_frame_entry|exact Ha].
    intros ->. by rewrite Hp in Hq.
Qed.

Lemma vm_inv_forget s s' fl fl' own p :
  vm_inv s fl own → own !! p = Some Lost → frames_inv base s' fl' (dom own ∖ {[p]}) →
  same_outside (λ a, a = p) s s' → vm_inv s' fl' (delete p own).
Proof.
  intros Hi Hp Hf [_ Hm]. eapply vm_inv_agree; [done| | |].
  - by rewrite dom_delete_L.
  - intros q r Hr. rewrite lookup_delete_Some. split; [|tauto].
    intros Hq. split; [|done]. intros ->. rewrite Hp in Hq. congruence.
  - intros q r i Hq Hr Hi'. apply Hm. intros E.
    eapply (own_apart s fl own q p); [done|done|done| |by apply (in_frame_entry q i)|].
    + intros ->. rewrite Hp in Hq. simplify_eq. done.
    + rewrite E. unfold in_frame. lia.
Qed.

Lemma vm_inv_write_plain s fl own p r m' :
  vm_inv s fl own → own !! p = Some r → ¬ is_table r → (∀ a, ¬ in_frame p a → m' a = mem s a) →
  vm_inv (with_mem m' s) fl own.
Proof.
  intros Hi Hp Hpl Hm. eapply vm_inv_agree; [done| |done|].
  - eapply fi_write; [apply Hi|by eapply elem_of_dom_2|done].
  - intros q r' i Hq Hr Hi'. apply Hm. intros Ha.
    eapply (own_apart s fl own q p); [done|done|done| |by apply (in_frame_entry q i)|exact Ha].
    intros ->. rewrite Hp in Hq. by simplify_eq.
Qed.

(** Words of one frame with a role may be rewritten as far as the
    allocator is concerned. *)
Lemma frames_write s fl own p r i v :
  vm_inv s fl own → own !! p = Some r → 0 ≤ i < 1024 →
  frames_inv base (with_mem (upd (mem s) (p + 4 * i) v) s) fl (dom own).
Proof.
  intros Hi Hp Hr. eapply fi_write; [apply Hi|by eapply elem_of_dom_2|].
  intros a Ha. apply upd_ne. intros ->. by apply Ha, in_frame_entry.
Qed.

Lemma dom_role own p r r' : own !! p = Some r → dom (<[p := r']> own) = dom own.
Proof. intros Hp. rewrite dom_insert_L. apply elem_of_dom_2 in Hp. set_solver. Qed.

(** Deciding whether a lookup hits the updated entry. *)
Lemma upd_entry s fl own p q r r' i j v :
  vm_inv s fl own → own !! p = Some r → own !! q = Some r' → 0 ≤ i < 1024 → 0 ≤ j < 1024 →
  upd (mem s) (p + 4 * i) v (q + 4 * j) = if decide (q = p ∧ j = i) then v else mem s (q + 4 * j).
Proof.
  intros Hi Hp Hq Hri Hrj. destruct (decide (q = p ∧ j = i)) as [[-> ->]|Hne]; [apply upd_eq|].
  apply upd_ne. intros E. destruct (decide (q = p)) as [->|Hqp]; [apply Hne; split; [done|lia]|].
  by eapply (entry_ne s fl own q p r' r j i).
Qed.

(** A role given to a frame that had none does not change other lookups. *)
Lemma give_role own p r q r' :
  own !! p = Some Lost → r' ≠ Lost → own !! q = Some r' → <[p := r]> own !! q = Some r'.
Proof. intros Hp Hr Hq. apply lookup_insert_Some. right. split; [|done]. intros ->. congruence. Qed.

Lemma vm_inv_table s fl own p pd i :
  vm_inv s fl own → own !! p = Some Lost → own !! pd = Some Dir → 512 ≤ i < 1024 →
  mem s (pd + 4 * i) = 0 → (∀ a, in_frame p a → mem s a = 0) →
  vm_inv (with_mem (upd (mem s) (pd + 4 * i) (p + 7)) s) fl (<[p := Table pd i]> own).
Proof.
  intros Hi Hp Hpd Hr Hz Hzero. pose proof Hi as [_ Hd Ht He Hpg Hl (Hk1 & Hk2 & Hk3)].
  assert (Hup : ∀ q r j, own !! q = Some r → 0 ≤ j < 1024 → q ≠ pd ∨ j ≠ i →
    upd (mem s) (pd + 4 * i) (p + 7) (q + 4 * j) = mem s (q + 4 * j)).
  { intros q r j Hq Hj Hne. rewrite (upd_entry s fl own pd q Dir r) by (done || lia).
    apply decide_False. lia. }
  assert (Hat : upd (mem s) (pd + 4 * i) (p + 7) (pd + 4 * i) = p + 7) by apply upd_eq.
  assert (Hg := λ q r', give_role own p (Table pd i) q r' Hp).
  split; simpl.
  - rewrite (dom_role _ _ Lost) by done. eapply frames_write; [done|done|lia].
  - intros pd' j Hpd' Hj. apply lookup_insert_Some in Hpd' as [[_ [=]]|[Hne Hpd']].
    destruct (decide (pd' = pd ∧ j = i)) as [[-> ->]|Hno].
    + right. exists p. split; [apply lookup_insert_eq|done].
    + rewrite (Hup pd' Dir j) by (done || lia).
      destruct (Hd pd' j Hpd' Hj) as [?|(T & HT & ?)]; [by left|right]. exists T. split; [by apply Hg|done].
  - intros T pd' j HT. apply lookup_insert_Some in HT as [[<- [= <- <-]]|[Hne HT]].
    + split; [by apply Hg|]. split; [lia|done].
    + destruct (Ht T pd' j HT) as (Hpd' & Hj & E). split; [by apply Hg|]. split; [lia|].
      rewrite (Hup pd' Dir j); [done|done|lia|].
      destruct (decide (pd' = pd)) as [->|]; [right; intros ->; destruct (own_frame _ _ _ _ _ Hi HT) as (?&?&?&_); lia|by left].
  - intros T pd' j k HT Hk. apply lookup_insert_Some in HT as [[<- [= <- <-]]|[Hne HT]].
    + left. rewrite (Hup p Lost k) by (done || (left; congruence)). apply Hzero. by apply in_frame_entry.
    + rewrite (Hup T (Table pd' j) k) by (done || (left; congruence)).
      eapply entry_ok_agree; [exact Hg|by apply He].
  - intros P pd' va HP. apply lookup_insert_Some in HP as [[_ [=]]|[Hne HP]].
    destruct (Hpg P pd' va HP) as (Hva & T & HT & E). split; [done|]. exists T.
    split; [by apply Hg|]. destruct (va_of_pdi_pti va (proj1 Hva)) as [_ ?].
    rewrite (Hup T (Table pd' (pdi va))) by (done || (left; congruence)). done.
  - intros pd' j Hpd' Hj. apply lookup_insert_Some in Hpd' as [[_ [=]]|[Hne Hpd']].
    rewrite (Hup pd' Dir j), (Hup shared Kernel j) by (done || lia). by apply Hl.
  - split; [by apply Hg|]. assert (shared ≠ pd) by congruence. split.
    + intros va Hva Hrg. destruct (Hk2 va Hva Hrg) as (K & HK & E1 & E2). exists K.
      destruct (va_of_pdi_pti va Hva) as [_ ?]. pose proof (low_pdi va ltac:(lia)).
      split; [by apply Hg|]. assert (K ≠ pd) by congruence. simpl.
      by rewrite (Hup shared Kernel), (Hup K Kernel) by (done || by left).
    + intros j Hj. pose proof shared_entries_nonneg. simpl.
      rewrite (Hup shared Kernel) by (done || lia || by left). by apply Hk3.
Qed.

Lemma va_of_user i j : 512 ≤ i < 1024 → 0 ≤ j < 1024 → user_va (va_of i j).
Proof.
  intros Hi Hj. unfold user_va, va_of. split; [|lia].
  replace (i * 2 ^ 22 + j * 4096) with ((i * 1024 + j) * 4096) by lia. by rewrite Z.mod_mul.
Qed.

Lemma va_of_inj i j va : va mod 4096 = 0 → pdi va = i → pti va = j → va = va_of i j.
Proof. intros Hva <- <-. by destruct (va_of_pdi_pti va Hva) as [-> _]. Qed.

Lemma va_of_idx i j : 0 ≤ j < 1024 → pdi (va_of i j) = i ∧ pti (va_of i j) = j.
Proof. intros. rewrite <-(Z.add_0_r (va_of i j)). apply va_of_indices; [done|lia]. Qed.

(** Writing an entry of a second-level table, the roles changing only
    between no role and the page at the entry's address. *)
Lemma vm_inv_entry s fl own own' T pd i j v :
  vm_inv s fl own → own !! T = Some (Table pd i) → 0 ≤ j < 1024 → dom own' = dom own →
  (∀ q r, r ≠ Page pd (va_of i j) → r ≠ Lost → own !! q = Some r ↔ own' !! q = Some r) →
  entry_ok own' pd i j v → (∀ P, own' !! P = Some (Page pd (va_of i j)) → v = P + 7) →
  vm_inv (with_mem (upd (mem s) (T + 4 * j) v) s) fl own'.
Proof.
  intros Hi HT Hj Hdom Ho Hok Hpage. pose proof Hi as [_ Hd Ht He Hpg Hl (Hk1 & Hk2 & Hk3)].
  assert (Hup : ∀ q r k, own !! q = Some r → 0 ≤ k < 1024 → q ≠ T ∨ k ≠ j →
    upd (mem s) (T + 4 * j) v (q + 4 * k) = mem s (q + 4 * k)).
  { intros q r k Hq Hk Hne. rewrite (upd_entry s fl own T q (Table pd i) r) by (done || lia).
    apply decide_False. lia. }
  assert (Hat : upd (mem s) (T + 4 * j) v (T + 4 * j) = v) by apply upd_eq.
  assert (Ho1 : ∀ q r, is_table r → own !! q = Some r → own' !! q = Some r).
  { intros q r Hr Hq. apply Ho; [by intros ->|by intros ->|done]. }
  assert (Ho2 : ∀ q r, is_table r → own' !! q = Some r → own !! q = Some r).
  { intros q r Hr Hq. apply Ho; [by intros ->|by intros ->|done]. }
  destruct (Ht T pd i HT) as (Hpd & Hri & _).
  split; simpl.
  - rewrite Hdom. by eapply frames_write.
  - intros pd' k Hpd' Hk. apply Ho2 in Hpd'; [|done]. rewrite (Hup pd' Dir k) by (done || lia || (left; congruence)).
    destruct (Hd pd' k Hpd' Hk) as [?|(T' & HT' & ?)]; [by left|right]. exists T'. split; [by apply Ho1|done].
  - intros T' pd' k HT'. apply Ho2 in HT'; [|done]. destruct (Ht T' pd' k HT') as (Hpd' & Hk & E).
    split; [by apply Ho1|]. split; [done|]. by rewrite (Hup pd' Dir k) by (done || lia || (left; congruence)).
  - intros T' pd' i' k HT' Hk. apply Ho2 in HT'; [|done].
    destruct (decide (T' = T ∧ k = j)) as [[-> ->]|Hne].
    + assert (pd' = pd ∧ i' = i) as [-> ->] by (split; congruence). by rewrite Hat.
    + rewrite (Hup T' (Table pd' i') k) by (done || lia).
      destruct (He T' pd' i' k HT' Hk) as [?|[(P & HP & E)|?]]; [by left|right; left|by right; right].
      exists P. split; [|done]. apply Ho; [|done|done].
      intros [= -> Eva]. destruct (Ht T' pd i' HT') as (_ & Hi' & _).
      destruct (va_of_idx i' k Hk) as [E1 E2], (va_of_idx i j Hj) as [E3 E4].
      rewrite Eva in E1, E2. apply Hne. split; [|congruence].
      assert (i' = i) as -> by congruence.
      destruct (Ht T' pd i HT') as (_ & _ & Em), (Ht T pd i HT) as (_ & _ & Em'). lia.
  - intros P pd' va HP. destruct (decide (Page pd' va = Page pd (va_of i j))) as [[= -> ->]|Hne].
    + split; [by apply va_of_user|]. exists T. destruct (va_of_idx i j Hj) as [-> ->].
      split; [by apply Ho1|]. rewrite Hat. by apply Hpage.
    + apply Ho in HP; [|done|done]. destruct (Hpg P pd' va HP) as (Hva & T' & HT' & E).
      split; [done|]. exists T'. split; [by apply Ho1|].
      destruct (va_of_pdi_pti va (proj1 Hva)) as [Eva ?].
      rewrite (Hup T' (Table pd' (pdi va)) (pti va)); [done|done|done|].
      destruct (decide (T' = T)) as [->|]; [right|by left]. intros Ej. apply Hne.
      assert (pd' = pd ∧ pdi va = i) as [-> Ei] by (split; congruence).
      by rewrite <-Eva, Ei, Ej.
  - intros pd' k Hpd' Hk. apply Ho2 in Hpd'; [|done].
    rewrite (Hup pd' Dir k), (Hup shared Kernel k) by (done || lia || (left; congruence)). by apply Hl.
  - split; [by apply Ho1|]. assert (shared ≠ T) by congruence. split.
    + intros va Hva Hrg. destruct (Hk2 va Hva Hrg) as (K & HK & E1 & E2). exists K.
      destruct (va_of_pdi_pti va Hva) as [_ ?]. pose proof (low_pdi va ltac:(lia)).
      split; [by apply Ho1|]. assert (K ≠ T) by congruence. simpl.
      by rewrite (Hup shared Kernel), (Hup K Kernel) by (done || by left).
    + intros k Hk. pose proof shared_entries_nonneg. simpl.
      rewrite (Hup shared Kernel) by (done || lia || by left). by apply Hk3.
Qed.

(** A cleared frame whose first half copies the kernel's directory. *)
Lemma vm_inv_dir s fl own p :
  vm_inv s fl own → own !! p = Some Lost →
  (∀ i, 0 ≤ i < 512 → mem s (p + 4 * i) = mem s (shared + 4 * i)) →
  (∀ i, 512 ≤ i < 1024 → mem s (p + 4 * i) = 0) →
  vm_inv s fl (<[p := Dir]> own).
Proof.
  intros Hi Hp Hlow Hhigh. pose proof Hi as [Hf Hd Ht He Hpg Hl (Hk1 & Hk2 & Hk3)].
  assert (Hg := λ q r', give_role own p Dir q r' Hp).
  split.
  - by rewrite (dom_role _ _ Lost).
  - intros pd i Hpd Hr. apply lookup_insert_Some in Hpd as [[<- _]|[Hne Hpd]]; [left; by apply Hhigh|].
    destruct (Hd pd i Hpd Hr) as [?|(T & HT & ?)]; [by left|right]. exists T. split; [by apply Hg|done].
  - intros T pd i HT. apply lookup_insert_Some in HT as [[_ [=]]|[Hne HT]].
    destruct (Ht T pd i HT) as (? & ? & ?). split; [by apply Hg|done].
  - intros T pd i j HT Hj. apply lookup_insert_Some in HT as [[_ [=]]|[Hne HT]].
    eapply entry_ok_agree; [exact Hg|by apply He].
  - intros P pd va HP. apply lookup_insert_Some in HP as [[_ [=]]|[Hne HP]].
    destruct (Hpg P pd va HP) as (Hva & T & HT & E). split; [done|]. exists T. split; [by apply Hg|done].
  - intros pd i Hpd Hr. apply lookup_insert_Some in Hpd as [[<- _]|[Hne Hpd]]; [by apply Hlow|by apply Hl].
  - split; [by apply Hg|]. split; [|done]. intros va Hva Hrg.
    destruct (Hk2 va Hva Hrg) as (K & HK & ?). exists K. split; [by apply Hg|done].
Qed.

(** Giving up an address space: its frames lose their roles. *)
Definition belongs (pd p : Z) (r : role) : Prop :=
  match r with Dir => p = pd | Table pd' _ | Page pd' _ => pd' = pd | _ => False end.

#[export] Instance belongs_dec pd p r : Decision (belongs pd p r).
Proof. destruct r; simpl; apply _. Defined.

Definition abandon (pd : Z) own : gmap Z role :=
  map_imap (λ p r, Some (if decide (belongs pd p r) then Lost else r)) own.

Lemma lookup_abandon pd own p r :
  r ≠ Lost → abandon pd own !! p = Some r ↔ own !! p = Some r ∧ ¬ belongs pd p r.
Proof.
  intros Hr. unfold abandon. rewrite map_lookup_imap.
  destruct (own !! p) as [r'|]; simpl; [|by split; [|intros [? _]]].
  destruct (decide (belongs pd p r')); split.
  - by intros [= <-].
  - by intros [[= <-] ?].
  - by intros [= <-].
  - by intros [[= <-] ?].
Qed.

Lemma dom_abandon pd own : dom (abandon pd own) = dom own.
Proof.
  apply set_eq. intros p. rewrite !elem_of_dom. unfold abandon. rewrite map_lookup_imap.
  destruct (own !! p); simpl; split; intros [? ?]; by eexists.
Qed.

Lemma vm_inv_abandon s fl own pd : vm_inv s fl own → vm_inv s fl (abandon pd own).
Proof.
  intros Hi. pose proof Hi as [Hf Hd Ht He Hpg Hl (Hk1 & Hk2 & Hk3)].
  split.
  - by rewrite dom_abandon.
  - intros q i Hq Hr. apply lookup_abandon in Hq as [Hq Hb]; [|done].
    destruct (Hd q i Hq Hr) as [?|(T & HT & ?)]; [by left|right]. exists T. split; [|done].
    by apply lookup_abandon.
  - intros T q i HT. apply lookup_abandon in HT as [HT Hb]; [|done].
    destruct (Ht T q i HT) as (? & ? & ?). split; [|done]. by apply lookup_abandon.
  - intros T q i j HT Hj. apply lookup_abandon in HT as [HT Hb]; [|done].
    destruct (He T q i j HT Hj) as [?|[(P & HP & E)|?]]; [by left|right; left|by right; right].
    exists P. split; [|done]. by apply lookup_abandon.
  - intros P q va HP. apply lookup_abandon in HP as [HP Hb]; [|done].
    destruct (Hpg P q va HP) as (Hva & T & HT & E). split; [done|]. exists T. split; [|done].
    by apply lookup_abandon.
  - intros q i Hq Hr. apply lookup_abandon in Hq as [Hq Hb]; [|done]. by apply Hl.
  - split; [apply lookup_abandon; [done|by split; [|intros []]]|]. split; [|done].
    intros va Hva Hrg. destruct (Hk2 va Hva Hrg) as (K & HK & ?). exists K. split; [|done].
    apply lookup_abandon; [done|]. split; [done|intros []].
Qed.
End roles.
