(* ===== verification/VmmOps.v ===== *)
(** * The operations on address spaces keep the ownership invariant

    Symbolic execution of [map], [unmap], [make_pd], [delete_pd] and the
    loops of [fork] and [execl] over the invariant of [VmmInv].  The only
    panic they can reach is the allocator's, with no frame left. *)

From S2P Require Import Prelude.
From S2P Require Import PhysMem.
From S2P Require Import Vmm.
From S2P Require Import VmmInv.

Section ops.
Context (base memSize ioAPIC localAPIC shared : Z).
Context (Hmem : 0 ≤ memSize ≤ 2 ^ 31).
Context (Hio : user_va ioAPIC) (Hlo : user_va localAPIC) (Hneq : ioAPIC ≠ localAPIC).
Implicit Types (s : phys) (fl : list Z) (own : gmap Z role).

Abbreviation inv := (vm_inv base memSize ioAPIC localAPIC shared).

(** The state in which the allocator panics. *)
Definition exhausted s : Prop := ∃ fl used, frames_inv base s fl used ∧ free_count s fl = 0.

Abbreviation run m Q s := (wpx m Q exhausted s).

Lemma wpx_alloc s fl own (Q : Z → phys → Prop) :
  inv s fl own →
  (∀ p s' fl', own !! p = None → inv s' fl' (<[p := Lost]> own) →
     (∀ a, in_frame p a → mem s' a = 0) → same_outside (in_frame p) s s' → Q p s') →
  run alloc_frame Q s.
Proof.
  intros Hi HQ. pose proof (vi_frames _ _ _ _ _ _ _ _ Hi) as Hf.
  destruct (decide (0 < free_count s fl)) as [Hc|Hc].
  - apply wp_wpx. eapply wp_alloc_frame; [done|done|].
    intros p s' (Hp & _ & Hs & Hz & fl' & Hf' & _). apply (HQ p s' fl'); try done.
    + by apply not_elem_of_dom.
    + eapply vm_inv_lost; try done. by destruct Hs.
  - destruct (alloc_frame_exhausted _ _ _ _ Hf Hc) as [H0 E]. unfold wpx. rewrite E.
    by exists fl, (dom own).
Qed.

Lemma wpx_dealloc s fl own p (Q : () → phys → Prop) (R : phys → Prop) :
  inv s fl own → own !! p = Some Lost →
  (∀ s', inv s' (p :: fl) (delete p own) → same_outside (λ a, a = p) s s' → Q () s') →
  wpx (dealloc_frame p) Q R s.
Proof.
  intros Hi Hp HQ. pose proof (vi_frames _ _ _ _ _ _ _ _ Hi) as Hf.
  apply wp_wpx. eapply wp_dealloc_frame; [done|by eapply elem_of_dom_2|].
  intros s' Hf' Hs _. apply HQ; [|done]. by eapply vm_inv_forget.
Qed.

Lemma wpx_read s fl own p r i (Q : Z → phys → Prop) (R : phys → Prop) :
  inv s fl own → own !! p = Some r → 0 ≤ i < 1024 →
  Q (mem s (p + 4 * i)) s → wpx (read_entry p i) Q R s.
Proof.
  intros Hi Hp Hr HQ. apply wp_wpx. unfold read_entry, load. repeat wp_step.
  apply wp_require; [by eapply own_range|]. by apply wp_gets.
Qed.

Lemma wpx_write s fl own p r i v (Q : () → phys → Prop) (R : phys → Prop) :
  inv s fl own → own !! p = Some r → 0 ≤ i < 1024 →
  Q () (with_mem (upd (mem s) (p + 4 * i) v) s) → wpx (write_entry p i v) Q R s.
Proof.
  intros Hi Hp Hr HQ. apply wp_wpx. unfold write_entry, store. repeat wp_step.
  apply wp_require; [by eapply own_range|]. by apply wp_modify.
Qed.

(** ** Mapping a page *)

(** The page at [va] of [pd], if there is one, loses its role. *)
Definition evict (pd va : Z) own : gmap Z role :=
  map_imap (λ p r, Some (if decide (r = Page pd va) then Lost else r)) own.

Lemma lookup_evict pd va own p r :
  r ≠ Lost → evict pd va own !! p = Some r ↔ own !! p = Some r ∧ r ≠ Page pd va.
Proof.
  intros Hr. unfold evict. rewrite map_lookup_imap.
  destruct (own !! p) as [r'|]; simpl; [|by split; [|intros [? _]]].
  destruct (decide (r' = Page pd va)) as [->|].
  - split; [by intros [= <-]|by intros [[= <-] ?]].
  - split; [by intros [= <-]|by intros [[= <-] ?]].
Qed.

Lemma dom_evict pd va own : dom (evict pd va own) = dom own.
Proof.
  apply set_eq. intros p. rewrite !elem_of_dom. unfold evict. rewrite map_lookup_imap.
  destruct (own !! p); simpl; split; intros [? ?]; by eexists.
Qed.

(** What mapping a page at [va] of [pd] leaves alone: the roles of all
    other frames but a new table, the entries of all other pages, and the
    contents of the frames that the walk to [va] does not go through. *)
Record others_kept (pd va : Z) s own s' own' : Prop := {
  ok_keep : ∀ q r, r ≠ Lost → r ≠ Page pd va → own !! q = Some r → own' !! q = Some r;
  ok_new : ∀ q r, r ≠ Lost → r ≠ Page pd va → r ≠ Table pd (pdi va) → own' !! q = Some r → own !! q = Some r;
  ok_entries : ∀ T pd' i j, own !! T = Some (Table pd' i) → 0 ≤ j < 1024 →
    (pd' ≠ pd ∨ va_of i j ≠ va) → mem s' (T + 4 * j) = mem s (T + 4 * j);
  ok_contents : ∀ q r a, own !! q = Some r → q ≠ pd → r ≠ Table pd (pdi va) → r ≠ Page pd va →
    in_frame q a → mem s' a = mem s a
}.

Lemma others_refl pd va s own : others_kept pd va s own s own.
Proof. by split. Qed.

(** Writing the page's entry, the second half of [map]. *)
Lemma set_page s fl own T P pd va :
  inv s fl own → user_va va → own !! T = Some (Table pd (pdi va)) → own !! P = Some Lost →
  let own' := <[P := Page pd va]> (evict pd va own) in
  let s' := with_mem (upd (mem s) (T + 4 * pti va) (P + 7)) s in
  inv s' fl own' ∧ others_kept pd va s own s' own'.
Proof.
  intros Hi Hva HT HP own' s'. destruct (va_of_pdi_pti va (proj1 Hva)) as [Eva Hj].
  assert (Hev : ∀ q r, r ≠ Page pd va → r ≠ Lost → own !! q = Some r ↔ own' !! q = Some r).
  { intros q r Hr Hl. unfold own'. rewrite lookup_insert_Some, lookup_evict by done. split.
    - intros Hq. right. split; [|done]. intros ->. congruence.
    - intros [[_ <-]|[_ [? _]]]; done. }
  split.
  - eapply vm_inv_entry; try done.
    + unfold own'. rewrite dom_insert_L, dom_evict. apply elem_of_dom_2 in HP. set_solver.
    + intros q r. rewrite Eva. apply Hev.
    + right. left. exists P. split; [|done]. rewrite Eva. apply lookup_insert_eq.
    + intros P'. rewrite Eva. unfold own'. rewrite lookup_insert_Some, lookup_evict by done.
      intros [[<- _]|[_ [_ ?]]]; done.
  - split.
    + intros q r Hr Hp Hq. by apply Hev.
    + intros q r Hr Hp Ht Hq. by apply Hev.
    + intros T' pd' i j HT' Hj' Hne. unfold s'. simpl.
      rewrite (upd_entry base memSize ioAPIC localAPIC shared s fl own T T'
                 (Table pd (pdi va)) (Table pd' i)) by done.
      apply decide_False. intros [-> ->]. assert (pd' = pd ∧ i = pdi va) as [-> ->] by (split; congruence).
      by destruct Hne.
    + intros q r a Hq _ Hr _ Ha. unfold s'. simpl. apply upd_ne. intros ->.
      eapply (own_apart _ _ _ _ _ s fl own T q); [done|done|done| |by apply in_frame_entry|done].
      intros ->. apply Hr. congruence.
Qed.

(** Giving a directory a new table. *)
Lemma set_table s s1 fl fl1 own pd va T :
  inv s fl own → own !! pd = Some Dir → user_va va → own !! T = None →
  inv s1 fl1 (<[T := Lost]> own) → mem s (pd + 4 * pdi va) = 0 →
  (∀ a, in_frame T a → mem s1 a = 0) → same_outside (in_frame T) s s1 →
  let own' := <[T := Table pd (pdi va)]> own in
  let s' := with_mem (upd (mem s1) (pd + 4 * pdi va) (T + 7)) s1 in
  inv s' fl1 own' ∧ others_kept pd va s own s' own'.
Proof.
  intros Hi Hpd Hva HT Hi1 Hz Hzero [_ Hm] own' s'. pose proof (user_va_pdi va Hva).
  assert (HTpd : T ≠ pd) by congruence.
  assert (Hpd1 : <[T := Lost]> own !! pd = Some Dir) by (by rewrite lookup_insert_ne).
  assert (HT1 : <[T := Lost]> own !! T = Some Lost) by apply lookup_insert_eq.
  assert (Hfar : ∀ q r a, own !! q = Some r → in_frame q a → ¬ in_frame T a).
  { intros q r a Hq Ha Ha'. assert (Hne : q ≠ T) by congruence.
    eapply (own_apart _ _ _ _ _ s1 fl1 (<[T := Lost]> own) q T); [done|..|exact Ha|exact Ha'].
    - by rewrite lookup_insert_ne.
    - done.
    - done. }
  split.
  - unfold own'. rewrite <-(insert_insert_eq own T (Table pd (pdi va)) Lost).
    apply vm_inv_table; try done.
    rewrite Hm; [done|]. eapply Hfar; [exact Hpd|]. apply in_frame_entry. lia.
  - split.
    + intros q r _ _ Hq. unfold own'. rewrite lookup_insert_ne; [done|congruence].
    + intros q r _ _ Ht. unfold own'. rewrite lookup_insert_Some. intros [[_ <-]|[_ ?]]; done.
    + intros T' pd' i j HT' Hj _. unfold s'. simpl. rewrite upd_ne.
      * apply Hm. eapply Hfar; [exact HT'|by apply in_frame_entry].
      * eapply (entry_ne _ _ _ _ _ s fl own T' pd); [done|done|done|congruence|done|lia].
    + intros q r a Hq Hqpd _ _ Ha. unfold s'. simpl. rewrite upd_ne.
      * apply Hm. by eapply Hfar.
      * intros ->. eapply (own_apart _ _ _ _ _ s fl own pd q Dir r (pd + 4 * pdi va)); [done|done|done| |apply in_frame_entry; lia|done].
        congruence.
Qed.

(** Two steps, the first of which keeps all roles. *)
Lemma others_trans pd va s1 o1 s2 o2 s3 o3 :
  (∀ q r, o1 !! q = Some r → o2 !! q = Some r) →
  others_kept pd va s1 o1 s2 o2 → others_kept pd va s2 o2 s3 o3 → others_kept pd va s1 o1 s3 o3.
Proof.
  intros Ho [K1 N1 E1 C1] [K2 N2 E2 C2]. split.
  - intros q r Hl Hp Hq. auto.
  - intros q r Hl Hp Ht Hq. auto.
  - intros T pd' i j HT Hj Hne. rewrite (E2 T pd' i j), (E1 T pd' i j); auto.
  - intros q r a Hq Hn Ht Hp Ha. rewrite (C2 q r a), (C1 q r a); auto.
Qed.

(** [map] up to its last write: the table for [va] exists afterwards. *)
Lemma wpx_map_table s fl own pd va pa (Q : () → phys → Prop) :
  inv s fl own → own !! pd = Some Dir → user_va va →
  (∀ s1 fl1 own1 T, inv s1 fl1 own1 → own1 !! T = Some (Table pd (pdi va)) →
     (∀ q r, own !! q = Some r → own1 !! q = Some r) →
     (∀ q r, own1 !! q = Some r → own !! q = Some r ∨ r = Table pd (pdi va)) →
     others_kept pd va s own s1 own1 →
     run (write_entry T (pti va) (Z.lor pa 7)) Q s1) →
  run (map pd va pa) Q s.
Proof.
  intros Hi Hpd Hva HQ. pose proof (user_va_pdi va Hva) as Hpdi.
  unfold map. apply wpx_bind. eapply wpx_read; [done|done|lia|]. apply wpx_bind.
  destruct (vi_dir _ _ _ _ _ _ _ _ Hi pd (pdi va) Hpd Hpdi) as [E|(T & HT & E)]; rewrite E.
  - rewrite decide_True by done. apply wpx_bind. eapply wpx_alloc; [done|].
    intros T s1 fl1 HT Hi1 Hz Hs1. apply wpx_bind. assert (T ≠ pd) by congruence.
    destruct (own_entry _ _ _ _ _ _ _ _ _ _ Hi1 (lookup_insert_eq own T Lost)) as (-> & Ef & _).
    eapply wpx_write; [exact Hi1|by rewrite lookup_insert_ne|lia|]. apply wpx_ret. rewrite Ef.
    destruct (set_table s s1 fl fl1 own pd va T Hi Hpd Hva HT Hi1 E Hz Hs1) as [Hi2 Hk2].
    eapply HQ; [exact Hi2|apply lookup_insert_eq| | |exact Hk2].
    + intros q r Hq. rewrite lookup_insert_ne; [done|congruence].
    + intros q r. rewrite lookup_insert_Some. intros [[_ <-]|[_ ?]]; [by right|by left].
  - destruct (own_entry _ _ _ _ _ _ _ _ _ _ Hi HT) as (_ & Ef & El & _). rewrite El.
    rewrite decide_False by done. apply wpx_ret. rewrite Ef.
    eapply HQ; [exact Hi|exact HT|done|by left|apply others_refl].
Qed.

Lemma wpx_map s fl own pd va P (Q : () → phys → Prop) :
  inv s fl own → own !! pd = Some Dir → user_va va → own !! P = Some Lost →
  (∀ s' fl' own', inv s' fl' own' → own' !! P = Some (Page pd va) →
     others_kept pd va s own s' own' → Q () s') →
  run (map pd va P) Q s.
Proof.
  intros Hi Hpd Hva HP HQ. destruct (va_of_pdi_pti va (proj1 Hva)) as [_ Hpti].
  eapply wpx_map_table; [done..|]. intros s1 fl1 own1 T Hi1 HT Hsub Hnew Hk.
  pose proof (Hsub P Lost HP) as HP1.
  destruct (own_entry _ _ _ _ _ _ _ _ _ _ Hi1 HP1) as (-> & _).
  eapply wpx_write; [done|done|done|].
  destruct (set_page s1 fl1 own1 T P pd va Hi1 Hva HT HP1) as [Hi2 Hk2].
  eapply HQ; [exact Hi2|apply lookup_insert_eq|]. by eapply others_trans.
Qed.

(** Mapping the registers of an interrupt controller at their address. *)
Lemma wpx_map_device s fl own pd va (Q : () → phys → Prop) :
  inv s fl own → own !! pd = Some Dir → user_va va → device ioAPIC localAPIC va →
  (∀ P, own !! P ≠ Some (Page pd va)) →
  (∀ s' fl' own' T, inv s' fl' own' → own' !! T = Some (Table pd (pdi va)) →
     mem s' (T + 4 * pti va) = va + 7 → others_kept pd va s own s' own' →
     (∀ q r, own !! q = Some r → own' !! q = Some r) →
     (∀ q r, own' !! q = Some r → own !! q = Some r ∨ r = Table pd (pdi va)) → Q () s') →
  run (map pd va va) Q s.
Proof.
  intros Hi Hpd Hva Hdev Hno HQ. destruct (va_of_pdi_pti va (proj1 Hva)) as [Eva Hpti].
  eapply wpx_map_table; [done..|]. intros s1 fl1 own1 T Hi1 HT Hsub Hnew Hk.
  assert (Hno1 : ∀ P, own1 !! P ≠ Some (Page pd va)).
  { intros P HP. destruct (Hnew _ _ HP) as [?|?]; [by apply (Hno P)|done]. }
  destruct (entry_bits va) as (-> & _); [apply Hva|destruct Hva; lia|apply Hva|].
  eapply wpx_write; [done|exact HT|done|].
  set (s2 := with_mem (upd (mem s1) (T + 4 * pti va) (va + 7)) s1).
  assert (Hi2 : inv s2 fl1 own1).
  { eapply vm_inv_entry; try done.
    - right. right. by rewrite Eva.
    - intros P. rewrite Eva. intros HP. by destruct (Hno1 P). }
  eapply (HQ s2 fl1 own1 T); [exact Hi2|exact HT| | |exact Hsub|exact Hnew].
  - apply upd_eq.
  - eapply others_trans; [exact Hsub|exact Hk|]. split; try done.
    + intros T' pd' i j HT' Hj' Hne. unfold s2. simpl.
      rewrite (upd_entry base memSize ioAPIC localAPIC shared s1 fl1 own1 T T'
                 (Table pd (pdi va)) (Table pd' i)) by done.
      apply decide_False. intros [-> ->]. assert (pd' = pd ∧ i = pdi va) as [-> ->] by (split; congruence).
      by destruct Hne.
    + intros q r a Hq _ Hr _ Ha. unfold s2. simpl. apply upd_ne. intros ->.
      eapply (own_apart _ _ _ _ _ s1 fl1 own1 T q); [done|done|done| |by apply in_frame_entry|done].
      intros ->. apply Hr. congruence.
Qed.

(** ** Page faults *)

(** A frame fresh from the allocator is apart from every frame in use. *)
Lemma alloc_kept s s1 fl1 own pd va P :
  own !! P = None → inv s1 fl1 (<[P := Lost]> own) → same_outside (in_frame P) s s1 →
  others_kept pd va s own s1 (<[P := Lost]> own) ∧
  (∀ q r, own !! q = Some r → <[P := Lost]> own !! q = Some r) ∧
  ∀ q r a, own !! q = Some r → in_frame q a → mem s1 a = mem s a.
Proof.
  intros HP Hi1 [_ Hm].
  assert (Hsub : ∀ q r, own !! q = Some r → <[P := Lost]> own !! q = Some r).
  { intros q r Hq. rewrite lookup_insert_ne; [done|congruence]. }
  assert (Hfar : ∀ q r a, own !! q = Some r → in_frame q a → mem s1 a = mem s a).
  { intros q r a Hq Ha. apply Hm. intros Ha'.
    eapply (own_apart _ _ _ _ _ s1 fl1 (<[P := Lost]> own) q P); [done|by apply Hsub| |congruence|exact Ha|exact Ha'].
    apply lookup_insert_eq. }
  split; [|done]. split; auto.
  - intros q r Hl _ _. rewrite lookup_insert_Some. intros [[_ <-]|[_ ?]]; done.
  - intros T pd' i j HT Hj _. by eapply Hfar, in_frame_entry.
  - intros q r a Hq _ _ _. by eapply Hfar.
Qed.

Lemma framedown_user va : 2 ^ 31 ≤ va < 2 ^ 32 → user_va (framedown va) ∧ framedown va = va / 4096 * 4096.
Proof.
  intros Hva. unfold framedown. rewrite FRAME_SIZE_eq.
  pose proof (Z.div_mod va 4096 ltac:(lia)). pose proof (Z.mod_pos_bound va 4096 ltac:(lia)).
  rewrite u32_small by lia. split; [|done]. split; [by rewrite Z.mod_mul|].
  assert (2 ^ 31 / 4096 ≤ va / 4096) by (apply Z.div_le_mono; lia).
  change (2 ^ 31 / 4096) with 524288 in *. lia.
Qed.

Lemma wpx_alloc_map s fl own pd va (Q : Z → () → phys → Prop) :
  inv s fl own → own !! pd = Some Dir → user_va va →
  (∀ P s' fl' own', own !! P = None → inv s' fl' own' → own' !! P = Some (Page pd va) →
     others_kept pd va s own s' own' → (∀ a, in_frame P a → mem s' a = 0) → Q P () s') →
  run alloc_frame (λ P s', run (map pd va P) (Q P) s') s.
Proof.
  intros Hi Hpd Hva HQ. eapply wpx_alloc; [done|]. intros P s1 fl1 HP Hi1 Hz Hs1.
  destruct (alloc_kept s s1 fl1 own pd va P HP Hi1 Hs1) as (Hk1 & Hsub & _).
  eapply wpx_map; [exact Hi1|by apply Hsub|done|apply lookup_insert_eq|].
  intros s2 fl2 own2 Hi2 HP2 Hk2. eapply HQ; [done|exact Hi2|done|by eapply others_trans|].
  intros a Ha. rewrite (ok_contents _ _ _ _ _ _ Hk2 P Lost a); [by apply Hz|apply lookup_insert_eq|congruence|done|done|done].
Qed.

Lemma wpx_pageFault s fl own pd va_ (Q : () → phys → Prop) :
  inv s fl own → own !! pd = Some Dir → 2 ^ 31 ≤ va_ < 2 ^ 32 →
  (∀ P s' fl' own', own !! P = None → inv s' fl' own' → own' !! P = Some (Page pd (framedown va_)) →
     others_kept pd (framedown va_) s own s' own' → (∀ a, in_frame P a → mem s' a = 0) → Q () s') →
  run (vmm_pageFault pd pd pd va_) Q s.
Proof.
  intros Hi Hpd Hva HQ. destruct (framedown_user va_ Hva) as [Hu _].
  unfold vmm_pageFault. do 2 (apply wpx_bind; apply wp_wpx, wp_assert; [done|]).
  rewrite decide_True by (destruct Hu; lia). apply wpx_bind.
  eapply (wpx_alloc_map s fl own pd (framedown va_) (λ _, Q)); [done|done|done|].
  intros P s' fl' own' HP Hi' HP' Hk Hz. eapply HQ; eassumption.
Qed.

(** ** Removing a page *)

Lemma wpx_unmap s fl own pd va (Q : () → phys → Prop) (R : phys → Prop) :
  inv s fl own → own !! pd = Some Dir → user_va va → ¬ device ioAPIC localAPIC va →
  (∀ s' fl' own', inv s' fl' own' → (∀ P, own' !! P ≠ Some (Page pd va)) →
     others_kept pd va s own s' own' → (∀ q r, own' !! q = Some r → own !! q = Some r) →
     (∀ P, own !! P = Some (Page pd va) → own' !! P = None) → Q () s') →
  wpx (unmap pd va) Q R s.
Proof.
  intros Hi Hpd Hva Hdev HQ. pose proof (user_va_pdi va Hva) as Hpdi.
  destruct (va_of_pdi_pti va (proj1 Hva)) as [Eva Hpti].
  assert (Hnone : (∀ P, own !! P ≠ Some (Page pd va)) → Q () s).
  { intros Hno. eapply HQ; [exact Hi|done|apply others_refl|done|]. intros P HP. by destruct (Hno P). }
  unfold unmap. apply wpx_bind. eapply wpx_read; [done|done|lia|].
  destruct (vi_dir _ _ _ _ _ _ _ _ Hi pd (pdi va) Hpd Hpdi) as [E|(T & HT & E)]; rewrite E.
  { rewrite decide_True by done. apply wpx_ret, Hnone. intros P HP.
    destruct (vi_page _ _ _ _ _ _ _ _ Hi P pd va HP) as (_ & T & HT & _).
    destruct (vi_table _ _ _ _ _ _ _ _ Hi T pd _ HT) as (_ & _ & E').
    destruct (own_frame _ _ _ _ _ _ _ _ _ _ Hi HT) as (_ & _ & ? & _). lia. }
  destruct (own_entry _ _ _ _ _ _ _ _ _ _ Hi HT) as (_ & Ef & El & _). rewrite El.
  rewrite decide_False by done. apply wpx_bind. eapply wpx_read; [done|done|lia|]. rewrite E, Ef.
  apply wpx_bind. eapply wpx_read; [done|exact HT|done|].
  assert (Huniq : ∀ P, own !! P = Some (Page pd va) → mem s (T + 4 * pti va) = P + 7).
  { intros P HP. destruct (vi_page _ _ _ _ _ _ _ _ Hi P pd va HP) as (_ & T' & HT' & E').
    destruct (vi_table _ _ _ _ _ _ _ _ Hi T' pd _ HT') as (_ & _ & E'').
    by replace T with T' by lia. }
  pose proof (vi_entry _ _ _ _ _ _ _ _ Hi T pd (pdi va) (pti va) HT Hpti) as Hok.
  unfold entry_ok in Hok. rewrite Eva in Hok. destruct Hok as [E0|[(P & HP & E0)|[? _]]]; [| |done]; rewrite E0.
  { rewrite decide_True by done. apply wpx_ret, Hnone. intros P HP. pose proof (Huniq P HP).
    destruct (own_frame _ _ _ _ _ _ _ _ _ _ Hi HP) as (_ & _ & ? & _). lia. }
  destruct (own_entry _ _ _ _ _ _ _ _ _ _ Hi HP) as (_ & Ef' & El' & _). rewrite El', Ef'.
  rewrite decide_False by done. apply wpx_bind. eapply wpx_write; [done|exact HT|done|].
  set (s1 := with_mem (upd (mem s) (T + 4 * pti va) 0) s).
  assert (Hi1 : inv s1 fl (evict pd va own)).
  { eapply vm_inv_entry; try done.
    - apply dom_evict.
    - intros q r. rewrite Eva. intros Hr Hl. rewrite lookup_evict by done. tauto.
    - by left.
    - intros P'. rewrite Eva. rewrite lookup_evict by done. by intros [_ ?]. }
  assert (HP1 : evict pd va own !! P = Some Lost).
  { unfold evict. rewrite map_lookup_imap, HP. simpl. by rewrite decide_True. }
  eapply wpx_dealloc; [exact Hi1|exact HP1|]. intros s2 Hi2 [_ Hm].
  assert (Hsub : ∀ q r, delete P (evict pd va own) !! q = Some r → own !! q = Some r).
  { intros q r [Hne Hq]%lookup_delete_Some. revert Hq. unfold evict. rewrite map_lookup_imap.
    destruct (own !! q) as [r'|] eqn:Eq; simpl; [|done]. destruct (decide (r' = _)) as [->|]; [|done].
    pose proof (Huniq q Eq). assert (q = P) by lia. congruence. }
  eapply HQ; [exact Hi2| | |exact Hsub|].
  - intros P' [_ HP']%lookup_delete_Some. by apply lookup_evict in HP' as [_ ?].
  - assert (Hfar : ∀ q r a, own !! q = Some r → r ≠ Page pd va → in_frame q a → mem s2 a = mem s1 a).
    { intros q r a Hq Hr Ha. apply Hm. intros ->.
      eapply (own_apart _ _ _ _ _ s fl own q P); [done|done|done|congruence|exact Ha|unfold in_frame; lia]. }
    split.
    + intros q r Hl Hr Hq. apply lookup_delete_Some. split; [congruence|]. by apply lookup_evict.
    + intros q r _ _ _ Hq. by apply Hsub.
    + intros T' pd' i j HT' Hj Hne. rewrite (Hfar T' (Table pd' i)); [|done|done|by apply in_frame_entry].
      unfold s1. simpl. rewrite (upd_entry _ _ _ _ _ s fl own T T' (Table pd (pdi va)) (Table pd' i)) by done.
      apply decide_False. intros [-> ->]. assert (pd' = pd ∧ i = pdi va) as [-> ->] by (split; congruence).
      by destruct Hne.
    + intros q r a Hq _ Hr Hp Ha. rewrite (Hfar q r a) by done. unfold s1. simpl. apply upd_ne. intros ->.
      eapply (own_apart _ _ _ _ _ s fl own T q); [done|done|done| |by apply in_frame_entry|done].
      intros ->. apply Hr. congruence.
  - intros P' HP'. apply lookup_delete_None. left. pose proof (Huniq P' HP'). lia.
Qed.

(** ** Translations *)

Lemma present_entry p r s fl own :
  inv s fl own → own !! p = Some r → present (p + 7) = true ∧ frame_of (p + 7) = p.
Proof.
  intros Hi Hp. destruct (own_entry _ _ _ _ _ _ _ _ _ _ Hi Hp) as (_ & ? & El & _).
  split; [|done]. unfold present. by rewrite El.
Qed.

Lemma offset_page va o : va mod 4096 = 0 → 0 ≤ o < 4096 → offset (va + o) = o.
Proof.
  intros Hva Ho. rewrite land_fff, <-Z.add_mod_idemp_l, Hva by lia. by rewrite Z.mod_small.
Qed.

(** The page with a role is what its address translates to. *)
Lemma translate_page s fl own P pd va o :
  inv s fl own → own !! P = Some (Page pd va) → 0 ≤ o < 4096 →
  translate (mem s) pd (va + o) = Some (P + o).
Proof.
  intros Hi HP Ho. destruct (vi_page _ _ _ _ _ _ _ _ Hi P pd va HP) as (Hva & T & HT & E).
  destruct (vi_table _ _ _ _ _ _ _ _ Hi T pd _ HT) as (_ & _ & E').
  destruct (va_of_pdi_pti va (proj1 Hva)) as [Eva Hpti].
  destruct (va_of_indices (pdi va) (pti va) o Hpti Ho) as [E1 E2]. rewrite Eva in E1, E2.
  unfold translate. rewrite E1, E2, E'.
  destruct (present_entry _ _ _ _ _ Hi HT) as [-> ->]. rewrite E.
  destruct (present_entry _ _ _ _ _ Hi HP) as [-> ->]. by rewrite offset_page by (done || apply Hva).
Qed.

Lemma page_unique s fl own pd va P1 P2 :
  inv s fl own → own !! P1 = Some (Page pd va) → own !! P2 = Some (Page pd va) → P1 = P2.
Proof.
  intros Hi H1 H2.
  destruct (vi_page _ _ _ _ _ _ _ _ Hi P1 pd va H1) as (_ & T1 & HT1 & E1).
  destruct (vi_page _ _ _ _ _ _ _ _ Hi P2 pd va H2) as (_ & T2 & HT2 & E2).
  destruct (vi_table _ _ _ _ _ _ _ _ Hi T1 pd _ HT1) as (_ & _ & F1).
  destruct (vi_table _ _ _ _ _ _ _ _ Hi T2 pd _ HT2) as (_ & _ & F2).
  replace T2 with T1 in E2 by lia. lia.
Qed.

(** Conversely a user address translates into such a page or a device. *)
Lemma translate_inv s fl own pd va o a :
  inv s fl own → own !! pd = Some Dir → user_va va → 0 ≤ o < 4096 →
  translate (mem s) pd (va + o) = Some a →
  (∃ P, own !! P = Some (Page pd va) ∧ a = P + o) ∨ (device ioAPIC localAPIC va ∧ a = va + o).
Proof.
  intros Hi Hpd Hva Ho. destruct (va_of_pdi_pti va (proj1 Hva)) as [Eva Hpti].
  pose proof (user_va_pdi va Hva) as Hpdi.
  destruct (va_of_indices (pdi va) (pti va) o Hpti Ho) as [E1 E2]. rewrite Eva in E1, E2.
  unfold translate. rewrite E1, E2, offset_page by (done || apply Hva).
  destruct (vi_dir _ _ _ _ _ _ _ _ Hi pd (pdi va) Hpd Hpdi) as [E|(T & HT & E)]; rewrite E; [done|].
  destruct (present_entry _ _ _ _ _ Hi HT) as [-> ->].
  pose proof (vi_entry _ _ _ _ _ _ _ _ Hi T pd (pdi va) (pti va) HT Hpti) as Hok.
  unfold entry_ok in Hok. rewrite Eva in Hok. destruct Hok as [->|[(P & HP & ->)|[? ->]]].
  - done.
  - destruct (present_entry _ _ _ _ _ Hi HP) as [-> ->]. intros [= <-]. left. by exists P.
  - destruct (entry_bits va) as (_ & Ef & El & _); [apply Hva|destruct Hva; lia|apply Hva|].
    unfold present. rewrite El, Ef. intros [= <-]. by right.
Qed.

(** ** New address spaces *)

Lemma shared_entries_le : shared_entries memSize ≤ 512.
Proof.
  unfold shared_entries. cbv zeta. change (4 * 1024 * 1024) with (2 ^ 22).
  rewrite (u32_small (memSize + _)) by lia.
  apply Z.lt_succ_r, Z.div_lt_upper_bound; [lia|].
  destruct (decide (memSize + 2 ^ 22 - 1 < 2 ^ 32)); [rewrite u32_small; lia|lia].
Qed.

(** The copy of the kernel's directory entries into a cleared frame. *)
Lemma wpx_copy_shared s fl own pd (Q : () → phys → Prop) :
  inv s fl own → own !! pd = Some Lost → (∀ a, in_frame pd a → mem s a = 0) →
  (∀ s', inv s' fl own → (∀ i, 0 ≤ i < 512 → mem s' (pd + 4 * i) = mem s' (shared + 4 * i)) →
     (∀ i, 512 ≤ i < 1024 → mem s' (pd + 4 * i) = 0) →
     (∀ a, ¬ in_frame pd a → mem s' a = mem s a) → Q () s') →
  run (for_range 0 (Z.to_nat (shared_entries memSize))
         (λ i, e ← read_entry shared i; write_entry pd i e)) Q s.
Proof.
  intros Hi Hpd Hz HQ. pose proof (vi_kernel _ _ _ _ _ _ _ _ Hi) as (Hsh & _ & Hrest).
  pose proof (shared_entries_nonneg memSize). pose proof shared_entries_le.
  assert (Hne : shared ≠ pd) by congruence.
  assert (Hfar : ∀ i, 0 ≤ i < 1024 → ¬ in_frame pd (shared + 4 * i)).
  { intros i Hr Ha. eapply (own_apart _ _ _ _ _ s fl own shared pd); [done|done|done|done| |exact Ha].
    by apply in_frame_entry. }
  apply (wpx_for _ (λ n s', inv s' fl own ∧ (∀ a, ¬ in_frame pd a → mem s' a = mem s a) ∧
    ∀ i, 0 ≤ i < 1024 → mem s' (pd + 4 * i) = if decide (i < n) then mem s (shared + 4 * i) else 0)).
  - split; [done|]. split; [done|]. intros i Hr. rewrite decide_False by lia. by apply Hz, in_frame_entry.
  - intros n s' Hn (Hi' & Hm & Hc). apply wpx_bind. eapply wpx_read; [exact Hi'|done|lia|].
    eapply wpx_write; [exact Hi'|done|lia|]. split_and!.
    + apply (vm_inv_write_plain _ _ _ _ _ Hmem s' fl own pd Lost); [done|done|by intros []|].
      intros a Ha. apply upd_ne. intros ->. apply Ha, in_frame_entry. lia.
    + intros a Ha. simpl. rewrite upd_ne; [by apply Hm|]. intros ->. apply Ha, in_frame_entry. lia.
    + intros i Hr. simpl. destruct (decide (i = n)) as [->|].
      * rewrite upd_eq, decide_True by lia. apply Hm, Hfar. lia.
      * rewrite upd_ne by lia. rewrite Hc by done. repeat goal_decide; lia.
  - intros s' (Hi' & Hm & Hc). apply HQ; [done|..|done].
    + intros i Hr. rewrite Hc, (Hm (shared + 4 * i)) by (lia || by apply Hfar; lia).
      goal_decide; [done|]. symmetry. apply Hrest. lia.
    + intros i Hr. rewrite Hc by lia. rewrite decide_False by lia. done.
Qed.

(** What a run that only adds frames leaves alone. *)
Definition only_adds s own s' own' : Prop :=
  (∀ q r, own !! q = Some r → own' !! q = Some r) ∧
  (∀ q r a, own !! q = Some r → in_frame q a → mem s' a = mem s a).

(** A page-table entry of [pd] maps the device page at [va]. *)
Definition maps_device s own pd va : Prop :=
  ∃ T, own !! T = Some (Table pd (pdi va)) ∧ mem s (T + 4 * pti va) = va + 7.

Lemma maps_device_kept s own s' own' pd pd' va va' :
  others_kept pd va s own s' own' → user_va va' → pd' ≠ pd ∨ va' ≠ va →
  maps_device s own pd' va' → maps_device s' own' pd' va'.
Proof.
  intros Hk Hva Hne (T & HT & E). destruct (va_of_pdi_pti va' (proj1 Hva)) as [Eva Hpti].
  exists T. split; [by apply (ok_keep _ _ _ _ _ _ Hk)|].
  rewrite <-E. apply (ok_entries _ _ _ _ _ _ Hk _ _ _ _ HT Hpti). rewrite Eva. tauto.
Qed.

(** Mapping in a new directory touches no frame that was there before it. *)
Lemma new_dir_kept s0 own0 pd va s own s' own' :
  own0 !! pd = None → only_adds s0 own0 s own →
  (∀ T i, own !! T = Some (Table pd i) → own0 !! T = None) →
  (∀ P va, own !! P = Some (Page pd va) → own0 !! P = None) →
  (∀ q r, own !! q = Some r → own' !! q = Some r) →
  others_kept pd va s own s' own' → only_adds s0 own0 s' own'.
Proof.
  intros Hpd [H1 H2] Ht Hp Hsub Hk. split; [auto|].
  intros q r a Hq Ha. rewrite <-(H2 q r a) by done. pose proof (H1 q r Hq) as Hq'.
  apply (ok_contents _ _ _ _ _ _ Hk q r a Hq'); [congruence|..|done]; intros ->.
  - rewrite (Ht q _ Hq') in Hq. done.
  - rewrite (Hp q _ Hq') in Hq. done.
Qed.

Lemma wpx_make_pd s fl own (Q : Z → phys → Prop) :
  inv s fl own →
  (∀ pd s' fl' own', own !! pd = None → inv s' fl' own' → own' !! pd = Some Dir →
     only_adds s own s' own' → maps_device s' own' pd ioAPIC → maps_device s' own' pd localAPIC →
     (∀ q r, own' !! q = Some r → own !! q = Some r ∨ (q = pd ∧ r = Dir) ∨ ∃ i, r = Table pd i) →
     Q pd s') →
  run (make_pd memSize ioAPIC localAPIC shared) Q s.
Proof.
  intros Hi HQ. unfold make_pd. apply wpx_bind. eapply wpx_alloc; [done|].
  intros pd s1 fl1 Hnone Hi1 Hz Hs1.
  destruct (alloc_kept s s1 fl1 own pd 0 pd Hnone Hi1 Hs1) as (_ & Hsub1 & Hmem1).
  apply wpx_bind. eapply wpx_copy_shared; [exact Hi1|apply lookup_insert_eq|done|].
  intros s2 Hi2 Hlow Hhigh Hm2.
  pose proof (vm_inv_dir _ _ _ _ _ Hmem s2 fl1 _ pd Hi2 (lookup_insert_eq own pd Lost) Hlow Hhigh) as Hi3.
  rewrite insert_insert_eq in Hi3. set (own2 := <[pd := Dir]> own) in *.
  assert (Hpd2 : own2 !! pd = Some Dir) by apply lookup_insert_eq.
  assert (Hnew2 : ∀ q r, own2 !! q = Some r → own !! q = Some r ∨ q = pd ∧ r = Dir).
  { intros q r. unfold own2. rewrite lookup_insert_Some. intros [[<- <-]|[_ ?]]; [by right|by left]. }
  assert (Hadd2 : only_adds s own s2 own2).
  { split.
    - intros q r Hq. unfold own2. rewrite lookup_insert_ne; [done|congruence].
    - intros q r a Hq Ha. rewrite Hm2; [by eapply Hmem1|]. intros Ha'.
      eapply (own_apart _ _ _ _ _ s1 fl1 (<[pd := Lost]> own) q pd);
        [done|by apply Hsub1|apply lookup_insert_eq|congruence|exact Ha|exact Ha']. }
  assert (Hown : ∀ T r, own !! T = Some r → r ≠ Dir → ∀ i va, r ≠ Table pd i ∧ r ≠ Page pd va).
  { intros T r HT _ i va. split; intros ->.
    - destruct (vi_table _ _ _ _ _ _ _ _ Hi T pd i HT) as [? _]. congruence.
    - destruct (vi_page _ _ _ _ _ _ _ _ Hi T pd va HT) as (_ & T' & HT' & _).
      destruct (vi_table _ _ _ _ _ _ _ _ Hi T' pd _ HT') as [? _]. congruence. }
  assert (Hno : ∀ P va, own2 !! P ≠ Some (Page pd va)).
  { intros P va HP. destruct (Hnew2 _ _ HP) as [HP'|[_ [=]]].
    by destruct (Hown P _ HP' ltac:(done) 0 va). }
  assert (Hnt : ∀ T i, own2 !! T = Some (Table pd i) → own !! T = None).
  { intros T i HT. destruct (Hnew2 _ _ HT) as [HT'|[_ [=]]].
    by destruct (Hown T _ HT' ltac:(done) i 0). }
  apply wpx_bind. eapply wpx_map_device; [exact Hi3|exact Hpd2|exact Hio|by left|intros P; apply Hno|].
  intros s4 fl4 own4 T4 Hi4 HT4 E4 Hk4 Hsub4 Hnew4.
  assert (Hadd4 : only_adds s own s4 own4).
  { eapply (new_dir_kept s own pd ioAPIC s2 own2); try done. intros P va HP. by destruct (Hno P va). }
  assert (Hno4 : ∀ P va, own4 !! P ≠ Some (Page pd va)).
  { intros P va HP. destruct (Hnew4 _ _ HP) as [?|?]; [by apply (Hno P va)|done]. }
  apply wpx_bind. eapply wpx_map_device; [exact Hi4|by apply Hsub4|exact Hlo|by right|intros P; apply Hno4|].
  intros s5 fl5 own5 T5 Hi5 HT5 E5 Hk5 Hsub5 Hnew5. apply wpx_ret.
  eapply (HQ pd s5 fl5 own5); [done|exact Hi5|by apply Hsub5, Hsub4| | | |].
  - eapply (new_dir_kept s own pd localAPIC s4 own4); try done.
    + intros T i HT. destruct (own !! T) as [r|] eqn:ET; [|done]. exfalso.
      pose proof (proj1 Hadd4 T r ET) as ET4. assert (r = Table pd i) as -> by congruence.
      by destruct (Hown T _ ET ltac:(done) i 0).
    + intros P va HP. by destruct (Hno4 P va).
  - eapply maps_device_kept; [exact Hk5|done|by right|]. by exists T4.
  - by exists T5.
  - intros q r Hq. destruct (Hnew5 _ _ Hq) as [Hq4|?]; [|right; right; by eexists].
    destruct (Hnew4 _ _ Hq4) as [Hq2|?]; [|right; right; by eexists].
    destruct (Hnew2 _ _ Hq2) as [?|?]; [by left|by right; left].
Qed.

(** ** Deleting an address space *)

(** After deletion: the directory and its tables are free again, its pages
    have lost their role but are still in use, everything else is as it
    was. *)
Record deleted (pd : Z) own own' : Prop := {
  de_dir : own' !! pd = None;
  de_tables : ∀ T i, own !! T = Some (Table pd i) → own' !! T = None;
  de_pages : ∀ P va, own !! P = Some (Page pd va) → own' !! P = Some Lost;
  de_keep : ∀ q r, own !! q = Some r → ¬ belongs pd q r → own' !! q = Some r;
  de_new : ∀ q r, own' !! q = Some r → r ≠ Lost → own !! q = Some r ∧ ¬ belongs pd q r
}.

(** The same in the middle of the loop, with tables below index [n] freed. *)
Record deleting (pd n : Z) s0 own s own' : Prop := {
  dg_dir : own' !! pd = Some Lost;
  dg_tables : ∀ T i, own !! T = Some (Table pd i) →
    own' !! T = if decide (i < n) then None else Some Lost;
  dg_pages : ∀ P va, own !! P = Some (Page pd va) → own' !! P = Some Lost;
  dg_keep : ∀ q r, own !! q = Some r → ¬ belongs pd q r → own' !! q = Some r;
  dg_new : ∀ q r, own' !! q = Some r → r ≠ Lost → own !! q = Some r ∧ ¬ belongs pd q r;
  dg_entries : ∀ i, 0 ≤ i < 1024 → mem s (pd + 4 * i) = mem s0 (pd + 4 * i);
  dg_mem : ∀ q r a, own !! q = Some r → ¬ belongs pd q r → in_frame q a → mem s a = mem s0 a
}.

Lemma abandon_lost pd own p r : own !! p = Some r → belongs pd p r → abandon pd own !! p = Some Lost.
Proof. intros Hp Hb. unfold abandon. rewrite map_lookup_imap, Hp. simpl. by rewrite decide_True. Qed.

Lemma deleting_start pd s own fl :
  inv s fl own → own !! pd = Some Dir → deleting pd 512 s own s (abandon pd own).
Proof.
  intros Hi Hpd. split; try done.
  - by eapply abandon_lost.
  - intros T i HT. destruct (vi_table _ _ _ _ _ _ _ _ Hi T pd i HT) as (_ & ? & _).
    rewrite decide_False by lia. by eapply abandon_lost.
  - intros P va HP. by eapply abandon_lost.
  - intros q r Hq Hb. destruct (decide (r = Lost)) as [->|].
    + unfold abandon. rewrite map_lookup_imap, Hq. simpl. by repeat goal_decide.
    + by apply lookup_abandon.
  - intros q r Hq Hr. by apply lookup_abandon.
Qed.

(** Freeing the table for index [n], or none. *)
Lemma deleting_free pd n s0 own fl0 s fl own' T s' :
  inv s0 fl0 own → own !! pd = Some Dir → own !! T = Some (Table pd n) →
  inv s fl own' → deleting pd n s0 own s own' → same_outside (λ a, a = T) s s' →
  deleting pd (n + 1) s0 own s' (delete T own').
Proof.
  intros Hi0 Hpd HT Hi [D1 D2 D3 D4 D5 D6 D7] [_ Hm].
  assert (Hne : pd ≠ T) by congruence.
  assert (Hfar : ∀ q r a, own !! q = Some r → q ≠ T → in_frame q a → mem s' a = mem s a).
  { intros q r a Hq Hqt Ha. apply Hm. intros ->.
    eapply (own_apart _ _ _ _ _ s0 fl0 own q T); [done|done|done|done|exact Ha|unfold in_frame; lia]. }
  split.
  - by rewrite lookup_delete_ne.
  - intros T' i HT'. destruct (decide (T' = T)) as [->|Hn].
    + rewrite lookup_delete_eq. assert (i = n) as -> by congruence. by rewrite decide_True by lia.
    + rewrite lookup_delete_ne by done. rewrite (D2 T' i HT').
      assert (i ≠ n).
      { intros ->. apply Hn. destruct (vi_table _ _ _ _ _ _ _ _ Hi0 T' pd n HT') as (_ & _ & E).
        destruct (vi_table _ _ _ _ _ _ _ _ Hi0 T pd n HT) as (_ & _ & E'). lia. }
      repeat goal_decide; first [done|lia].
  - intros P va HP. rewrite lookup_delete_ne; [by eapply D3|congruence].
  - intros q r Hq Hb. rewrite lookup_delete_ne; [by apply D4|]. intros <-.
    assert (r = Table pd n) as -> by congruence. by apply Hb.
  - intros q r [_ Hq]%lookup_delete_Some Hr. by apply D5.
  - intros i Hr. rewrite <-D6 by done. by eapply Hfar, in_frame_entry.
  - intros q r a Hq Hb Ha. rewrite <-(D7 q r a) by done. eapply Hfar; [done| |done].
    intros ->. assert (r = Table pd n) as -> by congruence. by apply Hb.
Qed.

Lemma wpx_delete_pd s fl own pd (Q : () → phys → Prop) (R : phys → Prop) :
  inv s fl own → own !! pd = Some Dir →
  (∀ s' fl' own', inv s' fl' own' → deleted pd own own' →
     (∀ q r a, own !! q = Some r → ¬ belongs pd q r → in_frame q a → mem s' a = mem s a) →
     Q () s') →
  wpx (delete_pd pd) Q R s.
Proof.
  intros Hi Hpd HQ. unfold delete_pd. apply wpx_bind.
  pose proof (vm_inv_abandon _ _ _ _ _ s fl own pd Hi) as Hi0.
  apply (wpx_for _ (λ n s', ∃ fl' own', inv s' fl' own' ∧ deleting pd n s own s' own')).
  - exists fl, (abandon pd own). split; [done|]. by eapply deleting_start.
  - intros n s1 Hn (fl1 & own1 & Hi1 & Hd). change (512 + Z.of_nat 512) with 1024 in Hn.
    apply wpx_bind. eapply wpx_read; [exact Hi1|apply Hd|lia|].
    rewrite (dg_entries _ _ _ _ _ _ Hd) by lia.
    destruct (vi_dir _ _ _ _ _ _ _ _ Hi pd n Hpd Hn) as [E|(T & HT & E)]; rewrite E.
    + rewrite decide_False by (intros H; by apply H). apply wpx_ret. exists fl1, own1. split; [done|].
      destruct Hd as [D1 D2 D3 D4 D5 D6 D7]. split; try done.
      intros T i HT. rewrite (D2 T i HT). destruct (vi_table _ _ _ _ _ _ _ _ Hi T pd i HT) as (_ & ? & E').
      destruct (own_frame _ _ _ _ _ _ _ _ _ _ Hi HT) as (_ & _ & ? & _).
      repeat goal_decide; try done; try lia. assert (i = n) as -> by lia. lia.
    + destruct (own_entry _ _ _ _ _ _ _ _ _ _ Hi HT) as (_ & Ef & El & _). rewrite El, Ef.
      rewrite decide_True by done. eapply wpx_dealloc; [exact Hi1| |].
      * rewrite (dg_tables _ _ _ _ _ _ Hd T n HT). by rewrite decide_False by lia.
      * intros s2 Hi2 Hs2. exists (T :: fl1), (delete T own1). split; [done|].
        by eapply (deleting_free pd n s own fl s1 fl1 own1 T).
  - intros s1 (fl1 & own1 & Hi1 & Hd). change (512 + Z.of_nat 512) with 1024 in Hd.
    destruct Hd as [D1 D2 D3 D4 D5 D6 D7].
    eapply wpx_dealloc; [exact Hi1|exact D1|]. intros s2 Hi2 [_ Hm].
    eapply (HQ s2 _ (delete pd own1)); [exact Hi2| |].
    + split.
      * apply lookup_delete_eq.
      * intros T i HT. rewrite lookup_delete_ne by congruence. rewrite (D2 T i HT).
        destruct (vi_table _ _ _ _ _ _ _ _ Hi T pd i HT) as (_ & ? & _). by rewrite decide_True by lia.
      * intros P va HP. rewrite lookup_delete_ne by congruence. by eapply D3.
      * intros q r Hq Hb. rewrite lookup_delete_ne; [by apply D4|]. intros <-.
        assert (r = Dir) as -> by congruence. by apply Hb.
      * intros q r [_ Hq]%lookup_delete_Some Hr. by apply D5.
    + intros q r a Hq Hb Ha. rewrite <-(D7 q r a) by done. apply Hm. intros ->.
      assert (q ≠ pd) by (intros ->; assert (r = Dir) as -> by congruence; by apply Hb).
      eapply (own_apart _ _ _ _ _ s fl own q pd); [done|done|done|done|exact Ha|unfold in_frame; lia].
Qed.

(** ** The loop over the pages of an address space *)

Section user_pages.
Context (pd : Z) (body : Z → M phys ()) (P : Z → phys → list Z → gmap Z role → Prop).

(** [P va] holds when the loop reaches [va]: it keeps the invariant and the
    directory, survives addresses without a page, and is advanced by the
    body, which keeps the directory's tables. *)
Context (P_inv : ∀ va s fl own, P va s fl own → inv s fl own ∧ own !! pd = Some Dir).
Context (P_skip : ∀ va s fl own, user_va va → P va s fl own →
  (∀ Pg, own !! Pg ≠ Some (Page pd va)) ∨ device ioAPIC localAPIC va → P (va + 4096) s fl own).
Context (P_body : ∀ va s fl own Pg, user_va va → P va s fl own →
  own !! Pg = Some (Page pd va) → ¬ device ioAPIC localAPIC va →
  run (body va) (λ _ s', ∃ fl' own', P (va + 4096) s' fl' own' ∧
     ∀ T i, own !! T = Some (Table pd i) → own' !! T = Some (Table pd i)) s).

Lemma va_of_next i j : va_of i (j + 1) = va_of i j + 4096.
Proof. unfold va_of. lia. Qed.

Lemma va_of_carry i : va_of i 1024 = va_of (i + 1) 0.
Proof. unfold va_of. lia. Qed.

Lemma loop_va i j : 512 ≤ i < 1024 → 0 ≤ j < 1024 → u32 (Z.shiftl i 22 + j * 4096) = va_of i j.
Proof.
  intros Hi Hj. unfold va_of. rewrite Z.shiftl_mul_pow2 by lia. apply u32_small. lia.
Qed.

(** A directory entry that is absent: nothing is mapped in its range. *)
Lemma skip_table i s fl own (n : nat) :
  512 ≤ i < 1024 → (Z.of_nat n ≤ 1024) → mem s (pd + 4 * i) = 0 →
  P (va_of i 0) s fl own → P (va_of i (Z.of_nat n)) s fl own.
Proof.
  intros Hi Hn E HP. induction n as [|n IH]; [done|].
  rewrite Nat2Z.inj_succ, <-Z.add_1_r, va_of_next. apply P_skip; [apply va_of_user; lia|apply IH; lia|].
  left. intros Pg HPg. destruct (P_inv _ _ _ _ HP) as [Hinv _].
  destruct (vi_page _ _ _ _ _ _ _ _ Hinv Pg pd _ HPg) as (_ & T & HT & _).
  destruct (va_of_idx i (Z.of_nat n)) as [Ei _]; [lia|]. rewrite Ei in HT.
  destruct (vi_table _ _ _ _ _ _ _ _ Hinv T pd i HT) as (_ & _ & E').
  destruct (own_frame _ _ _ _ _ _ _ _ _ _ Hinv HT) as (_ & _ & ? & _). lia.
Qed.

Lemma wpx_inner i T s fl own (Q : () → phys → Prop) :
  512 ≤ i < 1024 → P (va_of i 0) s fl own → own !! T = Some (Table pd i) →
  (∀ s' fl' own', P (va_of (i + 1) 0) s' fl' own' → Q () s') →
  run (for_range 0 1024 (λ j,
         let va := u32 (Z.shiftl i 22 + j * 4096) in
         pte ← read_entry T j;
         if decide (pte mod 2 = 1 ∧ va ≠ ioAPIC ∧ va ≠ localAPIC) then body va else mret ())) Q s.
Proof.
  intros Hi HP HT HQ.
  apply (wpx_for _ (λ j s', ∃ fl' own', P (va_of i j) s' fl' own' ∧ own' !! T = Some (Table pd i))).
  - by exists fl, own.
  - intros j s1 Hj (fl1 & own1 & HP1 & HT1). change (0 + Z.of_nat 1024) with 1024 in Hj.
    cbv zeta. rewrite loop_va by done. destruct (P_inv _ _ _ _ HP1) as [Hinv Hpd].
    apply wpx_bind. eapply wpx_read; [exact Hinv|exact HT1|done|]. rewrite va_of_next.
    pose proof (va_of_user i j Hi Hj) as Hu. destruct (va_of_idx i j Hj) as [Ei Ej].
    pose proof (vi_entry _ _ _ _ _ _ _ _ Hinv T pd i j HT1 Hj) as Hok.
    destruct (decide _) as [(Hp & Hn1 & Hn2)|Hno].
    + assert (Hdev : ¬ device ioAPIC localAPIC (va_of i j)) by (intros [|]; done).
      destruct Hok as [E|[(Pg & HPg & _)|[? _]]]; [|..|done].
      { rewrite E in Hp. done. }
      eapply wpx_mono; [by eapply P_body|]. intros [] s2 (fl2 & own2 & HP2 & Ht2).
      exists fl2, own2. split; [done|by apply Ht2].
    + apply wpx_ret. exists fl1, own1. split; [|done]. apply P_skip; [done|done|].
      destruct (decide (device ioAPIC localAPIC (va_of i j))) as [|Hdev]; [by right|left].
      intros Pg HPg. apply Hno.
      destruct (vi_page _ _ _ _ _ _ _ _ Hinv Pg pd _ HPg) as (_ & T' & HT' & E).
      rewrite Ei in HT'. rewrite Ej in E.
      destruct (vi_table _ _ _ _ _ _ _ _ Hinv T' pd i HT') as (_ & _ & E1).
      destruct (vi_table _ _ _ _ _ _ _ _ Hinv T pd i HT1) as (_ & _ & E2).
      replace T' with T in E by lia. rewrite E.
      destruct (own_entry _ _ _ _ _ _ _ _ _ _ Hinv HPg) as (_ & _ & _ & ->).
      split; [done|]. split; intros Ev; apply Hdev; [by left|by right].
  - intros s1 (fl1 & own1 & HP1 & _). eapply HQ. rewrite <-va_of_carry. exact HP1.
Qed.

Lemma wpx_user_pages s fl own (Q : () → phys → Prop) :
  P (2 ^ 31) s fl own → (∀ s' fl' own', P (2 ^ 32) s' fl' own' → Q () s') →
  run (for_user_pages ioAPIC localAPIC pd body) Q s.
Proof.
  intros HP HQ. unfold for_user_pages.
  apply (wpx_for _ (λ i s', ∃ fl' own', P (va_of i 0) s' fl' own')).
  - by exists fl, own.
  - intros i s1 Hi (fl1 & own1 & HP1). change (512 + Z.of_nat 512) with 1024 in Hi.
    destruct (P_inv _ _ _ _ HP1) as [Hinv Hpd].
    apply wpx_bind. eapply wpx_read; [exact Hinv|exact Hpd|lia|].
    destruct (vi_dir _ _ _ _ _ _ _ _ Hinv pd i Hpd Hi) as [E|(T & HT & E)]; rewrite E.
    + rewrite decide_False by done. apply wpx_ret. exists fl1, own1. rewrite <-va_of_carry.
      by apply (skip_table i s1 fl1 own1 1024).
    + destruct (own_entry _ _ _ _ _ _ _ _ _ _ Hinv HT) as (_ & Ef & _ & Em). rewrite Em.
      rewrite decide_True by done. cbv zeta. rewrite Ef.
      eapply wpx_inner; [done|exact HP1|exact HT|]. intros s2 fl2 own2 HP2. by exists fl2, own2.
  - intros s1 (fl1 & own1 & HP1). eapply HQ. exact HP1.
Qed.
End user_pages.
End ops.
