(* ===== verification/VmmLoops.v ===== *)
(** * The address-space loops of fork and execl

    What the copy of an address space and its clearing do, on top of the
    operations of [VmmOps], and the frame property all operations on one
    address space share: they touch nothing another one owns. *)

From S2P Require Import Prelude.
From S2P Require Import PhysMem.
From S2P Require Import Vmm.
From S2P Require Import VmmInv.
From S2P Require Import VmmOps.

(** The tables and pages of an address space. *)
Definition owned_by (pd : Z) (r : role) : Prop :=
  match r with Table pd' _ | Page pd' _ => pd' = pd | _ => False end.

(** A run that only changes the address space [pd]. *)
Record touches_only (pd : Z) (s : phys) (own : gmap Z role) (s' : phys) (own' : gmap Z role) : Prop := {
  to_keep : ∀ q r, r ≠ Lost → ¬ owned_by pd r → own !! q = Some r → own' !! q = Some r;
  to_new : ∀ q r, r ≠ Lost → ¬ owned_by pd r → own' !! q = Some r → own !! q = Some r;
  to_mem : ∀ q r a, own !! q = Some r → r ≠ Lost → q ≠ pd → ¬ owned_by pd r → in_frame q a →
    mem s' a = mem s a
}.

Lemma touches_refl pd s own : touches_only pd s own s own.
Proof. by split. Qed.

Lemma touches_trans pd s1 o1 s2 o2 s3 o3 :
  touches_only pd s1 o1 s2 o2 → touches_only pd s2 o2 s3 o3 → touches_only pd s1 o1 s3 o3.
Proof.
  intros [K1 N1 M1] [K2 N2 M2]. split; [by auto..|].
  intros q r a Hq Hl Hn Ho Ha. rewrite (M2 q r a), (M1 q r a); auto.
Qed.

Lemma others_touches pd va s own s' own' :
  others_kept pd va s own s' own' → touches_only pd s own s' own'.
Proof.
  intros [K N E C]. split.
  - intros q r Hl Ho. apply K; [done|]. intros ->. by apply Ho.
  - intros q r Hl Ho. apply N; [done|..]; intros ->; by apply Ho.
  - intros q r a Hq Hl Hn Ho. apply (C q r a Hq Hn); intros ->; by apply Ho.
Qed.

Section loops.
Context (base memSize ioAPIC localAPIC shared : Z).
Context (Hmem : 0 ≤ memSize ≤ 2 ^ 31).
Context (Hio : user_va ioAPIC) (Hlo : user_va localAPIC) (Hneq : ioAPIC ≠ localAPIC).
Implicit Types (s : phys) (fl : list Z) (own : gmap Z role).

Abbreviation inv := (vm_inv base memSize ioAPIC localAPIC shared).
Abbreviation run m Q s := (wpx m Q (exhausted base) s).

(** [copy_page] copies the words of the page it reads. *)
Lemma wpx_copy_page s fl own parent child va Pg P' (Q : () → phys → Prop) :
  inv s fl own → own !! Pg = Some (Page parent va) → own !! P' = Some (Page child va) →
  parent ≠ child →
  (∀ s', inv s' fl own → (∀ k, 0 ≤ k < 1024 → mem s' (P' + 4 * k) = mem s (Pg + 4 * k)) →
     (∀ a, ¬ in_frame P' a → mem s' a = mem s a) → Q () s') →
  run (copy_page parent P' va) Q s.
Proof.
  intros Hi HPg HP' Hne HQ. assert (Hpp : Pg ≠ P') by congruence.
  assert (Hfar : ∀ k, 0 ≤ k < 1024 → ¬ in_frame P' (Pg + 4 * k)).
  { intros k Hk Ha. eapply (own_apart _ _ _ _ _ s fl own Pg P'); [done..| |exact Ha].
    by apply in_frame_entry. }
  apply (wpx_for _ (λ n s', inv s' fl own ∧ (∀ a, ¬ in_frame P' a → mem s' a = mem s a) ∧
    ∀ k, 0 ≤ k < n → mem s' (P' + 4 * k) = mem s (Pg + 4 * k))).
  - split; [done|]. split; [done|]. intros k ?. lia.
  - intros n s' Hn (Hi' & Hm & Hc). change (0 + Z.of_nat 1024) with 1024 in Hn.
    apply wpx_bind. apply wp_wpx, wp_gets.
    rewrite (translate_page base memSize ioAPIC localAPIC shared s' fl own Pg parent va (4 * n)) by (done || lia).
    apply wpx_bind. eapply (wpx_read _ _ _ _ _ s' fl own Pg); [done|exact HPg|done|].
    eapply (wpx_write _ _ _ _ _ s' fl own P'); [done|exact HP'|done|].
    split_and!.
    + apply (vm_inv_write_plain _ _ _ _ _ Hmem s' fl own P' (Page child va)); [done|done|by intros []|].
      intros a Ha. apply upd_ne. intros ->. by apply Ha, in_frame_entry.
    + intros a Ha. simpl. rewrite upd_ne; [by apply Hm|]. intros ->. by apply Ha, in_frame_entry.
    + intros k Hk. simpl. destruct (decide (k = n)) as [->|].
      * rewrite upd_eq. by apply Hm, Hfar.
      * rewrite upd_ne by lia. apply Hc. lia.
  - intros s' (Hi' & Hm & Hc). apply HQ; [done| |done]. intros k Hk. apply Hc. lia.
Qed.

Lemma page_user s fl own P pd va : inv s fl own → own !! P = Some (Page pd va) → user_va va.
Proof. intros Hi HP. by destruct (vi_page _ _ _ _ _ _ _ _ Hi P pd va HP). Qed.

(** A page address below the next page's, and not this page's, is below
    this one. *)
Lemma page_step va va' :
  user_va va → user_va va' → va' ≠ va → (va' < va + 4096 → va' < va) ∧ (va ≤ va' → va + 4096 ≤ va').
Proof.
  intros [Hu _] [Hu' _]. pose proof (Z.div_mod va 4096 ltac:(lia)).
  pose proof (Z.div_mod va' 4096 ltac:(lia)). lia.
Qed.

(** ** fork *)

(** What the copy has done when it reaches [va]. *)
Record copied (parent child va : Z) s own s' own' : Prop := {
  co_touches : touches_only child s own s' own';
  co_pages : ∀ Pg va', own !! Pg = Some (Page parent va') → va' < va → ¬ device ioAPIC localAPIC va' →
    ∃ P', own' !! P' = Some (Page child va') ∧
          ∀ k, 0 ≤ k < 1024 → mem s' (P' + 4 * k) = mem s (Pg + 4 * k);
  co_only : ∀ P' va', own' !! P' = Some (Page child va') →
    (∃ Pg, own !! Pg = Some (Page parent va')) ∧ ¬ device ioAPIC localAPIC va';
  co_devices : ∀ va', device ioAPIC localAPIC va' → maps_device s own child va' → maps_device s' own' child va'
}.

Lemma device_user va : device ioAPIC localAPIC va → user_va va.
Proof. by intros [->| ->]. Qed.

(** One more page. *)
Lemma copied_step parent child va s0 own0 s fl own s1 own1 s2 Pg P' fl2 :
  parent ≠ child → user_va va → ¬ device ioAPIC localAPIC va → own0 !! child = Some Dir →
  inv s fl own → copied parent child va s0 own0 s own → own !! Pg = Some (Page parent va) →
  others_kept child va s own s1 own1 → inv s2 fl2 own1 → own1 !! P' = Some (Page child va) →
  (∀ k, 0 ≤ k < 1024 → mem s2 (P' + 4 * k) = mem s1 (Pg + 4 * k)) →
  (∀ a, ¬ in_frame P' a → mem s2 a = mem s1 a) →
  copied parent child (va + 4096) s0 own0 s2 own1.
Proof.
  intros Hne Hu Hdev Hch Hi [Ct Cp Co Cd] HPg Hk Hi2 HP' Hc Hm.
  assert (Hfar : ∀ q r a, own1 !! q = Some r → r ≠ Page child va → in_frame q a → mem s2 a = mem s1 a).
  { intros q r a Hq Hr Ha. apply Hm. intros Ha'.
    eapply (own_apart _ _ _ _ _ s2 fl2 own1 q P'); [done|exact Hq|exact HP'| |exact Ha|exact Ha'].
    congruence. }
  assert (Ht1 := others_touches _ _ _ _ _ _ Hk).
  assert (Ht2 : touches_only child s own s2 own1).
  { eapply touches_trans; [exact Ht1|]. split; try done.
    intros q r a Hq Hl Hn Ho Ha. eapply Hfar; [done| |done]. intros ->. by apply Ho. }
  assert (Hsrc : ∀ P va', own0 !! P = Some (Page parent va') →
    own !! P = Some (Page parent va') ∧
    ∀ k, 0 ≤ k < 1024 → mem s1 (P + 4 * k) = mem s0 (P + 4 * k)).
  { intros P va' HP. assert (Hno : ¬ owned_by child (Page parent va')) by (simpl; congruence).
    pose proof (to_keep _ _ _ _ _ Ct P (Page parent va') ltac:(done) Hno HP) as HP1. split; [done|].
    intros k Hkr. pose proof (in_frame_entry P k Hkr). assert (P ≠ child) by congruence.
    rewrite (to_mem _ _ _ _ _ Ht1 P (Page parent va')), (to_mem _ _ _ _ _ Ct P (Page parent va')); done. }
  split; [by eapply touches_trans|..].
  - intros Pg' va' HPg' Hlt Hd'. destruct (Hsrc Pg' va' HPg') as [HPg1 Hmem'].
    destruct (decide (va' = va)) as [->|Hva].
    + assert (Pg' = Pg) as -> by (eapply page_unique; [exact Hi|exact HPg1|exact HPg]).
      exists P'. split; [done|]. intros k Hk'. rewrite Hc by done. by apply Hmem'.
    + destruct (page_step va va' Hu (page_user _ _ _ _ _ _ Hi HPg1) Hva) as [Hstep _].
      destruct (Cp Pg' va' HPg') as (Q1 & HQ1 & Hc1); [by apply Hstep|done|].
      exists Q1. pose proof (ok_keep _ _ _ _ _ _ Hk Q1 (Page child va') ltac:(done) ltac:(congruence) HQ1).
      split; [done|]. intros k Hk'. pose proof (in_frame_entry Q1 k Hk').
      assert (Q1 ≠ child).
      { intros ->. pose proof (to_keep _ _ _ _ _ Ct child Dir ltac:(done) ltac:(by intros []) Hch). congruence. }
      rewrite (Hfar Q1 (Page child va')) by (done || congruence).
      rewrite (ok_contents _ _ _ _ _ _ Hk Q1 (Page child va')); [by apply Hc1|try done..]. all: try congruence.
  - intros Q1 va' HQ1. destruct (decide (va' = va)) as [->|Hva].
    + split; [|done]. exists Pg. apply (to_new _ _ _ _ _ Ct); [done|simpl; congruence|done].
    + apply (Co Q1). apply (ok_new _ _ _ _ _ _ Hk); [done|congruence|done|done].
  - intros va' Hd' Hmd. specialize (Cd va' Hd' Hmd).
    assert (Hmd1 : maps_device s1 own1 child va').
    { eapply maps_device_kept; [exact Hmem|exact Hk|by apply device_user| |exact Cd]. right. by intros ->. }
    destruct Hmd1 as (T & HT & E). exists T. split; [done|].
    destruct (va_of_pdi_pti va' (proj1 (device_user va' Hd'))) as [_ ?].
    rewrite (Hfar T (Table child (pdi va'))); [done|done|done|by apply in_frame_entry].
Qed.

Lemma wpx_fork_copy s fl own parent child (Q : () → phys → Prop) :
  inv s fl own → own !! parent = Some Dir → own !! child = Some Dir → parent ≠ child →
  (∀ P va, own !! P ≠ Some (Page child va)) →
  (∀ s' fl' own', inv s' fl' own' → copied parent child (2 ^ 32) s own s' own' → Q () s') →
  run (fork_copy ioAPIC localAPIC parent child) Q s.
Proof.
  intros Hi Hpar Hch Hne Hno HQ. unfold fork_copy.
  apply (wpx_user_pages base memSize ioAPIC localAPIC shared parent _
    (λ va s' fl' own', inv s' fl' own' ∧ copied parent child va s own s' own')) with (fl := fl) (own := own).
  - intros va s' fl' own' [Hi' Hc]. split; [done|].
    apply (to_keep _ _ _ _ _ (co_touches _ _ _ _ _ _ _ Hc)); [done|by intros []|done].
  - intros va s' fl' own' Hu [Hi' [Ct Cp Co Cd]] Habs. split; [done|]. split; try done.
    intros Pg va' HPg Hlt Hd. destruct (decide (va' = va)) as [->|Hva].
    + destruct Habs as [Habs|]; [|done]. destruct (Habs Pg).
      apply (to_keep _ _ _ _ _ Ct); [done|simpl; congruence|done].
    + apply (Cp Pg va' HPg); [|done]. by apply (page_step va va' Hu (page_user _ _ _ _ _ _ Hi HPg) Hva).
  - intros va s' fl' own' Pg Hu [Hi' Hc] HPg Hdev.
    assert (Hch' : own' !! child = Some Dir).
    { apply (to_keep _ _ _ _ _ (co_touches _ _ _ _ _ _ _ Hc)); [done|by intros []|done]. }
    apply wpx_bind. eapply wpx_mono.
    { eapply (wpx_alloc_map base memSize ioAPIC localAPIC shared Hmem Hio Hlo Hneq s' fl' own' child va
        (λ P _ s1, ∃ fl1 own1, inv s1 fl1 own1 ∧ own1 !! P = Some (Page child va) ∧
                   others_kept child va s' own' s1 own1)); [done|done|done|].
      intros P s1 fl1 own1 _ Hi1 HP Hk _. by exists fl1, own1. }
    intros P' s0 Hmap. apply wpx_bind. eapply wpx_mono; [exact Hmap|].
    intros [] s1 (fl1 & own1 & Hi1 & HP' & Hk).
    assert (HPg1 : own1 !! Pg = Some (Page parent va)).
    { apply (ok_keep _ _ _ _ _ _ Hk); [done|congruence|done]. }
    eapply wpx_copy_page; [exact Hi1|exact HPg1|exact HP'|done|].
    intros s2 Hi2 Hw Hm. exists fl1, own1. split.
    + split; [done|]. by eapply (copied_step parent child va s own s' fl' own' s1 own1 s2 Pg P' fl1).
    + intros T i HT. apply (ok_keep _ _ _ _ _ _ Hk); [done|done|done].
  - split; [done|]. split; [apply touches_refl| |by intros P va ?%Hno|done].
    intros Pg va HPg Hlt. destruct (vi_page _ _ _ _ _ _ _ _ Hi Pg parent va HPg) as [[_ ?] _]. lia.
  - intros s' fl' own' [Hi' Hc]. by eapply HQ.
Qed.

(** ** execl *)

(** What the clearing has done when it reaches [va]. *)
Record cleared (pd va : Z) s own s' own' : Prop := {
  cl_touches : touches_only pd s own s' own';
  cl_pages : ∀ P va', own' !! P = Some (Page pd va') → device ioAPIC localAPIC va' ∨ va ≤ va';
  cl_sub : ∀ q r, own' !! q = Some r → own !! q = Some r;
  cl_tables : ∀ T i, own !! T = Some (Table pd i) → own' !! T = Some (Table pd i);
  cl_devices : ∀ va', device ioAPIC localAPIC va' → maps_device s own pd va' → maps_device s' own' pd va'
}.

Lemma wpx_execl_clear s fl own pd (Q : () → phys → Prop) :
  inv s fl own → own !! pd = Some Dir →
  (∀ s' fl' own', inv s' fl' own' → cleared pd (2 ^ 32) s own s' own' → Q () s') →
  run (execl_clear ioAPIC localAPIC pd) Q s.
Proof.
  intros Hi Hpd HQ. unfold execl_clear.
  apply (wpx_user_pages base memSize ioAPIC localAPIC shared pd _
    (λ va s' fl' own', inv s' fl' own' ∧ cleared pd va s own s' own')) with (fl := fl) (own := own).
  - intros va s' fl' own' [Hi' Hc]. split; [done|].
    apply (to_keep _ _ _ _ _ (cl_touches _ _ _ _ _ _ Hc)); [done|by intros []|done].
  - intros va s' fl' own' Hu [Hi' [Ct Cp Cs Cta Cd]] Habs. split; [done|]. split; try done.
    intros P va' HP. destruct (Cp P va' HP) as [|Hle]; [by left|].
      destruct (decide (va' = va)) as [->|Hva].
      { destruct Habs as [Habs|]; [by destruct (Habs P)|by left]. }
      right. by apply (page_step va va' Hu (page_user _ _ _ _ _ _ Hi' HP) Hva).
  - intros va s' fl' own' Pg Hu [Hi' [Ct Cp Cs Cta Cd]] HPg Hdev.
    assert (Hpd' : own' !! pd = Some Dir).
    { apply (to_keep _ _ _ _ _ Ct); [done|by intros []|done]. }
    eapply wpx_unmap; [done..|]. intros s2 fl2 own2 Hi2 Hno Hk Hsub Hfr.
    exists fl2, own2. split; [split; [done|]|].
    + split.
      * eapply touches_trans; [exact Ct|]. by eapply others_touches.
      * intros P va' HP. destruct (Cp P va' (Hsub _ _ HP)) as [|Hle]; [by left|].
        destruct (decide (va' = va)) as [->|Hva]; [by destruct (Hno P)|]. right.
        by apply (page_step va va' Hu (page_user _ _ _ _ _ _ Hi2 HP) Hva).
      * auto.
      * intros T i HT. apply (ok_keep _ _ _ _ _ _ Hk); [done|done|by apply Cta].
      * intros va' Hd' Hmd. eapply maps_device_kept; [exact Hmem|exact Hk|by apply device_user| |by apply Cd].
        right. by intros ->.
    + intros T i HT. apply (ok_keep _ _ _ _ _ _ Hk); done.
  - split; [done|]. split; [apply touches_refl| |done|done|done].
    intros P va HP. right. destruct (vi_page _ _ _ _ _ _ _ _ Hi P pd va HP) as [[_ ?] _]. lia.
  - intros s' fl' own' [Hi' Hc]. by eapply HQ.
Qed.
End loops.
