(* ===== verification/VmmBoot.v ===== *)
(** * The address space of the kernel after boot

    [VMM::global_init] fills the directory [shared] with the identity map of
    physical memory.  Its loop is shown to establish the invariant of
    [VmmInv], with every frame in use belonging to the kernel. *)

From S2P Require Import Prelude.
From S2P Require Import PhysMem.
From S2P Require Import Vmm.
From S2P Require Import VmmInv.
From S2P Require Import VmmOps.

Section boot.
Context (base memSize ioAPIC localAPIC : Z).
Context (Hmem : 0 < memSize ≤ 2 ^ 31) (Hal : memSize mod 4096 = 0).
Implicit Types (s : phys) (fl : list Z) (used : gset Z).

Abbreviation run m Q s := (wpx m Q (exhausted base) s).

(** Entry [i] of the directory names the table [K]. *)
Definition table_at shared s used (i K : Z) : Prop :=
  K ∈ used ∧ K ≠ shared ∧ mem s (shared + 4 * i) = K + 7.

(** The pages below [va] are mapped, by distinct tables in the directory
    entries up to [top]. *)
Record mapped_below (shared : Z) s fl used (va top : Z) : Prop := {
  mb_frames : frames_inv base s fl used;
  mb_shared : shared ∈ used;
  mb_dir : ∀ i, 0 ≤ i < 1024 → mem s (shared + 4 * i) = 0 ∨ ∃ K, table_at shared s used i K;
  mb_distinct : ∀ i j K, 0 ≤ i < 1024 → 0 ≤ j < 1024 →
    table_at shared s used i K → table_at shared s used j K → i = j;
  mb_pages : ∀ va', va' mod 4096 = 0 → 4096 ≤ va' < va →
    ∃ K, table_at shared s used (pdi va') K ∧ mem s (K + 4 * pti va') = va' + 7;
  mb_above : ∀ i, 0 ≤ i < 1024 → top < i → mem s (shared + 4 * i) = 0
}.

Lemma used_bounds s fl used p :
  frames_inv base s fl used → p ∈ used → p mod 4096 = 0 ∧ 4096 ≤ p ∧ p + 4096 ≤ limit s ∧ limit s < 2 ^ 32.
Proof.
  intros Hf Hp. assert (Hfr : frame base (avail s) p) by (apply (fi_frames _ _ _ _ Hf); by right).
  pose proof (fi_frame_bounds _ _ _ _ _ Hf Hfr). pose proof (fi_limit _ _ _ _ Hf).
  destruct Hfr. lia.
Qed.

Lemma used_apart s fl used p q a :
  frames_inv base s fl used → p ∈ used → q ∈ used → p ≠ q → in_frame p a → ¬ in_frame q a.
Proof.
  intros Hf Hp Hq. apply (frame_apart base (avail s)); apply (fi_frames _ _ _ _ Hf); by right.
Qed.

Lemma used_entry_ne s fl used p q i j :
  frames_inv base s fl used → p ∈ used → q ∈ used → p ≠ q → 0 ≤ i < 1024 → 0 ≤ j < 1024 →
  p + 4 * i ≠ q + 4 * j.
Proof.
  intros Hf Hp Hq Hne Hi Hj E.
  apply (used_apart s fl used p q (p + 4 * i) Hf Hp Hq Hne); [by apply in_frame_entry|].
  rewrite E. by apply in_frame_entry.
Qed.

Lemma write_used s fl used p i v (Q : () → phys → Prop) :
  frames_inv base s fl used → p ∈ used → 0 ≤ i < 1024 →
  (frames_inv base (with_mem (upd (mem s) (p + 4 * i) v) s) fl used →
   Q () (with_mem (upd (mem s) (p + 4 * i) v) s)) →
  run (write_entry p i v) Q s.
Proof.
  intros Hf Hp Hi HQ. pose proof (used_bounds _ _ _ _ Hf Hp). apply wp_wpx.
  unfold write_entry, store. repeat wp_step. apply wp_require; [rewrite FRAME_SIZE_eq; lia|].
  apply wp_modify, HQ. eapply fi_write; [exact Hf|exact Hp|].
  intros a Ha. apply upd_ne. intros ->. by apply Ha, in_frame_entry.
Qed.

Lemma pdi_low va : 0 ≤ va < 2 ^ 31 → 0 ≤ pdi va < 1024.
Proof. intros Hva. rewrite pdi_eq. split; [apply Z.div_pos; lia|apply Z.div_lt_upper_bound; lia]. Qed.

(** Writing the page's own entry. *)
Lemma mapped_page shared s fl used va top K :
  mapped_below shared s fl used va top → va mod 4096 = 0 → 4096 ≤ va < memSize →
  table_at shared s used (pdi va) K →
  frames_inv base (with_mem (upd (mem s) (K + 4 * pti va) (va + 7)) s) fl used →
  mapped_below shared (with_mem (upd (mem s) (K + 4 * pti va) (va + 7)) s) fl used (va + 4096) top.
Proof.
  intros [Hf Hsh Hd Hdi Hp Ha] Hva Hr (HK & HKs & E) Hf'.
  destruct (va_of_pdi_pti va Hva) as [Eva Hpti].
  assert (Hkeep : ∀ i, 0 ≤ i < 1024 →
    upd (mem s) (K + 4 * pti va) (va + 7) (shared + 4 * i) = mem s (shared + 4 * i)).
  { intros i Hi. apply upd_ne. intros E'.
    by apply (used_entry_ne s fl used K shared (pti va) i Hf HK Hsh HKs Hpti Hi). }
  assert (Htab : ∀ i K', 0 ≤ i < 1024 →
    table_at shared (with_mem (upd (mem s) (K + 4 * pti va) (va + 7)) s) used i K' ↔ table_at shared s used i K').
  { intros i K' Hi. unfold table_at. simpl. by rewrite Hkeep. }
  split; [done|done|..].
  - intros i Hi. simpl. rewrite Hkeep by done. destruct (Hd i Hi) as [?|(K' & HK')]; [by left|right].
    exists K'. by apply Htab.
  - intros i j K' Hi Hj. rewrite !Htab by done. by apply Hdi.
  - intros va' Hva' Hr'. destruct (va_of_pdi_pti va' Hva') as [Eva' Hpti'].
    pose proof (Z.div_mod va 4096 ltac:(lia)). pose proof (Z.div_mod va' 4096 ltac:(lia)).
    pose proof (pdi_low va' ltac:(lia)). pose proof (pdi_low va ltac:(lia)).
    destruct (decide (va' = va)) as [->|Hne].
    + exists K. split; [by apply Htab|apply upd_eq].
    + destruct (Hp va' Hva') as (K' & HK' & E'); [lia|].
      exists K'. split; [by apply Htab|]. simpl. rewrite upd_ne; [done|]. intros Eq.
      destruct (decide (K' = K)) as [->|HKK].
      * assert (pdi va' = pdi va) by (by apply (Hdi _ _ K)).
        assert (pti va' = pti va) by lia. congruence.
      * by apply (used_entry_ne s fl used K' K (pti va') (pti va) Hf (proj1 HK') HK HKK Hpti' Hpti).
  - intros i Hi Ht. simpl. rewrite Hkeep by done. by apply Ha.
Qed.

(** A fresh, zeroed table for an absent directory entry. *)
Lemma mapped_table shared s fl used va K s1 fl1 top :
  mapped_below shared s fl used va top → 0 ≤ va < memSize → top ≤ pdi va →
  mem s (shared + 4 * pdi va) = 0 → K ∉ used →
  same_outside (in_frame K) s s1 → frames_inv base s1 fl1 ({[K]} ∪ used) →
  let s2 := with_mem (upd (mem s1) (shared + 4 * pdi va) (K + 7)) s1 in
  frames_inv base s2 fl1 ({[K]} ∪ used) →
  mapped_below shared s2 fl1 ({[K]} ∪ used) va (pdi va) ∧ table_at shared s2 ({[K]} ∪ used) (pdi va) K.
Proof.
  intros [Hf Hsh Hd Hdi Hp Ha] Hr Htop Hz HK [_ Hs] Hf1 s2 Hf2.
  pose proof (pdi_low va ltac:(lia)) as Hpdi.
  assert (HKs : K ≠ shared) by (intros ->; done).
  assert (Hout : ∀ p i, p ∈ used → 0 ≤ i < 1024 → mem s1 (p + 4 * i) = mem s (p + 4 * i)).
  { intros p i Hpu Hi. apply Hs. apply (used_apart s1 fl1 ({[K]} ∪ used) p K); [done|set_solver|set_solver| |by apply in_frame_entry].
    by intros ->. }
  assert (Hat : mem s2 (shared + 4 * pdi va) = K + 7) by apply upd_eq.
  assert (Hne : ∀ i, 0 ≤ i < 1024 → i ≠ pdi va → mem s2 (shared + 4 * i) = mem s (shared + 4 * i)).
  { intros i Hi Hne. simpl. rewrite upd_ne by lia. by apply Hout. }
  assert (Htab : ∀ i K', 0 ≤ i < 1024 → i ≠ pdi va → table_at shared s used i K' → table_at shared s2 ({[K]} ∪ used) i K').
  { intros i K' Hi Hn (? & ? & E). split; [set_solver|]. split; [done|]. by rewrite Hne. }
  assert (Hinv : ∀ i K', 0 ≤ i < 1024 → i ≠ pdi va → table_at shared s2 ({[K]} ∪ used) i K' → table_at shared s used i K').
  { intros i K' Hi Hn (HK' & HKs' & E). rewrite Hne in E by done.
    destruct (Hd i Hi) as [E0|(K2 & HK2 & HKs2 & E2)].
    - assert (HKu : K' ∈ {[K]} ∪ used) by done. pose proof (used_bounds _ _ _ _ Hf1 HKu). lia.
    - replace K' with K2 by lia. done. }
  split; [|by split; [set_solver|]]. split; [done|set_solver|..].
  - intros i Hi. destruct (decide (i = pdi va)) as [->|Hn].
    + right. exists K. by split; [set_solver|].
    + rewrite Hne by done. destruct (Hd i Hi) as [?|(K' & HK')]; [by left|right]. exists K'. by apply Htab.
  - intros i j K' Hi Hj Hti Htj.
    destruct (decide (i = pdi va)) as [->|Hni], (decide (j = pdi va)) as [->|Hnj]; [done|..].
    + apply Hinv in Htj; [|done..]. destruct Hti as (_ & _ & E). destruct Htj as (Hu & _). rewrite Hat in E.
      assert (K = K') by lia. congruence.
    + apply Hinv in Hti; [|done..]. destruct Htj as (_ & _ & E). destruct Hti as (Hu & _). rewrite Hat in E.
      assert (K = K') by lia. congruence.
    + apply (Hdi i j K'); auto.
  - intros va' Hva' Hr'. destruct (Hp va' Hva' Hr') as (K' & HK' & E').
    pose proof (pdi_low va' ltac:(lia)) as Hpdi'. destruct (va_of_pdi_pti va' Hva') as [_ Hpti'].
    assert (Hn : pdi va' ≠ pdi va).
    { intros En. rewrite <-En in Hz. destruct HK' as (HKu & _ & E). pose proof (used_bounds _ _ _ _ Hf HKu). lia. }
    exists K'. split; [by apply Htab|]. simpl. rewrite upd_ne; [by rewrite Hout by (done || apply HK')|].
    apply (used_entry_ne s fl used K' shared (pti va') (pdi va) Hf (proj1 HK') Hsh); [apply HK'|done|done].
  - intros i Hi Ht. rewrite Hne by lia. apply Ha; [done|lia].
Qed.

Lemma mapped_weaken shared s fl used va top top' :
  mapped_below shared s fl used va top → top ≤ top' → mapped_below shared s fl used va top'.
Proof. intros [? ? ? ? ? Ha] Hle. split; try done. intros i Hi Ht. apply Ha; [done|lia]. Qed.

Lemma wpx_alloc_used s fl used (Q : Z → phys → Prop) :
  frames_inv base s fl used →
  (∀ p s' fl', p ∉ used → frames_inv base s' fl' ({[p]} ∪ used) →
     (∀ a, in_frame p a → mem s' a = 0) → same_outside (in_frame p) s s' → Q p s') →
  run alloc_frame Q s.
Proof.
  intros Hf HQ. destruct (decide (0 < free_count s fl)) as [Hc|Hc].
  - apply wp_wpx. eapply wp_alloc_frame; [done|done|].
    intros p s' (Hp & _ & Hs & Hz & fl' & Hf' & _). by apply (HQ p s' fl').
  - destruct (alloc_frame_exhausted _ _ _ _ Hf Hc) as [H0 E]. unfold wpx. rewrite E. by exists fl, used.
Qed.

(** One round of the loop. *)
Lemma wpx_map_shared shared s fl used va top (Q : () → phys → Prop) :
  mapped_below shared s fl used va top → va mod 4096 = 0 → 4096 ≤ va < memSize → top ≤ pdi va →
  (∀ s' fl' used', mapped_below shared s' fl' used' (va + 4096) (pdi va) → Q () s') →
  run (map shared va va) Q s.
Proof.
  intros Hm Hva Hr Htop HQ. pose proof Hm as [Hf Hsh Hd Hdi Hp Ha].
  pose proof (pdi_low va ltac:(lia)) as Hpdi. destruct (va_of_pdi_pti va Hva) as [Eva Hpti].
  pose proof (used_bounds _ _ _ _ Hf Hsh) as Hb.
  destruct (entry_bits va Hva) as (Eva7 & _); [lia|lia|].
  assert (Hlast : ∀ s1 fl1 used1 K, mapped_below shared s1 fl1 used1 va (pdi va) →
    table_at shared s1 used1 (pdi va) K → run (write_entry (frame_of (K + 7)) (pti va) (Z.lor va 7)) Q s1).
  { intros s1 fl1 used1 K Hm1 HK. pose proof (used_bounds _ _ _ _ (mb_frames _ _ _ _ _ _ Hm1) (proj1 HK)).
    destruct (entry_bits K) as (_ & -> & _); [lia..|]. rewrite Eva7.
    eapply write_used; [apply Hm1|apply HK|done|]. intros Hf'. eapply HQ.
    by apply mapped_page. }
  unfold map. apply wpx_bind. apply wp_wpx. unfold read_entry, load. repeat wp_step.
  apply wp_require; [rewrite FRAME_SIZE_eq; lia|]. apply wp_gets.
  apply wpx_bind. destruct (Hd (pdi va) Hpdi) as [E|(K & HK)].
  - rewrite E, decide_True by done. apply wpx_bind. eapply wpx_alloc_used; [exact Hf|].
    intros K s1 fl1 HKu Hf1 Hz Hs. apply wpx_bind.
    assert (HKin : K ∈ {[K]} ∪ used) by set_solver.
    pose proof (used_bounds _ _ _ _ Hf1 HKin). destruct (entry_bits K) as (-> & _); [lia..|].
    eapply write_used; [exact Hf1|set_solver|done|]. intros Hf2. apply wpx_ret.
    destruct (mapped_table shared s fl used va K s1 fl1 top) as [Hm2 HK2]; [done|lia|done..|].
    by eapply Hlast.
  - destruct HK as (HKu & HKs & E). rewrite E. pose proof (used_bounds _ _ _ _ Hf HKu).
    destruct (entry_bits K) as (_ & _ & EK & _); [lia..|]. rewrite EK, decide_False by done.
    apply wpx_ret. eapply Hlast; [by eapply mapped_weaken|done].
Qed.

Lemma pdi_mono va va' : va ≤ va' → pdi va ≤ pdi va'.
Proof. intros. rewrite !pdi_eq. apply Z.div_le_mono; lia. Qed.

(** Everything mapped is the invariant of an address space of the kernel
    alone. *)
Lemma mapped_all shared s fl used va top :
  mapped_below shared s fl used va top → memSize ≤ va → top ≤ pdi (memSize - 1) →
  vm_inv base memSize ioAPIC localAPIC shared s fl (gset_to_gmap Kernel used).
Proof.
  intros [Hf Hsh Hd Hdi Hp Ha] Hva Htop.
  assert (HK : ∀ q r, gset_to_gmap Kernel used !! q = Some r → r = Kernel).
  { intros q r Hq. by apply lookup_gset_to_gmap_Some in Hq as [_ <-]. }
  split; [by rewrite dom_gset_to_gmap|try by intros; match goal with H : _ |- _ => by apply HK in H end..].
  split; [by apply lookup_gset_to_gmap_Some|]. split.
  - intros va' Hva' Hr. destruct (Hp va' Hva') as (K & (HKu & _ & E) & E'); [lia|].
    exists K. split; [by apply lookup_gset_to_gmap_Some|done].
  - intros i Hi. apply Ha; [pose proof (shared_entries_nonneg memSize); lia|].
    assert (Hs : shared_entries memSize = (memSize - 1) / 2 ^ 22 + 1).
    { unfold shared_entries. cbv zeta. rewrite (u32_small (memSize + _)), u32_small by lia.
      change (4 * 1024 * 1024) with (2 ^ 22). replace (memSize + 2 ^ 22 - 1) with (memSize - 1 + 1 * 2 ^ 22) by lia.
      by rewrite Z.div_add by lia. }
    rewrite pdi_eq in Htop. lia.
Qed.

(** ** The loop *)

Lemma wpx_global_init s fl (Q : Z → phys → Prop) :
  frames_inv base s fl ∅ →
  (∀ shared s' fl' own', vm_inv base memSize ioAPIC localAPIC shared s' fl' own' →
     (∀ q r, own' !! q = Some r → r = Kernel) → Q shared s') →
  run (global_init memSize) Q s.
Proof.
  intros Hf HQ. unfold global_init. apply wpx_bind. eapply wpx_alloc_used; [exact Hf|].
  intros shared s1 fl1 _ Hf1 Hz Hs. apply wpx_bind.
  apply (wpx_iter _ (λ va s', va mod 4096 = 0 ∧ 4096 ≤ va ∧ (va ≤ memSize ∨ va = 4096) ∧ ∃ fl' used' top,
    mapped_below shared s' fl' used' va top ∧ top ≤ pdi va ∧ top ≤ pdi (memSize - 1))
    (λ va _, Z.to_nat ((memSize + 4095 - va) / 4096))).
  - intros va s' (Hva & Hlo & Hhi & fl' & used' & top & Hm & Ht1 & Ht2). destruct (decide (va < memSize)) as [Hlt|Hge].
    + apply wpx_bind. eapply wpx_map_shared; [exact Hm|done|lia|done|].
      intros s2 fl2 used2 Hm2. apply wpx_ret. rewrite FRAME_SIZE_eq, u32_small by lia.
      pose proof (Z.div_mod va 4096 ltac:(lia)). pose proof (Z.div_mod memSize 4096 ltac:(lia)).
      split.
      * split; [by rewrite <-Z.add_mod_idemp_r, Z.add_0_r by lia|]. split; [lia|]. split; [left; lia|].
        exists fl2, used2, (pdi va). split; [done|]. split; apply pdi_mono; lia.
      * replace (memSize + 4095 - va) with (memSize + 4095 - (va + 4096) + 1 * 4096) by lia.
        rewrite Z.div_add by lia. pose proof (Z.div_pos (memSize + 4095 - (va + 4096)) 4096). lia.
    + apply wpx_ret. apply wpx_ret. eapply HQ; [by eapply mapped_all; [exact Hm|lia|]|].
      intros q r Hq. by apply lookup_gset_to_gmap_Some in Hq as [_ <-].
  - rewrite FRAME_SIZE_eq. split; [done|]. split; [lia|]. split; [by right|].
    exists fl1, ({[shared]} ∪ ∅), 0. split; [|rewrite !pdi_eq; split; [done|apply Z.div_pos; lia]].
    assert (Hzero : ∀ i, 0 ≤ i < 1024 → mem s1 (shared + 4 * i) = 0) by (intros; by apply Hz, in_frame_entry).
    split; [done|set_solver|by left; apply Hzero| |lia|by intros; apply Hzero].
    intros i j K Hi Hj (HK & HKs & _). set_solver.
  - rewrite FRAME_SIZE_eq. pose proof (Z.div_le_mono (memSize + 4095 - 4096) memSize 4096). lia.
Qed.
End boot.
