(* ===== verification/VmmProps.v ===== *)
(** * What address spaces promise to processes

    Seen from the processes, the kernel gives each of them a private memory
    that is zero at first, is copied by [fork] and cleared by [execl].  This
    is stated as an abstract machine and proved to be what the page tables
    implement. *)

From S2P Require Import Prelude.
From S2P Require Import PhysMem.
From S2P Require Import Vmm.
From S2P Require Import VmmInv.
From S2P Require Import VmmOps.
From S2P Require Import VmmLoops.
From S2P Require Import VmmBoot.

(** ** The calls that act on address spaces *)

Inductive vm_call :=
| NewSpace                       (** a process from nothing *)
| StoreWord (k : nat) (va v : Z) (** user code of process [k] writes a word *)
| LoadWord (k : nat) (va : Z)
| Fork (k : nat)
| Exec (k : nat)
| Exit (k : nat).

(** A user access: on a fault the handler runs and the processor retries. *)
Definition user_access (pd va : Z) : M phys Z :=
  m ← gets mem;
  match translate m pd va with
  | Some a => mret a
  | None =>
      vmm_pageFault pd pd pd va;;
      m ← gets mem;
      match translate m pd va with Some a => mret a | None => fault end
  end.

Section calls.
Context (memSize ioAPIC localAPIC shared : Z).

(** The live directories, newest first, and what was loaded. *)
Definition do_call (live : list Z) (c : vm_call) : M phys (list Z * list Z) :=
  match c with
  | NewSpace => pd ← make_pd memSize ioAPIC localAPIC shared; mret (pd :: live, [])
  | StoreWord k va v =>
      match live !! k with
      | Some pd => a ← user_access pd va; store a v;; mret (live, [])
      | None => mret (live, [])
      end
  | LoadWord k va =>
      match live !! k with
      | Some pd => a ← user_access pd va; w ← load a; mret (live, [w])
      | None => mret (live, [])
      end
  | Fork k =>
      match live !! k with
      | Some pd =>
          child ← make_pd memSize ioAPIC localAPIC shared;
          fork_copy ioAPIC localAPIC pd child;;
          mret (child :: live, [])
      | None => mret (live, [])
      end
  | Exec k =>
      match live !! k with
      | Some pd => execl_clear ioAPIC localAPIC pd;; mret (live, [])
      | None => mret (live, [])
      end
  | Exit k =>
      match live !! k with
      | Some pd => delete_pd pd;; mret (delete k live, [])
      | None => mret (live, [])
      end
  end.

Fixpoint do_calls (live : list Z) (cs : list vm_call) : M phys (list Z * list Z) :=
  match cs with
  | [] => mret (live, [])
  | c :: cs =>
      r ← do_call live c;
      r' ← do_calls r.1 cs;
      mret (r'.1, r.2 ++ r'.2)
  end.
End calls.

(** From the frame allocator's initialisation on. *)
Definition boot_calls (start memSize ioAPIC localAPIC : Z) (cs : list vm_call) : M phys (Z * (list Z * list Z)) :=
  init start (memSize - start);;
  shared ← global_init memSize;
  r ← do_calls memSize ioAPIC localAPIC shared [] cs;
  mret (shared, r).

(** ** The abstract machine *)

Abbreviation space := (Z → Z).

Definition spec_call (sp : list space) (c : vm_call) : list space * list Z :=
  match c with
  | NewSpace => ((λ _, 0) :: sp, [])
  | StoreWord k va v => (alter (λ f, upd f va v) k sp, [])
  | LoadWord k va => (sp, match sp !! k with Some f => [f va] | None => [] end)
  | Fork k => (match sp !! k with Some f => f :: sp | None => sp end, [])
  | Exec k => (alter (λ _ _, 0) k sp, [])
  | Exit k => (delete k sp, [])
  end.

Fixpoint spec_calls (sp : list space) (cs : list vm_call) : list space * list Z :=
  match cs with
  | [] => (sp, [])
  | c :: cs =>
      let r := spec_call sp c in
      let r' := spec_calls r.1 cs in
      (r'.1, r.2 ++ r'.2)
  end.

(** User words outside the pages of the interrupt controllers. *)
Definition user_word (ioAPIC localAPIC va : Z) : Prop :=
  va mod 4 = 0 ∧ 2 ^ 31 ≤ va < 2 ^ 32 ∧ ¬ device ioAPIC localAPIC (framedown va).

Definition call_ok (ioAPIC localAPIC : Z) (c : vm_call) : Prop :=
  match c with
  | StoreWord _ va _ | LoadWord _ va => user_word ioAPIC localAPIC va
  | _ => True
  end.

(** ** Simulation *)

Section sim.
Context (base memSize ioAPIC localAPIC shared : Z).
Context (Hmem : 0 ≤ memSize ≤ 2 ^ 31).
Context (Hio : user_va ioAPIC) (Hlo : user_va localAPIC) (Hneq : ioAPIC ≠ localAPIC).
Implicit Types (s : phys) (fl : list Z) (own : gmap Z role) (f : space).

Abbreviation inv := (vm_inv base memSize ioAPIC localAPIC shared).
Abbreviation run m Q s := (wpx m Q (exhausted base) s).
Abbreviation dev := (device ioAPIC localAPIC).

(** The pages of [pd] hold [f]; [f] is zero where there is no page. *)
Definition holds_space s own pd f : Prop :=
  own !! pd = Some Dir ∧ maps_device s own pd ioAPIC ∧ maps_device s own pd localAPIC ∧
  ∀ va k, user_va va → ¬ dev va → 0 ≤ k < 1024 →
    (∀ P, own !! P = Some (Page pd va) → mem s (P + 4 * k) = f (va + 4 * k)) ∧
    ((∀ P, own !! P ≠ Some (Page pd va)) → f (va + 4 * k) = 0).

(** A run leaves the address space [pd] alone. *)
Definition same_space pd s own s' own' : Prop :=
  own' !! pd = Some Dir ∧
  (∀ q r, owned_by pd r → own !! q = Some r ↔ own' !! q = Some r) ∧
  (∀ q r a, own !! q = Some r → owned_by pd r → in_frame q a → mem s' a = mem s a).

Lemma same_space_holds pd s own s' own' f :
  same_space pd s own s' own' → holds_space s own pd f → holds_space s' own' pd f.
Proof.
  intros (Hd & Ho & Hm) (_ & H1 & H2 & Hp).
  assert (Hdev : ∀ va, user_va va → maps_device s own pd va → maps_device s' own' pd va).
  { intros va Hva (T & HT & E). exists T. split; [by apply Ho|].
    destruct (va_of_pdi_pti va (proj1 Hva)) as [_ ?].
    rewrite (Hm T (Table pd (pdi va))); [done|done|done|by apply in_frame_entry]. }
  split; [done|]. split; [by apply Hdev|]. split; [by apply Hdev|].
  intros va k Hva Hn Hk. destruct (Hp va k Hva Hn Hk) as [Hp1 Hp2]. split.
  - intros P HP. apply Ho in HP; [|done]. rewrite (Hm P (Page pd va)); [by apply Hp1|done|done|by apply in_frame_entry].
  - intros Hno. apply Hp2. intros P HP. apply (Hno P). by apply Ho.
Qed.

Lemma touches_same pd pd' s fl own s' own' :
  inv s fl own → own !! pd = Some Dir → own !! pd' = Some Dir → pd' ≠ pd →
  touches_only pd s own s' own' → same_space pd' s own s' own'.
Proof.
  intros Hi Hpd Hpd' Hne [K N Mm]. split; [by apply K; [|intros []|]|].
  assert (Hno : ∀ r, owned_by pd' r → r ≠ Lost ∧ ¬ owned_by pd r).
  { intros []; simpl; try done; intros ->; split; congruence. }
  split.
  - intros q r Hr. destruct (Hno r Hr). split; [by apply K|by apply N].
  - intros q r a Hq Hr Ha. destruct (Hno r Hr). apply (Mm q r a); try done. intros ->.
    assert (r = Dir) as -> by congruence. done.
Qed.

Lemma adds_same pd pd' s own s' own' :
  own !! pd = Some Dir → only_adds s own s' own' → pd ≠ pd' →
  (∀ q r, own' !! q = Some r → own !! q = Some r ∨ (q = pd' ∧ r = Dir) ∨ ∃ i, r = Table pd' i) →
  same_space pd s own s' own'.
Proof.
  intros Hpd [Hk Hm] Hne Hnew. split; [by apply Hk|]. split.
  - intros q r Hr. split; [apply Hk|]. intros Hq.
    destruct (Hnew q r Hq) as [?|[[_ ->]|[i ->]]]; [done|done|]. by destruct Hne.
  - intros q r a Hq _. by apply (Hm q r).
Qed.

Lemma deleted_same pd pd' s own s' own' :
  own !! pd = Some Dir → pd ≠ pd' → deleted pd' own own' →
  (∀ q r a, own !! q = Some r → ¬ belongs pd' q r → in_frame q a → mem s' a = mem s a) →
  same_space pd s own s' own'.
Proof.
  intros Hpd Hne [_ _ _ Hk Hn] Hm.
  assert (Hno : ∀ q r, owned_by pd r → r ≠ Lost ∧ ¬ belongs pd' q r).
  { intros q []; simpl; try done; intros ->; split; congruence. }
  split; [by apply Hk|]. split.
  - intros q r Hr. destruct (Hno q r Hr). split; [by intros; apply Hk|]. intros Hq. by destruct (Hn q r Hq).
  - intros q r a Hq Hr. by apply (Hm q r a Hq), Hno.
Qed.

(** All live spaces. *)
Definition sim s (live : list Z) (sp : list space) : Prop :=
  NoDup live ∧ ∃ fl own, inv s fl own ∧ Forall2 (holds_space s own) live sp.

(** The spaces other than the [k]-th are left alone, the [k]-th becomes [f]. *)
Lemma sim_alter s own s' fl' own' live sp k pd (g : space → space) :
  NoDup live → Forall2 (holds_space s own) live sp → live !! k = Some pd → inv s' fl' own' →
  (∀ pd', pd' ∈ live → pd' ≠ pd → same_space pd' s own s' own') →
  (∀ f, holds_space s own pd f → holds_space s' own' pd (g f)) →
  sim s' live (alter g k sp).
Proof.
  intros Hnd Hsp Hk Hi' Ho Hg. split; [done|]. exists fl', own'. split; [done|].
  apply Forall2_lookup. intros j. pose proof (proj1 (Forall2_lookup _ _ _) Hsp j) as Hj.
  destruct (decide (j = k)) as [->|Hne].
  - rewrite list_lookup_alter_eq, Hk in *. inversion Hj; subst. simpl. constructor. by apply Hg.
  - rewrite list_lookup_alter_ne by done. inversion Hj as [pd' f' Hh E1 E2|]; subst; constructor.
    eapply same_space_holds; [|done]. apply Ho; [by eapply list_elem_of_lookup_2|].
    intros ->. apply Hne. by eapply NoDup_lookup.
Qed.
(** *** User accesses *)

Lemma word_page va :
  user_word ioAPIC localAPIC va →
  ∃ pg k, va = pg + 4 * k ∧ 0 ≤ k < 1024 ∧ user_va pg ∧ ¬ dev pg ∧ framedown va = pg.
Proof.
  intros (H4 & Hr & Hd). destruct (framedown_user va Hr) as [Hu E].
  exists (framedown va), (va mod 4096 / 4). rewrite E in *.
  pose proof (Z.div_mod va 4096 ltac:(lia)). pose proof (Z.mod_pos_bound va 4096 ltac:(lia)).
  assert (E4 : (va mod 4096) mod 4 = 0).
  { replace (va mod 4096) with (va + - (va / 4096 * 1024) * 4) by lia. by rewrite Z.mod_add. }
  pose proof (Z.div_mod (va mod 4096) 4 ltac:(lia)). split_and!; try done; lia.
Qed.

(** The page is there after an access; it was not touched if it was there
    before, and is zero otherwise. *)
Lemma wpx_user_access s fl own pd f pg k (Q : Z → phys → Prop) :
  inv s fl own → holds_space s own pd f → user_va pg → ¬ dev pg → 0 ≤ k < 1024 →
  framedown (pg + 4 * k) = pg →
  (∀ P s' fl' own', inv s' fl' own' → own' !! P = Some (Page pd pg) → holds_space s' own' pd f →
     touches_only pd s own s' own' → Q (P + 4 * k) s') →
  run (user_access pd (pg + 4 * k)) Q s.
Proof.
  intros Hi Hh Hu Hd Hk Hf HQ. pose proof Hh as (Hpd & Hd1 & Hd2 & Hp). unfold user_access. apply wpx_bind, wp_wpx, wp_gets.
  destruct (translate (mem s) pd (pg + 4 * k)) as [a|] eqn:E.
  - apply wpx_ret.
    destruct (translate_inv _ _ _ _ _ s fl own pd pg (4 * k) a Hi Hpd Hu ltac:(lia) E) as [(P & HP & ->)|[? _]]; [|done].
    eapply HQ; [exact Hi|exact HP|done|apply touches_refl].
  - assert (Hno : ∀ P, own !! P ≠ Some (Page pd pg)).
    { intros P HP. rewrite (translate_page _ _ _ _ _ s fl own P pd pg (4 * k) Hi HP) in E by lia. done. }
    apply wpx_bind. eapply (wpx_pageFault _ _ _ _ _ Hmem Hio Hlo Hneq); [exact Hi|exact Hpd|destruct Hu; pose proof (Z.div_mod pg 4096 ltac:(lia)); lia|].
    rewrite Hf. intros P s' fl' own' HPn Hi' HP Hok Hz. apply wpx_bind, wp_wpx, wp_gets.
    rewrite (translate_page _ _ _ _ _ s' fl' own' P pd pg (4 * k) Hi' HP) by lia. apply wpx_ret.
    eapply HQ; [exact Hi'|exact HP| |by eapply others_touches].
    split; [by apply (ok_keep _ _ _ _ _ _ Hok)|].
    split; [by eapply maps_device_kept; [exact Hmem|exact Hok|done|right; intros ->; apply Hd; by left|]|].
    split; [by eapply maps_device_kept; [exact Hmem|exact Hok|done|right; intros ->; apply Hd; by right|]|].
    intros va j Hva Hn Hj. destruct (Hp va j Hva Hn Hj) as [Hp1 Hp2].
    destruct (decide (va = pg)) as [->|Hne].
    + rewrite Hp2 by done. split; [|done]. intros P' HP'.
      rewrite (page_unique _ _ _ _ _ _ _ _ _ _ _ _ Hi' HP' HP). by apply Hz, in_frame_entry.
    + split.
      * intros P' HP'. assert (HP0 : own !! P' = Some (Page pd va)) by (apply (ok_new _ _ _ _ _ _ Hok); [done|congruence|done|done]).
        rewrite (ok_contents _ _ _ _ _ _ Hok P' (Page pd va)); [by apply Hp1|done|congruence|done|congruence|by apply in_frame_entry].
      * intros Hno'. apply Hp2. intros P' HP'. apply (Hno' P'). apply (ok_keep _ _ _ _ _ _ Hok); [done|congruence|done].
Qed.

(** Writing a word of a page of [pd]. *)
Lemma holds_store s fl own pd f P pg k v :
  inv s fl own → own !! P = Some (Page pd pg) → user_va pg → 0 ≤ k < 1024 → holds_space s own pd f →
  holds_space (with_mem (upd (mem s) (P + 4 * k) v) s) own pd (upd f (pg + 4 * k) v).
Proof.
  intros Hi HP Hu Hk (Hpd & Hd1 & Hd2 & Hp).
  assert (Hne : ∀ q r j, own !! q = Some r → 0 ≤ j < 1024 → q ≠ P ∨ j ≠ k →
    upd (mem s) (P + 4 * k) v (q + 4 * j) = mem s (q + 4 * j)).
  { intros q r j Hq Hj Hn. rewrite (upd_entry _ _ _ _ _ s fl own P q (Page pd pg) r) by done.
    apply decide_False. lia. }
  assert (Hdev : ∀ va, user_va va → maps_device s own pd va →
    maps_device (with_mem (upd (mem s) (P + 4 * k) v) s) own pd va).
  { intros va Hva (T & HT & E). exists T. split; [done|]. simpl.
    destruct (va_of_pdi_pti va (proj1 Hva)) as [_ ?].
    rewrite (Hne T (Table pd (pdi va))); [done|done|done|left; congruence]. }
  split; [done|]. split; [by apply Hdev|]. split; [by apply Hdev|].
  intros va j Hva Hn Hj. destruct (Hp va j Hva Hn Hj) as [Hp1 Hp2].
  assert (Heq : va + 4 * j = pg + 4 * k ↔ va = pg ∧ j = k).
  { split; [|by intros [-> ->]]. destruct Hva as [Hv _], Hu as [Hu _].
    pose proof (Z.div_mod va 4096 ltac:(lia)). pose proof (Z.div_mod pg 4096 ltac:(lia)). lia. }
  destruct (decide (va = pg ∧ j = k)) as [[-> ->]|Hnn].
  - rewrite upd_eq. split; [|by intros Hno; destruct (Hno P)]. intros P' HP'.
    rewrite (page_unique _ _ _ _ _ _ _ _ _ _ _ _ Hi HP' HP). apply upd_eq.
  - rewrite (upd_ne f) by tauto. split; [|done]. intros P' HP'. simpl.
    rewrite (Hne P' (Page pd va)); [by apply Hp1|done|done|].
    destruct (decide (P' = P)) as [->|]; [|by left]. right. intros ->. apply Hnn.
    split; [congruence|done].
Qed.
(** *** Calls *)

Lemma alter_none {A} (g : A → A) (l : list A) k : l !! k = None → alter g k l = l.
Proof.
  intros Hk. apply list_eq. intros i. destruct (decide (i = k)) as [->|].
  - by rewrite list_lookup_alter_eq, Hk.
  - by rewrite list_lookup_alter_ne.
Qed.

Definition refines (r : list Z * list Z) s (r' : list space * list Z) : Prop :=
  sim s r.1 r'.1 ∧ r.2 = r'.2.

Lemma sim_none live sp s k : sim s live sp → live !! k = None → sp !! k = None.
Proof.
  intros (_ & fl & own & _ & Hsp) Hk. apply lookup_ge_None. apply Forall2_length in Hsp.
  apply lookup_ge_None in Hk. lia.
Qed.

Lemma sim_some live sp s k pd :
  sim s live sp → live !! k = Some pd →
  ∃ fl own f, NoDup live ∧ inv s fl own ∧ Forall2 (holds_space s own) live sp ∧
              sp !! k = Some f ∧ holds_space s own pd f.
Proof.
  intros (Hnd & fl & own & Hi & Hsp) Hk. destruct (Forall2_lookup_l _ _ _ _ _ Hsp Hk) as (f & Hf & Hh).
  by exists fl, own, f.
Qed.

Lemma live_dir s own live sp pd :
  Forall2 (holds_space s own) live sp → pd ∈ live → own !! pd = Some Dir.
Proof.
  intros Hsp (k & Hk)%list_elem_of_lookup_1. destruct (Forall2_lookup_l _ _ _ _ _ Hsp Hk) as (f & _ & Hh). apply Hh.
Qed.

Lemma delete_none {A} (l : list A) k : l !! k = None → delete k l = l.
Proof.
  intros Hk%lookup_ge_None. by rewrite delete_take_drop, take_ge, drop_ge, app_nil_r by lia.
Qed.

(** An access by process [k], up to the load or store that follows it. *)
Lemma wpx_access_word s live sp k pd va (Q : Z → phys → Prop) :
  sim s live sp → live !! k = Some pd → user_word ioAPIC localAPIC va →
  (∀ P pg j s' fl' own' f, va = pg + 4 * j → inv s' fl' own' → own' !! P = Some (Page pd pg) →
     user_va pg → ¬ dev pg → 0 ≤ j < 1024 → NoDup live → Forall2 (holds_space s' own') live sp →
     sp !! k = Some f → holds_space s' own' pd f → Q (P + 4 * j) s') →
  run (user_access pd va) Q s.
Proof.
  intros Hs Hk Hw HQ. destruct (sim_some _ _ _ _ _ Hs Hk) as (fl & own & f & Hnd & Hi & Hsp & Hf & Hh).
  destruct (word_page va Hw) as (pg & j & -> & Hj & Hu & Hd & Efd).
  eapply (wpx_user_access s fl own pd f pg j); [done..|].
  intros P s' fl' own' Hi' HP Hh' Ht. eapply HQ; [done|exact Hi'|exact HP|done|done|done|done| |exact Hf|done].
  apply Forall2_lookup. intros i. pose proof (proj1 (Forall2_lookup _ _ _) Hsp i) as Hfi.
  destruct (decide (i = k)) as [->|Hne].
  - rewrite Hk, Hf in *. by constructor.
  - inversion Hfi as [pd' f' Hh0 E1 E2|]; constructor. symmetry in E1.
    eapply same_space_holds; [|exact Hh0]. eapply touches_same; [exact Hi|apply Hh|apply Hh0| |exact Ht].
    intros ->. apply Hne. by eapply NoDup_lookup.
Qed.

Lemma wpx_call_load s live sp k va :
  sim s live sp → user_word ioAPIC localAPIC va →
  run (do_call memSize ioAPIC localAPIC shared live (LoadWord k va))
      (λ r s', refines r s' (spec_call sp (LoadWord k va))) s.
Proof.
  intros Hs Hw. simpl. destruct (live !! k) as [pd|] eqn:Hk.
  - apply wpx_bind. eapply wpx_access_word; [done..|].
    intros P pg j s' fl' own' f -> Hi' HP Hu Hd Hj Hnd Hsp Hf Hh. apply wpx_bind.
    eapply (wpx_read _ _ _ _ _ s' fl' own' P); [done|done|done|]. apply wpx_ret. rewrite Hf.
    split; [split; [done|]; by exists fl', own'|]. simpl. f_equal.
    destruct Hh as (_ & _ & _ & Hp). by apply (Hp pg j).
  - apply wpx_ret. unfold spec_call. rewrite (sim_none _ _ _ _ Hs Hk). by split.
Qed.

Lemma wpx_call_store s live sp k va v :
  sim s live sp → user_word ioAPIC localAPIC va →
  run (do_call memSize ioAPIC localAPIC shared live (StoreWord k va v))
      (λ r s', refines r s' (spec_call sp (StoreWord k va v))) s.
Proof.
  intros Hs Hw. simpl. destruct (live !! k) as [pd|] eqn:Hk.
  - apply wpx_bind. eapply wpx_access_word; [done..|].
    intros P pg j s' fl' own' f -> Hi' HP Hu Hd Hj Hnd Hsp Hf Hh. apply wpx_bind.
    eapply (wpx_write _ _ _ _ _ s' fl' own' P); [done|done|done|]. apply wpx_ret. split; [|done]. simpl.
    eapply (sim_alter s' own'); [done|done|exact Hk| | |].
    + eapply vm_inv_write_plain; [done|exact Hi'|exact HP|by intros []|].
      intros a Ha. apply upd_ne. intros ->. by apply Ha, in_frame_entry.
    + intros pd' Hin Hne. split; [by eapply live_dir|]. split; [done|].
      intros q r a Hq Hr Ha. simpl. apply upd_ne. intros ->.
      eapply (own_apart _ _ _ _ _ s' fl' own' q P); [done|exact Hq|exact HP| |exact Ha|by apply in_frame_entry].
      intros ->. assert (r = Page pd pg) as -> by congruence. by apply Hne.
    + intros f' Hh'. by eapply holds_store.
  - apply wpx_ret. split; [|done]. simpl. by rewrite alter_none by (by eapply sim_none).
Qed.
(** A new address space: empty, and no live one is affected. *)
Lemma wpx_new_space s live sp (Q : Z → phys → Prop) :
  sim s live sp →
  (∀ pd s' fl' own', inv s' fl' own' → pd ∉ live → NoDup live → own' !! pd = Some Dir →
     (∀ P va, own' !! P ≠ Some (Page pd va)) →
     holds_space s' own' pd (λ _, 0) → Forall2 (holds_space s' own') live sp → Q pd s') →
  run (make_pd memSize ioAPIC localAPIC shared) Q s.
Proof.
  intros (Hnd & fl & own & Hi & Hsp) HQ. eapply (wpx_make_pd _ _ _ _ _ Hmem Hio Hlo Hneq); [exact Hi|].
  intros pd s' fl' own' Hnone Hi' Hpd Hadd H1 H2 Hnew.
  assert (Hno : ∀ P va, own' !! P ≠ Some (Page pd va)).
  { intros P va HP. destruct (Hnew _ _ HP) as [HP0|[[_ [=]]|[? [=]]]].
    destruct (vi_page _ _ _ _ _ _ _ _ Hi P pd va HP0) as (_ & T & HT & _).
    destruct (vi_table _ _ _ _ _ _ _ _ Hi T pd _ HT) as [? _]. congruence. }
  assert (Hin : pd ∉ live).
  { intros Hin. pose proof (live_dir _ _ _ _ _ Hsp Hin). congruence. }
  eapply (HQ pd s' fl' own'); try done.
  - split; [done|]. split; [done|]. split; [done|]. intros va k Hu Hd Hk. split; [|done].
    intros P HP. by destruct (Hno P va).
  - eapply Forall2_impl; [exact Hsp|]. intros pd' f Hh. eapply same_space_holds; [|exact Hh].
    eapply adds_same; [apply Hh|exact Hadd| |exact Hnew]. intros ->. destruct Hh. congruence.
Qed.

Lemma sim_push s fl own live sp pd f :
  inv s fl own → pd ∉ live → NoDup live → holds_space s own pd f →
  Forall2 (holds_space s own) live sp → sim s (pd :: live) (f :: sp).
Proof. intros. split; [by apply NoDup_cons|]. exists fl, own. split; [done|by constructor]. Qed.

Lemma wpx_call_new s live sp :
  sim s live sp →
  run (do_call memSize ioAPIC localAPIC shared live NewSpace)
      (λ r s', refines r s' (spec_call sp NewSpace)) s.
Proof.
  intros Hs. simpl. apply wpx_bind. eapply wpx_new_space; [done|].
  intros pd s' fl' own' Hi' Hin Hnd _ _ Hh Hsp. apply wpx_ret. split; [|done]. by eapply sim_push.
Qed.

(** The child of a fork holds what its parent holds. *)
Lemma copied_space s fl own s' fl' own' pd child f :
  inv s fl own → inv s' fl' own' → holds_space s own pd f → holds_space s own child (λ _, 0) → pd ≠ child →
  copied ioAPIC localAPIC pd child (2 ^ 32) s own s' own' → holds_space s' own' child f.
Proof.
  intros Hi Hi' (Hpd & _ & _ & Hp) (Hch & H1 & H2 & _) Hne [Ct Cp Co Cd].
  split; [apply (to_keep _ _ _ _ _ Ct); [done|by intros []|done]|].
  split; [apply Cd; [by left|done]|]. split; [apply Cd; [by right|done]|].
  intros va k Hu Hd Hk. destruct (Hp va k Hu Hd Hk) as [Hp1 Hp2]. split.
  - intros P' HP'. destruct (Co P' va HP') as [(P & HP) _].
    destruct (Cp P va HP) as (P2 & HP2 & Hc); [apply Hu|done|].
    rewrite (page_unique _ _ _ _ _ _ _ _ _ _ _ _ Hi' HP' HP2), Hc by done. by apply Hp1.
  - intros Hno. apply Hp2. intros P HP.
    destruct (Cp P va HP) as (P2 & HP2 & _); [apply Hu|done|]. by destruct (Hno P2).
Qed.

Lemma wpx_call_fork s live sp k :
  sim s live sp →
  run (do_call memSize ioAPIC localAPIC shared live (Fork k))
      (λ r s', refines r s' (spec_call sp (Fork k))) s.
Proof.
  intros Hs. simpl. destruct (live !! k) as [pd|] eqn:Hk.
  - apply wpx_bind. eapply wpx_new_space; [done|].
    intros child s1 fl1 own1 Hi1 Hin Hnd Hch Hno Hh0 Hsp1. apply wpx_bind.
    destruct (Forall2_lookup_l _ _ _ _ _ Hsp1 Hk) as (f & Hf & Hh).
    assert (Hne : pd ≠ child) by (intros ->; by eapply Hin, list_elem_of_lookup_2).
    eapply (wpx_fork_copy _ _ _ _ _ Hmem Hio Hlo Hneq); [exact Hi1|apply Hh|exact Hch|done|apply Hno|].
    intros s2 fl2 own2 Hi2 Hc. apply wpx_ret. simpl. rewrite Hf. split; [|done].
    eapply sim_push; [exact Hi2|done|done| |].
    + eapply copied_space; [exact Hi1|exact Hi2|exact Hh|exact Hh0|done|exact Hc].
    + apply Forall2_same_length_lookup. split; [by eapply Forall2_length|].
      intros j pd' f' Hj Hfj. assert (Hh' : holds_space s1 own1 pd' f').
      { destruct (Forall2_lookup_l _ _ _ _ _ Hsp1 Hj) as (f2 & Hf2 & ?). congruence. }
      eapply same_space_holds; [|exact Hh']. eapply touches_same; [exact Hi1|exact Hch|apply Hh'| |apply Hc].
      intros ->. by eapply Hin, list_elem_of_lookup_2.
  - apply wpx_ret. simpl. rewrite (sim_none _ _ _ _ Hs Hk). by split.
Qed.

Lemma wpx_call_exec s live sp k :
  sim s live sp →
  run (do_call memSize ioAPIC localAPIC shared live (Exec k))
      (λ r s', refines r s' (spec_call sp (Exec k))) s.
Proof.
  intros Hs. simpl. destruct (live !! k) as [pd|] eqn:Hk.
  - destruct (sim_some _ _ _ _ _ Hs Hk) as (fl & own & f & Hnd & Hi & Hsp & Hf & Hh).
    apply wpx_bind. eapply (wpx_execl_clear _ _ _ _ _ Hmem Hio Hlo); [exact Hi|apply Hh|].
    intros s' fl' own' Hi' [Ct Cp Cs Cta Cd]. apply wpx_ret. split; [|done]. simpl.
    eapply (sim_alter s own); [done|done|exact Hk|exact Hi'| |].
    + intros pd' Hin Hne. eapply touches_same; [exact Hi|apply Hh|by eapply live_dir|done|done].
    + intros f' (Hpd & H1 & H2 & _). split; [apply (to_keep _ _ _ _ _ Ct); [done|by intros []|done]|].
      split; [apply Cd; [by left|done]|]. split; [apply Cd; [by right|done]|].
      intros va j Hu Hd Hj. split; [|done]. intros P HP. destruct (Cp P va HP) as [?|?]; [done|].
      destruct Hu; lia.
  - apply wpx_ret. split; [|done]. simpl. by rewrite alter_none by (by eapply sim_none).
Qed.

Lemma wpx_call_exit s live sp k :
  sim s live sp →
  run (do_call memSize ioAPIC localAPIC shared live (Exit k))
      (λ r s', refines r s' (spec_call sp (Exit k))) s.
Proof.
  intros Hs. simpl. destruct (live !! k) as [pd|] eqn:Hk.
  - destruct (sim_some _ _ _ _ _ Hs Hk) as (fl & own & f & Hnd & Hi & Hsp & Hf & Hh).
    apply wpx_bind. eapply (wpx_delete_pd _ _ _ _ _ Hmem); [exact Hi|apply Hh|].
    intros s' fl' own' Hi' Hd Hm. apply wpx_ret. split; [|done]. simpl.
    split; [by eapply sublist_NoDup, sublist_delete|]. exists fl', own'. split; [done|].
    assert (Hall : Forall2 (λ pd' f', pd' ≠ pd → holds_space s' own' pd' f') live sp).
    { eapply Forall2_impl; [exact Hsp|]. intros pd' f' Hh' Hne. eapply same_space_holds; [|exact Hh'].
      eapply deleted_same; [apply Hh'|exact Hne|exact Hd|exact Hm]. }
    assert (Hall' : Forall2 (λ pd' f', pd' ≠ pd → holds_space s' own' pd' f') (delete k live) (delete k sp))
      by by apply Forall2_delete.
    assert (Hnin : pd ∉ delete k live).
    { pose proof (delete_Permutation _ _ _ Hk) as Hperm. rewrite Hperm in Hnd. by apply NoDup_cons in Hnd as [? _]. }
    apply Forall2_same_length_lookup. split; [by eapply Forall2_length|]. intros j pd' f' Hj Hfj.
    destruct (Forall2_lookup_l _ _ _ _ _ Hall' Hj) as (f2 & Hf2 & Hh2). assert (f' = f2) as -> by congruence.
    apply Hh2. intros ->. by eapply Hnin, list_elem_of_lookup_2.
  - apply wpx_ret. split; [|done]. simpl. pose proof (sim_none _ _ _ _ Hs Hk) as Hk'.
    by rewrite !delete_none.
Qed.

Lemma wpx_do_calls cs s live sp :
  sim s live sp → Forall (call_ok ioAPIC localAPIC) cs →
  run (do_calls memSize ioAPIC localAPIC shared live cs) (λ r s', refines r s' (spec_calls sp cs)) s.
Proof.
  revert s live sp. induction cs as [|c cs IH]; intros s live sp Hs Hok; [by apply wpx_ret|].
  apply Forall_cons in Hok as [Hc Hok]. cbn [do_calls spec_calls]. apply wpx_bind.
  eapply (wpx_mono _ _ (λ r s', refines r s' (spec_call sp c))).
  { destruct c; [by apply wpx_call_new|by apply wpx_call_store|by apply wpx_call_load|
      by apply wpx_call_fork|by apply wpx_call_exec|by apply wpx_call_exit]. }
  intros [live1 out1] s1 [Hs1 Ho1]. simpl in *. apply wpx_bind.
  eapply wpx_mono; [by apply IH|]. intros [live2 out2] s2 [Hs2 Ho2]. apply wpx_ret. simpl in *.
  split; [done|]. simpl. congruence.
Qed.
End sim.

(** ** Translations *)

Section translations.
Context (base memSize ioAPIC localAPIC shared : Z).
Context (Hmem : 0 ≤ memSize ≤ 2 ^ 31).
Context (Hio : user_va ioAPIC) (Hlo : user_va localAPIC) (Hneq : ioAPIC ≠ localAPIC).
Implicit Types (s : phys) (fl : list Z) (own : gmap Z role).

Abbreviation inv := (vm_inv base memSize ioAPIC localAPIC shared).
Abbreviation dev := (device ioAPIC localAPIC).

(** The kernel's half of every address space is the identity. *)
Lemma translate_kernel s fl own pd va :
  inv s fl own → own !! pd = Some Dir → 4096 ≤ va < memSize → translate (mem s) pd va = Some va.
Proof.
  intros Hi Hpd Hva. destruct (vi_kernel _ _ _ _ _ _ _ _ Hi) as (Hsh & Hk & _).
  pose proof (Z.div_mod va 4096 ltac:(lia)) as Ev. pose proof (Z.mod_pos_bound va 4096 ltac:(lia)).
  destruct (Hk (va / 4096 * 4096)) as (K & HK & E1 & E2); [by apply Z_mod_mult|lia|].
  destruct (va_of_pdi_pti (va / 4096 * 4096)) as [Eva Hpti]; [by apply Z_mod_mult|].
  destruct (va_of_indices (pdi (va / 4096 * 4096)) (pti (va / 4096 * 4096)) (va mod 4096) Hpti ltac:(lia)) as [F1 F2].
  rewrite Eva in F1, F2. replace (va / 4096 * 4096 + va mod 4096) with va in F1, F2 by lia.
  pose proof (low_pdi memSize Hmem va ltac:(lia)). unfold translate. rewrite (vi_low _ _ _ _ _ _ _ _ Hi pd (pdi va) Hpd).
  2: { rewrite pdi_eq. split; [apply Z.div_pos; lia|apply Z.div_lt_upper_bound; lia]. }
  rewrite F1, E1. destruct (present_entry _ _ _ _ _ _ _ _ _ _ Hi HK) as [-> ->].
  rewrite F2, E2. destruct (entry_bits (va / 4096 * 4096)) as (_ & -> & El & _); [by apply Z_mod_mult|lia|lia|].
  unfold present. rewrite El, bool_decide_eq_true_2 by done. rewrite land_fff. f_equal. lia.
Qed.

(** Two user addresses that reach the same byte are the same. *)
Lemma translate_private s fl own pd1 pd2 va1 va2 a :
  inv s fl own → own !! pd1 = Some Dir → own !! pd2 = Some Dir →
  2 ^ 31 ≤ va1 < 2 ^ 32 → 2 ^ 31 ≤ va2 < 2 ^ 32 →
  ¬ dev (framedown va1) → ¬ dev (framedown va2) →
  translate (mem s) pd1 va1 = Some a → translate (mem s) pd2 va2 = Some a → pd1 = pd2 ∧ va1 = va2.
Proof.
  intros Hi H1 H2 Hv1 Hv2 Hd1 Hd2 T1 T2.
  assert (Hpage : ∀ pd va, own !! pd = Some Dir → 2 ^ 31 ≤ va < 2 ^ 32 → ¬ dev (framedown va) →
    translate (mem s) pd va = Some a →
    ∃ P, own !! P = Some (Page pd (framedown va)) ∧ a = P + va mod 4096 ∧ va = framedown va + va mod 4096).
  { intros pd va Hpd Hva Hd Ht. destruct (framedown_user va Hva) as [Hu E].
    pose proof (Z.div_mod va 4096 ltac:(lia)). pose proof (Z.mod_pos_bound va 4096 ltac:(lia)).
    assert (Eva : va = framedown va + va mod 4096) by lia. rewrite Eva in Ht at 1.
    destruct (translate_inv _ _ _ _ _ s fl own pd (framedown va) (va mod 4096) a Hi Hpd Hu) as [(P & HP & ->)|[? _]];
      [lia|done| |done]. by exists P. }
  destruct (Hpage pd1 va1 H1 Hv1 Hd1 T1) as (P1 & HP1 & E1 & F1).
  destruct (Hpage pd2 va2 H2 Hv2 Hd2 T2) as (P2 & HP2 & E2 & F2).
  pose proof (Z.mod_pos_bound va1 4096 ltac:(lia)). pose proof (Z.mod_pos_bound va2 4096 ltac:(lia)).
  destruct (decide (P1 = P2)) as [->|Hne].
  - assert (Page pd1 (framedown va1) = Page pd2 (framedown va2)) as [=] by congruence.
    split; [done|]. lia.
  - exfalso. eapply (own_apart _ _ _ _ _ s fl own P1 P2 _ _ a); try done; unfold in_frame; lia.
Qed.

(** Translations of the user pages that an operation keeps. *)
Lemma others_translate s fl own s' fl' own' pd va pd' pg o :
  inv s fl own → inv s' fl' own' → own !! pd' = Some Dir →
  others_kept pd va s own s' own' → user_va pg → ¬ dev pg → 0 ≤ o < 4096 → pd' ≠ pd ∨ pg ≠ va →
  translate (mem s') pd' (pg + o) = translate (mem s) pd' (pg + o).
Proof.
  intros Hi Hi' Hpd Hk Hu Hd Ho Hne.
  assert (Hpd' : own' !! pd' = Some Dir) by by apply (ok_keep _ _ _ _ _ _ Hk).
  assert (Hpage : ∀ P, own !! P = Some (Page pd' pg) ↔ own' !! P = Some (Page pd' pg)).
  { intros P. assert (Page pd' pg ≠ Page pd va) by (destruct Hne; congruence).
    split; [by apply (ok_keep _ _ _ _ _ _ Hk)|by apply (ok_new _ _ _ _ _ _ Hk)]. }
  destruct (translate (mem s) pd' (pg + o)) as [a|] eqn:E.
  - destruct (translate_inv _ _ _ _ _ s fl own pd' pg o a Hi Hpd Hu Ho E) as [(P & HP & ->)|[? _]]; [|done].
    apply Hpage in HP. by eapply translate_page; [exact Hi'|exact HP|exact Ho].
  - destruct (translate (mem s') pd' (pg + o)) as [a|] eqn:E'; [|done].
    destruct (translate_inv _ _ _ _ _ s' fl' own' pd' pg o a Hi' Hpd' Hu Ho E') as [(P & HP & ->)|[? _]]; [|done].
    apply Hpage in HP. by rewrite (translate_page _ _ _ _ _ s fl own P pd' pg o Hi HP Ho) in E.
Qed.
End translations.

(** ** Booting *)

Record machine (start memSize ioAPIC localAPIC : Z) : Prop := {
  ma_start : start mod 4096 = 0 ∧ 4096 ≤ start ≤ memSize;
  ma_size : memSize mod 4096 = 0 ∧ memSize ≤ 2 ^ 31;
  ma_devices : user_va ioAPIC ∧ user_va localAPIC ∧ ioAPIC ≠ localAPIC
}.

Lemma wpx_boot_calls m start memSize ioAPIC localAPIC cs :
  machine start memSize ioAPIC localAPIC → Forall (call_ok ioAPIC localAPIC) cs →
  wpx (boot_calls start memSize ioAPIC localAPIC cs)
      (λ r s, refines start memSize ioAPIC localAPIC r.1 r.2 s (spec_calls [] cs))
      (exhausted start) (mkPhys m 0 0 0).
Proof.
  intros [[Hs0 Hs] [Hm0 Hm] (Hio & Hlo & Hneq)] Hok. unfold boot_calls. apply wpx_bind.
  pose proof (Z.div_mod start 4096 ltac:(lia)). pose proof (Z.div_mod memSize 4096 ltac:(lia)).
  eapply wpx_mono.
  { apply wp_wpx, (wp_init m start (memSize - start)); [done| |lia..].
    replace (memSize - start) with (0 + (memSize / 4096 - start / 4096) * 4096) by lia. by rewrite Z.mod_add. }
  intros [] s0 [(_ & fl & Hf & _) _]. apply wpx_bind.
  eapply (wpx_global_init start memSize ioAPIC localAPIC); [lia|done|exact Hf|].
  intros shared s1 fl1 own1 Hi1 _. apply wpx_bind.
  eapply wpx_mono.
  { eapply (wpx_do_calls start memSize ioAPIC localAPIC shared ltac:(lia) Hio Hlo Hneq cs s1 [] []); [|done].
    split; [apply NoDup_nil_2|]. exists fl1, own1. by split. }
  intros r s2 Hr. by apply wpx_ret.
Qed.

(** ** Properties *)

(** Every frame the translations of live spaces reach is private to one
    page of one of them, and the kernel sees memory at its address. *)
Definition isolated (memSize ioAPIC localAPIC : Z) (live : list Z) (s : phys) : Prop :=
  NoDup live ∧
  (∀ pd va, pd ∈ live → 4096 ≤ va < memSize → translate (mem s) pd va = Some va) ∧
  ∀ pd1 pd2 va1 va2 a, pd1 ∈ live → pd2 ∈ live →
    2 ^ 31 ≤ va1 < 2 ^ 32 → 2 ^ 31 ≤ va2 < 2 ^ 32 →
    ¬ device ioAPIC localAPIC (framedown va1) → ¬ device ioAPIC localAPIC (framedown va2) →
    translate (mem s) pd1 va1 = Some a → translate (mem s) pd2 va2 = Some a → pd1 = pd2 ∧ va1 = va2.

(** C1. From boot, whatever sequence of process creations, user loads and
    stores, forks, execs and exits runs, the page tables, the page-fault
    handler and the copying loops give each process what the abstract
    machine gives it: a private memory, zero where never written, copied by
    fork, zeroed by exec.  Every load returns the abstract value; the only
    other end is the panic for lack of frames. *)
Theorem vm_refines_spaces m start memSize ioAPIC localAPIC cs :
  machine start memSize ioAPIC localAPIC → Forall (call_ok ioAPIC localAPIC) cs →
  wpx (boot_calls start memSize ioAPIC localAPIC cs)
      (λ r _, r.2.2 = (spec_calls [] cs).2 ∧ length r.2.1 = length (spec_calls [] cs).1)
      (exhausted start) (mkPhys m 0 0 0).
Proof.
  intros Hma Hok. eapply wpx_mono; [by apply wpx_boot_calls|].
  intros [shared [live out]] s [(_ & fl & own & _ & Hsp) Ho]. split; [done|]. by eapply Forall2_length.
Qed.

(** C5. From boot, after any such sequence, two addresses of the user
    halves of live address spaces reach the same byte of memory only if they
    are the same address of the same space (pages of the interrupt
    controllers aside), and each live space maps physical memory to
    itself. *)
Theorem spaces_isolated m start memSize ioAPIC localAPIC cs :
  machine start memSize ioAPIC localAPIC → Forall (call_ok ioAPIC localAPIC) cs →
  wpx (boot_calls start memSize ioAPIC localAPIC cs)
      (λ r s, isolated memSize ioAPIC localAPIC r.2.1 s) (exhausted start) (mkPhys m 0 0 0).
Proof.
  intros Hma Hok. eapply wpx_mono; [by apply wpx_boot_calls|].
  intros [shared [live out]] s [(Hnd & fl & own & Hi & Hsp) _]. destruct Hma as [Hs [Hm0 Hm] _].
  split; [done|]. split.
  - intros pd va Hpd Hva. eapply translate_kernel; [|exact Hi|by eapply live_dir|done]. simpl in *. lia.
  - intros pd1 pd2 va1 va2 a H1 H2 Hv1 Hv2 Hd1 Hd2 T1 T2.
    eapply translate_private; [exact Hi|by eapply live_dir|by eapply live_dir|done..].
Qed.

(** After any such sequence, [delete_pd] of a live space returns, its
    directory is no longer in use, but each of its pages stays in use for
    ever: no page table names it and it is not on the free list. *)
Theorem delete_pd_leaks_pages m start memSize ioAPIC localAPIC cs :
  machine start memSize ioAPIC localAPIC → Forall (call_ok ioAPIC localAPIC) cs →
  wpx (boot_calls start memSize ioAPIC localAPIC cs)
      (λ r s, ∀ pd va P, pd ∈ r.2.1 → user_va va → ¬ device ioAPIC localAPIC va →
         translate (mem s) pd va = Some P →
         ∃ s' fl used, delete_pd pd s = Ok () s' ∧ frames_inv start s' fl used ∧
           (pd ∉ used) ∧ P ∈ used ∧ (P ∉ fl) ∧
           ∀ pd' va', pd' ∈ r.2.1 → pd' ≠ pd → user_va va' → ¬ device ioAPIC localAPIC va' →
             translate (mem s') pd' va' ≠ Some P)
      (exhausted start) (mkPhys m 0 0 0).
Proof.
  intros Hma Hok. eapply wpx_mono; [by apply wpx_boot_calls|].
  intros [shared [live out]] s [(Hnd & fl & own & Hi & Hsp) _] pd va P Hpd Hu Hd Ht. simpl in *.
  destruct Hma as [[_ Hm1] [_ Hm2] _].
  assert (Hm : 0 ≤ memSize ≤ 2 ^ 31) by lia. pose proof (live_dir _ _ _ _ _ _ _ Hsp Hpd) as Hdir.
  assert (HP : own !! P = Some (Page pd va)).
  { rewrite <-(Z.add_0_r va) in Ht.
    destruct (translate_inv _ _ _ _ _ s fl own pd va 0 P Hi Hdir Hu ltac:(lia) Ht) as [(P' & HP' & ->)|[? _]]; [|done].
    by rewrite Z.add_0_r. }
  edestruct (wpx_outcome (λ _, False) (delete_pd pd)) as [([] & s' & E & H)|(? & _ & [])].
  { eapply (wpx_delete_pd _ memSize _ _ _ Hm s fl own pd (λ _ s', ∃ fl' own',
      vm_inv start memSize ioAPIC localAPIC shared s' fl' own' ∧ deleted pd own own')); [exact Hi|exact Hdir|].
    intros s' fl' own' Hi' Hde _. by exists fl', own'. }
  destruct H as (fl' & own' & Hi' & [D1 D2 D3 D4 D5]). exists s', fl', (dom own').
  pose proof (D3 P va HP) as Hlost. pose proof (vi_frames _ _ _ _ _ _ _ _ Hi') as Hf'.
  split; [done|]. split; [done|]. split; [by apply not_elem_of_dom|].
  split; [by eapply elem_of_dom_2|]. split.
  - intros Hin. by eapply (fi_disjoint _ _ _ _ Hf'), elem_of_dom_2.
  - intros pd' va' Hpd' Hne Hu' Hd' Ht'. rewrite <-(Z.add_0_r va') in Ht'.
    assert (Hdir' : own' !! pd' = Some Dir).
    { apply D4; [by eapply live_dir|simpl; congruence]. }
    destruct (translate_inv _ _ _ _ _ s' fl' own' pd' va' 0 P Hi' Hdir' Hu' ltac:(lia) Ht') as [(P' & HP' & E')|[? _]]; [|done].
    rewrite Z.add_0_r in E'. congruence.
Qed.

(** After any such sequence, a fault of a live space at a user address
    is served by a frame filled with zeros that no live space reached
    before, every other user page keeps its translation, and a fault below
    the user half stops the kernel. *)
Theorem pageFault_zero_page m start memSize ioAPIC localAPIC cs :
  machine start memSize ioAPIC localAPIC → Forall (call_ok ioAPIC localAPIC) cs →
  wpx (boot_calls start memSize ioAPIC localAPIC cs)
      (λ r s, ∀ pd va, pd ∈ r.2.1 →
         (0 ≤ va < 2 ^ 31 → vmm_pageFault pd pd pd va s = Panicked s) ∧
         (2 ^ 31 ≤ va < 2 ^ 32 →
          wpx (vmm_pageFault pd pd pd va) (λ _ s', ∃ P,
            translate (mem s') pd (framedown va) = Some P ∧ (∀ a, P ≤ a < P + 4096 → mem s' a = 0) ∧
            (∀ pd' pg o, pd' ∈ r.2.1 → user_va pg → ¬ device ioAPIC localAPIC pg → 0 ≤ o < 4096 →
               translate (mem s) pd' (pg + o) ≠ Some P) ∧
            ∀ pd' pg o, pd' ∈ r.2.1 → user_va pg → ¬ device ioAPIC localAPIC pg → 0 ≤ o < 4096 →
              pd' ≠ pd ∨ pg ≠ framedown va →
              translate (mem s') pd' (pg + o) = translate (mem s) pd' (pg + o)) (exhausted start) s))
      (exhausted start) (mkPhys m 0 0 0).
Proof.
  intros Hma Hok. eapply wpx_mono; [by apply wpx_boot_calls|].
  intros [shared [live out]] s [(Hnd & fl & own & Hi & Hsp) _] pd va Hpd. simpl in *.
  destruct Hma as [[_ ?] [_ Hm] (Hio & Hlo & Hneq)]. pose proof (live_dir _ _ _ _ _ _ _ Hsp Hpd) as Hdir.
  split; intros Hva.
  - unfold vmm_pageFault, assert. rewrite (decide_True (P := pd = pd)) by done. cbv [mbind M_bind mret M_ret].
    rewrite decide_False; [done|]. unfold framedown. rewrite FRAME_SIZE_eq.
    pose proof (Z.div_mod va 4096 ltac:(lia)). pose proof (Z.mod_pos_bound va 4096 ltac:(lia)).
    rewrite u32_small by lia. lia.
  - eapply (wpx_pageFault start memSize ioAPIC localAPIC shared ltac:(lia) Hio Hlo Hneq); [exact Hi|exact Hdir|done|].
    destruct (framedown_user va Hva) as [Hu _].
    intros P s' fl' own' HPn Hi' HP Hk Hz. exists P. split.
    { rewrite <-(Z.add_0_r (framedown va)).
      rewrite (translate_page _ _ _ _ _ s' fl' own' P pd (framedown va) 0 Hi' HP) by lia. f_equal. lia. }
    split; [exact Hz|]. split.
    + intros pd' pg o Hpd' Hpg Hd Ho Ht.
      destruct (translate_inv _ _ _ _ _ s fl own pd' pg o P Hi (live_dir _ _ _ _ _ _ _ Hsp Hpd') Hpg Ho Ht)
        as [(P' & HP' & E)|[? _]]; [|done].
      destruct (own_frame _ _ _ _ _ _ _ _ _ _ Hi HP') as (? & _).
      destruct (own_frame _ _ _ _ _ _ _ _ _ _ Hi' HP) as (? & _).
      pose proof (Z.div_mod P 4096 ltac:(lia)). pose proof (Z.div_mod P' 4096 ltac:(lia)).
      assert (P = P') as -> by lia. congruence.
    + intros pd' pg o Hpd' Hpg Hd Ho Hne. eapply others_translate;
        [exact Hi|exact Hi'|by eapply live_dir|exact Hk|done..].
Qed.

(** ** Witnesses *)

Definition sample_calls : list vm_call :=
  [NewSpace; StoreWord 0 0x80000004 5; Fork 0; StoreWord 1 0x80000004 7; LoadWord 0 0x80000004;
   LoadWord 1 0x80000004; Exec 0; LoadWord 0 0x80000004; Exit 0; LoadWord 0 0x80000004].

Lemma sample_machine : machine 8192 131072 0xFEC00000 0xFEE00000.
Proof. split; unfold user_va; repeat split; lia. Qed.

Lemma sample_ok : Forall (call_ok 0xFEC00000 0xFEE00000) sample_calls.
Proof.
  unfold sample_calls. repeat constructor; simpl; try lia;
    unfold device; vm_compute; intros [|]; congruence.
Qed.

Lemma vm_refines_spaces_witness :
  (spec_calls [] sample_calls).2 = [5; 7; 0; 7] ∧
  wpx (boot_calls 8192 131072 0xFEC00000 0xFEE00000 sample_calls)
      (λ r _, r.2.2 = (spec_calls [] sample_calls).2 ∧ length r.2.1 = length (spec_calls [] sample_calls).1)
      (exhausted 8192) (mkPhys (λ _, 9) 0 0 0).
Proof. split; [reflexivity|]. apply vm_refines_spaces; [apply sample_machine|apply sample_ok]. Defined.

Lemma spaces_isolated_witness :
  wpx (boot_calls 8192 131072 0xFEC00000 0xFEE00000 sample_calls)
      (λ r s, isolated 131072 0xFEC00000 0xFEE00000 r.2.1 s) (exhausted 8192) (mkPhys (λ _, 9) 0 0 0).
Proof. apply spaces_isolated; [apply sample_machine|apply sample_ok]. Defined.

Lemma delete_pd_leaks_pages_witness :
  wpx (boot_calls 8192 131072 0xFEC00000 0xFEE00000 sample_calls)
      (λ r s, ∀ pd va P, pd ∈ r.2.1 → user_va va → ¬ device 0xFEC00000 0xFEE00000 va →
         translate (mem s) pd va = Some P →
         ∃ s' fl used, delete_pd pd s = Ok () s' ∧ frames_inv 8192 s' fl used ∧
           (pd ∉ used) ∧ P ∈ used ∧ (P ∉ fl) ∧
           ∀ pd' va', pd' ∈ r.2.1 → pd' ≠ pd → user_va va' → ¬ device 0xFEC00000 0xFEE00000 va' →
             translate (mem s') pd' va' ≠ Some P)
      (exhausted 8192) (mkPhys (λ _, 9) 0 0 0).
Proof. apply delete_pd_leaks_pages; [apply sample_machine|apply sample_ok]. Defined.

Lemma pageFault_zero_page_witness :
  wpx (boot_calls 8192 131072 0xFEC00000 0xFEE00000 sample_calls)
      (λ r s, ∀ pd va, pd ∈ r.2.1 →
         (0 ≤ va < 2 ^ 31 → vmm_pageFault pd pd pd va s = Panicked s) ∧
         (2 ^ 31 ≤ va < 2 ^ 32 →
          wpx (vmm_pageFault pd pd pd va) (λ _ s', ∃ P,
            translate (mem s') pd (framedown va) = Some P ∧ (∀ a, P ≤ a < P + 4096 → mem s' a = 0) ∧
            (∀ pd' pg o, pd' ∈ r.2.1 → user_va pg → ¬ device 0xFEC00000 0xFEE00000 pg → 0 ≤ o < 4096 →
               translate (mem s) pd' (pg + o) ≠ Some P) ∧
            ∀ pd' pg o, pd' ∈ r.2.1 → user_va pg → ¬ device 0xFEC00000 0xFEE00000 pg → 0 ≤ o < 4096 →
              pd' ≠ pd ∨ pg ≠ framedown va →
              translate (mem s') pd' (pg + o) = translate (mem s) pd' (pg + o)) (exhausted 8192) s))
      (exhausted 8192) (mkPhys (λ _, 9) 0 0 0).
Proof. apply pageFault_zero_page; [apply sample_machine|apply sample_ok]. Defined.

(** Two processes run to the end of a short session. *)
Definition short_calls : list vm_call :=
  [NewSpace; NewSpace; StoreWord 0 0x80000004 5; StoreWord 1 0x80000004 7; LoadWord 0 0x80000004;
   Exec 0; LoadWord 0 0x80000004; Exit 0; LoadWord 0 0x80000004].

Example short_runs :
  match boot_calls 8192 65536 0xFEC00000 0xFEE00000 short_calls (mkPhys (λ _, 9) 0 0 0) with
  | Ok (_, (live, out)) _ => (length live, out) = (1%nat, [5; 0; 7])
  | _ => False
  end.
Proof. vm_compute. reflexivity. Qed.
