(* ===== verification/UserHeap.v ===== *)
(** * The heap of user programs (t0.dir/sbin/heap.c)

    A first-fit variant of the kernel heap over the same blocks, with
    checks that let the program go on instead of stopping it, and
    [realloc].  Each function follows its kernel counterpart wherever that
    one returns, so what is proved of those in [Heap] carries over. *)

From S2P Require Import Prelude.
From S2P Require Import HeapInv.
From S2P Require Import Heap.
From S2P Require Import HeapProps.

(** ** Operations *)

Section heap.
(** The address of [static int array[INTS]]. *)
Variable base : Z.

Definition INTS : Z := 0x100000.

(** The statics of a new process: zeroed memory, [safe] = 1. *)
Definition fresh : heap := mkHeap (λ _, 0) INTS 1 0.

Definition abs (x : Z) : M heap Z :=
  if decide (x < 0) then chk (- x) else mret x.

Definition size (i : Z) : M heap Z := v ← rd i; abs v.

Definition headerFromFooter (i : Z) : M heap Z :=
  n ← size i; t ← chk (i - n); chk (t + 1).

Definition footerFromHeader (i : Z) : M heap Z :=
  n ← size i; t ← chk (i + n); chk (t - 1).

(** Every branch returns the index. *)
Definition sanity (i : Z) : M heap Z :=
  sf ← gets safe;
  if decide (sf ≠ 0) then
    if decide (i = 0) then mret 0 else
    l ← gets len;
    if decide (i < 0 ∨ i >= l) then mret i else
    footer ← footerFromHeader i;
    if decide (footer < 0 ∨ footer >= l) then mret i else
    hv ← rd i;
    fv ← rd footer;
    if decide (hv ≠ fv) then mret i else mret i
  else mret i.

Definition left (i : Z) : M heap Z :=
  j ← chk (i - 1); k ← headerFromFooter j; sanity k.

Definition right (i : Z) : M heap Z :=
  n ← size i; k ← chk (i + n); sanity k.

Definition next1 (i : Z) : M heap Z :=
  j ← chk (i + 1); k ← rd j; sanity k.

Definition prev1 (i : Z) : M heap Z :=
  j ← chk (i + 2); k ← rd j; sanity k.

Definition next (i x : Z) : M heap () := j ← chk (i + 1); wr j x.

Definition prev (i x : Z) : M heap () := j ← chk (i + 2); wr j x.

Definition remove (i : Z) : M heap () :=
  prevIndex ← prev1 i;
  nextIndex ← next1 i;
  (if decide (prevIndex = 0)
   then modify (set_avail nextIndex)
   else next prevIndex nextIndex);;
  (if decide (nextIndex ≠ 0)
   then prev nextIndex prevIndex
   else mret ()).

Definition makeAvail (i ints : Z) : M heap () :=
  wr i ints;;
  f ← footerFromHeader i;
  wr f ints;;
  av ← gets avail;
  next i av;;
  prev i 0;;
  (av ← gets avail; if decide (av ≠ 0) then prev av i else mret ());;
  modify (set_avail i).

Definition makeTaken (i ints : Z) : M heap () :=
  neg ← chk (- ints);
  wr i neg;;
  f ← footerFromHeader i;
  neg ← chk (- ints);
  wr f neg.

Definition isAvail (i : Z) : M heap bool :=
  v ← rd i; mret (bool_decide (0 < v)).

Definition isTaken (i : Z) : M heap bool :=
  v ← rd i; mret (bool_decide (v < 0)).

Definition heap_init : M heap () :=
  makeTaken 0 2;;
  l ← gets len;
  n ← chk (l - 4);
  makeAvail 2 n;;
  l ← gets len;
  m ← chk (l - 2);
  makeTaken m 2.

(** The block [p] of the search loop is taken when it is large enough. *)
Definition take_fit (p sz ints : Z) : M heap Z :=
  remove p;;
  extra ← chk (sz - ints);
  (if decide (extra >= 4) then
     makeTaken p ints;;
     rest ← chk (p + ints);
     makeAvail rest extra
   else makeTaken p sz);;
  j ← chk (p + 1);
  mret (addr_of base j).

(** The search loop; it leaves with [res]. *)
Definition search_step (ints p : Z) : M heap (Z + Z) :=
  if decide (p ≠ 0) then
    _ ← isAvail p;
    sz ← size p;
    if decide (sz >= ints) then
      res ← take_fit p sz ints;
      mret (inr res)
    else
      p ← next1 p;
      mret (inl p)
  else mret (inr 0).

Definition malloc (bytes : Z) : M heap Z :=
  if decide (bytes = 0) then mret base else
  let ints := ints_of bytes in
  p ← gets avail;
  _ ← sanity p;
  l ← gets len;
  iter (Datatypes.S (Z.to_nat l)) (search_step ints) p.

(** [((long) p - (long) array) / 4 - 1] *)
Definition index_at (p : Z) : M heap Z :=
  d ← chk (i32 p - i32 base);
  chk (Z.quot d 4 - 1).

Definition free (p : Z) : M heap () :=
  if decide (p = 0) then mret () else
  if decide (p = base) then mret () else
  idx ← index_at p;
  _ ← sanity idx;
  tk ← isTaken idx;
  if negb tk then mret () else
  sz ← size idx;
  leftIndex ← left idx;
  rightIndex ← right idx;
  la ← isAvail leftIndex;
  r ← (if (la : bool) then
         remove leftIndex;;
         n ← size leftIndex;
         sz ← chk (sz + n);
         mret (leftIndex, sz)
       else mret (idx, sz));
  let '(idx, sz) := r : Z * Z in
  ra ← isAvail rightIndex;
  sz ← (if (ra : bool) then
          remove rightIndex;;
          n ← size rightIndex;
          chk (sz + n)
        else mret sz);
  makeAvail idx sz.

(** [memcpy] of [m] bytes between word-aligned places of the array: whole
    words, then the low bytes of the last one. *)
Definition copy_low (k dst src : Z) : Z := dst - dst mod 2 ^ (8 * k) + src mod 2 ^ (8 * k).

Definition copy_bytes (dst src m : Z) : M heap () :=
  iter (Datatypes.S (Z.to_nat m))
    (λ i, if decide (4 * i + 4 ≤ m) then
            v ← rd (src + i); wr (dst + i) v;; mret (inl (i + 1))
          else if decide (4 * i < m) then
            v ← rd (src + i); w ← rd (dst + i);
            wr (dst + i) (copy_low (m - 4 * i) w v);; mret (inr ())
          else mret (inr ())) 0.

Definition realloc (p newSize : Z) : M heap Z :=
  if decide (p = 0) then malloc newSize else
  if decide (newSize = 0) then free p;; mret 0 else
  idx ← index_at p;
  _ ← sanity idx;
  tk ← isTaken idx;
  if negb tk then mret 0 else
  sz ← size idx;
  sz ← chk (sz * 4);
  newPtr ← malloc newSize;
  (if decide (newPtr ≠ 0) then
     let m := if decide (newSize > u32 sz) then sz else newSize in
     dst ← index_at newPtr;
     copy_bytes (dst + 1) (idx + 1) m
   else mret ());;
  free p;;
  mret newPtr.
End heap.

Example heap_init_small :
  match heap_init fresh with
  | Ok _ h => (avail h, List.map (array h) [0; 1; 2; 3; 4; INTS - 3; INTS - 2; INTS - 1])
  | _ => (0, [])
  end = (2, [-2; -2; INTS - 4; 0; 0; INTS - 4; -2; -2]).
Proof. vm_compute. reflexivity. Qed.

(** ** Following the kernel's functions *)

Definition follows {S A} (m m' : M S A) : Prop := ∀ s a s', m' s = Ok a s' → m s = Ok a s'.

Section follows.
Context {S : Type}.

Lemma follows_refl {A} (m : M S A) : follows m m.
Proof. by intros s a s'. Qed.

Lemma follows_panic {A} (m : M S A) : follows m panic.
Proof. by intros s a s'. Qed.

Lemma follows_bind {A B} (m m' : M S A) (f f' : A → M S B) :
  follows m m' → (∀ a, follows (f a) (f' a)) → follows (m ≫= f) (m' ≫= f').
Proof.
  intros Hm Hf s b s' (a & s1 & E1 & E2)%bind_Ok. apply bind_Ok.
  exists a, s1. split; [by apply Hm|by apply Hf].
Qed.

Lemma follows_wp {A} (m m' : M S A) Q s : follows m m' → wp m' Q s → wp m Q s.
Proof. intros Hf (a & s' & E & HQ)%wp_Ok. apply wp_Ok. exists a, s'. split; [by apply Hf|done]. Qed.
End follows.

(** Walks two programs of the same shape. *)
Ltac follow :=
  repeat first
    [ apply follows_refl
    | apply follows_panic
    | assumption
    | apply follows_bind; [|intros]
    | match goal with |- follows (if decide ?P then _ else _) (if decide ?P then _ else _) => destruct (decide P) end
    | match goal with |- follows (if ?b then _ else _) (if ?b then _ else _) => destruct b end
    | match goal with |- follows (let '(_, _) := ?r in _) _ => destruct r end ].

Lemma sanity_follows i : follows (sanity i) (Heap.sanity i).
Proof. unfold sanity, Heap.sanity. by follow. Qed.

Lemma left_follows i : follows (left i) (Heap.left i).
Proof. unfold left, Heap.left. by follow. Qed.

Lemma right_follows i : follows (right i) (Heap.right i).
Proof. unfold right, Heap.right. by follow. Qed.

Lemma next1_follows i : follows (next1 i) (Heap.next i).
Proof. unfold next1, Heap.next. by follow. Qed.

Lemma prev1_follows i : follows (prev1 i) (Heap.prev i).
Proof. unfold prev1, Heap.prev. by follow. Qed.

Lemma remove_follows i : follows (remove i) (Heap.remove i).
Proof. unfold remove, Heap.remove. by follow. Qed.

Lemma take_fit_follows base p sz ints : follows (take_fit base p sz ints) (take_block base p sz ints).
Proof. unfold take_fit, take_block. by follow. Qed.

(** On the index of a block the two computations of [free] agree, as long
    as the array lies in one half of the address space. *)
Definition one_half (base l : Z) : Prop :=
  0 < base ∧ (base + 4 * l ≤ 2 ^ 31 ∨ 2 ^ 31 ≤ base ∧ base + 4 * l ≤ 2 ^ 32).

Lemma index_at_block base x l s :
  one_half base l → 0 ≤ x → x + 1 < l → index_at base (addr_of base (x + 1)) s = Ok x s.
Proof.
  intros [Hb Hh] Hx Hl. unfold index_at, addr_of. rewrite u32_small by lia.
  assert (Ei : i32 (base + 4 * (x + 1)) - i32 base = (x + 1) * 4).
  { unfold i32. destruct Hh as [Hh|[Hh ?]].
    - rewrite !Z.mod_small by lia. lia.
    - replace (base + 4 * (x + 1) + 2 ^ 31) with (base + 4 * (x + 1) - 2 ^ 31 + 1 * 2 ^ 32) by lia.
      replace (base + 2 ^ 31) with (base - 2 ^ 31 + 1 * 2 ^ 32) by lia.
      rewrite !Z.mod_add, !Z.mod_small by lia. lia. }
  rewrite Ei. apply bind_Ok. exists ((x + 1) * 4), s.
  split; [apply chk_Ok; split; [done|split; [done|unfold int_min, int_max; lia]]|].
  rewrite Z.quot_mul by lia. apply chk_Ok. split; [lia|]. split; [done|]. unfold int_min, int_max. lia.
Qed.

Lemma free_follows base x h l :
  one_half base l → 0 ≤ x → x + 1 < l → l ≤ int_max → ∀ a h',
  Heap.free base (addr_of base (x + 1)) h = Ok a h' → free base (addr_of base (x + 1)) h = Ok a h'.
Proof.
  intros Hh Hx Hl Hm a h'. destruct (idx_of_addr base x l) as (Ei & Hn1 & Hn2); [apply Hh|lia|lia|done| |].
  { destruct Hh. lia. }
  unfold Heap.free, free. rewrite !decide_False by done. rewrite Ei. cbv zeta. intros E.
  apply bind_Ok. exists x, h. split; [by eapply index_at_block|]. revert E.
  match goal with |- ?m h = _ → ?m' h = _ => enough (Hf : follows m' m) by apply Hf end.
  follow.
Qed.

(** ** Refinement *)

(** The first listed block that is large enough. *)
Fixpoint first_fit (sz : Z → Z) (ints : Z) (fl : list Z) : option Z :=
  match fl with
  | [] => None
  | x :: fl => if decide (ints ≤ sz x) then Some x else first_fit sz ints fl
  end.

Lemma first_fit_ext sz sz' ints fl :
  (∀ x, x ∈ fl → sz x = sz' x) → first_fit sz ints fl = first_fit sz' ints fl.
Proof.
  induction fl as [|x fl IH]; intros Heq; simpl; [done|].
  rewrite (Heq x), IH by set_solver. done.
Qed.

Lemma first_fit_Some sz ints fl x :
  first_fit sz ints fl = Some x →
  ∃ fl1 fl2, fl = fl1 ++ x :: fl2 ∧ ints ≤ sz x ∧ ∀ y, y ∈ fl1 → sz y < ints.
Proof.
  induction fl as [|y fl IH]; simpl; [done|]. destruct (decide _) as [Hy|Hy].
  - intros [= ->]. exists [], fl. split; [done|]. split; [done|]. set_solver.
  - intros (fl1 & fl2 & -> & Hx & Hl)%IH. exists (y :: fl1), fl2. split; [done|]. split; [done|].
    intros z [->|Hz]%elem_of_cons; [lia|auto].
Qed.

Lemma first_fit_None sz ints fl : first_fit sz ints fl = None → ∀ y, y ∈ fl → sz y < ints.
Proof.
  induction fl as [|y fl IH]; simpl; [set_solver|]. destruct (decide _); [done|].
  intros HN z [->|Hz]%elem_of_cons; [lia|auto].
Qed.

Section refinement.
Variable base : Z.
Implicit Types (h : heap) (A : astate).

Definition search_post ints h A (p : Z) h' : Prop :=
  match first_fit (array h) ints (flist A) with
  | Some x => p = addr_of base (x + 1) ∧ rep h' (carve x ints A)
  | None => p = 0 ∧ rep h' A
  end ∧ keeps (taken_word 0 (blocks A)) h h'.

Lemma wp_usearch h A ints fl2 : ∀ fuel fl1 prv p,
  rep h A → flist A = fl1 ++ fl2 → dll (array h) prv p fl2 → (length fl2 < fuel)%nat → 4 ≤ ints →
  first_fit (array h) ints (flist A) = first_fit (array h) ints fl2 →
  wp (iter fuel (search_step base ints) p) (search_post ints h A) h.
Proof.
  induction fl2 as [|x fl2 IH]; intros [|fuel] fl1 prv p Hr Efl Hd Hfuel Hi Hff; simpl in Hfuel; try lia;
    cbn [iter]; apply wp_bind; unfold search_step.
  - simpl in Hd. subst p. rewrite decide_False by lia. apply wp_ret, wp_ret.
    unfold search_post. rewrite Hff. simpl. split; [done|]. by split.
  - destruct Hd as (-> & Hx0 & _ & Hd). pose proof (rep_linked _ _ Hr) as Hl.
    assert (Hin : x ∈ flist A) by (rewrite Efl; set_solver).
    destruct (linked_member _ _ _ _ Hl Hin) as (?&?&?).
    pose proof (linked_member_valid _ _ _ _ Hl Hin) as Hv.
    destruct (linked_sizes _ _ _ _ Hl Hv) as (?&?&?&?).
    rewrite decide_True by lia. unfold isAvail. heap_steps.
    eapply (follows_wp _ (Heap.size x)); [by follow|]. apply wp_size; [done..|].
    replace (Z.abs (array h x)) with (array h x) in * by lia. simpl in Hff.
    destruct (decide (ints ≤ array h x)) as [Hfit|Hfit].
    + rewrite decide_True by lia. apply wp_bind. eapply follows_wp; [apply take_fit_follows|].
      eapply wp_mono; [by apply wp_take_block|]. intros p h' (-> & Hr' & Hk). apply wp_ret, wp_ret.
      unfold search_post. by rewrite Hff.
    + rewrite decide_False by lia. apply wp_bind. eapply follows_wp; [apply next1_follows|].
      rewrite Efl in Hl. destruct (linked_neighbours _ _ _ _ _ Hl) as [_ Hn].
      apply wp_next; [lia|lia| |].
      { destruct Hn; [by left|right]. eapply linked_member_valid; [done|]. set_solver. }
      apply wp_ret. eapply (IH fuel (fl1 ++ [x])); [done| |done|lia|done|done].
      rewrite Efl. by rewrite <-app_assoc.
Qed.

Lemma wp_umalloc h A bytes :
  rep h A → bytes ≠ 0 → wp (malloc base bytes) (search_post (ints_of bytes) h A) h.
Proof.
  intros Hr Hb. unfold malloc. rewrite decide_False by done.
  pose proof (rep_linked _ _ Hr) as Hl. pose proof (linked_length _ _ _ Hl).
  apply wp_bind, wp_gets, wp_bind. eapply follows_wp; [apply sanity_follows|].
  apply wp_sanity; [apply Hl| |].
  { pose proof (dll_head _ _ _ _ (lk_dll _ _ _ Hl)) as Ea. destruct (flist A) as [|y fl] eqn:E; [by left|right].
    simpl in Ea. rewrite Ea. eapply linked_member_valid; [exact Hl|]. by left. }
  apply wp_bind, wp_gets. eapply (wp_usearch h A _ (flist A) _ []); [done|done|apply Hl|lia|apply ints_of_bound|done].
Qed.

Lemma wp_ufree h A l b r :
  rep h A → blocks A = l ++ b :: r → b ≤ -4 → one_half base (len h) →
  wp (free base (addr_of base (total l + 1)))
     (λ _ h', rep h' (release (total l) A) ∧ keeps (outside l (Z.abs b) r) h h') h.
Proof.
  intros Hr E Hb Hh.
  pose proof (lk_total _ _ _ (rep_linked _ _ Hr)) as Ht. rewrite E, total_app in Ht. simpl in Ht.
  pose proof (total_nonneg l). pose proof (total_nonneg r). pose proof (lk_len _ _ _ (rep_linked _ _ Hr)).
  destruct (proj1 (wp_Ok _ _ _) (Heap.wp_free base h A l b r Hr E Hb (proj1 Hh)
    ltac:(destruct Hh; lia))) as ([] & h' & Ef & HQ).
  apply wp_Ok. exists (), h'. split; [|done]. by eapply free_follows; [exact Hh|lia|lia|lia|].
Qed.
End refinement.

(** ** Copying between blocks *)

(** Bytes [0 .. m) of the words from [src] are those of the words from
    [dst], which lie in the payload of the block at [y]; nothing else has
    changed. *)
Record copied_bytes (dst src m : Z) (h h' : heap) : Prop := {
  cb_words : ∀ i, 0 ≤ i → 4 * i + 4 ≤ m → array h' (dst + i) = array h (src + i);
  cb_last : array h' (dst + m / 4) mod 2 ^ (8 * (m mod 4)) = array h (src + m / 4) mod 2 ^ (8 * (m mod 4));
  cb_rest : ∀ j, j < dst ∨ dst + (m + 3) / 4 ≤ j → array h' j = array h j;
  cb_len : len h' = len h ∧ safe h' = safe h
}.

Lemma copy_low_mod k dst src : 0 ≤ k → copy_low k dst src mod 2 ^ (8 * k) = src mod 2 ^ (8 * k).
Proof.
  intros Hk. unfold copy_low. assert (0 < 2 ^ (8 * k)) by (apply Z.pow_pos_nonneg; lia).
  rewrite Z.add_mod, (Zminus_mod dst), Z.mod_mod, Z.sub_diag, Z.mod_0_l, Z.add_0_l, !Z.mod_mod by lia. done.
Qed.

Lemma wp_copy_bytes h A y src m :
  rep h A → bsize (blocks A) y < 0 → 0 ≤ m ≤ 4 * (- bsize (blocks A) y - 2) →
  0 ≤ src → src + (m + 3) / 4 ≤ len h →
  (src + (m + 3) / 4 ≤ y + 1 ∨ y - bsize (blocks A) y - 1 ≤ src) →
  wp (copy_bytes (y + 1) src m) (λ _ h', rep h' A ∧ copied_bytes (y + 1) src m h h') h.
Proof.
  intros Hr Hy Hm Hs0 Hs1 Hdis. pose proof (taken_bounds h A y Hr Hy) as Hb.
  pose proof (Z.div_mod (m + 3) 4 ltac:(lia)) as E4. pose proof (Z.mod_pos_bound (m + 3) 4 ltac:(lia)).
  pose proof (Z.div_mod m 4 ltac:(lia)) as E0. pose proof (Z.mod_pos_bound m 4 ltac:(lia)).
  unfold copy_bytes. apply (wp_iter
    (λ i h', 0 ≤ i ∧ 4 * i ≤ m ∧ rep h' A ∧ len h' = len h ∧ safe h' = safe h ∧
       (∀ j, 0 ≤ j < i → array h' (y + 1 + j) = array h (src + j)) ∧
       (∀ j, j < y + 1 ∨ y + 1 + i ≤ j → array h' j = array h j))
    (λ i _, Z.to_nat (m - i))).
  - intros i h1 (Hi0 & Hi1 & Hr1 & Hl1 & Hsf1 & Hc1 & Ho1). destruct (decide (4 * i + 4 ≤ m)) as [Hw|Hw].
    + apply wp_bind, wp_rd; [lia|]. rewrite Ho1 by lia. apply wp_bind, wp_wr; [lia|]. apply wp_ret.
      split; [|lia]. split; [lia|]. split; [lia|]. split; [apply (rep_write h1 A y); [done|done|lia]|].
      split; [done|]. split; [done|]. simpl. split.
      * intros j Hj. destruct (decide (j = i)) as [->|]; [apply upd_eq|]. rewrite upd_ne by lia. apply Hc1. lia.
      * intros j Hj. rewrite upd_ne by lia. apply Ho1. lia.
    + assert (i = m / 4) as -> by lia. destruct (decide (4 * (m / 4) < m)) as [Hw2|Hw2].
      * assert (m mod 4 = m - 4 * (m / 4)) as Em by lia.
        apply wp_bind, wp_rd; [lia|]. apply wp_bind, wp_rd; [lia|]. apply wp_bind, wp_wr; [lia|]. apply wp_ret.
        split; [apply (rep_write h1 A y); [done|done|lia]|]. split; simpl; [| | |done].
        -- intros i Hi Him. rewrite upd_ne by lia. apply Hc1. lia.
        -- rewrite upd_eq, Em, copy_low_mod by lia. by rewrite (Ho1 (src + m / 4)) by lia.
        -- intros j Hj. rewrite upd_ne by lia. apply Ho1. lia.
      * apply wp_ret. assert (m mod 4 = 0) as Em by lia. split; [done|]. split; [| | |done].
        -- intros i Hi Him. apply Hc1. lia.
        -- rewrite Em. by rewrite !Z.mod_1_r.
        -- intros j Hj. apply Ho1. lia.
  - split; [lia|]. split; [lia|]. split; [done|]. split; [done|]. split; [done|]. split; [intros; lia|done].
  - lia.
Qed.

(** ** Properties *)

Section properties.
Implicit Types (h : heap) (A : astate).

(** [heap_init] turns the statics of a new process into a well-formed
    heap of [INTS] words: two fences and one available block. *)
Theorem heap_init_establishes :
  ∃ h, heap_init fresh = Ok () h ∧ rep h (mkA [-2; INTS - 4; -2] [2]) ∧ len h = INTS ∧ safe h = 1.
Proof.
  assert (Hl : INTS = 1048576) by done.
  destruct (proj1 (wp_Ok heap_init (λ _ h, rep h (mkA [-2; INTS - 4; -2] [2]) ∧ len h = INTS ∧ safe h = 1) fresh))
    as ([] & h & E & HQ); [|by exists h].
  unfold heap_init. apply wp_bind. eapply (follows_wp _ (Heap.makeTaken 0 2)); [by follow|].
  apply wp_makeTaken; simpl; [lia|lia|rewrite Hl; lia|rewrite Hl; unfold int_max; lia|].
  heap_step. heap_step. simpl. rewrite ?Hl. heap_step. heap_step. heap_step.
  eapply (follows_wp _ (Heap.makeAvail 2 _)); [by follow|].
  apply wp_makeAvail; simpl; [lia|lia|rewrite Hl; lia|rewrite Hl; unfold int_max; lia|by left|].
  heap_step. heap_step. simpl. rewrite ?Hl. heap_step. heap_step.
  eapply (follows_wp _ (Heap.makeTaken _ 2)); [by follow|].
  apply wp_makeTaken; simpl; [lia|lia|rewrite Hl; lia|rewrite Hl; unfold int_max; lia|].
  split; [|done]. rewrite ?Hl. apply rep_fresh; simpl; unfold relink; rewrite ?decide_False by lia;
    upd_simp; try lia; try done; unfold int_max; lia.
Qed.

(** [malloc] on a well-formed heap is first fit: null, with the heap
    as it was, exactly when no listed block is large enough; otherwise the
    first one that is, carved to size.  Taken blocks keep their words. *)
Theorem user_malloc_first_fit base h A bytes :
  rep h A → 0 < bytes < 2 ^ 32 - 3 →
  ∃ p h', malloc base bytes h = Ok p h' ∧ keeps (taken_word 0 (blocks A)) h h' ∧
    bytes ≤ 4 * (ints_of bytes - 2) ∧
    ((p = 0 ∧ rep h' A ∧ ∀ x, x ∈ flist A → bsize (blocks A) x < ints_of bytes) ∨
     ∃ fl1 x fl2, flist A = fl1 ++ x :: fl2 ∧ (∀ y, y ∈ fl1 → bsize (blocks A) y < ints_of bytes) ∧
       ints_of bytes ≤ bsize (blocks A) x ∧ p = addr_of base (x + 1) ∧ rep h' (carve x (ints_of bytes) A)).
Proof.
  intros Hr Hb. destruct (proj1 (wp_Ok _ _ _) (wp_umalloc base h A bytes Hr ltac:(lia))) as (p & h' & E & HQ & Hk).
  exists p, h'. split; [done|]. split; [done|]. split; [by apply ints_of_payload|].
  rewrite (first_fit_ext _ (bsize (blocks A))) in HQ by (intros x Hx; by rewrite (rep_bsize h A)).
  destruct (first_fit _ _ _) as [x|] eqn:Ef; destruct HQ as [-> Hr'].
  - right. destruct (first_fit_Some _ _ _ _ Ef) as (fl1 & fl2 & Efl & Hx & Hl). by exists fl1, x, fl2.
  - left. split; [done|]. split; [done|]. by apply first_fit_None.
Qed.
End properties.

(** ** realloc *)

Section realloc.
Variable base : Z.
Implicit Types (h : heap) (A : astate).

(** What [realloc] has made of the block [b] at [x]: without a block that
    fits, null, and the old block is gone; otherwise a new block with the
    bytes of the old one's payload, up to the smaller size. *)
Definition realloc_post h A (x b n p : Z) h' : Prop :=
  let ints := ints_of n in
  match first_fit (bsize (blocks A)) ints (flist A) with
  | None => p = 0 ∧ rep h' (release x A)
  | Some it =>
      p = addr_of base (it + 1) ∧ rep h' (release x (carve it ints A)) ∧ n ≤ 4 * (ints - 2) ∧
      (∀ i, 0 ≤ i → 4 * i + 4 ≤ Z.min n (4 * (Z.abs b - 2)) → array h' (it + 1 + i) = array h (x + 1 + i)) ∧
      let q := Z.min n (4 * (Z.abs b - 2)) / 4 in
      let k := Z.min n (4 * (Z.abs b - 2)) mod 4 in
      array h' (it + 1 + q) mod 2 ^ (8 * k) = array h (x + 1 + q) mod 2 ^ (8 * k)
  end ∧
  ∀ y j, y ≠ x → bsize (blocks A) y < 0 → y ≤ j < y - bsize (blocks A) y → array h' j = array h j.

(** Freeing [b] at [x] keeps every word of another taken block. *)
Lemma wp_free_other h A x (Q : () → heap → Prop) :
  rep h A → bsize (blocks A) x ≤ -4 → one_half base (len h) →
  (∀ h', rep h' (release x A) → (∀ y j, y ≠ x → bsize (blocks A) y < 0 → y ≤ j < y - bsize (blocks A) y →
     array h' j = array h j) → Q () h') →
  wp (free base (addr_of base (x + 1))) Q h.
Proof.
  intros Hr Hb Hh HQ. destruct (bsize_split (blocks A) x) as (l & r & E & Ex); [lia|].
  rewrite Ex. eapply wp_mono; [by eapply (wp_ufree base h A l _ r)|]. intros [] h' [Hr' Hk].
  rewrite <-Ex in Hr'. apply HQ; [done|]. intros y j Hne Hy Hj. apply Hk.
  pose proof (lk_sizes _ _ _ (rep_linked _ _ Hr)) as Hok. rewrite E in Hy, Hj, Hok.
  eapply outside_bsize; [done| |done|done]. congruence.
Qed.

(** The new block and the copy into it. *)
Lemma wp_realloc_copy h A x b n it h1 (Q : () → heap → Prop) :
  rep h A → bsize (blocks A) x = b → b ≤ -4 → 0 < n < 2 ^ 32 - 3 → one_half base (len h) →
  x + 2 - b ≤ len h → it ∈ flist A → ints_of n ≤ bsize (blocks A) it →
  rep h1 (carve it (ints_of n) A) → keeps (taken_word 0 (blocks A)) h h1 →
  let m := if decide (n > Z.abs b * 4) then Z.abs b * 4 else n in
  (∀ h2, rep h2 (carve it (ints_of n) A) → copied_bytes (it + 1) (x + 1) m h1 h2 → Q () h2) →
  wp (if decide (addr_of base (it + 1) ≠ 0) then
        dst ← index_at base (addr_of base (it + 1)); copy_bytes (dst + 1) (x + 1) m
      else mret ()) Q h1.
Proof.
  intros Hr Ex Hb Hn Hh Hx Hin Hfit Hr1 Hk m HQ. pose proof (ints_of_bound n). pose proof (ints_of_payload n Hn).
  destruct (carve_bsize h A it (ints_of n) Hr) as (_ & Hit & Hold); [done|lia|].
  destruct (Hold x ltac:(lia)) as [Hne Hx1]. pose proof (proj1 Hk) as Hlen.
  pose proof (taken_bounds h A x Hr ltac:(lia)). pose proof (taken_bounds h1 _ it Hr1 ltac:(lia)).
  destruct (idx_of_addr base it (len h)) as (_ & Hp0 & _); [apply Hh|lia|lia|lia|destruct Hh; lia|].
  rewrite decide_True by done. apply wp_bind, wp_Ok. exists it, h1.
  split; [apply (index_at_block base it (len h)); [done|lia|lia]|].
  assert (Hm : 0 ≤ m ≤ n ∧ m ≤ Z.abs b * 4) by (unfold m; destruct (decide _); lia).
  pose proof (Z.div_mod (m + 3) 4 ltac:(lia)). pose proof (Z.mod_pos_bound (m + 3) 4 ltac:(lia)).
  eapply wp_mono; [apply (wp_copy_bytes h1 _ it (x + 1) m Hr1); [lia|lia|lia|lia|]|].
  - destruct (taken_disjoint h1 _ x it Hr1) as [|]; [lia|lia|lia|left; lia|right; lia].
  - intros [] h2 [Hr2 Hc]. by apply HQ.
Qed.

(** What the copy and the release leave in the words of taken blocks. *)
Lemma realloc_contents h A x b n it h1 h2 h3 :
  rep h A → bsize (blocks A) x = b → b ≤ -4 → 0 < n < 2 ^ 32 - 3 →
  it ∈ flist A → ints_of n ≤ bsize (blocks A) it →
  rep h1 (carve it (ints_of n) A) → keeps (taken_word 0 (blocks A)) h h1 →
  copied_bytes (it + 1) (x + 1) (if decide (n > Z.abs b * 4) then Z.abs b * 4 else n) h1 h2 →
  rep h3 (release x (carve it (ints_of n) A)) →
  (∀ y j, y ≠ x → bsize (blocks (carve it (ints_of n) A)) y < 0 →
     y ≤ j < y - bsize (blocks (carve it (ints_of n) A)) y → array h3 j = array h2 j) →
  (addr_of base (it + 1) = addr_of base (it + 1) ∧ rep h3 (release x (carve it (ints_of n) A)) ∧
   n ≤ 4 * (ints_of n - 2) ∧
   (∀ i, 0 ≤ i → 4 * i + 4 ≤ Z.min n (4 * (Z.abs b - 2)) → array h3 (it + 1 + i) = array h (x + 1 + i)) ∧
   array h3 (it + 1 + Z.min n (4 * (Z.abs b - 2)) / 4) mod 2 ^ (8 * (Z.min n (4 * (Z.abs b - 2)) mod 4)) =
   array h (x + 1 + Z.min n (4 * (Z.abs b - 2)) / 4) mod 2 ^ (8 * (Z.min n (4 * (Z.abs b - 2)) mod 4))) ∧
  ∀ y j, y ≠ x → bsize (blocks A) y < 0 → y ≤ j < y - bsize (blocks A) y → array h3 j = array h j.
Proof.
  intros Hr Ex Hb Hn Hin Hfit Hr1 Hk [Hw Hlast Hrest _] Hr3 Ho.
  pose proof (ints_of_bound n). pose proof (ints_of_payload n Hn).
  destruct (carve_bsize h A it (ints_of n) Hr) as (_ & Hit & Hold); [done|lia|].
  destruct (Hold x ltac:(lia)) as [Hne _].
  assert (Hm : (if decide (n > Z.abs b * 4) then Z.abs b * 4 else n) = Z.min n (Z.abs b * 4))
    by (destruct (decide _); lia).
  rewrite Hm in *. clear Hm.
  assert (Hsrc : ∀ i, 0 ≤ i < Z.abs b - 1 → array h1 (x + 1 + i) = array h (x + 1 + i)).
  { intros i Hi. apply Hk, (taken_word_bsize _ x); lia. }
  assert (Hdst : ∀ i, 0 ≤ i < ints_of n - 1 → array h3 (it + 1 + i) = array h2 (it + 1 + i)).
  { intros i Hi. apply (Ho it); lia. }
  split; [split; [done|]; split; [done|]; split; [done|]; split|].
  - intros i Hi Hn'. rewrite Hdst, Hw, Hsrc by lia. done.
  - destruct (decide (n < 4 * (Z.abs b - 2))) as [Hlt|Hge].
    + replace (Z.min n (4 * (Z.abs b - 2))) with n by lia. replace (Z.min n (Z.abs b * 4)) with n in Hlast by lia.
      pose proof (Z.div_mod n 4 ltac:(lia)). pose proof (Z.mod_pos_bound n 4 ltac:(lia)).
      rewrite Hdst, Hlast, Hsrc by lia. done.
    + replace (Z.min n (4 * (Z.abs b - 2))) with (0 + (Z.abs b - 2) * 4) by lia.
      rewrite Z.mod_add by lia. change (2 ^ (8 * (0 mod 4))) with 1. by rewrite !Z.mod_1_r.
  - intros y j Hy Hty Hj. destruct (Hold y Hty) as [Hyit Ey]. rewrite (Ho y j Hy) by (rewrite Ey; lia).
    rewrite Hrest; [by apply Hk, (taken_word_bsize _ y)|].
    assert (Hb1 : bsize (blocks (carve it (ints_of n) A)) y < 0) by lia.
    pose proof (Z.div_mod (Z.min n (Z.abs b * 4) + 3) 4 ltac:(lia)).
    pose proof (Z.mod_pos_bound (Z.min n (Z.abs b * 4) + 3) 4 ltac:(lia)).
    assert (Hmb : (Z.min n (Z.abs b * 4) + 3) / 4 ≤ ints_of n - 2) by lia.
    destruct (taken_disjoint h1 _ y it Hr1) as [|]; [lia|lia|lia|left; lia|right; lia].
Qed.

Lemma wp_realloc h A x b n :
  rep h A → bsize (blocks A) x = b → b ≤ -4 → 0 < n < 2 ^ 32 - 3 → one_half base (len h) →
  wp (realloc base (addr_of base (x + 1)) n) (realloc_post h A x b n) h.
Proof.
  intros Hr Ex Hb Hn Hh. pose proof (taken_bounds h A x Hr ltac:(lia)) as Hxb.
  destruct (idx_of_addr base x (len h)) as (_ & Hp0 & _); [apply Hh|lia|lia|lia|destruct Hh; lia|].
  destruct (bsize_split (blocks A) x) as (l & r & E & El); [lia|].
  pose proof (rep_linked _ _ Hr) as Hl. pose proof Hl as Hl'. rewrite E in Hl'.
  destruct (linked_valid _ _ _ _ _ Hl') as [Ea Hv]. destruct (linked_sizes _ _ _ _ Hl' Hv) as (?&?&?&?).
  destruct (taken_neighbours _ _ _ _ _ Hr E ltac:(lia)) as (_ & _ & d & r0 & _ & Er & _ & Hd & _).
  pose proof (lk_total _ _ _ Hl') as Ht. rewrite total_app, Er in Ht. simpl in Ht. pose proof (total_nonneg r0).
  rewrite <-El, Ex in *.
  unfold realloc. rewrite !decide_False by lia.
  apply wp_bind, wp_Ok. exists x, h. split; [apply (index_at_block base x (len h)); [done|lia|lia]|].
  apply wp_bind. eapply follows_wp; [apply sanity_follows|]. apply wp_sanity; [lia|by right|].
  unfold isTaken. do 4 heap_step. rewrite Ea, bool_decide_true by lia. cbn [negb].
  apply wp_bind. eapply (follows_wp _ (Heap.size x)); [by follow|]. apply wp_size; [done|done|]. rewrite Ea.
  assert (Hh4 : 4 * len h ≤ 2 ^ 31 ) by (destruct Hh; lia).
  apply wp_bind, wp_chk; [unfold int_min, int_max; lia|]. rewrite u32_small by lia.
  apply wp_bind. eapply wp_mono; [apply (wp_umalloc base h A n Hr); lia|].
  intros p h1 [HQ Hk1]. rewrite (first_fit_ext _ (bsize (blocks A))) in HQ by (intros y Hy; by rewrite (rep_bsize h A)).
  unfold realloc_post. destruct (first_fit _ _ _) as [it|] eqn:Eff; destruct HQ as [-> Hr1].
  - destruct (first_fit_Some _ _ _ _ Eff) as (fl1 & fl2 & Efl & Hfit & _).
    assert (Hin : it ∈ flist A) by (rewrite Efl; set_solver). pose proof (ints_of_bound n).
    apply wp_bind. eapply (wp_realloc_copy h A x b n it h1); try done; [lia|].
    intros h2 Hr2 Hc. destruct (cb_len _ _ _ _ _ Hc) as [Hl2 _]. pose proof (proj1 Hk1) as Hl1.
    destruct (carve_bsize h A it (ints_of n) Hr) as (_ & Hit & Hold); [done|lia|].
    destruct (Hold x ltac:(lia)) as [Hne Hx1].
    apply wp_bind. eapply wp_free_other; [exact Hr2|lia|by rewrite Hl2, Hl1|].
    intros h3 Hr3 Ho. apply wp_ret. apply (realloc_contents h A x b n it h1 h2 h3); try done; lia.
  - rewrite decide_False by (by intros []). apply wp_bind, wp_ret, wp_bind.
    eapply wp_free_other; [exact Hr1|lia|by rewrite (proj1 Hk1)|]. intros h2 Hr2 Ho. apply wp_ret.
    split; [done|]. intros y j Hne Hy Hj. rewrite (Ho y j Hne Hy Hj). by apply Hk1, (taken_word_bsize _ y).
Qed.
End realloc.

Section realloc_property.
Implicit Types (h : heap) (A : astate).

(** C36. [realloc] of a held block to a non-zero size returns; if a listed
    block fits, the first one does, the result holds the bytes of the old
    payload up to the smaller of the two sizes and the old block has been
    released; if none fits the result is null and the old block has been
    released all the same.  No other taken block changes. *)
Theorem realloc_moves base h A x n :
  rep h A → bsize (blocks A) x ≤ -4 → 0 < n < 2 ^ 32 - 3 → one_half base (len h) →
  ∃ p h', realloc base (addr_of base (x + 1)) n h = Ok p h' ∧
          realloc_post base h A x (bsize (blocks A) x) n p h'.
Proof.
  intros Hr Hb Hn Hh.
  destruct (proj1 (wp_Ok _ _ _) (wp_realloc base h A x _ n Hr eq_refl Hb Hn Hh)) as (p & h' & ? & ?).
  by exists p, h'.
Qed.
End realloc_property.

(** ** Witnesses *)

Lemma user_malloc_first_fit_witness :
  ∃ p h', malloc 4096 8 sample_heap = Ok p h' ∧
    keeps (taken_word 0 (blocks sample_state)) sample_heap h' ∧ 8 ≤ 4 * (ints_of 8 - 2) ∧
    ((p = 0 ∧ rep h' sample_state ∧
        ∀ x, x ∈ flist sample_state → bsize (blocks sample_state) x < ints_of 8) ∨
     ∃ fl1 x fl2, flist sample_state = fl1 ++ x :: fl2 ∧
       (∀ y, y ∈ fl1 → bsize (blocks sample_state) y < ints_of 8) ∧
       ints_of 8 ≤ bsize (blocks sample_state) x ∧ p = addr_of 4096 (x + 1) ∧
       rep h' (carve x (ints_of 8) sample_state)).
Proof. apply (user_malloc_first_fit 4096 sample_heap sample_state 8); [apply sample_rep|lia]. Defined.

Lemma realloc_moves_witness :
  ∃ p h', realloc 4096 (addr_of 4096 3) 16 sample_heap = Ok p h' ∧
          realloc_post 4096 sample_heap sample_state 2 (bsize (blocks sample_state) 2) 16 p h'.
Proof.
  apply (realloc_moves 4096 sample_heap sample_state 2 16);
    [apply sample_rep|vm_compute; congruence|lia|split; [lia|left; simpl; lia]].
Defined.
