(* ===== verification/Printf.v ===== *)
(** * The output functions of user programs (t0.dir/sbin/printf.c, libc.c)

    printf.c is the kernel's formatter with [putchar] for its stream; its
    functions are those of [Snprintf] over the operating system as the
    stream's state.  The system calls are an interface: a call that returns
    yields a value and a new state of the world. *)

From S2P Require Import Prelude.
From S2P Require Import Libk.
From S2P Require Import Snprintf.
From S2P Require Import Directives.

(** ** System calls, as a user program sees them (sys.h) *)

Class Os (W : Type) := {
  os_write : Z → list Z → W → Z * W;         (** [write(fd, buf, nbyte)] *)
  os_read : Z → Z → W → Z * list Z * W;      (** [read(fd, buf, nbyte)]: value, bytes stored *)
  os_sem : Z → W → Z * W;
  os_up : Z → W → Z * W;
  os_down : Z → W → Z * W
}.

Definition call {W A} (f : W → A * W) : M W A := λ w, let '(a, w') := f w in Ok a w'.

Section printf.
Context {W : Type} `{Os W} (deref : Z → list Z).

(** ** libc.c *)

Definition putchar (c : Z) : M W Z := call (os_write 1 [i8 c]).

Definition puts_body (st : list Z * Z) : M W ((list Z * Z) + (Z * bool)) :=
  let '(p, count) := st in
  r ← char_next p;
  let '(c, p) := r : Z * list Z in
  if decide (c ≠ 0) then
    n ← putchar c;
    if decide (n < 0) then mret (inr (n, false)) else
    count ← chk (count + 1);
    mret (inl (p, count))
  else mret (inr (count, true)).

Definition puts (p : list Z) : M W Z :=
  r ← iter (Datatypes.S (List.length p)) puts_body (p, 0);
  let '(n, fin) := r : Z * bool in
  if (fin : bool) then
    putchar (chr "010");;
    chk (n + 1)
  else mret n.

(** ** printf.c *)

Abbreviation stream := (λ (c : Z) (w : W), (os_write 1 [i8 c] w).2).

Definition dopr_outch : Z → M (fmt (W := W)) () := Snprintf.dopr_outch stream.
Definition fmtstr : option (list Z) → Z → Z → Z → M (fmt (W := W)) () := Snprintf.fmtstr stream.
Definition fmtint : Z → Z → Z → Z → Z → M (fmt (W := W)) () := Snprintf.fmtint stream.
Definition fmtfp : ldouble → Z → Z → Z → M (fmt (W := W)) () := Snprintf.fmtfp stream.
Definition abs_val : ldouble → ldouble := Snprintf.abs_val.
Definition pow10 : nat → ldouble := Snprintf.pow10.
Definition xround : ldouble → M (fmt (W := W)) Z := Snprintf.xround.
Definition dopr_conv : Z → dp → M (fmt (W := W)) Z := Snprintf.dopr_conv stream deref.
Definition dopr_body : Z → dp → M (fmt (W := W)) (dp + ()) := Snprintf.dopr_body stream deref.
Definition dopr : Z → M (fmt (W := W)) () := Snprintf.dopr stream deref.

Definition printf_init : M W Z := call (os_sem 1).

(** The stores made for [%n] are the second part of the result. *)
Definition vprintf (printf_sem : Z) (fmt args : list Z) : M W (Z * list (Z * Z * Z)) :=
  call (os_down printf_sem);;
  r ← (λ w, match dopr 1000 (mkFmt w 0 fmt args []) with
            | Ok _ f => Ok (stores f) (sink f)
            | Panicked f => Panicked (sink f)
            | Faulted => Faulted
            | OutOfFuel => OutOfFuel
            end);
  call (os_up printf_sem);;
  mret (1, r).

Definition printf : Z → list Z → list Z → M W (Z * list (Z * Z * Z)) := vprintf.

(** libc.c again: [cp(from, to)], inner loop first.  [file] is the pointer
    [__FILE__]; the line numbers are those of the source.  A write of zero
    bytes makes the inner loop go round for ever, so the loops have fuel. *)
Definition cp_write (printf_sem file to : Z) (ptr : list Z) : M W (list Z + ()) :=
  if decide (0 < Z.of_nat (List.length ptr)) then
    m ← call (os_write to ptr);
    if decide (m < 0) then
      printf printf_sem (cstring (lit "*** %s:%d write error, fd = %d" ++ [chr "010"])) [file; 34; to];;
      mret (inr ())
    else mret (inl (drop (Z.to_nat m) ptr))
  else mret (inr ()).

Definition cp_body (printf_sem file : Z) (fuel : nat) (from to : Z) (_ : ()) : M W (() + ()) :=
  r ← call (os_read from 100);
  let '(n, buf) := r : Z * list Z in
  if decide (n = 0) then mret (inr ()) else
  if decide (n < 0) then
    printf printf_sem (cstring (lit "*** %s:%d read error, fd = %d" ++ [chr "010"])) [file; 27; from];;
    mret (inr ())
  else
    iter fuel (cp_write printf_sem file to) (take (Z.to_nat n) buf);;
    mret (inl ()).

Definition cp (printf_sem file : Z) (fuel : nat) (from to : Z) : M W () :=
  iter fuel (cp_body printf_sem file fuel from to) ().
End printf.

(** ** Properties *)

Section properties.
Context {W : Type} `{Os W}.
Implicit Types w : W.

Abbreviation stream := (λ (c : Z) (w : W), (os_write 1 [i8 c] w).2).

(** [printf] and [vprintf] of a well-formed format take the semaphore,
    write what the items of the format say to descriptor 1, a character
    per call, at most 1000 characters before the last item, release the
    semaphore, and return 1. *)
Theorem vprintf_writes_items deref printf_sem its rest words w g :
  Forall item_ok its →
  perform_all stream deref 1000 its (mkFmt (os_down printf_sem w).2 0 [] words []) = Ok () g →
  printf deref printf_sem (unparse its ++ 0 :: rest) words w = Ok (1, stores g) (os_up printf_sem (sink g)).2.
Proof.
  intros Hok E. unfold printf, vprintf, dopr. cbv [mbind M_bind call].
  destruct (os_down printf_sem w) as [r w1]. cbn [snd] in E.
  destruct (dopr_performs stream deref 1000 its rest words w1 g Hok E) as [q ->].
  cbn. by destruct (os_up printf_sem (sink g)).
Qed.

(** Every write to the console is accepted. *)
Definition writes_ok : Prop := ∀ fd buf w, 0 ≤ (os_write fd buf w).1.

Definition put_all (s : list Z) (w : W) : W := foldl (λ w c, stream c w) w s.

Lemma wp_puts_loop s rest n w fuel (Q : Z * bool → W → Prop) :
  writes_ok → (0 ∉ s) → (length s < fuel)%nat → 0 ≤ n → n + Z.of_nat (length s) ≤ int_max →
  Q (n + Z.of_nat (length s), true) (put_all s w) →
  wp (iter fuel puts_body (s ++ 0 :: rest, n)) Q w.
Proof.
  intros Hok. revert n w fuel. induction s as [|c s IH]; intros n w fuel Hs Hf Hn Hmax HQ.
  - destruct fuel as [|fuel]; [simpl in Hf; lia|]. cbn [iter]. unfold puts_body.
    apply wp_bind, wp_bind, wp_ret. rewrite decide_False by (by intros []).
    apply wp_ret, wp_ret. by replace n with (n + Z.of_nat (length (@nil Z))) by (simpl; lia).
  - destruct fuel as [|fuel]; [simpl in Hf; lia|]. cbn [iter]. unfold puts_body at 1. simpl in *.
    apply wp_bind, wp_bind, wp_ret. rewrite decide_True by set_solver.
    apply wp_bind. unfold putchar, call, wp. pose proof (Hok 1 [i8 c] w) as Hw.
    destruct (os_write 1 [i8 c] w) as [r w1] eqn:E. cbn [fst] in Hw.
    rewrite decide_False by lia. apply wp_bind, wp_chk; [unfold int_min, int_max in *; lia|].
    apply wp_ret. apply IH; [set_solver|lia|lia|lia|].
    by replace (n + 1 + Z.of_nat (length s)) with (n + Z.of_nat (S (length s))) by lia.
Qed.

(** [puts] writes the characters of the string and a newline to
    descriptor 1 and returns their number. *)
Theorem puts_writes p s w :
  writes_ok → points_to p s → Z.of_nat (length s) < int_max →
  puts p w = Ok (Z.of_nat (length s) + 1) (put_all (s ++ [chr "010"]) w).
Proof.
  intros Hok [Hs [rest ->]] Hlen.
  enough (Hwp : wp (puts (s ++ 0 :: rest))
    (λ r w', r = Z.of_nat (length s) + 1 ∧ w' = put_all (s ++ [chr "010"]) w) w).
  { by apply wp_Ok in Hwp as (r & w' & E & -> & ->). }
  unfold puts. apply wp_bind, wp_puts_loop; [done|done|rewrite length_app; simpl; lia|lia|lia|].
  apply wp_bind. unfold putchar, call, wp, put_all. rewrite foldl_app. simpl.
  destruct (os_write 1 [i8 (chr "010")] _) as [r w1].
  apply wp_chk; [unfold int_min, int_max in *; lia|]. split; [lia|done].
Qed.

(** What [cp] relies on: [read] stores the next bytes of the source, none
    at its end only, and [write] takes some of the bytes it is given. *)
Record cp_files (from to : Z) (rest out : W → list Z) : Prop := {
  cf_read : ∀ w, let '(n, buf, w') := os_read from 100 w in
    0 ≤ n ≤ 100 ∧ (n = 0 → rest w = []) ∧ take (Z.to_nat n) buf = take (Z.to_nat n) (rest w) ∧
    n ≤ Z.of_nat (length (rest w)) ∧ rest w' = drop (Z.to_nat n) (rest w) ∧ out w' = out w;
  cf_write : ∀ w buf, buf ≠ [] → let '(m, w') := os_write to buf w in
    0 < m ≤ Z.of_nat (length buf) ∧ out w' = out w ++ take (Z.to_nat m) buf ∧ rest w' = rest w
}.

Lemma wp_cp_write deref sem file from to rest out ptr w fuel (Q : () → W → Prop) :
  cp_files from to rest out → (length ptr < fuel)%nat →
  (∀ w', rest w' = rest w → out w' = out w ++ ptr → Q () w') →
  wp (iter fuel (cp_write deref sem file to) ptr) Q w.
Proof.
  intros Hc Hf HQ.
  apply (wp_iter (λ p w', rest w' = rest w ∧ out w' ++ p = out w ++ ptr) (λ p _, length p)).
  - intros p w1 [Hr Ho]. unfold cp_write. destruct (decide _) as [Hp|Hp].
    + assert (Hne : p ≠ []) by (intros ->; simpl in Hp; lia).
      pose proof (cf_write _ _ _ _ Hc w1 p Hne) as Hw. apply wp_bind. unfold call, wp.
      destruct (os_write to p w1) as [m w2]. destruct Hw as (Hm & Ho2 & Hr2).
      rewrite decide_False by lia. cbn. split; [split; [congruence|]|].
      * by rewrite Ho2, <-app_assoc, take_drop.
      * rewrite length_drop. lia.
    + apply wp_ret. assert (p = []) as -> by (destruct p; [done|simpl in Hp; lia]).
      rewrite app_nil_r in Ho. by apply HQ.
  - done.
  - done.
Qed.

(** C38. [cp] terminates having appended to its target exactly what was
    left of its source, however short the reads and writes are. *)
Theorem cp_copies deref sem file from to rest out w fuel :
  cp_files from to rest out → (length (rest w) + 101 < fuel)%nat →
  ∃ w', cp deref sem file fuel from to w = Ok () w' ∧ rest w' = [] ∧ out w' = out w ++ rest w.
Proof.
  intros Hc Hf.
  enough (Hwp : wp (cp deref sem file fuel from to)
    (λ _ w', rest w' = [] ∧ out w' = out w ++ rest w) w).
  { apply wp_Ok in Hwp as ([] & w' & E & HQ). by exists w'. }
  unfold cp. apply (wp_iter (λ _ w', out w' ++ rest w' = out w ++ rest w) (λ _ w', length (rest w'))).
  - intros [] w1 Hi. unfold cp_body. pose proof (cf_read _ _ _ _ Hc w1) as Hr. apply wp_bind. unfold call, wp.
    destruct (os_read from 100 w1) as [[n buf] w2]. destruct Hr as (Hn & Hz & Hb & Hl & Hr2 & Ho2).
    destruct (decide (n = 0)) as [->|Hn0].
    + cbn. rewrite Hr2, (Hz eq_refl), drop_nil. split; [done|].
      rewrite <-Hi, (Hz eq_refl), app_nil_r. congruence.
    + rewrite decide_False by lia. rewrite Hb. apply wp_bind.
      eapply (wp_cp_write _ _ _ _ _ _ _ _ _ _ _ Hc); [rewrite length_take; lia|].
      intros w3 Hr3 Ho3. apply wp_ret. rewrite Hr3, Ho3, Hr2, Ho2. split.
      * by rewrite <-app_assoc, take_drop.
      * rewrite length_drop. lia.
  - done.
  - lia.
Qed.
End properties.

(** ** Witnesses *)

(** A source and a target that move at most three bytes a call; descriptor
    1 is the target. *)
#[local] Instance sample_os : Os (list Z * list Z) := {|
  os_write _ buf w := (Z.of_nat (length (take 3 buf)), (w.1, w.2 ++ take 3 buf));
  os_read _ n w := (Z.of_nat (length (take 3 w.1)), take 3 w.1, (drop 3 w.1, w.2));
  os_sem _ w := (10, w); os_up _ w := (0, w); os_down _ w := (0, w)
|}.

Lemma vprintf_writes_items_witness :
  printf (λ _, []) 10 (unparse [Text (chr "x"); Text (chr "y")] ++ 0 :: []) [] ([], []) = Ok (1, []) ([], lit "xy").
Proof.
  refine (vprintf_writes_items (H := sample_os) (λ _, []) 10 [Text (chr "x"); Text (chr "y")] [] [] ([], [])
    (mkFmt ([], lit "xy") 2 [] [] []) _ _).
  - repeat constructor; try (apply (bool_decide_unpack _); by vm_compute).
  - vm_compute. reflexivity.
Defined.

Lemma puts_writes_witness :
  puts (cstring (lit "ab")) ([], []) = Ok (Z.of_nat (length (lit "ab")) + 1) (put_all (lit "ab" ++ [chr "010"]) ([], [])).
Proof.
  apply (puts_writes (H := sample_os)).
  - unfold writes_ok. intros fd buf w. simpl. lia.
  - apply points_to_cstring. apply (bool_decide_unpack _). by vm_compute.
  - by vm_compute.
Defined.

Lemma cp_copies_witness :
  ∃ w', cp (λ _, []) 10 5 200 3 1 (lit "hello", lit "x") = Ok () w' ∧ w'.1 = [] ∧ w'.2 = lit "x" ++ lit "hello".
Proof.
  apply (cp_copies (H := sample_os) (λ _, []) 10 5 3 1 fst snd (lit "hello", lit "x") 200); [|simpl; lia].
  split.
  - intros [r o]. unfold os_read, sample_os. cbn [fst snd]. rewrite Nat2Z.id, length_take.
    split; [lia|]. split; [intros; destruct r; [done|simpl in *; lia]|].
    destruct (decide (length r ≤ 3)%nat).
    + rewrite !take_ge, !drop_ge by (rewrite ?length_take; lia). split; [done|]. split; [lia|done].
    + replace (3 `min` length r)%nat with 3%nat by lia. rewrite take_take. split; [done|]. split; [lia|done].
  - intros [r o] buf Hb. unfold os_write, sample_os. cbn [fst snd]. rewrite Nat2Z.id, length_take.
    assert (0 < length buf)%nat by (destruct buf; [done|simpl; lia]).
    split; [lia|]. split; [|done]. f_equal. destruct (decide (length buf ≤ 3)%nat).
    + by rewrite !take_ge by lia.
    + by replace (3 `min` length buf)%nat with 3%nat by lia.
Defined.
