(* ===== verification/UserMain.v ===== *)
(** * The small user programs (sbin/echo.c, pwd.c, cd.c, init.c)

    [main] of the programs that make one call, and of the test program,
    over the output functions of [Printf].  Strings that programs are given
    are numbers, the addresses of their characters.  [echo_prints] says what
    echo writes; init is run in a small system, as parent, as child, and
    without a shell. *)

From S2P Require Import Prelude.
From S2P Require Import Libk.
From S2P Require Import Snprintf.
From S2P Require Import SnprintfProps.
From S2P Require Import Directives.
From S2P Require Import Printf.

(** The system calls that [Printf] has no use for.  [execl] that succeeds
    does not return, which is [None]; [wait] yields its value and the status
    it leaves in the variable; [shutdown] may return as far as its caller
    can tell. *)
Class Calls (W : Type) := {
  os_open : string → Z → W → Z * W;
  os_len : Z → W → Z * W;
  os_close : Z → W → Z * W;
  os_seek : Z → Z → W → Z * W;
  os_fork : W → Z * W;
  os_execl : string → list string → W → option Z * W;
  os_wait : Z → Z → W → (Z * Z) * W;
  os_shutdown : W → Z * W;
  os_pwd : W → Z * W;
  os_cd : Z → W → Z * W
}.

Section programs.
Context {W : Type} `{Os W} `{Calls W} (deref : Z → list Z) (printf_sem file : Z) (fuel : nat).

(** [argv[i]]: a null pointer is behind the last argument. *)
Definition argument (argv : list Z) (i : nat) : M W Z :=
  match (argv ++ [0]) !! i with Some p => mret p | None => fault end.

Definition print (f : string) (args : list Z) : M W () :=
  printf deref printf_sem (cstring (lit f)) args;; mret ().
Definition println (f : string) (args : list Z) : M W () :=
  printf deref printf_sem (cstring (lit f ++ [chr "010"])) args;; mret ().

Definition echo (argv : list Z) : M W Z := a ← argument argv 1; println "%s" [a];; mret 0.
Definition pwd : M W Z := call os_pwd;; mret 0.
Definition cd (argv : list Z) : M W Z := a ← argument argv 1; call (os_cd a);; mret 0.

(** ** init *)

Definition one (fd : Z) : M W () :=
  println "*** fd = %d" [fd];;
  n ← call (os_len fd);
  println "*** len = %d" [n];;
  cp deref printf_sem file fuel fd 2.

Fixpoint print_args (argv : list Z) : M W () :=
  match argv with [] => mret () | a :: argv => println "*** %s" [a];; print_args argv end.

(** The child's side of [fork]; [false] if its program has been replaced. *)
Definition in_child : M W bool :=
  println "*** in child" [];;
  r ← call (os_execl "/sbin/shell" ["shell"; "a"; "b"; "c"]%string);
  match r with
  | None => mret false
  | Some rc => println "*** execl failed, rc = %d" [rc];; mret true
  end.

Definition in_parent (id : Z) : M W bool :=
  r ← call (os_wait id 42);
  println "*** back from wait %ld" [r.2];;
  fd ← call (os_open "/etc/panic.txt" 0);
  cp deref printf_sem file fuel fd 1;;
  mret true.

(** [None] where the program has been replaced. *)
Definition init_main (argv : list Z) : M W (option Z) :=
  println "*** %d" [Z.of_nat (List.length argv)];;
  print_args argv;;
  fd ← call (os_open "/etc/data.txt" 0);
  one fd;;
  n ← call (os_close fd);
  println "*** close = %d" [n];;
  one fd;;
  one 100;;
  n ← call (os_open "/etc/data.txt" 0);
  println "*** open again %d" [n];;
  n ← call (os_seek 3 17);
  println "*** seek %ld" [n];;
  id ← call os_fork;
  goes_on ← (if decide (id < 0) then print "fork failed" [];; mret true
             else if decide (id = 0) then in_child else in_parent id);
  if goes_on : bool then call os_shutdown;; mret (Some 0) else mret None.

(** ** echo prints its argument *)

Definition echo_items : list item := [Directive (mkDir [] (Digits []) None None (chr "s")); Text (chr "010")].

Abbreviation stream := (λ (c : Z) (w : W), (os_write 1 [i8 c] w).2).

(** What the two items do to the stream. *)
Lemma echo_performs p s w :
  points_to (default (cstring (lit "<NULL>")) (str_arg deref p)) s → Z.of_nat (List.length s) < 1000 →
  ∃ g, perform_all stream deref 1000 echo_items (mkFmt w 0 [] [p] []) = Ok () g ∧
       sink g = foldl (λ w c, stream c w) w (s ++ [chr "010"]).
Proof.
  intros Hs Hlen.
  enough (Hwp : wp (perform_all stream deref 1000 echo_items)
    (λ _ g, sink g = foldl (λ w c, stream c w) w (s ++ [chr "010"])) (mkFmt w 0 [] [p] [])).
  { apply wp_Ok in Hwp as ([] & g & E & Hg). by exists g. }
  assert (Hpad : str_padded 0 0 s = s).
  { unfold str_padded. by replace (Z.to_nat _) with 0%nat by lia. }
  assert (Htext : str_text 0 0 1000 s = s) by (unfold str_text; rewrite Hpad; apply take_ge; lia).
  assert (Hfmt : ∀ P : () → fmt → Prop, P () (emit stream s (mkFmt w 0 [] [] [])) →
    wp (Snprintf.fmtstr stream (str_arg deref p) 0 0 1000) P (mkFmt w 0 [] [] [])).
  { intros P HP. apply wp_fmtstr with s; rewrite ?Hpad, ?Htext; try done;
      unfold room, int_max; cbn [currlen]; lia. }
  unfold perform_all, echo_items. apply wp_bind, wp_gets. cbn [currlen].
  rewrite decide_False by lia. apply wp_bind. unfold perform. cbn [dr_width field_value].
  apply wp_bind, wp_ret. apply wp_bind, wp_ret. apply wp_bind.
  change (wp (w0 ← va_word;
              Snprintf.fmtstr stream (str_arg deref w0) 0 0 1000;; mret (chr "s"))
    (λ _ f, wp (mret ()) (λ _ f, wp (n ← gets currlen;
        if decide (n >= 1000) then mret () else Snprintf.dopr_outch stream (chr "010");; mret ())
      (λ _ g, sink g = foldl (λ w c, stream c w) w (s ++ [chr "010"])) f) f) (mkFmt w 0 [] [p] [])).
  apply wp_bind. unfold va_word. apply wp_bind, wp_gets. apply wp_bind, wp_modify, wp_ret.
  apply wp_bind, Hfmt, wp_ret, wp_ret, wp_bind, wp_gets. cbn [currlen emit].
  rewrite decide_False by lia. apply wp_bind, wp_outch; [unfold room, int_max; simpl; lia|].
  apply wp_ret. simpl. by rewrite foldl_app.
Qed.
(** One line: the characters of the argument, or [<NULL>] without one, and
    a newline, one write to descriptor 1 for each. *)
Lemma echo_prints argv p s w :
  argument argv 1 w = Ok p w → points_to (default (cstring (lit "<NULL>")) (str_arg deref p)) s →
  Z.of_nat (List.length s) < 1000 →
  echo argv w = Ok 0 (os_up printf_sem (foldl (λ w c, stream c w) (os_down printf_sem w).2 (s ++ [chr "010"]))).2.
Proof.
  intros Ha Hs Hlen. unfold echo. cbv [mbind M_bind]. rewrite Ha. unfold println.
  change (cstring (lit "%s" ++ [chr "010"])) with (unparse echo_items ++ 0 :: []).
  cbv [mbind M_bind].
  destruct (echo_performs p s (os_down printf_sem w).2) as (g & E & Hg); [done..|].
  rewrite (vprintf_writes_items deref printf_sem echo_items [] [p] w g); [by rewrite Hg|..|exact E].
  repeat constructor; try (apply (bool_decide_unpack _); by vm_compute); by intros [=].
Qed.
End programs.

(** ** init, run *)

Section sample.

(** The world is what descriptor 1 has been given; descriptor 3 is open, and
    [fork] returns [id]. *)
#[local] Instance console : Os (list Z) := {|
  os_write fd buf w := (Z.of_nat (List.length buf), if decide (fd = 1) then w ++ buf else w);
  os_read fd n w := (if decide (fd = 3) then 0 else -1, [], w);
  os_sem _ w := (10, w); os_up _ w := (0, w); os_down _ w := (0, w)
|}.

#[local] Instance calls (id : Z) (execs : bool) : Calls (list Z) := {|
  os_open _ _ w := (3, w);
  os_len fd w := (if decide (fd = 3) then 5 else -1, w);
  os_close _ w := (0, w);
  os_seek _ n w := (n, w);
  os_fork w := (id, w);
  os_execl _ _ w := (if execs then None else Some (-1), w);
  os_wait _ _ w := (0, 6, w);
  os_shutdown w := (0, w);
  os_pwd w := (0, w);
  os_cd _ w := (0, w)
|}.

(** Address 20 is the name of the program, any other one that of libc.c. *)
Definition strings (p : Z) : list Z := cstring (lit (if decide (p = 20) then "init" else "libc.c")).

Definition before : list string :=
  ["*** 1"; "*** init"; "*** fd = 3"; "*** len = 5"; "*** close = 0"; "*** fd = 3"; "*** len = 5";
   "*** fd = 100"; "*** len = -1"; "*** libc.c:27 read error, fd = 100"; "*** open again 3"; "*** seek 17"]%string.

Definition shown (l : list string) : list Z := concat (map (λ s, lit s ++ [chr "010"]) l).

Example init_parent :
  init_main (H0 := calls 7 true) strings 10 30 100 [20] [] =
    Ok (Some 0) (shown (before ++ ["*** back from wait 6"%string])).
Proof. vm_compute. reflexivity. Qed.

Example init_child :
  init_main (H0 := calls 0 true) strings 10 30 100 [20] [] = Ok None (shown (before ++ ["*** in child"%string])).
Proof. vm_compute. reflexivity. Qed.

Example init_no_shell :
  init_main (H0 := calls 0 false) strings 10 30 100 [20] [] =
    Ok (Some 0) (shown (before ++ ["*** in child"; "*** execl failed, rc = -1"]%string)).
Proof. vm_compute. reflexivity. Qed.
End sample.
