(* ===== verification/Semaphore.v ===== *)
(** * Semaphores and the threads that use them (kernel/semaphore.h)

    Kernel code that synchronises is modelled as a program whose steps are
    the atomic ones of the machine: an access to shared memory, [down] and
    [up] of a semaphore.  The lock of a semaphore is taken with interrupts
    off, so each of the last two is one step: [SemaphoreImpl] shows this of
    their code.  Any thread that is not in a
    waiting queue may take the next step; that the scheduler of threads.cc
    provides this is the subject of [Threads]. *)

From S2P Require Import Prelude.

(** ** The semaphore *)

Record sem := mkSem { count : Z; waiting : list nat }.

(** [Semaphore(count)]. *)
Definition make (n : Z) : sem := mkSem (u32 n) [].

(** [down] by the thread [me]: the flag says that it blocks. *)
Definition down (me : nat) (s : sem) : sem * bool :=
  if decide (count s > 0) then (mkSem (count s - 1) (waiting s), false)
  else (mkSem (count s) (waiting s ++ [me]), true).

(** [up]: the thread to schedule, if one waits. *)
Definition up (s : sem) : sem * option nat :=
  match waiting s with
  | [] => (mkSem (u64 (count s + 1)) [], None)
  | next :: w => (mkSem (count s) w, Some next)
  end.

(** A positive count means an empty queue; the queue holds the threads of
    [B], once each. *)
Record sem_ok (q : sem) (B : nat → Prop) : Prop := {
  so_count : 0 ≤ count q < 2 ^ 64;
  so_empty : 0 < count q → waiting q = [];
  so_nodup : NoDup (waiting q);
  so_waiting : ∀ j, j ∈ waiting q ↔ B j
}.

Lemma sem_ok_ext q B B' : (∀ j, B j ↔ B' j) → sem_ok q B → sem_ok q B'.
Proof. intros HB [? ? ? Hw]. split; try done. intros j. by rewrite Hw, HB. Qed.

Lemma down_ok q B me :
  sem_ok q B → ¬ B me → sem_ok (down me q).1 (λ j, B j ∨ ((down me q).2 = true ∧ j = me)).
Proof.
  intros [Hc He Hn Hw] Hme. unfold down. destruct (decide (count q > 0)) as [Hpos|Hz]; split; simpl.
  - lia.
  - intros. apply He. lia.
  - done.
  - intros j. rewrite Hw. naive_solver.
  - lia.
  - lia.
  - apply NoDup_app. split; [done|]. split; [|apply NoDup_singleton].
    intros j Hj ->%list_elem_of_singleton. by apply Hme, Hw.
  - intros j. rewrite elem_of_app, Hw, list_elem_of_singleton. naive_solver.
Qed.

Lemma up_ok q B : sem_ok q B → sem_ok (up q).1 (λ j, B j ∧ (up q).2 ≠ Some j).
Proof.
  intros [Hc He Hn Hw]. unfold up. destruct (waiting q) as [|next w] eqn:E; split; simpl.
  - apply Z.mod_pos_bound. lia.
  - done.
  - done.
  - intros j. rewrite <-Hw. set_solver.
  - lia.
  - intros Hpos. by specialize (He Hpos).
  - by apply NoDup_cons in Hn as [_ ?].
  - intros j. apply NoDup_cons in Hn as [Hnx _]. rewrite <-Hw. set_solver.
Qed.

(** ** Programs and their execution *)

Inductive prog (S : Type) : Type :=
| Done
| Panic
| Down (s : nat) (k : prog S)
| Up (s : nat) (k : prog S)
| Act (f : S → S) (k : S → prog S).
Arguments Done {S}.
Arguments Panic {S}.
Arguments Down {S} s k.
Arguments Up {S} s k.
Arguments Act {S} f k.

(** A thread: what it has to do once it runs, and the semaphore in whose
    queue it waits. *)
Record conf (S : Type) := mkConf {
  pool : list (prog S * option nat);
  sems : nat → sem;
  shared : S
}.
Arguments mkConf {S}.
Arguments pool {S}.
Arguments sems {S}.
Arguments shared {S}.

Definition upd_sem (f : nat → sem) (i : nat) (x : sem) : nat → sem :=
  λ j, if decide (j = i) then x else f j.

(** The next step of thread [i]. *)
Definition exec {S} (i : nat) (c : conf S) : option (conf S) :=
  match pool c !! i with
  | Some (Act f k, None) =>
      Some (mkConf (<[i := (k (shared c), None)]> (pool c)) (sems c) (f (shared c)))
  | Some (Down s k, None) =>
      let '(s', blocked) := down i (sems c s) in
      Some (mkConf (<[i := (k, if (blocked : bool) then Some s else None)]> (pool c))
                   (upd_sem (sems c) s s') (shared c))
  | Some (Up s k, None) =>
      let '(s', next) := up (sems c s) in
      let pool' := <[i := (k, None)]> (pool c) in
      Some (mkConf (match next with
                    | Some j => alter (λ t, (t.1, None)) j pool'
                    | None => pool'
                    end) (upd_sem (sems c) s s') (shared c))
  | _ => None
  end.

Definition step {S} (c c' : conf S) : Prop := ∃ i, exec i c = Some c'.

Definition steps {S} : conf S → conf S → Prop := rtc step.

(** Running a given schedule; a thread that cannot step is passed over. *)
Fixpoint run_schedule {S} (js : list nat) (c : conf S) : conf S :=
  match js with
  | [] => c
  | i :: js => run_schedule js (default c (exec i c))
  end.

Lemma run_schedule_steps {S} js (c : conf S) : steps c (run_schedule js c).
Proof.
  revert c. induction js as [|i js IH]; intros c; simpl; [constructor|].
  destruct (exec i c) as [c'|] eqn:E; simpl; [|apply IH].
  eapply rtc_l; [by exists i|apply IH].
Qed.

(** ** Sums over the threads *)

Definition zsum {A} (f : A → Z) (l : list A) : Z := foldr (λ x a, f x + a) 0 l.

Section zsum.
Context {A : Type}.
Implicit Types (f g : A → Z) (l : list A).

Lemma zsum_insert f l i x y : l !! i = Some x → zsum f (<[i := y]> l) = zsum f l - f x + f y.
Proof.
  revert i. induction l as [|z l IH]; intros [|i] Hi; simplify_eq/=; [lia|]. rewrite IH by done. lia.
Qed.

Lemma zsum_alter f l i x (h : A → A) : l !! i = Some x → zsum f (alter h i l) = zsum f l - f x + f (h x).
Proof.
  revert i. induction l as [|z l IH]; intros [|i] Hi; simplify_eq/=; [lia|].
  specialize (IH i Hi). unfold alter in *. simpl in *. lia.
Qed.

Lemma zsum_nonneg f l : (∀ x, x ∈ l → 0 ≤ f x) → 0 ≤ zsum f l.
Proof.
  induction l as [|x l IH]; intros Hf; simpl; [lia|].
  pose proof (Hf x ltac:(by left)). pose proof (IH ltac:(intros; apply Hf; by right)). lia.
Qed.

Lemma zsum_lookup f l i x : (∀ x, x ∈ l → 0 ≤ f x) → l !! i = Some x → f x ≤ zsum f l.
Proof.
  intros Hf Hi. pose proof (zsum_nonneg f (delete i l)) as Hd.
  pose proof (delete_Permutation _ _ _ Hi) as Hp.
  assert (Hs : zsum f l = zsum f (x :: delete i l)).
  { clear -Hp. induction Hp; simpl in *; lia. }
  rewrite Hs. simpl. cut (0 ≤ zsum f (delete i l)); [lia|]. apply Hd. intros y Hy. apply Hf. rewrite Hp. by right.
Qed.

Lemma zsum_lookup_2 f l i j x y :
  (∀ x, x ∈ l → 0 ≤ f x) → i ≠ j → l !! i = Some x → l !! j = Some y → f x + f y ≤ zsum f l.
Proof.
  revert i j. induction l as [|z l IH]; intros [|i] [|j] Hf Hij Hi Hj; simplify_eq/=.
  - pose proof (zsum_lookup f l j y ltac:(intros; apply Hf; by right) Hj). lia.
  - pose proof (zsum_lookup f l i x ltac:(intros; apply Hf; by right) Hi). lia.
  - pose proof (Hf z ltac:(by left)). pose proof (IH i j ltac:(intros; apply Hf; by right) ltac:(congruence) Hi Hj). lia.
Qed.

Lemma zsum_le f g l : (∀ x, x ∈ l → f x ≤ g x) → zsum f l ≤ zsum g l.
Proof.
  induction l as [|x l IH]; intros Hf; simpl; [lia|].
  pose proof (Hf x ltac:(by left)). pose proof (IH ltac:(intros; apply Hf; by right)). lia.
Qed.

Lemma zsum_add f g l : zsum (λ x, f x + g x) l = zsum f l + zsum g l.
Proof. induction l as [|x l IH]; simpl; [done|]. lia. Qed.

Lemma zsum_sub f g l : zsum (λ x, f x - g x) l = zsum f l - zsum g l.
Proof. induction l as [|x l IH]; simpl; [done|]. lia. Qed.

(** A sum that dominates another does so by at least the gap at one member. *)
Lemma zsum_gap f g l i x :
  (∀ x, x ∈ l → f x ≤ g x) → l !! i = Some x → zsum f l + (g x - f x) ≤ zsum g l.
Proof.
  intros Hf Hi. pose proof (zsum_lookup (λ x, g x - f x) l i x) as Hl. rewrite zsum_sub in Hl.
  assert (g x - f x ≤ zsum g l - zsum f l); [|lia].
  apply Hl; [|done]. intros y Hy. pose proof (Hf y Hy). lia.
Qed.

Lemma zsum_ext f g l : (∀ x, x ∈ l → f x = g x) → zsum f l = zsum g l.
Proof. intros Hf. apply Z.le_antisymm; apply zsum_le; intros x Hx; rewrite (Hf x Hx); lia. Qed.

(** A positive sum has a positive term. *)
Lemma zsum_pos f l : 0 < zsum f l → ∃ j x, l !! j = Some x ∧ 0 < f x.
Proof.
  induction l as [|x l IH]; simpl; [lia|]. intros Hs. destruct (decide (0 < f x)) as [|Hn].
  - by exists 0%nat, x.
  - destruct IH as (j & x' & Hj & Hx); [lia|]. by exists (S j), x'.
Qed.

Lemma zsum_zero f l : (∀ x, x ∈ l → f x = 0) → zsum f l = 0.
Proof. intros Hf. rewrite (zsum_ext f (λ _, 0)) by done. clear. induction l; simpl; [done|lia]. Qed.

Lemma zsum_one l : zsum (λ _, 1) l = Z.of_nat (List.length l).
Proof. induction l; simpl; lia. Qed.

Lemma zsum_fmap {B} (g : B → A) f (l : list B) : zsum f (g <$> l) = zsum (λ x, f (g x)) l.
Proof. induction l as [|x l IH]; [done|]. rewrite fmap_cons. simpl. by rewrite IH. Qed.
End zsum.

(** ** Control points

    To reason about a family of programs, name their control points: [code]
    gives the program at one, [instr] its first step. *)

Inductive instr (S P : Type) : Type :=
| IDone
| IPanic
| IDown (s : nat) (k : P)
| IUp (s : nat) (k : P)
| IAct (f : S → S) (k : S → P).
Arguments IDone {S P}.
Arguments IPanic {S P}.
Arguments IDown {S P} s k.
Arguments IUp {S P} s k.
Arguments IAct {S P} f k.

Section points.
Context {S P : Type} (code : P → prog S) (first : P → instr S P).

Definition instr_prog (x : instr S P) : prog S :=
  match x with
  | IDone => Done
  | IPanic => Panic
  | IDown s k => Down s (code k)
  | IUp s k => Up s (code k)
  | IAct f k => Act f (λ x, code (k x))
  end.

Context (code_first : ∀ p, code p = instr_prog (first p)).

(** The threads of [c] are at the points [ps]. *)
Definition at_points (c : conf S) (ps : list (P * option nat)) : Prop :=
  pool c = (λ t, (code t.1, t.2)) <$> ps.

(** The effect of a step on the points. *)
Definition points_step (i : nat) (c : conf S) (ps : list (P * option nat)) : list (P * option nat) :=
  match ps !! i with
  | Some (p, None) =>
      match first p with
      | IAct f k => <[i := (k (shared c), None)]> ps
      | IDown s k => <[i := (k, if (down i (sems c s)).2 then Some s else None)]> ps
      | IUp s k =>
          match (up (sems c s)).2 with
          | Some j => alter (λ t, (t.1, None)) j (<[i := (k, None)]> ps)
          | None => <[i := (k, None)]> ps
          end
      | _ => ps
      end
  | _ => ps
  end.

Lemma points_exec i c c' ps :
  at_points c ps → exec i c = Some c' →
  at_points c' (points_step i c ps) ∧
  ∃ p, ps !! i = Some (p, None) ∧
    match first p with
    | IAct f k => sems c' = sems c ∧ shared c' = f (shared c)
    | IDown s k => sems c' = upd_sem (sems c) s (down i (sems c s)).1 ∧ shared c' = shared c
    | IUp s k => sems c' = upd_sem (sems c) s (up (sems c s)).1 ∧ shared c' = shared c
    | _ => False
    end.
Proof.
  unfold at_points, exec, points_step. intros Hp. rewrite Hp, list_lookup_fmap.
  destruct (ps !! i) as [[p [w|]]|] eqn:Ei; simpl; [by destruct (code p)| |done].
  rewrite code_first. destruct (first p) as [| |s k|s k|f k] eqn:Ef; simpl; [done|done|..].
  - destruct (down i (sems c s)) as [s' b] eqn:Ed. intros [= <-]. simpl.
    rewrite list_fmap_insert. split; [done|]. exists p. by rewrite Ef, Ed.
  - destruct (up (sems c s)) as [s' [j|]] eqn:Eu; intros [= <-]; simpl.
    + split; [|exists p; by rewrite Ef, Eu].
      change (code k, None) with ((λ t : P * option nat, (code t.1, t.2)) (k, None)).
      rewrite <-list_fmap_insert. symmetry. by apply list_fmap_alter, Forall_true.
    + rewrite list_fmap_insert. split; [done|]. exists p. by rewrite Ef, Eu.
  - intros [= <-]. simpl. rewrite list_fmap_insert. split; [done|]. exists p. by rewrite Ef.
Qed.

(** Where the stepping thread goes. *)
Definition successor (c : conf S) (p : P) : P :=
  match first p with
  | IAct f k => k (shared c)
  | IDown s k => k
  | IUp s k => k
  | _ => p
  end.

Lemma points_fst i c ps p :
  ps !! i = Some (p, None) → fst <$> points_step i c ps = <[i := successor c p]> (fst <$> ps).
Proof.
  intros Ei. unfold points_step, successor. rewrite Ei.
  assert (Hid : <[i := p]> (fst <$> ps) = fst <$> ps).
  { apply list_insert_id. by rewrite list_lookup_fmap, Ei. }
  destruct (first p) as [| |s k|s k|f k]; [done|done|by rewrite list_fmap_insert| |by rewrite list_fmap_insert].
  destruct (up (sems c s)).2 as [j|]; [|by rewrite list_fmap_insert].
  rewrite <-(list_alter_id id (<[i := k]> _) j) by done.
  change k with (fst (k, @None nat)) at 2. rewrite <-list_fmap_insert.
  by apply list_fmap_alter, Forall_true.
Qed.

Lemma points_sum i c ps p (w : P → Z) :
  ps !! i = Some (p, None) →
  zsum (λ t, w t.1) (points_step i c ps) = zsum (λ t, w t.1) ps - w p + w (successor c p).
Proof.
  intros Ei.
  assert (Hf : ∀ l : list (P * option nat), zsum (λ t, w t.1) l = zsum w (fst <$> l)).
  { induction l as [|x l IH]; simpl; [done|]. by rewrite IH. }
  rewrite !Hf, (points_fst _ _ _ _ Ei). apply zsum_insert. by rewrite list_lookup_fmap, Ei.
Qed.

(** ** The semaphores of a configuration *)

(** The threads blocked on [s], which were at its [down]. *)
Definition blocked_on (ps : list (P * option nat)) (s j : nat) : Prop := ∃ p, ps !! j = Some (p, Some s).

Record sems_ok (c : conf S) (ps : list (P * option nat)) : Prop := {
  so_sem : ∀ s, sem_ok (sems c s) (blocked_on ps s);
  so_after : ∀ j p s, ps !! j = Some (p, Some s) → ∃ p0, first p0 = IDown s p
}.

Lemma upd_sem_eq f i x : upd_sem f i x i = x.
Proof. unfold upd_sem. by rewrite decide_True. Qed.

Lemma upd_sem_ne f i j x : j ≠ i → upd_sem f i x j = f j.
Proof. intros. unfold upd_sem. by rewrite decide_False. Qed.

Lemma insert_blocked (ps : list (P * option nat)) i p k o :
  ps !! i = Some (p, None) → ∀ s j, blocked_on (<[i := (k, o)]> ps) s j ↔ blocked_on ps s j ∨ (o = Some s ∧ j = i).
Proof.
  intros Ei s j. unfold blocked_on. destruct (decide (j = i)) as [->|Hn].
  - rewrite list_lookup_insert_eq by (by eapply lookup_lt_Some). rewrite Ei. naive_solver.
  - rewrite list_lookup_insert_ne by done. naive_solver.
Qed.

Lemma wake_blocked (ps : list (P * option nat)) m s j :
  blocked_on (alter (λ t, (t.1, None)) m ps) s j ↔ blocked_on ps s j ∧ j ≠ m.
Proof.
  unfold blocked_on. destruct (decide (j = m)) as [->|Hn].
  - rewrite list_lookup_alter_eq. split; [|naive_solver]. intros [p Hp]. by destruct (ps !! m).
  - rewrite list_lookup_alter_ne by done. naive_solver.
Qed.

Lemma sem_at f s x B s' :
  sem_ok x (B s) → (s' ≠ s → sem_ok (f s') (B s')) → sem_ok (upd_sem f s x s') (B s').
Proof.
  intros Hx Hf. destruct (decide (s' = s)) as [->|]; [by rewrite upd_sem_eq|].
  rewrite upd_sem_ne; auto.
Qed.

Lemma sems_ok_step i c c' ps :
  at_points c ps → sems_ok c ps → exec i c = Some c' → sems_ok c' (points_step i c ps).
Proof.
  intros Hp [Hs Ha] Hex.
  destruct (points_exec i c c' ps Hp Hex) as (_ & p & Ei & Hsem).
  assert (Hrun : ∀ s, ¬ blocked_on ps s i) by (intros s [q Hq]; congruence).
  unfold points_step. rewrite Ei. destruct (first p) as [| |s k|s k|f k] eqn:Ef; [done|done|..].
  - destruct Hsem as [Hsem _]. split.
    + intros s'. rewrite Hsem. pose proof (down_ok _ _ i (Hs s) (Hrun s)) as Hd.
      apply (sem_at _ s _ (blocked_on (<[i := _]> ps))).
      * eapply sem_ok_ext; [|exact Hd]. intros j. rewrite (insert_blocked ps i p k) by done.
        destruct (down i (sems c s)).2; naive_solver.
      * intros Hn. eapply sem_ok_ext; [|apply Hs]. intros j. rewrite (insert_blocked ps i p k) by done.
        destruct (down i (sems c s)).2; naive_solver.
    + intros j q s' Hq. destruct (decide (j = i)) as [->|Hn].
      * rewrite list_lookup_insert_eq in Hq by (by eapply lookup_lt_Some). exists p. rewrite Ef.
        destruct (down i (sems c s)).2; congruence.
      * rewrite list_lookup_insert_ne in Hq by done. by eapply Ha.
  - destruct Hsem as [Hsem _]. pose proof (up_ok _ _ (Hs s)) as Hu.
    assert (Hj : ∀ m, (up (sems c s)).2 = Some m → blocked_on ps s m).
    { intros m Hm. apply (so_waiting _ _ (Hs s)). unfold up in Hm. destruct (waiting (sems c s)); [done|].
      injection Hm as ->. by left. }
    destruct (up (sems c s)).2 as [m|] eqn:Em.
    + split.
      * intros s'. rewrite Hsem. apply (sem_at _ s _ (blocked_on (alter _ m (<[i := _]> ps)))).
        -- eapply sem_ok_ext; [|exact Hu]. intros j. rewrite wake_blocked, (insert_blocked ps i p k) by done. naive_solver.
        -- intros Hn. eapply sem_ok_ext; [|apply Hs]. intros j. rewrite wake_blocked, (insert_blocked ps i p k) by done.
           destruct (Hj m eq_refl) as [q Hq]. split; [|naive_solver]. intros [q' Hq']. split; [left; by exists q'|congruence].
      * intros j q s' Hq. assert (Hb : blocked_on (alter (λ t, (t.1, None)) m (<[i := (k, None)]> ps)) s' j) by by exists q.
        apply wake_blocked in Hb as [Hb Hne]. rewrite list_lookup_alter_ne in Hq by done.
        apply (insert_blocked ps i p k None Ei) in Hb as [[q' Hq']|[[=] _]].
        destruct (decide (j = i)) as [->|Hn]; [congruence|]. rewrite list_lookup_insert_ne in Hq by done. by eapply Ha.
    + split.
      * intros s'. rewrite Hsem. apply (sem_at _ s _ (blocked_on (<[i := _]> ps))).
        -- eapply sem_ok_ext; [|exact Hu]. intros j. rewrite (insert_blocked ps i p k) by done. naive_solver.
        -- intros Hn. eapply sem_ok_ext; [|apply Hs]. intros j. rewrite (insert_blocked ps i p k) by done. naive_solver.
      * intros j q s' Hq. destruct (decide (j = i)) as [->|Hn].
        -- rewrite list_lookup_insert_eq in Hq by (by eapply lookup_lt_Some). congruence.
        -- rewrite list_lookup_insert_ne in Hq by done. by eapply Ha.
  - destruct Hsem as [Hsem _]. split.
    + intros s'. rewrite Hsem. eapply sem_ok_ext; [|apply Hs]. intros j. rewrite (insert_blocked ps i p) by done. naive_solver.
    + intros j q s' Hq. destruct (decide (j = i)) as [->|Hn].
      * rewrite list_lookup_insert_eq in Hq by (by eapply lookup_lt_Some). congruence.
      * rewrite list_lookup_insert_ne in Hq by done. by eapply Ha.
Qed.

(** Where the threads are after a step: the one that stepped, those it
    leaves alone, and the one that it may have woken. *)
Lemma points_lookup i c ps p j q o :
  sems_ok c ps → ps !! i = Some (p, None) → points_step i c ps !! j = Some (q, o) →
  (j = i ∧ q = successor c p ∧ ∀ s k, first p = IDown s k → o = None → count (sems c s) > 0) ∨
  (j ≠ i ∧ ps !! j = Some (q, o)) ∨
  (j ≠ i ∧ o = None ∧ ∃ s k, first p = IUp s k ∧ ps !! j = Some (q, Some s)).
Proof.
  intros Hok Ei Hj. unfold points_step in Hj. unfold successor. rewrite Ei in Hj.
  assert (Hins : ∀ x : P * option nat, <[i := x]> ps !! i = Some x) by (intros; apply list_lookup_insert_eq; by eapply lookup_lt_Some).
  destruct (decide (j = i)) as [->|Hn].
  - left. split; [done|]. destruct (first p) as [| |s k|s k|f k]; try (rewrite Hins in Hj); try (by simplify_eq).
    + injection Hj as <- <-. split; [done|]. intros s' k' [= <- <-]. unfold down. by destruct (decide _).
    + split; [|done]. destruct (up (sems c s)).2 as [m|] eqn:Em; [|rewrite Hins in Hj; by simplify_eq].
      assert (m ≠ i).
      { intros ->. unfold up in Em. destruct (waiting (sems c s)) eqn:Ew; [done|]. injection Em as ->.
        destruct (proj1 (so_waiting _ _ (so_sem _ _ Hok s) i)) as [? ?]; [rewrite Ew; by left|congruence]. }
      rewrite list_lookup_alter_ne, Hins in Hj by done. by simplify_eq.
  - right. assert (Hne : ∀ x : P * option nat, <[i := x]> ps !! j = ps !! j) by (intros; by apply list_lookup_insert_ne).
    destruct (first p) as [| |s k|s k|f k] eqn:Ef; try (rewrite Hne in Hj); try (by left).
    destruct (up (sems c s)).2 as [m|] eqn:Em; [|rewrite Hne in Hj; by left].
    destruct (decide (j = m)) as [->|]; [|rewrite list_lookup_alter_ne, Hne in Hj by done; by left].
    rewrite list_lookup_alter_eq, Hne in Hj. right. split; [done|].
    unfold up in Em. destruct (waiting (sems c s)) eqn:Ew; [done|]. injection Em as ->.
    destruct (proj1 (so_waiting _ _ (so_sem _ _ Hok s) m)) as [q' Hq']; [rewrite Ew; by left|].
    rewrite Hq' in Hj. injection Hj as <- <-. split; [done|]. by exists s, k.
Qed.

(** ** Counting permits *)

(** [net p s]: the [up]s of [s] done by a thread that has come to [p], less
    its [down]s. *)
Context (net : P → nat → Z).

Definition net_ok : Prop := ∀ p s,
  match first p with
  | IDown s' k => net k s = net p s - (if decide (s = s') then 1 else 0)
  | IUp s' k => net k s = net p s + (if decide (s = s') then 1 else 0)
  | IAct f k => ∀ x, net (k x) s = net p s
  | _ => True
  end.

(** A blocked thread has passed its [down] without a permit. *)
Definition permits_of (s : nat) (t : P * option nat) : Z :=
  net t.1 s + (if decide (t.2 = Some s) then 1 else 0).

Definition permits (initial : nat → Z) (c : conf S) (ps : list (P * option nat)) : Prop :=
  ∀ s, count (sems c s) = initial s + zsum (permits_of s) ps.

Lemma permits_step initial i c c' ps :
  net_ok → at_points c ps → sems_ok c ps → permits initial c ps →
  (∀ s, count (sems c s) + 1 < 2 ^ 64) → exec i c = Some c' → permits initial c' (points_step i c ps).
Proof.
  intros Hnet Hp Hok Hper Hmax Hex s'.
  destruct (points_exec i c c' ps Hp Hex) as (_ & p & Ei & Hsem). specialize (Hnet p s').
  unfold points_step. rewrite Ei. destruct (first p) as [| |s k|s k|f k] eqn:Ef; [done|done|..].
  - destruct Hsem as [Hsem _]. rewrite Hsem, (zsum_insert _ _ _ _ _ Ei). unfold permits_of at 2 3. simpl.
    rewrite Hnet. pose proof (Hper s') as Hs'. unfold upd_sem, down.
    destruct (decide (s' = s)) as [->|Hn].
    + destruct (decide (count (sems c s) > 0)); simpl; repeat goal_decide; try lia; congruence.
    + rewrite Hs'. destruct (decide (count (sems c s) > 0)); simpl; repeat goal_decide; try lia; congruence.
  - destruct Hsem as [Hsem _]. pose proof (so_sem _ _ Hok s) as [Hc _ _ Hw]. pose proof (Hper s') as Hs'.
    pose proof (Hmax s). rewrite Hsem. unfold up in *. destruct (waiting (sems c s)) as [|m w] eqn:Ew; simpl.
    + rewrite (zsum_insert _ _ _ _ _ Ei). unfold permits_of at 2 3. simpl. rewrite Hnet. unfold upd_sem.
      destruct (decide (s' = s)) as [->|Hn]; simpl; [unfold u64; rewrite Z.mod_small by lia|]; repeat goal_decide; try lia; congruence.
    + destruct (proj1 (Hw m) ltac:(by left)) as [q Hq].
      assert (Hne : m ≠ i) by congruence.
      assert (Hm : <[i := (k, None)]> ps !! m = Some (q, Some s)) by (by rewrite list_lookup_insert_ne).
      rewrite (zsum_alter _ _ _ _ _ Hm), (zsum_insert _ _ _ _ _ Ei). unfold permits_of at 2 3 4 5. simpl. rewrite Hnet.
      unfold upd_sem. destruct (decide (s' = s)) as [->|Hn]; simpl; repeat goal_decide; try lia; congruence.
  - destruct Hsem as [Hsem _]. rewrite Hsem, (zsum_insert _ _ _ _ _ Ei), Hper. unfold permits_of at 3 4. simpl.
    rewrite Hnet. repeat goal_decide; try lia; congruence.
Qed.

(** A configuration accounted for, as every step keeps it. *)
Record conf_ok (initial : nat → Z) (c : conf S) (ps : list (P * option nat)) : Prop := {
  ok_points : at_points c ps;
  ok_sems : sems_ok c ps;
  ok_permits : permits initial c ps
}.

Lemma conf_ok_step initial i c c' ps :
  net_ok → conf_ok initial c ps → (∀ s, count (sems c s) + 1 < 2 ^ 64) →
  exec i c = Some c' → conf_ok initial c' (points_step i c ps).
Proof.
  intros Hnet [Hp Hs Hn] Hmax Hex. split.
  - by eapply points_exec.
  - by eapply sems_ok_step.
  - by eapply permits_step.
Qed.

Lemma conf_ok_sems initial c c' ps :
  pool c' = pool c → (∀ s, sems c' s = sems c s) → conf_ok initial c ps → conf_ok initial c' ps.
Proof.
  intros Hp Hs [H1 [H2 H2'] H3]. split.
  - unfold at_points. by rewrite Hp.
  - split; [|done]. intros s. by rewrite Hs.
  - intros s. by rewrite Hs.
Qed.

(** Threads that have not started, with fresh semaphores. *)
Lemma conf_ok_start initial (starts : list P) (x : S) :
  (∀ s, 0 ≤ initial s < 2 ^ 64) → (∀ p s, p ∈ starts → net p s = 0) →
  conf_ok initial (mkConf ((λ p, (code p, None)) <$> starts) (λ s, mkSem (initial s) []) x)
          ((λ p, (p, None)) <$> starts).
Proof.
  intros Hi Hn. split.
  - unfold at_points. simpl. by rewrite <-list_fmap_compose.
  - assert (Hb : ∀ j p s, ((λ p : P, (p, @None nat)) <$> starts) !! j ≠ Some (p, Some s)).
    { intros j p s. rewrite list_lookup_fmap. by destruct (starts !! j). }
    split.
    + intros s. split; simpl; [auto|done|apply NoDup_nil_2|]. intros j. split; [by intros ?%not_elem_of_nil|].
      intros [p Hp]. by apply Hb in Hp.
    + intros j p s Hp. by apply Hb in Hp.
  - intros s. simpl. assert (Hz : zsum (permits_of s) ((λ p, (p, None)) <$> starts) = 0); [|lia].
    clear Hi. induction starts as [|p starts IH]; [done|].
    specialize (IH ltac:(intros; apply Hn; by right)). rewrite fmap_cons. cbn [zsum foldr].
    change (permits_of s (p, None) + zsum (permits_of s) ((λ p, (p, None)) <$> starts) = 0). rewrite IH.
    unfold permits_of. simpl. rewrite Hn by by left. done.
Qed.

(** A configuration in which nobody can move. *)
Lemma stuck_points c ps :
  at_points c ps → (∀ i, exec i c = None) → ∀ i p, ps !! i = Some (p, None) → first p = IDone ∨ first p = IPanic.
Proof.
  intros Hp Hst i p Ei. specialize (Hst i). unfold exec in Hst. rewrite Hp, list_lookup_fmap, Ei in Hst. simpl in Hst.
  rewrite code_first in Hst. destruct (first p) as [| |s k|s k|f k]; [by left|by right|..]; simpl in Hst.
  - by destruct (down i (sems c s)).
  - by destruct (up (sems c s)).
  - done.
Qed.
End points.

(** ** A gate: one semaphore, opened once

    Threads that [down] the gate and then [up] it again for the next, and
    one that opens it; [fired] marks a thread that has opened it, [owing]
    one between its [down] and its [up]. *)
Section gate.
Context {S P : Type} (code : P → prog S) (first : P → instr S P) (g : nat) (fired owing : P → Z).

Definition gate_net (p : P) (s : nat) : Z := if decide (s = g) then fired p - owing p else 0.

(** What a thread has still to give back. *)
Definition debt (t : P * option nat) : Z := owing t.1 - (if decide (t.2 = Some g) then 1 else 0).

Context (Hdown : ∀ p s k, first p = IDown s k → s = g ∧ owing k = 1) (Howing : ∀ p, 0 ≤ owing p).

Abbreviation ok c ts := (conf_ok code first gate_net (λ _, 0) c ts).

Lemma gate_blocked c ts j p s : ok c ts → ts !! j = Some (p, Some s) → s = g ∧ ∃ p0, first p0 = IDown g p.
Proof.
  intros Hok Hj. destruct (so_after _ _ _ (ok_sems _ _ _ _ _ _ Hok) j p s Hj) as [p0 E0].
  destruct (Hdown _ _ _ E0) as [-> _]. split; [done|by exists p0].
Qed.

Lemma debt_nonneg c ts t : ok c ts → t ∈ ts → 0 ≤ debt t.
Proof.
  intros Hok [j Hj]%list_elem_of_lookup_1. unfold debt. destruct t as [p [s|]]; simpl.
  - destruct (gate_blocked c ts j p s Hok Hj) as [-> [p0 E0]]. rewrite decide_True by done.
    destruct (Hdown _ _ _ E0) as [_ ->]. lia.
  - pose proof (Howing p). lia.
Qed.

Lemma gate_permits c ts : ok c ts →
  count (sems c g) = zsum (λ t, fired t.1) ts - zsum debt ts ∧ ∀ s, s ≠ g → count (sems c s) = 0.
Proof.
  intros Hok. pose proof (ok_permits _ _ _ _ _ _ Hok) as Hp. split.
  - rewrite (Hp g), Z.add_0_l. rewrite <-zsum_sub. apply zsum_ext.
    intros t _. unfold permits_of, gate_net, debt. rewrite decide_True by done. lia.
  - intros s Hs. rewrite (Hp s), Z.add_0_l. apply zsum_zero.
    intros t [j Hj]%list_elem_of_lookup_1. unfold permits_of, gate_net. rewrite decide_False by done.
    rewrite decide_False; [done|]. intros E. destruct t as [p o]. simpl in E. subst o.
    by destruct (gate_blocked c ts j p s Hok Hj) as [-> _].
Qed.

(** A count that is not zero means that the gate has been opened. *)
Lemma gate_count c ts s : ok c ts → count (sems c s) ≤ Z.max 0 (zsum (λ t, fired t.1) ts).
Proof.
  intros Hok. destruct (gate_permits c ts Hok) as [E0 E1].
  pose proof (zsum_nonneg debt ts ltac:(intros; by eapply debt_nonneg)).
  destruct (decide (s = g)) as [->|Hs]; [lia|]. rewrite E1 by done. lia.
Qed.

(** Once the gate is open and no thread holds it, nobody waits at it. *)
Lemma gate_nobody_waits c ts :
  ok c ts → 0 < zsum (λ t, fired t.1) ts → (∀ j p, ts !! j = Some (p, None) → owing p = 0) →
  ∀ j p s, ts !! j ≠ Some (p, Some s).
Proof.
  intros Hok Hf Hrun j p s Hj. destruct (gate_blocked c ts j p s Hok Hj) as [-> _].
  pose proof (so_sem _ _ _ (ok_sems _ _ _ _ _ _ Hok) g) as Hs.
  destruct (gate_permits c ts Hok) as [E0 _]. rewrite (zsum_zero debt) in E0.
  - pose proof (proj2 (so_waiting _ _ Hs j)) as Hin. rewrite (so_empty _ _ Hs) in Hin by lia.
    apply (not_elem_of_nil j), Hin. by exists p.
  - intros [p' [s'|]] [k Hk]%list_elem_of_lookup_1; unfold debt; simpl.
    + destruct (gate_blocked c ts k p' s' Hok Hk) as [-> [p0 E]]. destruct (Hdown _ _ _ E) as [_ ->].
      by rewrite decide_True.
    + by rewrite (Hrun k p' Hk).
Qed.
End gate.
