(* ===== verification/SemaphoreImpl.v ===== *)
(** * The code of semaphores (kernel/semaphore.h, [ISL] of kernel/atomic.h)

    [down] and [up] an instruction or an access at a time, under the lock
    [ISL], which threads take with interrupts off and spin for.  Whatever
    the interleaving the threads do what [Semaphore] says of them, where
    each of the two is one step; no thread is lost between the queue of a
    semaphore and the scheduler; and every call under way can be brought to
    its end. *)

From Stdlib Require Import FunctionalExtensionality.
From S2P Require Import Prelude.
From S2P Require Import Semaphore.

(** ** State *)

(** [Semaphore]: its lock, [count] and [waiting], which [NoLock] leaves to
    the lock of the semaphore. *)
Record isem := mkISem { taken : bool; icount : Z; iwaiting : list nat }.

(** Where a thread is in a call, with its local variables. *)
Inductive place :=
| Running                             (** not in a call *)
| Lock_disable                        (** [ISL::lock]: [Interrupts::disable()] *)
| Lock_exchange (was : bool)          (** [taken.exchange(true)] *)
| Lock_restore (was : bool)           (** [Interrupts::restore], and round again *)
| Down_test (was : bool)              (** [if (count > 0)] *)
| Down_read (was : bool)              (** [count--]: reading *)
| Down_write (was : bool) (v : Z)     (** and writing *)
| Down_unlock (was : bool)            (** [lock.unlock(was)]: [taken.set(false)] *)
| Down_flags (was : bool)             (** and [cli] or [sti] *)
| Down_block (was : bool)             (** [block]: another thread runs *)
| Down_add (was : bool)               (** the callback there: [waiting.add(me)] *)
| Down_release (was : bool)           (** and [lock.unlock(true)] *)
| Down_waits (was : bool)             (** until it is scheduled *)
| Down_back (was : bool)              (** [if (was) cli(); else sti();] *)
| Up_remove (was : bool)              (** [waiting.remove()] *)
| Up_read (was : bool)                (** [count ++]: reading *)
| Up_write (was : bool) (v : Z)       (** and writing *)
| Up_unlock (was : bool) (next : option nat)
| Up_flags (was : bool) (next : option nat)
| Up_schedule (next : option nat).    (** [if (next != nullptr) schedule(next)] *)

(** A thread: the rest of its program, which begins with the call it is in,
    and its interrupt flag, which is saved and restored with it. *)
Record thread (S : Type) := mkThread { todo : prog S; at_ : place; iflag : bool }.
Arguments mkThread {S}.
Arguments todo {S}.
Arguments at_ {S}.
Arguments iflag {S}.

Record machine (S : Type) := mkMachine { threads : list (thread S); isems : nat → isem; data : S }.
Arguments mkMachine {S}.
Arguments threads {S}.
Arguments isems {S}.
Arguments data {S}.

(** ** Steps *)

(** [Interrupts::disable], which returns whether they were off, and
    [Interrupts::restore], on the interrupt flag. *)
Definition disable (flag : bool) : bool * bool := (negb flag, false).
Definition restore (was flag : bool) : bool := if was then flag else true.

(** [ISL::lock], a step at a time: [taken], the place and the flag; the call
    goes on at [entered]. *)
Definition isl_lock (entered : bool → place) (taken : bool) (p : place) (flag : bool) : option (bool * place * bool) :=
  match p with
  | Lock_disable => let '(was, flag) := disable flag in Some (taken, Lock_exchange was, flag)
  | Lock_exchange was => Some (true, if taken then Lock_restore was else entered was, flag)
  | Lock_restore was => Some (taken, Lock_disable, restore was flag)
  | _ => None
  end.

(** The flag after [ISL::unlock(disable)], which clears [taken] first; the
    last line of [down] is the same. *)
Definition unlock_flags (disable : bool) : bool := negb disable.

(** One step of a call on semaphore [q] by thread [me]: the semaphore, the
    place and the flag after it.  [is_down] says which of the two it is. *)
Definition advance (is_down : bool) (me : nat) (q : isem) (p : place) (flag : bool) : option (isem * place * bool) :=
  match p with
  | Running => Some (q, Lock_disable, flag)
  | Lock_disable | Lock_exchange _ | Lock_restore _ =>
      '(t, p', flag') ← isl_lock (if is_down then Down_test else Up_remove) (taken q) p flag;
      Some (mkISem t (icount q) (iwaiting q), p', flag')
  | Down_test was => Some (q, if decide (icount q > 0) then Down_read was else Down_block was, flag)
  | Down_read was => Some (q, Down_write was (icount q), flag)
  | Down_write was v => Some (mkISem (taken q) (u64 (v - 1)) (iwaiting q), Down_unlock was, flag)
  | Down_unlock was => Some (mkISem false (icount q) (iwaiting q), Down_flags was, flag)
  | Down_block was => Some (q, Down_add was, flag)
  | Down_add was => Some (mkISem (taken q) (icount q) (iwaiting q ++ [me]), Down_release was, flag)
  | Down_release was => Some (mkISem false (icount q) (iwaiting q), Down_waits was, flag)
  | Up_remove was =>
      match iwaiting q with
      | [] => Some (q, Up_read was, flag)
      | next :: w => Some (mkISem (taken q) (icount q) w, Up_unlock was (Some next), flag)
      end
  | Up_read was => Some (q, Up_write was (icount q), flag)
  | Up_write was v => Some (mkISem (taken q) (u64 (v + 1)) (iwaiting q), Up_unlock was None, flag)
  | Up_unlock was next => Some (mkISem false (icount q) (iwaiting q), Up_flags was next, flag)
  | Up_flags was next => Some (q, Up_schedule next, unlock_flags was)
  | Down_flags _ | Down_back _ | Down_waits _ | Up_schedule _ => None
  end.

(** [schedule]: a thread that waits may run again; scheduling one that has
    not been switched away from is an error. *)
Definition schedule {S} (j : nat) (ts : list (thread S)) : option (list (thread S)) :=
  match ts !! j with
  | Some (mkThread p (Down_waits was) f) => Some (<[j := mkThread p (Down_back was) f]> ts)
  | _ => None
  end.

Definition upd_isem (f : nat → isem) (i : nat) (x : isem) : nat → isem := λ j, if decide (j = i) then x else f j.

(** The next step of thread [i]. *)
Definition iexec {S} (i : nat) (m : machine S) : option (machine S) :=
  t ← threads m !! i;
  let 'mkThread p a f := t in
  let call is_down s k :=
    match a with
    | Down_flags was | Down_back was => Some (mkMachine (<[i := mkThread k Running (unlock_flags was)]> (threads m)) (isems m) (data m))
    | Up_schedule next =>
        ts ← match next with Some j => schedule j (threads m) | None => Some (threads m) end;
        Some (mkMachine (<[i := mkThread k Running f]> ts) (isems m) (data m))
    | _ =>
        '(q, a', f') ← advance is_down i (isems m s) a f;
        Some (mkMachine (<[i := mkThread p a' f']> (threads m)) (upd_isem (isems m) s q) (data m))
    end in
  match p with
  | Done | Panic => None
  | Act g k => Some (mkMachine (<[i := mkThread (k (data m)) Running f]> (threads m)) (isems m) (g (data m)))
  | Down s k => call true s k
  | Up s k => call false s k
  end.

Definition istep {S} (m m' : machine S) : Prop := ∃ i, iexec i m = Some m'.
Definition isteps {S} : machine S → machine S → Prop := rtc istep.

(** Threads that have not started, with their interrupt flags, and fresh
    semaphores. *)
Definition boot {S} (progs : list (prog S * bool)) (counts : nat → Z) (x : S) : machine S :=
  mkMachine (map (λ p, mkThread p.1 Running p.2) progs) (λ s, mkISem false (u32 (counts s)) []) x.

(** ** What a place means *)

(** Between the exchange that takes the lock and the store that gives it
    back. *)
Definition crit (p : place) : bool :=
  match p with
  | Down_test _ | Down_read _ | Down_write _ _ | Down_unlock _ | Down_block _ | Down_add _ | Down_release _
  | Up_remove _ | Up_read _ | Up_write _ _ | Up_unlock _ _ => true
  | _ => false
  end.

(** After the access by which the call has its effect. *)
Definition committed (p : place) : bool :=
  match p with
  | Down_unlock _ | Down_flags _ | Down_release _ | Down_waits _ | Down_back _
  | Up_unlock _ _ | Up_flags _ _ | Up_schedule _ => true
  | _ => false
  end.

(** From [waiting.add] until the thread is scheduled. *)
Definition waits (p : place) : bool := match p with Down_release _ | Down_waits _ => true | _ => false end.

(** The thread that an [up] has taken from the queue and not scheduled yet. *)
Definition claims (p : place) : option nat :=
  match p with Up_unlock _ next | Up_flags _ next | Up_schedule next => next | _ => None end.

(** The places of [down] and of [up]. *)
Definition fits (is_down : bool) (p : place) : Prop :=
  match p with
  | Down_test _ | Down_read _ | Down_write _ _ | Down_unlock _ | Down_flags _ | Down_block _ | Down_add _
  | Down_release _ | Down_waits _ | Down_back _ => is_down = true
  | Up_remove _ | Up_read _ | Up_write _ _ | Up_unlock _ _ | Up_flags _ _ | Up_schedule _ => is_down = false
  | _ => True
  end.

(** The interrupt flag, [e] at the call. *)
Definition flag_ok (e : bool) (p : place) (flag : bool) : Prop :=
  match p with
  | Running | Lock_disable | Up_schedule _ => flag = e
  | Lock_exchange was | Lock_restore was | Down_test was | Down_read was | Down_write was _ | Down_unlock was
  | Down_flags was | Down_block was | Down_add was | Down_release was | Down_waits was | Down_back was
  | Up_remove was | Up_read was | Up_write was _ | Up_unlock was _ | Up_flags was _ => flag = false ∧ was = negb e
  end.

(** What the holder of the lock knows of the semaphore. *)
Definition local_ok (q : isem) (me : nat) (p : place) : Prop :=
  match p with
  | Down_read _ => icount q > 0
  | Down_write _ v => icount q > 0 ∧ v = icount q
  | Down_block _ | Down_add _ => ¬ icount q > 0
  | Down_release _ => me ∈ iwaiting q
  | Up_read _ => iwaiting q = []
  | Up_write _ v => iwaiting q = [] ∧ v = icount q
  | _ => True
  end.

(** The semaphore of [Semaphore]. *)
Definition abs_sem (q : isem) : sem := mkSem (icount q) (iwaiting q).

(** *** One step of a call *)
Section advance.
Context (is_down : bool) (me : nat) (q : isem) (p : place) (flag : bool) (q' : isem) (p' : place) (flag' : bool).
Context (Ha : advance is_down me q p flag = Some (q', p', flag')).

Ltac by_place :=
  destruct p; cbn in Ha; try discriminate Ha; repeat case_match; try discriminate Ha;
  injection Ha as <- <- <-; cbn in *.

Lemma advance_fits : fits is_down p → fits is_down p'.
Proof using Ha. by_place; done. Qed.

Lemma advance_flag e : flag_ok e p flag → flag_ok e p' flag'.
Proof using Ha. 
  intros Hf. by_place; unfold restore, unlock_flags; try match type of Hf with _ ∧ _ => destruct Hf as [Hf ->] end;
    rewrite ?Hf, ?negb_involutive; try done.
  by destruct e.
Qed.

Lemma advance_count : 0 ≤ icount q < 2 ^ 64 → 0 ≤ icount q' < 2 ^ 64.
Proof using Ha. intros Hq. by_place; try done; unfold u64; apply Z.mod_pos_bound; lia. Qed.

Lemma advance_local : local_ok q me p → local_ok q' me p'.
Proof using Ha. by_place; try done; set_solver. Qed.

(** The lock changes hands with [taken]. *)
Lemma advance_lock :
  (taken q' = taken q ∧ crit p' = crit p) ∨ (taken q = false ∧ taken q' = true ∧ crit p = false ∧ crit p' = true) ∨
  (taken q' = false ∧ crit p = true ∧ crit p' = false).
Proof using Ha. by_place; auto 8. Qed.

(** Only its holder changes the semaphore. *)
Lemma advance_holder : (icount q' = icount q ∧ iwaiting q' = iwaiting q) ∨ crit p = true.
Proof using Ha. by_place; auto. Qed.

(** A thread enters the queue, or is taken from it, or neither. *)
Lemma advance_queue :
  (iwaiting q' = iwaiting q ∧ claims p' = claims p ∧ waits p' = waits p) ∨
  (iwaiting q' = iwaiting q ++ [me] ∧ claims p' = None ∧ claims p = None ∧ waits p = false ∧ waits p' = true) ∨
  (∃ next, iwaiting q = next :: iwaiting q' ∧ claims p = None ∧ claims p' = Some next ∧ waits p = false ∧ waits p' = false).
Proof using Ha. by_place; eauto 8. Qed.

(** The effect of the call. *)
Lemma advance_effect :
  fits is_down p → local_ok q me p → 0 ≤ icount q < 2 ^ 64 →
  if committed p then committed p' = true ∧ abs_sem q' = abs_sem q
  else if committed p' then if is_down then down me (abs_sem q) = (abs_sem q', waits p')
                            else up (abs_sem q) = (abs_sem q', claims p') ∧ waits p' = false
  else abs_sem q' = abs_sem q.
Proof using Ha.
  unfold abs_sem, down, up. intros Hf Hl Hv. destruct (decide (count (mkSem (icount q) (iwaiting q)) > 0)) as [Hc|Hc];
    by_place; subst; try done; try match type of Hl with _ ∧ _ => destruct Hl as [Hl ->] end; try lia.
  all: unfold u64; try rewrite Z.mod_small by lia; split_and?; congruence.
Qed.
End advance.

(** ** The invariant *)

Section machine.
Context {S : Type}.
Implicit Types (m : machine S) (t : thread S) (c : conf S).

(** The semaphore that a thread is in a call of, or is about to call. *)
Definition sem_of t : option nat := match todo t with Down s _ | Up s _ => Some s | _ => None end.
Definition is_down t : bool := match todo t with Down _ _ => true | _ => false end.
Definition rest (p : prog S) : prog S := match p with Down _ k | Up _ k => k | _ => p end.

Definition b2z (b : bool) : Z := if b then 1 else 0.
Definition holds (s : nat) t : Z := b2z (crit (at_ t) && bool_decide (sem_of t = Some s)).
Definition claimed (j : nat) t : Z := b2z (bool_decide (claims (at_ t) = Some j)).

(** The semaphore on which a thread waits. *)
Definition waiting_on t : option nat := if waits (at_ t) then sem_of t else None.

(** Thread [j] waits and is not in the queue: somebody is to schedule it. *)
Definition owed m (j : nat) : Z :=
  match threads m !! j ≫= waiting_on with
  | Some s => b2z (negb (bool_decide (j ∈ iwaiting (isems m s))))
  | None => 0
  end.

Record thread_ok (e : bool) (qs : nat → isem) (i : nat) t : Prop := {
  t_call : sem_of t = None → at_ t = Running;
  t_fits : fits (is_down t) (at_ t);
  t_flag : flag_ok e (at_ t) (iflag t);
  t_local : ∀ s, sem_of t = Some s → local_ok (qs s) i (at_ t)
}.

Record inv (flags : list bool) m : Prop := {
  v_length : List.length (threads m) = List.length flags;
  v_thread : ∀ i t e, threads m !! i = Some t → flags !! i = Some e → thread_ok e (isems m) i t;
  v_lock : ∀ s, zsum (holds s) (threads m) = b2z (taken (isems m s));
  v_count : ∀ s, 0 ≤ icount (isems m s) < 2 ^ 64;
  v_nodup : ∀ s, NoDup (iwaiting (isems m s));
  v_queue : ∀ s j, j ∈ iwaiting (isems m s) → ∃ t, threads m !! j = Some t ∧ waiting_on t = Some s;
  v_claims : ∀ j, zsum (claimed j) (threads m) = owed m j
}.

(** The configuration of [Semaphore] that a machine stands for. *)
Definition abs_thread (qs : nat → isem) (i : nat) t : prog S * option nat :=
  if committed (at_ t) then
    (rest (todo t), s ← waiting_on t; if decide (i ∈ iwaiting (qs s)) then Some s else None)
  else (todo t, None).

Definition abs m : conf S := mkConf (imap (abs_thread (isems m)) (threads m)) (λ s, abs_sem (isems m s)) (data m).

Lemma b2z_range b : 0 ≤ b2z b ≤ 1.
Proof. by destruct b. Qed.

Lemma holder_taken flags m i t s :
  inv flags m → threads m !! i = Some t → crit (at_ t) = true → sem_of t = Some s → taken (isems m s) = true.
Proof.
  intros Hv Hi Hc Hs. pose proof (zsum_lookup (holds s) _ i t ltac:(intros; apply b2z_range) Hi) as Hz.
  rewrite (v_lock _ _ Hv) in Hz. unfold holds in Hz. rewrite Hc, bool_decide_true in Hz by done.
  by destruct (taken (isems m s)).
Qed.

Lemma holder_unique flags m i j t u s :
  inv flags m → threads m !! i = Some t → threads m !! j = Some u → crit (at_ t) = true → crit (at_ u) = true →
  sem_of t = Some s → sem_of u = Some s → i = j.
Proof.
  intros Hv Hi Hj Hct Hcu Hst Hsu. destruct (decide (i = j)) as [|Hne]; [done|exfalso].
  pose proof (zsum_lookup_2 (holds s) _ i j t u ltac:(intros; apply b2z_range) Hne Hi Hj) as Hz.
  rewrite (v_lock _ _ Hv) in Hz. unfold holds in Hz. rewrite Hct, Hcu, !bool_decide_true in Hz by done.
  pose proof (b2z_range (taken (isems m s))). simpl in Hz. lia.
Qed.

(** Only one thread holds on to a thread that is to be scheduled; that one
    has been switched away from. *)
Lemma claimed_waits flags m i t j :
  inv flags m → threads m !! i = Some t → claims (at_ t) = Some j →
  ∃ p was f, threads m !! j = Some (mkThread p (Down_waits was) f) ∧ ∃ s k, p = Down s k ∧ j ∉ iwaiting (isems m s).
Proof.
  intros Hv Hi Hc. pose proof (zsum_lookup (claimed j) _ i t ltac:(intros; apply b2z_range) Hi) as Hz.
  rewrite (v_claims _ _ Hv) in Hz. unfold claimed in Hz. rewrite bool_decide_true in Hz by done. unfold owed in Hz.
  destruct (threads m !! j) as [u|] eqn:Ej; simpl in Hz; [|lia].
  destruct (waiting_on u) as [s|] eqn:Ew; [|lia]. destruct (bool_decide (j ∈ iwaiting (isems m s))) eqn:Eq; simpl in Hz; [lia|].
  apply bool_decide_eq_false in Eq. destruct (lookup_lt_is_Some_2 flags j) as [e He].
  { rewrite <-(v_length _ _ Hv). by eapply lookup_lt_Some. }
  pose proof (v_thread _ _ Hv j u e Ej He) as [_ Hf _ Hl]. unfold waiting_on in Ew. destruct u as [p a f]. simpl in *.
  destruct a as [| | | | | | | | | | |was|was| | | | | | |]; try done; specialize (Hl _ Ew); simpl in Hl; [done|].
  exists p, was, f. split; [done|]. unfold is_down in Hf. simpl in Hf. destruct p; try done. unfold sem_of in Ew. simpl in Ew.
  injection Ew as ->. eauto.
Qed.

(** ** Its preservation *)

(** The steps of thread [i]: one of the program, one of a call, the return
    from one, and [schedule]. *)
Inductive move (i : nat) m : machine S → Prop :=
| move_act g k a f :
    threads m !! i = Some (mkThread (Act g k) a f) →
    move i m (mkMachine (<[i := mkThread (k (data m)) Running f]> (threads m)) (isems m) (g (data m)))
| move_advance t s q p f :
    threads m !! i = Some t → sem_of t = Some s → advance (is_down t) i (isems m s) (at_ t) (iflag t) = Some (q, p, f) →
    move i m (mkMachine (<[i := mkThread (todo t) p f]> (threads m)) (upd_isem (isems m) s q) (data m))
| move_return t was :
    threads m !! i = Some t → sem_of t ≠ None → at_ t = Down_flags was ∨ at_ t = Down_back was →
    move i m (mkMachine (<[i := mkThread (rest (todo t)) Running (unlock_flags was)]> (threads m)) (isems m) (data m))
| move_schedule t :
    threads m !! i = Some t → sem_of t ≠ None → at_ t = Up_schedule None →
    move i m (mkMachine (<[i := mkThread (rest (todo t)) Running (iflag t)]> (threads m)) (isems m) (data m))
| move_wake t j p was f :
    threads m !! i = Some t → sem_of t ≠ None → at_ t = Up_schedule (Some j) →
    threads m !! j = Some (mkThread p (Down_waits was) f) →
    move i m (mkMachine (<[i := mkThread (rest (todo t)) Running (iflag t)]>
                           (<[j := mkThread p (Down_back was) f]> (threads m))) (isems m) (data m)).

Lemma iexec_move i m m' : iexec i m = Some m' ↔ move i m m'.
Proof.
  split.
  - unfold iexec. destruct (threads m !! i) as [[p a f]|] eqn:Ei; [|done]. simpl. intros H.
    assert (Hcall : ∀ d s k, rest p = k → sem_of (mkThread p a f) = Some s → is_down (mkThread p a f) = d →
      match a with
      | Down_flags was | Down_back was => Some (mkMachine (<[i := mkThread k Running (unlock_flags was)]> (threads m)) (isems m) (data m))
      | Up_schedule next =>
          ts ← match next with Some j => schedule j (threads m) | None => Some (threads m) end;
          Some (mkMachine (<[i := mkThread k Running f]> ts) (isems m) (data m))
      | _ =>
          '(q, a', f') ← advance d i (isems m s) a f;
          Some (mkMachine (<[i := mkThread p a' f']> (threads m)) (upd_isem (isems m) s q) (data m))
      end = Some m' → move i m m').
    { clear H. intros d s k <- Hs <- H. set (t := mkThread p a f) in *.
      assert (Hne : sem_of t ≠ None) by (by rewrite Hs).
      assert (Hadv : advance (is_down t) i (isems m s) a f ≫= (λ '(q, a', f'),
        Some (mkMachine (<[i := mkThread p a' f']> (threads m)) (upd_isem (isems m) s q) (data m))) = Some m' → move i m m').
      { destruct (advance _ _ _ _ _) as [[[q a'] f']|] eqn:Ea; [|done]. intros [= <-]. by apply (move_advance i m t s q a' f'). }
      destruct a; try (by apply Hadv).
      - injection H as <-. apply (move_return i m t was); auto.
      - injection H as <-. apply (move_return i m t was); auto.
      - destruct next as [j|]; simpl in H; [|injection H as <-; by apply (move_schedule i m t)].
        unfold schedule in H. destruct (threads m !! j) as [[pj aj fj]|] eqn:Ej; [|done]. destruct aj; try done.
        injection H as <-. by apply (move_wake i m t j). }
    destruct p as [| |s k|s k|g k]; try done; [by eapply (Hcall true s k)|by eapply (Hcall false s k)|].
    injection H as <-. by econstructor.
  - intros []; unfold iexec.
    + by rewrite H.
    + rewrite H. destruct t as [p0 a0 f0]. unfold sem_of in H0. simpl in *.
      destruct p0; try done; injection H0 as ->; unfold is_down in H1; simpl in *; destruct a0; try done; by rewrite H1.
    + rewrite H. destruct t as [p0 a0 f0]. unfold sem_of in H0. simpl in *. destruct p0; try done; by destruct H1 as [-> | ->].
    + rewrite H. destruct t as [p0 a0 f0]. unfold sem_of in H0. simpl in *. subst. by destruct p0.
    + rewrite H. destruct t as [p0 a0 f0]. unfold sem_of in H0. simpl in *. subst. unfold schedule. rewrite H2. by destruct p0.
Qed.

Lemma claims_running : claims Running = None.
Proof. done. Qed.

Lemma thread_ok_running e qs i p f : f = e → thread_ok e qs i (mkThread p Running f).
Proof. intros ->. by split. Qed.

(** The flag and the place of a thread whose flags are known. *)
Lemma thread_at flags m i t : inv flags m → threads m !! i = Some t → ∃ e, flags !! i = Some e ∧ thread_ok e (isems m) i t.
Proof.
  intros Hv Hi. destruct (lookup_lt_is_Some_2 flags i) as [e He]; [rewrite <-(v_length _ _ Hv); by eapply lookup_lt_Some|].
  exists e. split; [done|]. by eapply v_thread.
Qed.

Lemma owed_insert m i t t' qs x j :
  threads m !! i = Some t → (j = i → waiting_on t' = waiting_on t) →
  (∀ s, j ∈ iwaiting (qs s) ↔ j ∈ iwaiting (isems m s)) →
  owed (mkMachine (<[i := t']> (threads m)) qs x) j = owed m j.
Proof.
  intros Hi Hw Hq. unfold owed. simpl. destruct (decide (j = i)) as [->|Hne].
  - rewrite list_lookup_insert_eq by (by eapply lookup_lt_Some). rewrite Hi. simpl. rewrite Hw by done.
    destruct (waiting_on t) as [s|]; [|done]. by rewrite (bool_decide_ext _ _ (Hq s)).
  - rewrite list_lookup_insert_ne by done. destruct (threads m !! j ≫= waiting_on) as [s|]; [|done].
    by rewrite (bool_decide_ext _ _ (Hq s)).
Qed.

(** A thread that is in nobody's way moves on its own. *)
Lemma inv_thread flags m i t t' x :
  inv flags m → threads m !! i = Some t → crit (at_ t) = false → crit (at_ t') = false →
  waiting_on t' = waiting_on t → claims (at_ t') = claims (at_ t) →
  (∀ e, thread_ok e (isems m) i t → thread_ok e (isems m) i t') →
  inv flags (mkMachine (<[i := t']> (threads m)) (isems m) x).
Proof.
  intros Hv Hi Hc Hc' Hw Hcl Hok. split; simpl.
  - rewrite length_insert. apply (v_length _ _ Hv).
  - intros j u e [(-> & -> & _)|(Hne & Hj)]%list_lookup_insert_Some He; [apply Hok|]; by eapply (v_thread _ _ Hv).
  - intros s. rewrite (zsum_insert _ _ _ _ _ Hi), (v_lock _ _ Hv). unfold holds. rewrite Hc, Hc'. simpl. lia.
  - apply (v_count _ _ Hv).
  - apply (v_nodup _ _ Hv).
  - intros s j Hj. destruct (v_queue _ _ Hv s j Hj) as (u & Hu & Hs). destruct (decide (j = i)) as [->|Hne].
    + exists t'. rewrite list_lookup_insert_eq by (by eapply lookup_lt_Some). split; [done|]. congruence.
    + exists u. by rewrite list_lookup_insert_ne.
  - intros j. rewrite (zsum_insert _ _ _ _ _ Hi), (v_claims _ _ Hv). unfold claimed. rewrite Hcl.
    rewrite (owed_insert m i t) by done. lia.
Qed.

Lemma inv_return flags m i t was :
  inv flags m → threads m !! i = Some t → at_ t = Down_flags was ∨ at_ t = Down_back was →
  inv flags (mkMachine (<[i := mkThread (rest (todo t)) Running (unlock_flags was)]> (threads m)) (isems m) (data m)).
Proof.
  intros Hv Hi Hat. assert (Hall : crit (at_ t) = false ∧ waiting_on t = None ∧ claims (at_ t) = None).
  { unfold waiting_on. by destruct Hat as [-> | ->]. }
  destruct Hall as (Hc & Hw & Hcl). apply (inv_thread flags m i t); try done.
  intros e [_ _ Hf _]. apply thread_ok_running. unfold unlock_flags. destruct Hat as [E|E]; rewrite E in Hf;
    destruct Hf as [_ ->]; apply negb_involutive.
Qed.

(** [schedule], of nobody or of the thread claimed. *)
Lemma inv_wake flags m i t j p was f :
  inv flags m → threads m !! i = Some t → at_ t = Up_schedule (Some j) →
  threads m !! j = Some (mkThread p (Down_waits was) f) →
  inv flags (mkMachine (<[i := mkThread (rest (todo t)) Running (iflag t)]>
                          (<[j := mkThread p (Down_back was) f]> (threads m))) (isems m) (data m)).
Proof.
  intros Hv Hi Hat Hj. set (u := mkThread p (Down_waits was) f) in *.
  assert (Hne : j ≠ i) by (intros ->; rewrite Hi in Hj; injection Hj as ->; by simpl in Hat).
  destruct (claimed_waits flags m i t j Hv Hi) as (p' & was' & f' & Hj' & s & k & Hp & Hq); [by rewrite Hat|].
  rewrite Hj in Hj'. injection Hj' as <- <- <-.
  assert (Hi' : <[j := mkThread p (Down_back was) f]> (threads m) !! i = Some t) by (by rewrite list_lookup_insert_ne).
  split; simpl.
  - rewrite !length_insert. apply (v_length _ _ Hv).
  - intros l v e [(<- & <- & _)|(Hl & [(<- & <- & _)|(Hl' & Hlu)]%list_lookup_insert_Some)]%list_lookup_insert_Some He.
    + apply thread_ok_running. pose proof (v_thread _ _ Hv i t e Hi He) as [_ _ Hf _]. by rewrite Hat in Hf.
    + pose proof (v_thread _ _ Hv j u e Hj He) as [H1 H2 H3 H4]. split; simpl in *; auto. intros E. by apply H1 in E.
    + by eapply (v_thread _ _ Hv).
  - intros s'. rewrite (zsum_insert _ _ _ _ _ Hi'), (zsum_insert _ _ _ _ _ Hj), (v_lock _ _ Hv). unfold holds. rewrite Hat.
    simpl. lia.
  - apply (v_count _ _ Hv).
  - apply (v_nodup _ _ Hv).
  - intros s' l Hl. destruct (v_queue _ _ Hv s' l Hl) as (v & Hlv & Hs). exists v. split; [|done].
    assert (Hli : l ≠ i) by (intros ->; rewrite Hi in Hlv; injection Hlv as <-; unfold waiting_on in Hs; by rewrite Hat in Hs).
    assert (Hlj : l ≠ j).
    { intros ->. rewrite Hj in Hlv. injection Hlv as <-. unfold waiting_on, sem_of in Hs. simpl in Hs. rewrite Hp in Hs.
      by injection Hs as <-. }
    by rewrite !list_lookup_insert_ne.
  - intros l. rewrite (zsum_insert _ _ _ _ _ Hi'), (zsum_insert _ _ _ _ _ Hj), (v_claims _ _ Hv).
    unfold claimed. rewrite Hat. cbn [at_ claims].
    rewrite !(bool_decide_false (None = Some l)) by done. cbn [b2z].
    unfold owed. cbn [threads isems].
    destruct (decide (l = j)) as [->|Hlj].
    + rewrite list_lookup_insert_ne, list_lookup_insert_eq by (done || by eapply lookup_lt_Some). rewrite Hj.
      rewrite (bool_decide_true (Some j = Some j)) by done. cbn [mbind option_bind].
      unfold waiting_on at 1 2, sem_of. cbn [at_ waits todo u]. rewrite Hp, bool_decide_false by done. simpl. lia.
    + rewrite (bool_decide_false (Some j = Some l)) by congruence. cbn [b2z].
      destruct (decide (l = i)) as [->|Hli].
      * rewrite list_lookup_insert_eq by (rewrite length_insert; by eapply lookup_lt_Some). rewrite Hi.
        cbn [mbind option_bind]. unfold waiting_on. rewrite Hat. cbn [at_ waits]. lia.
      * rewrite !list_lookup_insert_ne by done. lia.
Qed.
Lemma upd_isem_eq (h : nat → isem) s q : upd_isem h s q s = q.
Proof. unfold upd_isem. by rewrite decide_True. Qed.
Lemma upd_isem_ne (h : nat → isem) s q s' : s' ≠ s → upd_isem h s q s' = h s'.
Proof. intros. unfold upd_isem. by rewrite decide_False. Qed.

Lemma local_ok_ext q q' i p :
  (icount q' = icount q ∧ iwaiting q' = iwaiting q) ∨ crit p = false → local_ok q i p → local_ok q' i p.
Proof. intros [[E1 E2]|Hc]; destruct p; simpl; try done; by rewrite ?E1, ?E2. Qed.

Lemma waiting_on_todo t p f s :
  sem_of t = Some s → waiting_on (mkThread (todo t) p f) = (if waits p then Some s else None).
Proof. intros Hs. unfold waiting_on. simpl. destruct (waits p); [|done]. exact Hs. Qed.

Lemma waiting_on_sem t s : sem_of t = Some s → waiting_on t = (if waits (at_ t) then Some s else None).
Proof. intros Hs. unfold waiting_on. by rewrite Hs. Qed.

(** A step of a call keeps the queue and the claims in agreement. *)
Section claims.
Context (flags : list bool) (m : machine S) (i : nat) (t : thread S) (s : nat) (q : isem) (p : place) (f : bool).
Context (Hv : inv flags m) (Hi : threads m !! i = Some t) (Hs : sem_of t = Some s).
Context (Ha : advance (is_down t) i (isems m s) (at_ t) (iflag t) = Some (q, p, f)).
Let m' := mkMachine (<[i := mkThread (todo t) p f]> (threads m)) (upd_isem (isems m) s q) (data m).

Lemma not_queued_self : waits (at_ t) = false → ∀ s', i ∉ iwaiting (isems m s').
Proof using Hi Hv.
  intros Hw s' (u & Hu & Hsu)%(v_queue _ _ Hv). rewrite Hi in Hu. injection Hu as <-. unfold waiting_on in Hsu. by rewrite Hw in Hsu.
Qed.

Lemma advance_nodup s' : NoDup (iwaiting (isems m' s')).
Proof using Ha Hi Hv.
  simpl. destruct (decide (s' = s)) as [->|]; [|rewrite upd_isem_ne by done; apply (v_nodup _ _ Hv)].
  rewrite upd_isem_eq. pose proof (v_nodup _ _ Hv s) as Hn.
  destruct (advance_queue _ _ _ _ _ _ _ _ Ha) as [(-> & _)|[(-> & _ & _ & Hw & _)|(next & E & _)]]; [done| |].
  - apply NoDup_app. split_and!; [done| |apply NoDup_singleton]. intros j Hj ->%list_elem_of_singleton.
    by apply (not_queued_self Hw s).
  - rewrite E in Hn. by apply NoDup_cons in Hn as [_ ?].
Qed.

Lemma advance_queued s' j : j ∈ iwaiting (isems m' s') → ∃ u, threads m' !! j = Some u ∧ waiting_on u = Some s'.
Proof using Ha Hi Hs Hv.
  simpl. intros Hj. assert (Hold : j ∈ iwaiting (isems m s') ∨ (j = i ∧ s' = s ∧ waits p = true)).
  { destruct (decide (s' = s)) as [->|]; [|rewrite upd_isem_ne in Hj by done; by left]. rewrite upd_isem_eq in Hj.
    destruct (advance_queue _ _ _ _ _ _ _ _ Ha) as [(E & _)|[(E & _ & _ & _ & Hw)|(next & E & _)]]; rewrite E in *; set_solver. }
  destruct (decide (j = i)) as [->|Hne].
  - exists (mkThread (todo t) p f). rewrite list_lookup_insert_eq by (by eapply lookup_lt_Some). split; [done|].
    rewrite (waiting_on_todo t p f s Hs). destruct Hold as [Hq|(_ & -> & ->)]; [|done].
    destruct (v_queue _ _ Hv s' i Hq) as (u & Hu & Hsu). rewrite Hi in Hu. injection Hu as <-.
    rewrite (waiting_on_sem t s Hs) in Hsu. destruct (waits (at_ t)) eqn:Hw; [|done]. injection Hsu as <-.
    by destruct (advance_queue _ _ _ _ _ _ _ _ Ha) as [(_ & _ & ->)|[(_ & _ & _ & ? & _)|(next & _ & _ & _ & ? & _)]]; [rewrite Hw|congruence..].
  - destruct Hold as [Hq|[? _]]; [|done]. destruct (v_queue _ _ Hv s' j Hq) as (u & Hu & Hsu). exists u.
    by rewrite list_lookup_insert_ne.
Qed.

Lemma advance_claims j : zsum (claimed j) (threads m') = owed m' j.
Proof using Ha Hi Hs Hv.
  assert (Hz : zsum (claimed j) (threads m') = owed m j - claimed j t + claimed j (mkThread (todo t) p f)).
  { simpl. by rewrite (zsum_insert _ _ _ _ _ Hi), (v_claims _ _ Hv). }
  rewrite Hz. clear Hz. unfold claimed. cbn [at_].
  assert (Hself : waits (at_ t) = false → owed m i = 0).
  { intros Hw. unfold owed. rewrite Hi. simpl. by rewrite (waiting_on_sem t s Hs), Hw. }
  destruct (advance_queue _ _ _ _ _ _ _ _ Ha) as [(Eq & -> & Ew)|[(Eq & -> & -> & Hw & Hw')|(next & Eq & -> & -> & Hw & Hw')]].
  - unfold m'. rewrite (owed_insert m i t); [lia|done| |].
    + intros _. by rewrite (waiting_on_todo t p f s Hs), (waiting_on_sem t s Hs), Ew.
    + intros s'. destruct (decide (s' = s)) as [->|]; [by rewrite upd_isem_eq, Eq|by rewrite upd_isem_ne].
  - rewrite bool_decide_false by done. destruct (decide (j = i)) as [->|Hne].
    + rewrite Hself by done. unfold owed, m'. simpl. rewrite list_lookup_insert_eq by (by eapply lookup_lt_Some). simpl.
      rewrite (waiting_on_todo t p f s Hs), Hw', upd_isem_eq, bool_decide_true by (rewrite Eq; set_solver). done.
    + unfold m'. rewrite (owed_insert m i t); [simpl; lia|done|done|].
      intros s'. destruct (decide (s' = s)) as [->|]; [|by rewrite upd_isem_ne]. rewrite upd_isem_eq, Eq. set_solver.
  - rewrite (bool_decide_false (None = Some j)) by done. pose proof (v_nodup _ _ Hv s) as Hn. rewrite Eq in Hn.
    apply NoDup_cons in Hn as [Hnq _].
    destruct (v_queue _ _ Hv s next) as (u & Hu & Hsu); [rewrite Eq; by left|].
    assert (Hni : next ≠ i) by (intros ->; apply (not_queued_self Hw s); rewrite Eq; by left).
    destruct (decide (j = next)) as [->|Hne].
    + rewrite bool_decide_true by done. unfold owed, m'. simpl. rewrite list_lookup_insert_ne, Hu by done. simpl.
      rewrite Hsu, upd_isem_eq, bool_decide_true, bool_decide_false by (done || (rewrite Eq; by left)). done.
    + rewrite bool_decide_false by congruence. unfold m'. rewrite (owed_insert m i t); [simpl; lia|done| |].
      * intros ->. by rewrite (waiting_on_todo t p f s Hs), (waiting_on_sem t s Hs), Hw, Hw'.
      * intros s'. destruct (decide (s' = s)) as [->|]; [|by rewrite upd_isem_ne]. rewrite upd_isem_eq, Eq. set_solver.
Qed.

Lemma inv_advance : inv flags m'.
Proof using Ha Hi Hs Hv.
  destruct (thread_at flags m i t Hv Hi) as (e & He & [Hcall Hfit Hfl Hloc]).
  split; [by unfold m'; simpl; rewrite length_insert; apply (v_length _ _ Hv)| | | |apply advance_nodup|apply advance_queued|apply advance_claims].
  - intros j u e' [(<- & <- & _)|(Hne & Hj)]%list_lookup_insert_Some He'; simpl.
    + assert (e' = e) as -> by congruence. split; simpl.
      * intros E. unfold sem_of in *. simpl in E. congruence.
      * by eapply (advance_fits _ _ _ _ _ _ _ _ Ha).
      * by eapply (advance_flag _ _ _ _ _ _ _ _ Ha).
      * intros s' E. unfold sem_of in *. simpl in E. assert (s' = s) as -> by congruence. rewrite upd_isem_eq.
        apply (advance_local _ _ _ _ _ _ _ _ Ha). by apply Hloc.
    + pose proof (v_thread _ _ Hv j u e' Hj He') as [H1 H2 H3 H4]. split; try done.
      intros s' Hs'. destruct (decide (s' = s)) as [->|]; [|rewrite upd_isem_ne by done; by apply H4].
      rewrite upd_isem_eq. apply (local_ok_ext (isems m s)); [|by apply H4].
      destruct (advance_holder _ _ _ _ _ _ _ _ Ha) as [|Hc]; [by left|]. right.
      destruct (crit (at_ u)) eqn:Hcu; [|done]. destruct Hne. by eapply (holder_unique flags m).
  - intros s'. unfold m'. cbn [threads isems]. rewrite (zsum_insert _ _ _ _ _ Hi), (v_lock _ _ Hv). unfold holds. cbn [at_].
    change (sem_of (mkThread (todo t) p f)) with (sem_of t). rewrite Hs.
    destruct (decide (s' = s)) as [->|]; [|rewrite upd_isem_ne, bool_decide_false, !andb_false_r by congruence; lia].
    rewrite upd_isem_eq, bool_decide_true, !andb_true_r by done.
    destruct (crit (at_ t)) eqn:Hc; [pose proof (holder_taken flags m i t s Hv Hi Hc Hs) as Ht|];
      destruct (advance_lock _ _ _ _ _ _ _ _ Ha) as [(E1 & E2)|[(E1 & E2 & E3 & E4)|(E1 & E2 & E3)]];
      rewrite ?E1, ?E2, ?E3, ?E4, ?Hc, ?Ht; simpl; try lia; congruence.
  - intros s'. unfold m'. simpl. destruct (decide (s' = s)) as [->|]; [|rewrite upd_isem_ne by done; apply (v_count _ _ Hv)].
    rewrite upd_isem_eq. apply (advance_count _ _ _ _ _ _ _ _ Ha), (v_count _ _ Hv).
Qed.
End claims.

Lemma inv_moved flags m i m' : inv flags m → move i m m' → inv flags m'.
Proof.
  intros Hv Hm. destruct Hm as [g k a f Hi|t s q p f Hi Hs Ha|t was Hi Hs Hat|t Hi Hs Hat|t j p was f Hi Hs Hat Hj].
  - destruct (thread_at flags m i _ Hv Hi) as (e & _ & [Hr _ _ _]). specialize (Hr eq_refl). simpl in Hr. subst a.
    apply (inv_thread flags m i _ _ _ Hv Hi); try done. intros e' [_ _ Hf _]. by apply thread_ok_running.
  - by eapply inv_advance.
  - by apply inv_return.
  - apply (inv_thread flags m i t); try done; rewrite ?Hat; try done.
    + unfold waiting_on. by rewrite Hat.
    + intros e' [_ _ Hf _]. apply thread_ok_running. by rewrite Hat in Hf.
  - by apply inv_wake.
Qed.
(** ** Every step is one of [Semaphore], or none *)

Lemma abs_lookup m j : pool (abs m) !! j = abs_thread (isems m) j <$> threads m !! j.
Proof. apply list_lookup_imap. Qed.

Lemma abs_insert m i t' qs x sh :
  (i < List.length (threads m))%nat →
  (∀ j u, j ≠ i → threads m !! j = Some u → abs_thread qs j u = abs_thread (isems m) j u) →
  x = (λ s, abs_sem (qs s)) →
  abs (mkMachine (<[i := t']> (threads m)) qs sh) = mkConf (<[i := abs_thread qs i t']> (pool (abs m))) x sh.
Proof.
  intros Hi Hj ->. unfold abs. cbn [threads isems data pool]. f_equal. apply list_eq. intros j. rewrite list_lookup_imap.
  destruct (decide (j = i)) as [->|Hne].
  - rewrite !list_lookup_insert_eq; [done|by rewrite length_imap|done].
  - rewrite !list_lookup_insert_ne, list_lookup_imap by done. destruct (threads m !! j) as [u|] eqn:Eu; [|done]. simpl.
    by rewrite (Hj j u).
Qed.

Lemma abs_same m i t t' :
  threads m !! i = Some t → abs_thread (isems m) i t' = abs_thread (isems m) i t →
  abs (mkMachine (<[i := t']> (threads m)) (isems m) (data m)) = abs m.
Proof.
  intros Hi Ht. rewrite (abs_insert m i t' (isems m) (sems (abs m)) (data m)); [|by eapply lookup_lt_Some|done|reflexivity].
  unfold abs. simpl. f_equal. rewrite Ht. apply list_insert_id. by rewrite list_lookup_imap, Hi.
Qed.

Lemma abs_thread_ext qs qs' j u :
  (∀ s, waiting_on u = Some s → j ∈ iwaiting (qs' s) ↔ j ∈ iwaiting (qs s)) → abs_thread qs' j u = abs_thread qs j u.
Proof.
  intros H. unfold abs_thread. destruct (committed (at_ u)); [|done]. f_equal. destruct (waiting_on u) as [s|]; [|done]. simpl.
  specialize (H s eq_refl). destruct (decide (j ∈ iwaiting (qs' s))), (decide (j ∈ iwaiting (qs s))); done || naive_solver.
Qed.

Lemma abs_sems_same (h : nat → isem) s q : abs_sem q = abs_sem (h s) → (λ s', abs_sem (upd_isem h s q s')) = (λ s', abs_sem (h s')).
Proof.
  intros E. extensionality s'. destruct (decide (s' = s)) as [->|]; [by rewrite upd_isem_eq|by rewrite upd_isem_ne].
Qed.

Lemma abs_sems_upd (h : nat → isem) s q :
  (λ s', abs_sem (upd_isem h s q s')) = upd_sem (λ s', abs_sem (h s')) s (abs_sem q).
Proof. extensionality s'. unfold upd_isem, upd_sem. by destruct (decide (s' = s)). Qed.

Lemma not_committed_waits p : committed p = false → waits p = false.
Proof. by destruct p. Qed.

Section effect.
Context (flags : list bool) (m : machine S) (i : nat) (t : thread S) (s : nat) (q : isem) (p : place) (f : bool).
Context (Hv : inv flags m) (Hi : threads m !! i = Some t) (Hs : sem_of t = Some s).
Context (Ha : advance (is_down t) i (isems m s) (at_ t) (iflag t) = Some (q, p, f)).
Let m' := mkMachine (<[i := mkThread (todo t) p f]> (threads m)) (upd_isem (isems m) s q) (data m).

(** A step without effect. *)
Lemma abs_silent :
  abs_sem q = abs_sem (isems m s) → committed p = committed (at_ t) → abs m' = abs m.
Proof using Ha Hi Hs.
  intros Eq Ec. assert (Ew : iwaiting q = iwaiting (isems m s)) by (by injection Eq).
  assert (Hext : ∀ j u, abs_thread (upd_isem (isems m) s q) j u = abs_thread (isems m) j u).
  { intros j u. apply abs_thread_ext. intros s' _.
    destruct (decide (s' = s)) as [->|]; [by rewrite upd_isem_eq, Ew|by rewrite upd_isem_ne]. }
  assert (Hwaits : waits p = waits (at_ t)).
  { destruct (advance_queue _ _ _ _ _ _ _ _ Ha) as [(_ & _ & ?)|[(E & _)|(next & E & _)]]; [done| |]; exfalso.
    - assert (Hlen : List.length (iwaiting q) = List.length (iwaiting (isems m s) ++ [i])) by (by rewrite E).
      rewrite length_app, Ew in Hlen. simpl in Hlen. lia.
    - assert (Hlen : List.length (iwaiting (isems m s)) = Datatypes.S (List.length (iwaiting q))) by (by rewrite E).
      rewrite Ew in Hlen. lia. }
  assert (Ht : abs_thread (isems m) i (mkThread (todo t) p f) = abs_thread (isems m) i t).
  { unfold abs_thread. simpl. by rewrite Ec, (waiting_on_todo t p f s Hs), (waiting_on_sem t s Hs), Hwaits. }
  unfold m'. rewrite (abs_insert m i _ _ (sems (abs m)) (data m)).
  - rewrite Hext, Ht. unfold abs. simpl. f_equal. apply list_insert_id. by rewrite list_lookup_imap, Hi.
  - by eapply lookup_lt_Some.
  - auto.
  - symmetry. by apply abs_sems_same.
Qed.

(** The step at which [down] or [up] takes effect. *)
Lemma abs_effect :
  committed (at_ t) = false → committed p = true → exec i (abs m) = Some (abs m').
Proof using Ha Hi Hs Hv.
  intros Ec Ec'. destruct (thread_at flags m i t Hv Hi) as (e & _ & [_ Hfit _ Hloc]).
  pose proof (advance_effect _ _ _ _ _ _ _ _ Ha Hfit (Hloc s Hs) (v_count _ _ Hv s)) as He. rewrite Ec, Ec' in He.
  assert (Hpi : pool (abs m) !! i = Some (todo t, None)) by (rewrite abs_lookup, Hi; simpl; unfold abs_thread; by rewrite Ec).
  pose proof (not_committed_waits _ Ec) as Hw.
  assert (Hother : ∀ j u, j ≠ i → threads m !! j = Some u → (j ∈ iwaiting q ↔ j ∈ iwaiting (isems m s)) →
            abs_thread (upd_isem (isems m) s q) j u = abs_thread (isems m) j u).
  { intros j u _ _ Hq. apply abs_thread_ext. intros s' _.
    destruct (decide (s' = s)) as [->|]; [by rewrite upd_isem_eq|by rewrite upd_isem_ne]. }
  unfold exec. rewrite Hpi. unfold is_down in He. unfold sem_of in Hs.
  destruct (todo t) as [| |s0 k|s0 k|g k] eqn:Et; try done; injection Hs as ->.
  - change (sems (abs m) s) with (abs_sem (isems m s)). rewrite He. f_equal. symmetry. unfold m'.
    rewrite (abs_insert m i _ _ (upd_sem (sems (abs m)) s (abs_sem q)) (data m)).
    + f_equal. unfold abs_thread. simpl. rewrite Ec'. f_equal. unfold waiting_on. simpl.
      destruct (waits p) eqn:Ew; [|done]. unfold sem_of. simpl. rewrite upd_isem_eq. rewrite decide_True; [done|].
      destruct (advance_queue _ _ _ _ _ _ _ _ Ha) as [(_ & _ & E)|[(-> & _)|(next & _ & _ & _ & _ & E)]]; [congruence|set_solver|congruence].
    + by eapply lookup_lt_Some.
    + intros j u Hne Hj. apply Hother; [done|done|].
      destruct (advance_queue _ _ _ _ _ _ _ _ Ha) as [(-> & _)|[(-> & _)|(next & E & _ & E' & _ & E2)]]; [done|set_solver|].
      exfalso. assert (Hd : is_down t = true) by (unfold is_down; by rewrite Et). pose proof (advance_fits _ _ _ _ _ _ _ _ Ha Hfit) as Hf.
      rewrite Hd in Hf. by destruct p.
    + symmetry. apply abs_sems_upd.
  - change (sems (abs m) s) with (abs_sem (isems m s)). destruct He as [He Hwp]. rewrite He. f_equal. symmetry.
    assert (Hpool : ∀ j, pool (abs m') !! j = if decide (j = i) then Some (k, None) else abs_thread (upd_isem (isems m) s q) j <$> threads m !! j).
    { intros j. rewrite abs_lookup. simpl. destruct (decide (j = i)) as [->|].
      - rewrite list_lookup_insert_eq by (by eapply lookup_lt_Some). simpl. unfold abs_thread, waiting_on. simpl. by rewrite Ec', Hwp.
      - by rewrite list_lookup_insert_ne. }
    assert (Hconf : ∀ l, pool (abs m') = l → abs m' = mkConf l (upd_sem (sems (abs m)) s (abs_sem q)) (data m)).
    { intros l <-. unfold m', abs. simpl. f_equal. apply abs_sems_upd. }
    assert (Hlen : (i < List.length (pool (abs m)))%nat) by (by eapply lookup_lt_Some).
    destruct (claims p) as [next|] eqn:Ecl; apply Hconf, list_eq; intros j; rewrite Hpool.
    + assert (Hq : iwaiting (isems m s) = next :: iwaiting q).
      { unfold up, abs_sem in He. simpl in He. by destruct (iwaiting (isems m s)) as [|n w]; [done|injection He as _ -> ->]. }
      pose proof (v_nodup _ _ Hv s) as Hn. rewrite Hq in Hn. apply NoDup_cons in Hn as [Hnq _].
      destruct (v_queue _ _ Hv s next) as (u & Hu & Hsu); [rewrite Hq; by left|].
      assert (Hni : next ≠ i) by (intros ->; apply (not_queued_self flags m i t Hv Hi Hw s); rewrite Hq; by left).
      destruct (decide (j = i)) as [->|Hne]; [by rewrite list_lookup_alter_ne, list_lookup_insert_eq by done|].
      destruct (decide (j = next)) as [->|Hnj].
      * rewrite list_lookup_alter_eq, list_lookup_insert_ne, abs_lookup, Hu by done. simpl. unfold abs_thread.
        assert (Hcu : committed (at_ u) = true) by (unfold waiting_on in Hsu; by destruct (at_ u)).
        rewrite Hcu, Hsu. simpl. rewrite upd_isem_eq. by rewrite decide_False.
      * rewrite list_lookup_alter_ne, list_lookup_insert_ne, abs_lookup by done.
        destruct (threads m !! j) as [v|] eqn:Ej; [|done]. simpl. f_equal. apply Hother; [done|done|]. rewrite Hq. set_solver.
    + destruct (decide (j = i)) as [->|Hne]; [by rewrite list_lookup_insert_eq by done|].
      rewrite list_lookup_insert_ne, abs_lookup by done. destruct (threads m !! j) as [v|] eqn:Ej; [|done]. simpl. f_equal.
      apply Hother; [done|done|]. unfold up, abs_sem in He. simpl in He.
      destruct (iwaiting (isems m s)) as [|n w]; [by injection He as _ ->|done].
Qed.
End effect.
(** A thread whose call has had its effect, or that is in none, has none;
    another one comes closer to it, or to the end of its step. *)
Lemma abs_move flags m i t m' :
  inv flags m → threads m !! i = Some t → move i m m' →
  if committed (at_ t) then abs m' = abs m ∧ ∀ j u, threads m' !! j = Some u → threads m !! j = Some u ∨ at_ u = Running ∨ committed (at_ u) = true
  else (abs m' = abs m ∧ ∃ s t', sem_of t = Some s ∧ todo t' = todo t ∧ committed (at_ t') = false ∧ threads m' = <[i := t']> (threads m)) ∨
       (exec i (abs m) = Some (abs m') ∧ ∃ t', threads m' = <[i := t']> (threads m) ∧ (at_ t' = Running ∨ committed (at_ t') = true)).
Proof.
  intros Hv Hi Hm.
  assert (Hins : ∀ (l : list (thread S)) t' j u, <[i := t']> l !! j = Some u → at_ t' = Running ∨ committed (at_ t') = true →
            l !! j = Some u ∨ at_ u = Running ∨ committed (at_ u) = true).
  { intros l t' j u [(<- & <- & _)|(_ & ?)]%list_lookup_insert_Some; auto. }
  destruct Hm as [g k a f Hi'|t0 s q p f Hi' Hs Ha|t0 was Hi' Hs Hat|t0 Hi' Hs Hat|t0 j p was f Hi' Hs Hat Hj];
    rewrite Hi in Hi'; injection Hi' as Hi'; subst.
  - destruct (thread_at flags m i _ Hv Hi) as (e & _ & [Hr _ _ _]). specialize (Hr eq_refl). simpl in Hr. subst a. simpl. right.
    split; [|by eexists; split; [reflexivity|left]]. unfold exec. rewrite abs_lookup, Hi. simpl. f_equal. symmetry.
    apply abs_insert; [by eapply lookup_lt_Some|done|done].
  - destruct (thread_at flags m i _ Hv Hi) as (e & _ & [_ Hfit _ Hloc]).
    pose proof (advance_effect _ _ _ _ _ _ _ _ Ha Hfit (Hloc s Hs) (v_count _ _ Hv s)) as He.
    destruct (committed (at_ t0)) eqn:Ec; [|destruct (committed p) eqn:Ep].
    + destruct He as [Ep Eq]. split; [|intros j u Hj; eapply Hins; [exact Hj|by right]].
      eapply abs_silent; [done|done|done|done|congruence].
    + right. split; [by eapply abs_effect|]. eexists; split; [reflexivity|by right].
    + left. split; [eapply abs_silent; [done|done|done|done|congruence]|]. by exists s, (mkThread (todo t0) p f).
  - assert (Hall : committed (at_ t0) = true ∧ waits (at_ t0) = false) by (by destruct Hat as [-> | ->]). destruct Hall as [Hc Hw].
    rewrite Hc. split; [|intros j u Hj; eapply Hins; [exact Hj|by left]]. apply (abs_same m i t0); [done|].
    unfold abs_thread. rewrite Hc. simpl. unfold waiting_on. by rewrite Hw.
  - rewrite Hat. simpl. split; [|intros j u Hj; eapply Hins; [exact Hj|by left]]. apply (abs_same m i t0); [done|].
    unfold abs_thread, waiting_on. by rewrite Hat.
  - rewrite Hat. simpl.
    assert (Hne : j ≠ i) by (intros ->; rewrite Hi in Hj; injection Hj as ->; by simpl in Hat).
    destruct (claimed_waits flags m i t0 j Hv Hi) as (p' & was' & f' & Hj' & s & k & Hp & Hq); [by rewrite Hat|].
    rewrite Hj in Hj'. injection Hj' as <- <- <-.
    set (m1 := mkMachine (<[j := mkThread p (Down_back was) f]> (threads m)) (isems m) (data m)).
    split.
    + transitivity (abs m1).
      * apply (abs_same m1 i t0); [by simpl; rewrite list_lookup_insert_ne|]. unfold abs_thread, waiting_on. by rewrite Hat.
      * apply (abs_same m j (mkThread p (Down_waits was) f)); [done|]. unfold abs_thread, waiting_on, sem_of. simpl. subst p. simpl.
        by rewrite decide_False.
    + intros l u Hl. apply (Hins (threads m1)) in Hl as [Hl|]; [|by right|by left]. simpl in Hl.
      apply list_lookup_insert_Some in Hl as [(_ & <- & _)|(_ & ?)]; auto.
Qed.

(** ** Calls come to an end *)

(** No call is under way, but for those that wait. *)
Definition quiet t : Prop := match at_ t with Running | Down_waits _ => True | _ => False end.
Definition all_quiet m : Prop := ∀ i t, threads m !! i = Some t → quiet t.

#[export] Instance quiet_dec t : Decision (quiet t).
Proof. unfold quiet. destruct (at_ t); apply _. Defined.

(** How far a call is from its end, when the lock is free for it. *)
Definition rank (p : place) : Z :=
  match p with
  | Running => 0 | Lock_restore _ => 20 | Lock_disable => 19 | Lock_exchange _ => 18
  | Down_test _ => 17 | Down_block _ => 10 | Down_add _ => 9 | Down_release _ => 8
  | Down_read _ => 6 | Down_write _ _ => 5 | Down_unlock _ => 4 | Down_flags _ => 3 | Down_waits _ => 2 | Down_back _ => 1
  | Up_remove _ => 17 | Up_read _ => 16 | Up_write _ _ => 15 | Up_unlock _ _ => 14 | Up_flags _ _ => 13 | Up_schedule _ => 12
  end.
Definition total m : Z := zsum (λ t, rank (at_ t)) (threads m).

Lemma left_nonneg p : 0 ≤ rank p.
Proof. by destruct p. Qed.

Lemma work_nonneg m : 0 ≤ total m.
Proof. apply zsum_nonneg. intros; apply left_nonneg. Qed.

Lemma advance_rank d me q p f :
  crit p = true ∨ taken q = false →
  match p with
  | Running | Down_waits _ | Down_flags _ | Down_back _ | Up_schedule _ => True
  | _ => ∃ q' p' f', advance d me q p f = Some (q', p', f') ∧ rank p' < rank p
  end.
Proof.
  intros Hq. destruct p; try done; simpl; repeat case_match; destruct Hq; try congruence;
    by eexists _, _, _; (split; [reflexivity|]).
Qed.

(** A call whose lock is free, or its own, goes on. *)
Lemma move_exists flags m i t s :
  inv flags m → threads m !! i = Some t → ¬ quiet t → sem_of t = Some s → crit (at_ t) = true ∨ taken (isems m s) = false →
  ∃ m', move i m m' ∧ total m' < total m.
Proof.
  intros Hv Hi Hq Hs Hf. assert (Hne : sem_of t ≠ None) by congruence.
  pose proof (advance_rank (is_down t) i (isems m s) (at_ t) (iflag t) Hf) as Ha.
  assert (Hadv : (∃ q' p' f', advance (is_down t) i (isems m s) (at_ t) (iflag t) = Some (q', p', f') ∧ rank p' < rank (at_ t)) →
            ∃ m', move i m m' ∧ total m' < total m).
  { intros (q & p & f & E & Hr). eexists. split; [by eapply move_advance|]. unfold total. simpl.
    rewrite (zsum_insert _ _ _ _ _ Hi). simpl. lia. }
  assert (Hret : ∀ was, at_ t = Down_flags was ∨ at_ t = Down_back was → ∃ m', move i m m' ∧ total m' < total m).
  { intros was Hat. eexists. split; [by eapply move_return|]. unfold total. simpl. rewrite (zsum_insert _ _ _ _ _ Hi). simpl.
    destruct Hat as [-> | ->]; simpl; lia. }
  unfold quiet in Hq. destruct (at_ t) eqn:Hat; try done; try (by apply Hadv); try (by eapply Hret; eauto).
  destruct next as [j|].
  - destruct (claimed_waits flags m i t j Hv Hi) as (p & was & f & Hj & _); [by rewrite Hat|].
    assert (Hij : j ≠ i) by (intros ->; rewrite Hi in Hj; injection Hj as ->; by simpl in Hat).
    eexists. split; [by eapply move_wake|]. unfold total. simpl.
    rewrite (zsum_insert _ _ _ t), (zsum_insert _ _ _ _ _ Hj) by (by rewrite list_lookup_insert_ne). rewrite Hat. simpl. lia.
  - eexists. split; [by eapply move_schedule|]. unfold total. simpl. rewrite (zsum_insert _ _ _ _ _ Hi), Hat. simpl. lia.
Qed.

(** A call that neither waits nor has a lock to wait for can go on, if only
    to try again. *)
Lemma call_goes_on flags m i t s :
  inv flags m → threads m !! i = Some t → ¬ quiet t → sem_of t = Some s → ∃ m', move i m m'.
Proof.
  intros Hv Hi Hq Hs. assert (Hne : sem_of t ≠ None) by congruence.
  assert (Hadv : (∃ q' p' f', advance (is_down t) i (isems m s) (at_ t) (iflag t) = Some (q', p', f')) → ∃ m', move i m m').
  { intros (q & p & f & E). eexists. by eapply move_advance. }
  unfold quiet in Hq. destruct (at_ t) eqn:Hat; try done;
    try (apply Hadv; simpl; try (destruct (iwaiting (isems m s))); by eexists _, _, _).
  - eexists. eapply move_return; eauto.
  - eexists. eapply move_return; eauto.
  - destruct next as [j|]; [|eexists; by eapply move_schedule].
    destruct (claimed_waits flags m i t j Hv Hi) as (p & was & f & Hj & _); [by rewrite Hat|].
    eexists. by eapply move_wake.
Qed.

(** A free lock has no holder. *)
Lemma lock_is_free flags m s :
  inv flags m → (∀ i t, threads m !! i = Some t → crit (at_ t) = false) → taken (isems m s) = false.
Proof.
  intros Hv Hno. pose proof (v_lock _ _ Hv s) as Hz. rewrite zsum_zero in Hz; [by destruct (taken (isems m s))|].
  intros t [i Hi]%list_elem_of_lookup_1. unfold holds. by rewrite (Hno i t Hi).
Qed.

Lemma not_quiet_call flags m i t : inv flags m → threads m !! i = Some t → ¬ quiet t → ∃ s, sem_of t = Some s.
Proof.
  intros Hv Hi Hq. destruct (thread_at flags m i t Hv Hi) as (e & _ & [Hr _ _ _]). destruct (sem_of t) as [s|] eqn:Es; [by exists s|].
  destruct Hq. unfold quiet. by rewrite Hr.
Qed.

Lemma quiet_not_crit t : quiet t → crit (at_ t) = false.
Proof. unfold quiet. by destruct (at_ t). Qed.

Lemma crit_dec m :
  (∃ i t, threads m !! i = Some t ∧ crit (at_ t) = true) ∨ (∀ i t, threads m !! i = Some t → crit (at_ t) = false).
Proof.
  destruct (decide (Exists (λ t, crit (at_ t) = true) (threads m))) as [He|He].
  - left. apply Exists_exists in He as (t & [i Hi]%list_elem_of_lookup_1 & Ht). eauto.
  - right. intros i t Hi. apply not_true_iff_false. intros Ht. apply He, Exists_exists. exists t. split; [|done].
    by eapply list_elem_of_lookup_2.
Qed.

Lemma drain_step flags m i t :
  inv flags m → threads m !! i = Some t → ¬ quiet t → ∃ j u m', threads m !! j = Some u ∧ ¬ quiet u ∧ move j m m' ∧ total m' < total m.
Proof.
  intros Hv Hi Hq.
  destruct (crit_dec m) as [(j & u & Hj & Hc)|Hno].
  - assert (Hqu : ¬ quiet u) by (intros ?%quiet_not_crit; congruence). destruct (not_quiet_call flags m j u Hv Hj Hqu) as [s Hs].
    destruct (move_exists flags m j u s) as (m' & ? & ?); [done|done|done|done|by left|]. by exists j, u, m'.
  - destruct (not_quiet_call flags m i t Hv Hi Hq) as [s Hs]. destruct (move_exists flags m i t s) as (m' & ? & ?); [done..| |].
    + right. by apply (lock_is_free flags).
    + by exists i, t, m'.
Qed.
Lemma quiet_or_not m : all_quiet m ∨ ∃ i t, threads m !! i = Some t ∧ ¬ quiet t.
Proof.
  destruct (decide (Forall quiet (threads m))) as [Hf|Hf].
  - left. by rewrite Forall_lookup in Hf.
  - right. apply not_Forall_Exists in Hf; [|apply _]. apply Exists_exists in Hf as (t & [i Hi]%list_elem_of_lookup_1 & Ht). eauto.
Qed.

(** No call is under way that has not had its effect. *)
Definition settled m : Prop := ∀ i t, threads m !! i = Some t → at_ t = Running ∨ committed (at_ t) = true.

Lemma drain flags m :
  inv flags m → ∃ m', isteps m m' ∧ inv flags m' ∧ all_quiet m' ∧ (settled m → abs m' = abs m).
Proof.
  remember (Z.to_nat (total m)) as n eqn:En. revert m En. induction (lt_wf n) as [n _ IH]. intros m -> Hv.
  destruct (quiet_or_not m) as [Hq|(i & t & Hi & Ht)]; [by exists m; split; [constructor|]|].
  destruct (drain_step flags m i t Hv Hi Ht) as (j & u & m1 & Hj & Hu & Hm & Hr).
  pose proof (work_nonneg m1). destruct (IH (Z.to_nat (total m1)) ltac:(lia) m1 eq_refl) as (m2 & Hsteps & Hv2 & Hq2 & Habs).
  { by eapply inv_moved. }
  exists m2. split_and!; [|done|done|].
  - eapply rtc_l; [|exact Hsteps]. exists j. by apply iexec_move.
  - intros Hs. pose proof (abs_move flags m j u m1 Hv Hj Hm) as Ha.
    assert (Hcu : committed (at_ u) = true) by (destruct (Hs j u Hj) as [E|]; [by destruct Hu; unfold quiet; rewrite E|done]).
    rewrite Hcu in Ha. destruct Ha as [<- Hold]. apply Habs. intros k v [Hk|Hk]%Hold; [by eapply Hs|done].
Qed.

(** A thread on its own brings its call to its effect. *)
Lemma solo flags m i t s :
  inv flags m → threads m !! i = Some t → sem_of t = Some s → committed (at_ t) = false → at_ t ≠ Running →
  (∀ j u, j ≠ i → threads m !! j = Some u → quiet u) →
  ∃ m', isteps m m' ∧ inv flags m' ∧ exec i (abs m) = Some (abs m') ∧ settled m'.
Proof.
  remember (Z.to_nat (rank (at_ t))) as n eqn:En. revert m t En. induction (lt_wf n) as [n _ IH].
  intros m t -> Hv Hi Hs Hc Hr Hothers.
  assert (Hfree : crit (at_ t) = true ∨ taken (isems m s) = false).
  { destruct (crit (at_ t)) eqn:Ec; [by left|right]. apply (lock_is_free flags); [done|]. intros j u Hj.
    destruct (decide (j = i)) as [->|Hne]; [congruence|]. by eapply quiet_not_crit, Hothers. }
  pose proof (advance_rank (is_down t) i (isems m s) (at_ t) (iflag t) Hfree) as Ha.
  assert (Hadv : ∃ q' p' f', advance (is_down t) i (isems m s) (at_ t) (iflag t) = Some (q', p', f') ∧ rank p' < rank (at_ t))
    by (by destruct (at_ t)). clear Ha. destruct Hadv as (q & p & f & Ea & Hlt).
  pose proof (move_advance i m t s q p f Hi Hs Ea) as Hm. set (m1 := mkMachine _ _ _) in Hm.
  pose proof (inv_moved flags m i m1 Hv Hm) as Hv1. pose proof (abs_move flags m i t m1 Hv Hi Hm) as Habs. rewrite Hc in Habs.
  assert (Hstep : istep m m1) by (exists i; by apply iexec_move).
  assert (Hother1 : ∀ j u, j ≠ i → threads m1 !! j = Some u → quiet u).
  { intros j u Hne Hj. simpl in Hj. rewrite list_lookup_insert_ne in Hj by done. by eapply Hothers. }
  destruct Habs as [(Eabs & s' & t' & _ & Ht' & Hc' & Eth)|(Eex & t' & Eth & Ht')].
  - assert (Hi1 : threads m1 !! i = Some t') by (rewrite Eth; apply list_lookup_insert_eq; by eapply lookup_lt_Some).
    assert (Hp : t' = mkThread (todo t) p f).
    { simpl in Hi1. rewrite list_lookup_insert_eq in Hi1 by (by eapply lookup_lt_Some). by injection Hi1. }
    pose proof (left_nonneg p). subst t'. simpl in Hc'.
    destruct (IH (Z.to_nat (rank p)) ltac:(lia) m1 (mkThread (todo t) p f) eq_refl Hv1 Hi1) as (m2 & ? & ? & He & ?);
      [done|done| |done|].
    { simpl. by destruct (at_ t); simpl in Ea; repeat case_match; try done; injection Ea as _ <- _. }
    exists m2. rewrite <-Eabs. split_and!; [by eapply rtc_l|done|done|done].
  - exists m1. split_and!; [by apply rtc_once|done|done|]. intros j u Hj. rewrite Eth in Hj.
    apply list_lookup_insert_Some in Hj as [(_ & <- & _)|(Hne & Hj)]; [done|].
    pose proof (Hothers j u ltac:(done) Hj) as Hq. unfold quiet in Hq. destruct (at_ u); try done; [by left|by right].
Qed.

(** In a quiet machine whoever waits is in the queue. *)
Lemma quiet_queued flags m i t s :
  inv flags m → all_quiet m → threads m !! i = Some t → waiting_on t = Some s → i ∈ iwaiting (isems m s).
Proof.
  intros Hv Hq Hi Hw. pose proof (v_claims _ _ Hv i) as Hz. rewrite zsum_zero in Hz.
  - unfold owed in Hz. rewrite Hi in Hz. simpl in Hz. rewrite Hw in Hz.
    destruct (bool_decide (i ∈ iwaiting (isems m s))) eqn:E; [by apply bool_decide_eq_true in E|done].
  - intros u [j Hj]%list_elem_of_lookup_1. specialize (Hq j u Hj). unfold quiet in Hq. unfold claimed. by destruct (at_ u).
Qed.

(** A step of [Semaphore], done by the code from one quiet machine to
    another. *)
Lemma realise flags m i c :
  inv flags m → all_quiet m → exec i (abs m) = Some c → ∃ m', isteps m m' ∧ inv flags m' ∧ all_quiet m' ∧ abs m' = c.
Proof.
  intros Hv Hq He.
  assert (Hrun : ∃ t, threads m !! i = Some t ∧ at_ t = Running).
  { unfold exec in He. rewrite abs_lookup in He. destruct (threads m !! i) as [t|] eqn:Hi; [|done]. exists t. split; [done|].
    pose proof (Hq i t Hi) as Hqt. unfold quiet in Hqt. destruct (at_ t) eqn:Hat; try done. simpl in He. unfold abs_thread in He.
    rewrite Hat in He. simpl in He. destruct (thread_at flags m i t Hv Hi) as (e & _ & [Hr Hf _ _]). rewrite Hat in Hr, Hf.
    destruct (sem_of t) as [s|] eqn:Es; [|by specialize (Hr eq_refl)].
    assert (Hw : waiting_on t = Some s) by (unfold waiting_on; by rewrite Hat).
    rewrite Hw in He. simpl in He. rewrite decide_True in He by (by eapply quiet_queued). by destruct (rest (todo t)). }
  destruct Hrun as (t & Hi & Hat). destruct (sem_of t) as [s|] eqn:Es.
  - assert (Ha : advance (is_down t) i (isems m s) (at_ t) (iflag t) = Some (isems m s, Lock_disable, iflag t)) by (by rewrite Hat).
    pose proof (move_advance i m t s _ _ _ Hi Es Ha) as Hm. set (m1 := mkMachine _ _ _) in Hm.
    pose proof (inv_moved flags m i m1 Hv Hm) as Hv1.
    assert (Hi1 : threads m1 !! i = Some (mkThread (todo t) Lock_disable (iflag t))) by (simpl; apply list_lookup_insert_eq; by eapply lookup_lt_Some).
    assert (Eabs : abs m1 = abs m) by (apply (abs_silent m i t s _ _ _ Hi Es Ha); [done|by rewrite Hat]).
    destruct (solo flags m1 i _ s Hv1 Hi1) as (m2 & H2 & Hv2 & He2 & Hs2); [done|done|done| |].
    { intros j u Hne Hj. simpl in Hj. rewrite list_lookup_insert_ne in Hj by done. by eapply Hq. }
    destruct (drain flags m2 Hv2) as (m3 & H3 & Hv3 & Hq3 & Hd). exists m3. split_and!; [|done|done|].
    + eapply rtc_l; [exists i; apply iexec_move, Hm|]. by etransitivity.
    + rewrite Hd by done. rewrite Eabs, He in He2. by injection He2.
  - pose proof Es as Ep. unfold sem_of in Ep. destruct t as [p a f]. simpl in *. subst a.
    assert (Hp : pool (abs m) !! i = Some (p, None)) by (by rewrite abs_lookup, Hi).
    destruct p as [| |s k|s k|g k]; try done; unfold exec in He; rewrite Hp in He; try done.
    pose proof (move_act i m g k Running f Hi) as Hm. set (m1 := mkMachine _ _ _) in Hm.
    exists m1. split_and!; [apply rtc_once; exists i; by apply iexec_move|by eapply inv_moved| |].
    + intros j u [(_ & <- & _)|(_ & Hj)]%list_lookup_insert_Some; [done|by eapply Hq].
    + injection He as <-. apply abs_insert; [by eapply lookup_lt_Some|done|done].
Qed.

(** ** From the start *)

Lemma inv_boot (progs : list (prog S * bool)) counts x : inv (map snd progs) (boot progs counts x).
Proof.
  assert (Hat : ∀ i t, threads (boot progs counts x) !! i = Some t → ∃ p, progs !! i = Some p ∧ t = mkThread p.1 Running p.2).
  { intros i t. simpl. rewrite list_lookup_fmap. destruct (progs !! i) as [p|]; [|done]. intros [= <-]. by exists p. }
  assert (Hz : ∀ g : thread S → Z, (∀ t, at_ t = Running → g t = 0) → zsum g (threads (boot progs counts x)) = 0).
  { intros g Hg. apply zsum_zero. intros t [i (p & _ & ->)%Hat]%list_elem_of_lookup_1. by apply Hg. }
  split.
  - simpl. by rewrite !length_map.
  - intros i t e (p & Hp & ->)%Hat He. apply thread_ok_running. rewrite list_lookup_fmap, Hp in He. by injection He.
  - intros s. apply Hz. intros t E. unfold holds. by rewrite E.
  - intros s. simpl. unfold u32. pose proof (Z.mod_pos_bound (counts s) (2 ^ 32) ltac:(lia)). lia.
  - intros s. simpl. apply NoDup_nil_2.
  - intros s j. simpl. by intros ?%not_elem_of_nil.
  - intros j. rewrite Hz; [|intros t E; unfold claimed; by rewrite E]. unfold owed.
    destruct (threads (boot progs counts x) !! j) as [t|] eqn:Ej; [|done]. apply Hat in Ej as (p & _ & ->). done.
Qed.

Lemma abs_boot (progs : list (prog S * bool)) counts x :
  abs (boot progs counts x) = mkConf (map (λ p, (p.1, None)) progs) (λ s, make (counts s)) x.
Proof.
  unfold abs. simpl. f_equal. apply list_eq. intros i. rewrite list_lookup_imap, !list_lookup_fmap. by destruct (progs !! i).
Qed.

Lemma inv_isteps flags m m' : inv flags m → isteps m m' → inv flags m' ∧ steps (abs m) (abs m').
Proof.
  intros Hv Hs. induction Hs as [m|m1 m2 m3 [i Hi%iexec_move] _ IH]; [by split; [|constructor]|].
  destruct IH as [Hv3 H3]; [by eapply inv_moved|]. split; [done|].
  assert (Ht : ∃ t, threads m1 !! i = Some t) by (destruct Hi; eauto). destruct Ht as [t Ht].
  pose proof (abs_move flags m1 i t m2 Hv Ht Hi) as Ha.
  destruct (committed (at_ t)); [by destruct Ha as [<- _]|]. destruct Ha as [[<- _]|[He _]]; [done|].
  eapply rtc_l; [by exists i|done].
Qed.
End machine.

(** The atomic configuration in which the threads begin. *)
Definition start {S} (progs : list (prog S * bool)) (counts : nat → Z) (x : S) : conf S :=
  mkConf (map (λ p, (p.1, None)) progs) (λ s, make (counts s)) x.

(** Programs, each on a core whose interrupts are on or off. *)
Definition on_cores {S} (flags : nat → bool) (progs : list (prog S)) : list (prog S * bool) :=
  imap (λ i p, (p, flags i)) progs.

Lemma start_on_cores {S} flags (progs : list (prog S)) counts x :
  start (on_cores flags progs) counts x = mkConf ((λ p, (p, None)) <$> progs) (λ s, make (counts s)) x.
Proof.
  unfold start, on_cores. f_equal. apply list_eq. intros i. rewrite !list_lookup_fmap, list_lookup_imap. by destruct (progs !! i).
Qed.

(** ** What clients use

    The code is where the atomic steps lead; a thread outside of calls is
    where they say; and if no thread can take a step then none can by
    atomic steps, each being outside of calls or in the queue of a
    semaphore. *)

Lemma code_reaches {S} (progs : list (prog S * bool)) counts x m :
  isteps (boot progs counts x) m → steps (start progs counts x) (abs m).
Proof. intros H. pose proof (proj2 (inv_isteps _ _ _ (inv_boot progs counts x) H)) as Hs. by rewrite abs_boot in Hs. Qed.

Lemma code_outside {S} (m : machine S) i t :
  threads m !! i = Some t → at_ t = Running → pool (abs m) !! i = Some (todo t, None).
Proof. intros Hi Hat. rewrite abs_lookup, Hi. simpl. unfold abs_thread. by rewrite Hat. Qed.

Lemma code_stuck_quiet {S} (progs : list (prog S * bool)) counts x m :
  isteps (boot progs counts x) m → (∀ i, iexec i m = None) → all_quiet m.
Proof.
  intros H Hst i t Hi. destruct (inv_isteps _ _ _ (inv_boot progs counts x) H) as [Hv _].
  destruct (decide (quiet t)) as [|Hq]; [done|exfalso]. destruct (not_quiet_call _ m i t Hv Hi Hq) as [s Es].
  destruct (call_goes_on _ m i t s Hv Hi Hq Es) as [m' E%iexec_move]. by rewrite Hst in E.
Qed.

Lemma code_stuck {S} (progs : list (prog S * bool)) counts x m :
  isteps (boot progs counts x) m → (∀ i, iexec i m = None) →
  (∀ i, exec i (abs m) = None) ∧
  ∀ i t, threads m !! i = Some t →
    (at_ t = Running ∧ pool (abs m) !! i = Some (todo t, None)) ∨
    ∃ s, waiting_on t = Some s ∧ pool (abs m) !! i = Some (rest (todo t), Some s).
Proof.
  intros H Hst. pose proof (code_stuck_quiet _ _ _ _ H Hst) as Hq. destruct (inv_isteps _ _ _ (inv_boot progs counts x) H) as [Hv _].
  assert (Hall : ∀ i t, threads m !! i = Some t →
    (at_ t = Running ∧ pool (abs m) !! i = Some (todo t, None)) ∨
    ∃ s, waiting_on t = Some s ∧ pool (abs m) !! i = Some (rest (todo t), Some s)).
  { intros i t Hi. pose proof (Hq i t Hi) as Hqt. unfold quiet in Hqt. destruct (at_ t) eqn:Hat; try done.
    - left. split; [done|]. by apply code_outside.
    - right. destruct (thread_at _ _ _ _ Hv Hi) as (e & _ & [Hr _ _ _]). rewrite Hat in Hr.
      destruct (sem_of t) as [s|] eqn:Es; [|by specialize (Hr eq_refl)]. exists s.
      assert (Hw : waiting_on t = Some s) by (unfold waiting_on; by rewrite Hat). split; [done|].
      rewrite abs_lookup, Hi. simpl. unfold abs_thread. rewrite Hat, Hw. simpl. rewrite decide_True; [done|]. by eapply quiet_queued. }
  split; [|done]. intros i. unfold exec. rewrite abs_lookup. destruct (threads m !! i) as [t|] eqn:Hi; [|done].
  pose proof (Hall i t Hi) as Ht. rewrite abs_lookup, Hi in Ht. cbn [fmap option_fmap option_map] in *.
  destruct Ht as [[Hat E]|(s & _ & E)]; injection E as E; rewrite E; [|by destruct (rest (todo t))].
  specialize (Hst i). unfold iexec in Hst. rewrite Hi in Hst. destruct t as [p a f]. simpl in *. subst a. by destruct p.
Qed.

(** ** Properties *)

(** C10. The code of semaphores refines their atomic steps.  However the
    threads interleave, at every access and every instruction: the machine
    is in a state that [Semaphore] reaches; one thread at most is in the
    critical section of a semaphore, and it runs with interrupts off; a
    call leaves the interrupt flag as it found it; and a thread that cannot
    go on has finished, or waits to be woken. *)
Theorem semaphores_refine {S} (progs : list (prog S * bool)) counts x m :
  isteps (boot progs counts x) m →
  steps (start progs counts x) (abs m) ∧
  (∀ i j t u s, threads m !! i = Some t → threads m !! j = Some u → crit (at_ t) = true → crit (at_ u) = true →
     sem_of t = Some s → sem_of u = Some s → i = j) ∧
  (∀ i t, threads m !! i = Some t → crit (at_ t) = true → iflag t = false) ∧
  (∀ i t p, threads m !! i = Some t → progs !! i = Some p → at_ t = Running → iflag t = p.2) ∧
  (∀ i t, threads m !! i = Some t → iexec i m = None → todo t = Done ∨ todo t = Panic ∨ ∃ was, at_ t = Down_waits was).
Proof.
  intros H. destruct (inv_isteps _ _ _ (inv_boot progs counts x) H) as [Hv Hs]. rewrite abs_boot in Hs.
  split_and!; [done| | | |].
  - intros i j t u s. by apply holder_unique with (flags := map snd progs).
  - intros i t Hi Hc. destruct (thread_at _ _ _ _ Hv Hi) as (e & _ & [_ _ Hf _]). by destruct (at_ t); destruct Hf.
  - intros i t p Hi Hp Hat. pose proof (v_thread _ _ Hv i t p.2 Hi) as Ht.
    destruct Ht as [_ _ Hf _]; [by rewrite list_lookup_fmap, Hp|]. by rewrite Hat in Hf.
  - intros i t Hi Hn. destruct (decide (quiet t)) as [Hq|Hq].
    + unfold quiet in Hq. destruct (at_ t) eqn:Hat; try done; [|by eauto]. unfold iexec in Hn. rewrite Hi in Hn.
      destruct t as [p a f]. simpl in *. subst a. destruct p; simpl in Hn; try done; auto.
    + exfalso. destruct (not_quiet_call _ _ _ _ Hv Hi Hq) as [s Es].
      destruct (call_goes_on _ m i t s Hv Hi Hq Es) as [m' E%iexec_move]. congruence.
Qed.

(** C32. And it has all of their behaviour: from any state the calls under
    way can be brought to their end, or to the queue of a semaphore, with
    nobody left between; and whatever [Semaphore] can do the code can. *)
Theorem semaphores_complete {S} (progs : list (prog S * bool)) counts x :
  (∀ m, isteps (boot progs counts x) m → ∃ m', isteps m m' ∧ steps (abs m) (abs m') ∧
     ∀ i t, threads m' !! i = Some t → at_ t = Running ∨ ∃ s, waiting_on t = Some s ∧ i ∈ iwaiting (isems m' s)) ∧
  (∀ c, steps (start progs counts x) c → ∃ m, isteps (boot progs counts x) m ∧ abs m = c).
Proof.
  split.
  - intros m H. destruct (inv_isteps _ _ _ (inv_boot progs counts x) H) as [Hv _].
    destruct (drain _ m Hv) as (m' & Hm' & Hv' & Hq & _). exists m'. split_and!; [done|by eapply inv_isteps|].
    intros i t Hi. pose proof (Hq i t Hi) as Hqt. unfold quiet in Hqt. destruct (at_ t) eqn:Hat; try done; [by left|right].
    destruct (thread_at _ _ _ _ Hv' Hi) as (e & _ & [Hr _ _ _]). rewrite Hat in Hr.
    destruct (sem_of t) as [s|] eqn:Es; [|by specialize (Hr eq_refl)]. exists s.
    assert (Hw : waiting_on t = Some s) by (unfold waiting_on; by rewrite Hat). split; [done|]. by eapply quiet_queued.
  - intros c Hc. cut (∃ m, isteps (boot progs counts x) m ∧ inv (map snd progs) m ∧ all_quiet m ∧ abs m = c); [naive_solver|].
    revert c Hc. apply rtc_ind_r; [|intros c1 c2 _ [i Hi] (m & Hm & Hv & Hq & <-)].
    + exists (boot progs counts x). split_and!; [constructor|apply inv_boot| |apply abs_boot].
      intros i t. simpl. rewrite list_lookup_fmap. destruct (progs !! i); [|done]. by intros [= <-].
    + destruct (realise _ m i c2 Hv Hq Hi) as (m' & Hm' & Hv' & Hq' & E). exists m'. split_and!; [by etransitivity|done..].
Qed.

(** ** Witnesses *)

(** A schedule; a thread that cannot step is passed over. *)
Fixpoint irun {S} (js : list nat) (m : machine S) : machine S :=
  match js with [] => m | i :: js => irun js (default m (iexec i m)) end.

Lemma irun_isteps {S} js (m : machine S) : isteps m (irun js m).
Proof.
  revert m. induction js as [|i js IH]; intros m; simpl; [constructor|].
  destruct (iexec i m) as [m'|] eqn:E; simpl; [|apply IH]. eapply rtc_l; [by exists i|apply IH].
Qed.

(** One thread waits for a permit that another gives, which is in the
    middle of [up] while a third spins. *)
Definition sample : list (prog Z * bool) :=
  [(Down 0 (Act (λ n, n + 1) (λ _, Done)), true); (Up 0 Done, false); (Down 0 Done, true)].
Definition sample_machine : machine Z :=
  irun [0; 0; 0; 0; 0; 0; 0; 1; 1; 1; 1; 2; 2; 2]%nat (boot sample (λ _, 0) 0).

Lemma semaphores_refine_witness :
  map at_ (threads sample_machine) = [Down_waits false; Up_unlock true (Some 0%nat); Lock_restore false] ∧
  steps (start sample (λ _, 0) 0) (abs sample_machine).
Proof.
  split; [vm_compute; reflexivity|]. apply (semaphores_refine sample (λ _, 0) 0 sample_machine), irun_isteps.
Defined.

Lemma semaphores_complete_witness :
  ∃ m', isteps sample_machine m' ∧ steps (abs sample_machine) (abs m') ∧
    ∀ i t, threads m' !! i = Some t → at_ t = Running ∨ ∃ s, waiting_on t = Some s ∧ i ∈ iwaiting (isems m' s).
Proof. apply (semaphores_complete sample (λ _, 0) 0), irun_isteps. Defined.
