(* ===== verification/BlockingLock.v ===== *)
(** * Blocking locks (kernel/blocking_lock.h)

    [BlockingLock] is a semaphore of one.  Threads that touch shared data
    only between [lock] and [unlock], an access at a time and in any
    interleaving, leave it as if each critical section had run at once: this
    is what lets the operations of the kernel heap, which run under such a
    lock, be single steps elsewhere.  [Primitives] concludes the same for the
    code of semaphores. *)

From S2P Require Import Prelude.
From S2P Require Import Semaphore.

(** ** The lock and critical sections *)

(** A critical section: accesses to the shared data, the next of which may
    depend on what is found. *)
Inductive critical (S : Type) : Type :=
| Leave
| Access (f : S → S) (k : S → critical S).
Arguments Leave {S}.
Arguments Access {S} f k.

(** The section run at once. *)
Fixpoint run {S} (x : critical S) (s : S) : S :=
  match x with Leave => s | Access f k => run (k s) (f s) end.

Definition mutex : nat := 0.

(** [BlockingLock()] *)
Definition BlockingLock : sem := make 1.
Definition lock {S} (k : prog S) : prog S := Down mutex k.
Definition unlock {S} (k : prog S) : prog S := Up mutex k.

(** What is left of a section, and the threads that run some. *)
Fixpoint body {S} (x : critical S) (rest : prog S) : prog S :=
  match x with Leave => unlock rest | Access f k => Act f (λ s, body (k s) rest) end.

Fixpoint worker {S} (xs : list (critical S)) : prog S :=
  match xs with [] => Done | x :: xs => lock (body x (worker xs)) end.

Definition start {S} (scripts : list (list (critical S))) (s : S) : conf S :=
  mkConf ((λ xs, (worker xs, None)) <$> scripts) (λ i, if decide (i = mutex) then BlockingLock else make 0) s.

(** A thread between [lock] and [unlock]. *)
Definition inside {S} (t : prog S * option nat) : Prop :=
  match t with (Act _ _, None) | (Up _ _, None) => True | _ => False end.

(** ** Control points *)

Inductive point (S : Type) := Before (xs : list (critical S)) | In (x : critical S) (xs : list (critical S)).
Arguments Before {S} xs.
Arguments In {S} x xs.

Section lock.
Context {S : Type}.
Implicit Types (x : critical S) (xs : list (critical S)) (c : conf S).
Abbreviation P := (point S).

Definition code (p : P) : prog S := match p with Before xs => worker xs | In x xs => body x (worker xs) end.

Definition first (p : P) : instr S P :=
  match p with
  | Before [] => IDone
  | Before (x :: xs) => IDown mutex (In x xs)
  | In Leave xs => IUp mutex (Before xs)
  | In (Access f k) xs => IAct f (λ s, In (k s) xs)
  end.

Lemma lock_code_first p : code p = instr_prog code (first p).
Proof. destruct p as [[]|[] ]; reflexivity. Qed.

(** Whether a thread at the point has the lock. *)
Definition holding (p : P) : Z := match p with In _ _ => 1 | Before _ => 0 end.
Definition net (p : P) (s : nat) : Z := if decide (s = mutex) then - holding p else 0.
Definition initial (s : nat) : Z := if decide (s = mutex) then 1 else 0.

Lemma lock_net_first : net_ok first net.
Proof.
  intros p s. unfold net. destruct p as [[]|[] ]; simpl; try done; intros; repeat goal_decide; done || lia.
Qed.

(** A thread in a section, and not in the queue for it. *)
Definition has_lock (t : P * option nat) : Prop := match t with (In _ _, None) => True | _ => False end.
Definition held (t : P * option nat) : Z := match t with (In _ _, None) => 1 | _ => 0 end.

Abbreviation ok c ts := (conf_ok code first net initial c ts).

Lemma lock_blocked c ts j p s : ok c ts → ts !! j = Some (p, Some s) → s = mutex ∧ ∃ x xs, p = In x xs.
Proof.
  intros Hok Hj. destruct (so_after _ _ _ (ok_sems _ _ _ _ _ _ Hok) j p s Hj) as [p0 E0].
  destruct p0 as [[]|[] ]; simplify_eq/=. eauto.
Qed.

Lemma lock_count c ts s : ok c ts → count (sems c s) = initial s - (if decide (s = mutex) then zsum held ts else 0).
Proof.
  intros Hok. rewrite (ok_permits _ _ _ _ _ _ Hok s). unfold initial. destruct (decide (s = mutex)) as [->|Hs].
  - rewrite (zsum_ext _ (λ t, 0 - held t)); [rewrite zsum_sub, (zsum_zero (λ _, 0)) by done; lia|].
    intros t [j Hj]%list_elem_of_lookup_1. unfold permits_of, net, held. rewrite decide_True by done.
    destruct t as [p [w|]]; simpl; [|by destruct p].
    destruct (lock_blocked c ts j p w Hok Hj) as (-> & x & xs & ->). by rewrite decide_True.
  - rewrite zsum_zero; [lia|]. intros t [j Hj]%list_elem_of_lookup_1. unfold permits_of, net. rewrite decide_False by done.
    rewrite decide_False; [done|]. intros E. destruct t as [p o]. simpl in E. subst o.
    by destruct (lock_blocked c ts j p s Hok Hj) as [-> _].
Qed.

Lemma held_nonneg ts : 0 ≤ zsum held ts.
Proof. apply zsum_nonneg. by intros [[] []] _. Qed.

Lemma lock_count_bound c ts s : ok c ts → count (sems c s) + 1 < 2 ^ 64.
Proof.
  intros Hok. rewrite (lock_count c ts s Hok). unfold initial. pose proof (held_nonneg ts). destruct (decide (s = mutex)); lia.
Qed.

(** At most one thread has the lock. *)
Lemma lock_exclusive c ts i j t t' :
  ok c ts → ts !! i = Some t → ts !! j = Some t' → has_lock t → has_lock t' → i = j.
Proof.
  intros Hok Hi Hj Ht Ht'. destruct (decide (i = j)) as [|Hne]; [done|exfalso].
  pose proof (zsum_lookup_2 held ts i j t t' ltac:(by intros [[] []] _) Hne Hi Hj) as H2.
  pose proof (so_count _ _ (so_sem _ _ _ (ok_sems _ _ _ _ _ _ Hok) mutex)) as Hc.
  rewrite (lock_count c ts mutex Hok) in Hc. unfold initial in Hc. rewrite !decide_True in Hc by done.
  destruct t as [[] []], t' as [[] []]; simpl in *; try done; lia.
Qed.

(** A free permit: nobody has the lock. *)
Lemma lock_free c ts j t : ok c ts → count (sems c mutex) > 0 → ts !! j = Some t → ¬ has_lock t.
Proof.
  intros Hok Hc Hj Ht. rewrite (lock_count c ts mutex Hok) in Hc. unfold initial in Hc. rewrite !decide_True in Hc by done.
  pose proof (zsum_lookup held ts j t ltac:(by intros [[] []] _) Hj). destruct t as [[] []]; simpl in *; try done; lia.
Qed.
End lock.

(** ** Sections as single steps *)

Section serial.
Context {S : Type} (scripts : list (list (critical S))) (s0 : S).
Implicit Types (x : critical S) (xs : list (critical S)) (c : conf S).
Abbreviation P := (point S).
Abbreviation ok c ts := (conf_ok code first net initial c ts).

(** Whole sections, with the threads that run them, one after the other. *)
Definition replay (log : list (nat * critical S)) : S := foldl (λ s e, run e.2 s) s0 log.
Definition of_thread (i : nat) (log : list (nat * critical S)) : list (critical S) := map snd (filter (λ e, e.1 = i) log).

(** The sections of a thread that have not got the lock yet. *)
Definition left (t : P * option nat) : list (critical S) :=
  match t with (Before xs, _) | (In _ xs, None) => xs | (In x xs, Some _) => x :: xs end.

Definition log_ok (ts : list (P * option nat)) (log : list (nat * critical S)) : Prop :=
  (∀ i t, ts !! i = Some t → scripts !! i = Some (of_thread i log ++ left t)) ∧
  ∀ e, e ∈ log → (e.1 < List.length ts)%nat.

Lemma of_thread_snoc i log j x :
  of_thread i (log ++ [(j, x)]) = of_thread i log ++ (if decide (j = i) then [x] else []).
Proof.
  unfold of_thread. rewrite filter_app, map_app. f_equal. rewrite filter_cons, filter_nil. simpl. by destruct (decide (j = i)).
Qed.

Lemma replay_snoc log i x : replay (log ++ [(i, x)]) = run x (replay log).
Proof. unfold replay. by rewrite foldl_app. Qed.

Lemma log_insert ts log i t t' : ts !! i = Some t → left t' = left t → log_ok ts log → log_ok (<[i := t']> ts) log.
Proof.
  intros Hi Hl [H1 H2]. split; [|intros; rewrite length_insert; auto]. intros j u Hj.
  destruct (decide (j = i)) as [->|]; [|rewrite list_lookup_insert_ne in Hj by done; by apply H1].
  rewrite list_lookup_insert_eq in Hj by (by eapply lookup_lt_Some). injection Hj as <-. rewrite Hl. by apply H1.
Qed.

(** A thread gets the lock. *)
Lemma log_grant ts log i t t' x :
  ts !! i = Some t → left t = x :: left t' → log_ok ts log → log_ok (<[i := t']> ts) (log ++ [(i, x)]).
Proof.
  intros Hi Hl [H1 H2]. split.
  - intros j u Hj. rewrite of_thread_snoc. destruct (decide (i = j)) as [<-|].
    + rewrite list_lookup_insert_eq in Hj by (by eapply lookup_lt_Some). injection Hj as <-.
      rewrite <-app_assoc. simpl. rewrite <-Hl. by apply H1.
    + rewrite list_lookup_insert_ne in Hj by done. rewrite app_nil_r. by apply H1.
  - intros e [He|He%list_elem_of_singleton]%elem_of_app; rewrite length_insert; [by apply H2|subst e; by eapply lookup_lt_Some].
Qed.

Lemma alter_insert {A} (f : A → A) (l : list A) j y : l !! j = Some y → alter f j l = <[j := f y]> l.
Proof.
  intros Hj. apply list_eq. intros k. destruct (decide (j = k)) as [<-|].
  - rewrite list_lookup_alter_eq, list_lookup_insert_eq, Hj by (by eapply lookup_lt_Some). done.
  - by rewrite list_lookup_alter_ne, list_lookup_insert_ne.
Qed.

Record lock_inv (c : conf S) (ts : list (P * option nat)) (log : list (nat * critical S)) : Prop := {
  li_ok : ok c ts;
  li_length : List.length ts = List.length scripts;
  li_log : log_ok ts log;
  li_held : ∀ i x xs, ts !! i = Some (In x xs, None) → run x (shared c) = replay log;
  li_free : (∀ i t, ts !! i = Some t → ¬ has_lock t) → shared c = replay log
}.

(** A thread that gets the lock when nobody has it. *)
Lemma grant_inv c ts ts0 log i t x xs :
  ok c (<[i := (In x xs, None)]> ts) → List.length ts = List.length scripts → log_ok ts log →
  ts !! i = Some t → left t = x :: xs →
  (∀ j u, ts !! j = Some u → j ≠ i → ¬ has_lock u) → shared c = replay log →
  ts0 = <[i := (In x xs, None)]> ts → ∃ log', lock_inv c ts0 log'.
Proof.
  intros Hok Hlen Hlog Hi Hl Hno Hs ->. exists (log ++ [(i, x)]).
  assert (Hnew : <[i := (In x xs, None)]> ts !! i = Some (In x xs, None)) by (apply list_lookup_insert_eq; by eapply lookup_lt_Some).
  split; [done|by rewrite length_insert|by eapply log_grant| |].
  - intros j y ys Hj. rewrite replay_snoc, <-Hs. destruct (decide (j = i)) as [->|Hne]; [congruence|].
    rewrite list_lookup_insert_ne in Hj by done. by destruct (Hno _ _ Hj Hne).
  - intros Hfree. by destruct (Hfree _ _ Hnew).
Qed.

Lemma lock_inv_step c c' ts log i :
  lock_inv c ts log → exec i c = Some c' → ∃ log', lock_inv c' (points_step first i c ts) log'.
Proof.
  intros Hinv Hex. pose proof (li_ok _ _ _ Hinv) as Hok.
  assert (Hok' : ok c' (points_step first i c ts)).
  { eapply conf_ok_step; [apply lock_code_first|apply lock_net_first|done| |done]. intros s. by eapply lock_count_bound. }
  destruct (points_exec code first lock_code_first i c c' ts (ok_points _ _ _ _ _ _ Hok) Hex) as (_ & p & Hi & Hsem).
  unfold points_step in *. rewrite Hi in *. destruct Hinv as [_ Hlen Hlog Hheld Hfree].
  assert (Hother : has_lock (p, None) → ∀ j u, ts !! j = Some u → j ≠ i → ¬ has_lock u).
  { intros Hp j u Hj Hne Hu. by apply Hne, (lock_exclusive c ts j i u (p, None)). }
  destruct p as [[|x xs]|[|f k] xs]; cbn [first] in *; [done|..].
  - (* [lock] *) destruct Hsem as [_ Esh]. unfold down in *. destruct (decide (count (sems c mutex) > 0)) as [Hc|Hc]; cbn [snd] in *.
    + assert (Hno : ∀ j u, ts !! j = Some u → ¬ has_lock u) by (intros j u; by eapply lock_free).
      eapply (grant_inv c' ts _ log i _ x xs); [done|done|done|exact Hi|done| | |done]; [by eauto|].
      rewrite Esh. by apply Hfree.
    + exists log. split; [done|by rewrite length_insert|by eapply log_insert| |].
      * intros j y ys Hj. rewrite Esh. destruct (decide (j = i)) as [->|].
        -- by rewrite list_lookup_insert_eq in Hj by (by eapply lookup_lt_Some).
        -- rewrite list_lookup_insert_ne in Hj by done. by eapply Hheld.
      * intros Hno. rewrite Esh. apply Hfree. intros j u Hj. destruct (decide (j = i)) as [->|].
        -- rewrite Hi in Hj. injection Hj as <-. by intros [].
        -- apply (Hno j). by rewrite list_lookup_insert_ne.
  - (* [unlock] *) destruct Hsem as [_ Esh]. pose proof (Hheld i Leave xs Hi) as Hrun. simpl in Hrun.
    assert (Hafter : ∀ j u, <[i := (Before xs, None)]> ts !! j = Some u → ¬ has_lock u).
    { intros j u Hj. destruct (decide (j = i)) as [->|].
      - rewrite list_lookup_insert_eq in Hj by (by eapply lookup_lt_Some). injection Hj as <-. by intros [].
      - rewrite list_lookup_insert_ne in Hj by done. by eapply Hother. }
    assert (Hlog' : log_ok (<[i := (Before xs, None)]> ts) log) by (by eapply log_insert).
    destruct (up (sems c mutex)).2 as [j|] eqn:Eu.
    + assert (Hj : ∃ y ys, ts !! j = Some (In y ys, Some mutex)).
      { unfold up in Eu. destruct (waiting (sems c mutex)) as [|m w] eqn:Ew; [done|]. injection Eu as ->.
        destruct (proj1 (so_waiting _ _ (so_sem _ _ _ (ok_sems _ _ _ _ _ _ Hok) mutex) j)) as [q Hq]; [rewrite Ew; by left|].
        destruct (lock_blocked c ts j q mutex Hok Hq) as (_ & y & ys & ->). by exists y, ys. }
      destruct Hj as (y & ys & Hj). assert (Hne : j ≠ i) by congruence.
      assert (Hj' : <[i := (Before xs, None)]> ts !! j = Some (In y ys, Some mutex)) by (by rewrite list_lookup_insert_ne).
      pose proof (alter_insert (λ t : P * option nat, (t.1, None)) _ _ _ Hj') as Ea. cbn [fst] in Ea. rewrite Ea in *.
      eapply (grant_inv c' (<[i := (Before xs, None)]> ts) _ log j _ y ys);
        [done|by rewrite length_insert|done|exact Hj'|done|by eauto|congruence|done].
    + exists log. split; [done|by rewrite length_insert|done| |congruence].
      intros j y ys Hj. by destruct (Hafter _ _ Hj).
  - (* an access *) destruct Hsem as [_ Esh]. pose proof (Hheld i _ xs Hi) as Hrun. simpl in Hrun.
    exists log. split; [done|by rewrite length_insert|by eapply log_insert| |].
    + intros j y ys Hj. destruct (decide (j = i)) as [->|Hne].
      * rewrite list_lookup_insert_eq in Hj by (by eapply lookup_lt_Some). injection Hj as <- <-. by rewrite Esh.
      * rewrite list_lookup_insert_ne in Hj by done. by destruct (Hother I j _ Hj Hne).
    + intros Hno. destruct (Hno i (In (k (shared c)) xs, None)); [|done].
      apply list_lookup_insert_eq. by eapply lookup_lt_Some.
Qed.

Lemma serial_inv_start : ∃ ts, lock_inv (start scripts s0) ts [].
Proof.
  exists ((λ xs, (Before xs, None)) <$> scripts).
  assert (Hat : ∀ i t, ((λ xs, (Before xs, @None nat)) <$> scripts) !! i = Some t → ∃ xs, t = (Before xs, None) ∧ scripts !! i = Some xs).
  { intros i t. rewrite list_lookup_fmap. destruct (scripts !! i) as [xs|]; [|done]. intros [= <-]. by exists xs. }
  split.
  - pose proof (conf_ok_start code first net initial (Before <$> scripts) s0) as H.
    rewrite <-!list_fmap_compose in H. eapply conf_ok_sems; [| |apply H].
    + reflexivity.
    + intros s. simpl. unfold initial. by destruct (decide (s = mutex)).
    + intros s. unfold initial. destruct (decide (s = mutex)); lia.
    + intros p s (xs & -> & _)%list_elem_of_fmap. unfold net. by destruct (decide _).
  - apply length_fmap.
  - split; [|by intros e ?%not_elem_of_nil]. intros i t (xs & -> & E)%Hat. done.
  - by intros i x xs (? & ? & _)%Hat.
  - done.
Qed.

Lemma lock_reachable c : steps (start scripts s0) c → ∃ ts log, lock_inv c ts log.
Proof.
  intros Hr. assert (Hinv : ∃ ts log, lock_inv (start scripts s0) ts log) by (destruct serial_inv_start; eauto).
  induction Hr as [c|c1 c2 c3 [i Hi] _ IH]; [done|]. apply IH. destruct Hinv as (ts & log & Hts).
  destruct (lock_inv_step _ _ _ _ _ Hts Hi) as [log' H']. eauto.
Qed.
End serial.

Section pools.
Context {S : Type} (scripts : list (list (critical S))) (s0 : S).
Implicit Types (c : conf S).

Lemma inside_has_lock (p : point S) o : inside (code p, o) ↔ has_lock (p, o).
Proof. by destruct p as [[]|[] ], o. Qed.

Lemma pool_point c ts log i t :
  lock_inv scripts s0 c ts log → pool c !! i = Some t → ∃ p, t = (code p, t.2) ∧ ts !! i = Some (p, t.2).
Proof.
  intros Hinv Ht. rewrite (ok_points _ _ _ _ _ _ (li_ok _ _ _ _ _ Hinv)), list_lookup_fmap in Ht.
  destruct (ts !! i) as [[p o]|]; [|done]. injection Ht as <-. by exists p.
Qed.

Lemma point_pool c ts log i p o : lock_inv scripts s0 c ts log → ts !! i = Some (p, o) → pool c !! i = Some (code p, o).
Proof. intros Hinv Hi. by rewrite (ok_points _ _ _ _ _ _ (li_ok _ _ _ _ _ Hinv)), list_lookup_fmap, Hi. Qed.

Lemma script_point c ts log i xs :
  lock_inv scripts s0 c ts log → scripts !! i = Some xs → ∃ t, ts !! i = Some t ∧ xs = of_thread i log ++ left t.
Proof.
  intros Hinv Hi. destruct (lookup_lt_is_Some_2 ts i) as [t Ht].
  { rewrite (li_length _ _ _ _ _ Hinv). by eapply lookup_lt_Some. }
  exists t. split; [done|]. pose proof (proj1 (li_log _ _ _ _ _ Hinv) i t Ht). congruence.
Qed.
End pools.

(** ** Properties *)

(** Threads that touch the shared data only under the lock, an access
    at a time and interleaved in any way: never are two between [lock] and
    [unlock], and whenever none is the data are as if whole sections had
    run one after the other, each thread's in the order of its program. *)
Theorem sections_serial {S} (scripts : list (list (critical S))) s0 c :
  steps (start scripts s0) c →
  (∀ i j t t', pool c !! i = Some t → pool c !! j = Some t' → inside t → inside t' → i = j) ∧
  ∃ log, (∀ e, e ∈ log → (e.1 < List.length scripts)%nat) ∧
    (∀ i xs, scripts !! i = Some xs → of_thread i log `prefix_of` xs) ∧
    ((∀ i t, pool c !! i = Some t → ¬ inside t) → shared c = replay s0 log).
Proof.
  intros (ts & log & Hinv)%lock_reachable. pose proof (li_ok _ _ _ _ _ Hinv) as Hok. split.
  - intros i j [t o] [t' o'] Hi Hj. destruct (pool_point _ _ _ _ _ _ _ Hinv Hi) as (p & Et & Hi').
    destruct (pool_point _ _ _ _ _ _ _ Hinv Hj) as (p' & Et' & Hj'). cbn [snd] in *.
    injection Et as ->. injection Et' as ->. rewrite !inside_has_lock. by eapply lock_exclusive.
  - exists log. split_and!.
    + rewrite <-(li_length _ _ _ _ _ Hinv). apply (li_log _ _ _ _ _ Hinv).
    + intros i xs Hi. destruct (script_point _ _ _ _ _ _ _ Hinv Hi) as (t & _ & ->). by apply prefix_app_r.
    + intros Hno. apply (li_free _ _ _ _ _ Hinv). intros i [p o] Hi.
      rewrite <-inside_has_lock. by eapply Hno, point_pool.
Qed.

(** Nobody waits for the lock in vain: when no thread can take a step
    all have finished, and the data are the outcome of all their sections,
    one after the other in some order. *)
Theorem sections_finish {S} (scripts : list (list (critical S))) s0 c :
  steps (start scripts s0) c → (∀ i, exec i c = None) →
  (∀ i t, pool c !! i = Some t → t = (Done, None)) ∧
  ∃ log, (∀ e, e ∈ log → (e.1 < List.length scripts)%nat) ∧
    (∀ i xs, scripts !! i = Some xs → of_thread i log = xs) ∧ shared c = replay s0 log.
Proof.
  intros (ts & log & Hinv)%lock_reachable Hst. pose proof (li_ok _ _ _ _ _ Hinv) as Hok.
  assert (Hrun : ∀ i p, ts !! i = Some (p, None) → p = Before []).
  { intros i p Hi. destruct (stuck_points code first lock_code_first c ts (ok_points _ _ _ _ _ _ Hok) Hst i p Hi) as [E|E];
      by destruct p as [[]|[] ]. }
  assert (Hno : ∀ i t, ts !! i = Some t → ¬ has_lock t).
  { intros i [p [s|]] Hi Hl; [by destruct p|]. by rewrite (Hrun i p Hi) in Hl. }
  assert (Hall : ∀ i t, ts !! i = Some t → t = (Before [], None)).
  { intros i [p [s|]] Hi; [exfalso|by rewrite (Hrun i p Hi)].
    destruct (lock_blocked c ts i p s Hok Hi) as [-> _].
    pose proof (so_sem _ _ _ (ok_sems _ _ _ _ _ _ Hok) mutex) as Hs.
    assert (Hin : i ∈ waiting (sems c mutex)) by (apply (so_waiting _ _ Hs); by exists p).
    pose proof (so_empty _ _ Hs) as He. rewrite (lock_count c ts mutex Hok) in He.
    rewrite (zsum_zero held) in He.
    - rewrite He in Hin by done. by apply not_elem_of_nil in Hin.
    - intros t [j Hj]%list_elem_of_lookup_1. pose proof (Hno j t Hj). by destruct t as [[] []]. }
  split.
  - intros i [t o] Hi. destruct (pool_point _ _ _ _ _ _ _ Hinv Hi) as (p & Et & Hi'). cbn [snd] in *.
    apply Hall in Hi'. injection Hi' as -> ->. exact Et.
  - exists log. split_and!.
    + rewrite <-(li_length _ _ _ _ _ Hinv). apply (li_log _ _ _ _ _ Hinv).
    + intros i xs Hi. destruct (script_point _ _ _ _ _ _ _ Hinv Hi) as (t & Ht & ->).
      rewrite (Hall i t Ht). simpl. by rewrite app_nil_r.
    + by apply (li_free _ _ _ _ _ Hinv).
Qed.

(** ** Witnesses *)

(** Two threads add to a number, each reading it into its own place before
    it writes the sum back. *)
Definition add_own (n : Z) (mine : Z * Z * Z → Z) (keep : Z → Z * Z * Z → Z * Z * Z) : critical (Z * Z * Z) :=
  Access (λ s, keep s.1.1 s) (λ _, Access (λ s, (mine s + n, s.1.2, s.2)) (λ _, Leave)).
Definition adds : list (list (critical (Z * Z * Z))) :=
  [[add_own 1 (λ s, s.1.2) (λ v s, (s.1.1, v, s.2))]; [add_own 10 (λ s, s.2) (λ v s, (s.1.1, s.1.2, v))]].
Definition middle : conf (Z * Z * Z) := run_schedule [0; 1; 0]%nat (start adds (0, 0, 0)).
Definition over : conf (Z * Z * Z) := run_schedule (concat (replicate 8 [0; 1]%nat)) (start adds (0, 0, 0)).

Lemma sections_serial_witness :
  (∃ t, pool middle !! 0%nat = Some t ∧ inside t) ∧
  ∀ i j t t', pool middle !! i = Some t → pool middle !! j = Some t' → inside t → inside t' → i = j.
Proof.
  split; [by eexists; split; [vm_compute; reflexivity|]|].
  apply (sections_serial adds (0, 0, 0) middle), run_schedule_steps.
Defined.

Lemma sections_finish_witness :
  shared over = (11, 0, 1) ∧ ∀ i t, pool over !! i = Some t → t = (Done, None).
Proof.
  split; [vm_compute; reflexivity|].
  apply (sections_finish adds (0, 0, 0) over); [apply run_schedule_steps|].
  intros [|[|i]]; vm_compute; reflexivity.
Defined.
