(* ===== verification/BoundedBuffer.v ===== *)
(** * The bounded buffer (kernel/bb.h)

    [put] and [get] as programs over three semaphores, run by any number of
    threads in any interleaving: what is got is what was put, in order,
    nothing is overwritten, and no wakeup is lost.  [Primitives] concludes
    the same for the code of semaphores. *)

From S2P Require Import Prelude.
From S2P Require Import Semaphore.

(** ** The code *)

(** The fields, and the items written and read so far (ghosts). *)
Record bb := mkBB { head : Z; n : Z; data : Z → Z; written : list Z; taken : list Z }.

(** The semaphores [nEmpty], [nFull] and [lock]. *)
Definition nEmpty : nat := 0.
Definition nFull : nat := 1.
Definition lock : nat := 2.

Section buffer.
Context (N : Z).

(** [BoundedBuffer(N)], with arbitrary memory from [new T[N]]. *)
Definition initial (s : nat) : Z := match s with 0%nat => N | 2%nat => 1 | _ => 0 end.
Definition fresh (memory : Z → Z) : bb := mkBB 0 0 memory [] [].

(** [data[(head + n) % N] = t] *)
Definition write (t : Z) (b : bb) : bb :=
  mkBB (head b) (n b) (upd (data b) (u32 (head b + n b) mod N) t) (written b ++ [t]) (taken b).

Definition incr (b : bb) : bb := mkBB (head b) (u32 (n b + 1)) (data b) (written b) (taken b).

(** [out = data[head]], recorded as taken. *)
Definition note (b : bb) : bb := mkBB (head b) (n b) (data b) (written b) (taken b ++ [data b (head b)]).

Definition advance (b : bb) : bb := mkBB (u32 (head b + 1) mod N) (n b) (data b) (written b) (taken b).
Definition decr (b : bb) : bb := mkBB (head b) (u32 (n b - 1)) (data b) (written b) (taken b).

Definition put (t : Z) (k : prog bb) : prog bb :=
  Down nEmpty (Down lock (Act (write t) (λ _, Act incr (λ _, Up lock (Up nFull k))))).

Definition get (k : Z → prog bb) : prog bb :=
  Down nFull (Down lock
    (Act note (λ b, let out := data b (head b) in
     Act advance (λ _, Act decr (λ _, Up lock (Up nEmpty (k out))))))).

(** ** Threads that put and get *)

Inductive request := Put (t : Z) | Get.

Fixpoint script (rs : list request) : prog bb :=
  match rs with
  | [] => Done
  | Put t :: rs => put t (script rs)
  | Get :: rs => get (λ _, script rs)
  end.

(** Any number of threads, each with its script. *)
Definition start (memory : Z → Z) (scripts : list (list request)) : conf bb :=
  mkConf ((λ rs, (script rs, None)) <$> scripts) (λ s, make (initial s)) (fresh memory).

(** ** Control points

    [ps] and [gs] count the puts and gets a thread has completed. *)
Inductive phase := Idle | P1 (t : Z) | P2 (t : Z) | P3 | P4 | P5 | G1 | G2 | G3 | G4 | G5 | G6.

Record point := mkPoint { at_ : phase; todo : list request; ps : nat; gs : nat }.

Definition code (p : point) : prog bb :=
  let k := script (todo p) in
  match at_ p with
  | Idle => k
  | P1 t => Down lock (Act (write t) (λ _, Act incr (λ _, Up lock (Up nFull k))))
  | P2 t => Act (write t) (λ _, Act incr (λ _, Up lock (Up nFull k)))
  | P3 => Act incr (λ _, Up lock (Up nFull k))
  | P4 => Up lock (Up nFull k)
  | P5 => Up nFull k
  | G1 => Down lock (Act note (λ b, Act advance (λ _, Act decr (λ _, Up lock (Up nEmpty k)))))
  | G2 => Act note (λ b, Act advance (λ _, Act decr (λ _, Up lock (Up nEmpty k))))
  | G3 => Act advance (λ _, Act decr (λ _, Up lock (Up nEmpty k)))
  | G4 => Act decr (λ _, Up lock (Up nEmpty k))
  | G5 => Up lock (Up nEmpty k)
  | G6 => Up nEmpty k
  end.

Definition first (p : point) : instr bb point :=
  let go ph := mkPoint ph (todo p) (ps p) (gs p) in
  match at_ p with
  | Idle =>
      match todo p with
      | [] => IDone
      | Put t :: rs => IDown nEmpty (mkPoint (P1 t) rs (ps p) (gs p))
      | Get :: rs => IDown nFull (mkPoint G1 rs (ps p) (gs p))
      end
  | P1 t => IDown lock (go (P2 t))
  | P2 t => IAct (write t) (λ _, go P3)
  | P3 => IAct incr (λ _, go P4)
  | P4 => IUp lock (go P5)
  | P5 => IUp nFull (mkPoint Idle (todo p) (S (ps p)) (gs p))
  | G1 => IDown lock (go G2)
  | G2 => IAct note (λ _, go G3)
  | G3 => IAct advance (λ _, go G4)
  | G4 => IAct decr (λ _, go G5)
  | G5 => IUp lock (go G6)
  | G6 => IUp nEmpty (mkPoint Idle (todo p) (ps p) (S (gs p)))
  end.

Lemma code_first p : code p = instr_prog code (first p).
Proof.
  destruct p as [[] rs a b]; try reflexivity. unfold code, first. simpl.
  destruct rs as [|[t|] rs]; reflexivity.
Qed.

(** ** Weights *)

Definition b2z (b : bool) : Z := if b then 1 else 0.

Definition putting (ph : phase) : Z := match ph with P1 _ | P2 _ | P3 | P4 | P5 => 1 | _ => 0 end.
Definition getting (ph : phase) : Z := match ph with G1 | G2 | G3 | G4 | G5 | G6 => 1 | _ => 0 end.
Definition critical (ph : phase) : Z :=
  match ph with P2 _ | P3 | P4 | G2 | G3 | G4 | G5 => 1 | _ => 0 end.

Definition net (p : point) (s : nat) : Z :=
  match s with
  | 0%nat => - (Z.of_nat (ps p) + putting (at_ p)) + Z.of_nat (gs p)
  | 1%nat => Z.of_nat (ps p) - (Z.of_nat (gs p) + getting (at_ p))
  | 2%nat => - critical (at_ p)
  | _ => 0
  end.

Lemma net_first : net_ok first net.
Proof.
  intros [ph rs a b] s. destruct ph; unfold first; simpl; try destruct rs as [|[t'|] rs]; simpl;
    try done; intros; destruct s as [|[|[|s]]]; simpl; lia.
Qed.

(** Items written and read, and who is in the middle of an update. *)
Definition writes (p : point) : Z :=
  Z.of_nat (ps p) + match at_ p with P3 | P4 | P5 => 1 | _ => 0 end.
Definition reads (p : point) : Z :=
  Z.of_nat (gs p) + match at_ p with G3 | G4 | G5 | G6 => 1 | _ => 0 end.
Definition half_put (p : point) : Z := match at_ p with P3 => 1 | _ => 0 end.
Definition half_get (p : point) : Z := match at_ p with G3 => 1 | _ => 0 end.
Definition half_took (p : point) : Z := match at_ p with G4 => 1 | _ => 0 end.

Definition sum (w : point → Z) (ts : list (point * option nat)) : Z := zsum (λ t, w t.1) ts.

(** ** The invariant *)

Context (HN : 1 ≤ N < 2 ^ 31).

Abbreviation ok c ts := (conf_ok code first net initial c ts).

(** Threads past [nEmpty.down()], past [nFull.down()] and in the critical
    section; a blocked thread is not past the semaphore it waits for. *)
Definition entered (t : point * option nat) : Z :=
  Z.of_nat (ps t.1) + putting (at_ t.1) - b2z (bool_decide (t.2 = Some nEmpty)).
Definition drained (t : point * option nat) : Z :=
  Z.of_nat (gs t.1) + getting (at_ t.1) - b2z (bool_decide (t.2 = Some nFull)).
Definition inside (t : point * option nat) : Z :=
  critical (at_ t.1) - b2z (bool_decide (t.2 = Some lock)).

Definition holds_queue (b : bb) (W R HP HG HT : Z) (q : list Z) : Prop :=
  written b = taken b ++ q ∧ Z.of_nat (length (written b)) = W ∧ Z.of_nat (length (taken b)) = R ∧
  n b = Z.of_nat (length q) - HP + HG + HT ∧ 0 ≤ head b < N ∧
  ∀ i x, q !! i = Some x → data b ((head b + HG + Z.of_nat i) mod N) = x.

Definition bb_inv (c : conf bb) (ts : list (point * option nat)) : Prop :=
  ok c ts ∧ ∃ q, holds_queue (shared c) (sum writes ts) (sum reads ts) (sum half_put ts) (sum half_get ts) (sum half_took ts) q.

Lemma blocked_phase c ts j p s :
  ok c ts → ts !! j = Some (p, Some s) →
  (s = nEmpty ∧ ∃ t, at_ p = P1 t) ∨ (s = nFull ∧ at_ p = G1) ∨ (s = lock ∧ ((∃ t, at_ p = P2 t) ∨ at_ p = G2)).
Proof.
  intros [_ [_ Ha] _] Hj. destruct (Ha j p s Hj) as [[ph rs a b] E]. unfold first in E. simpl in E.
  destruct ph; try done; [destruct rs as [|[t|] rs]; [done| |]|..]; injection E as <- <-; simpl; eauto 10.
Qed.

Lemma weights_le c ts t :
  ok c ts → t ∈ ts →
  writes t.1 ≤ entered t ∧ Z.of_nat (gs t.1) ≤ reads t.1 ∧ reads t.1 ≤ drained t ∧
  Z.of_nat (ps t.1) ≤ writes t.1 ∧ half_put t.1 + half_get t.1 + half_took t.1 ≤ inside t ∧ 0 ≤ inside t ∧
  0 ≤ half_put t.1 ∧ 0 ≤ half_get t.1 ∧ 0 ≤ half_took t.1.
Proof.
  intros Hok [j Hj]%list_elem_of_lookup_1. destruct t as [p [s|]].
  - unfold writes, entered, reads, drained, inside, half_put, half_get, half_took. simpl.
    destruct (blocked_phase c ts j p s Hok Hj) as [(-> & t & ->)|[(-> & ->)|(-> & [[t ->]| ->])]]; simpl; lia.
  - unfold writes, entered, reads, drained, inside, half_put, half_get, half_took. simpl.
    destruct (at_ p); simpl; lia.
Qed.

Lemma permits_eq c ts :
  ok c ts →
  count (sems c nEmpty) = N - zsum entered ts + zsum (λ t, Z.of_nat (gs t.1)) ts ∧
  count (sems c nFull) = zsum (λ t, Z.of_nat (ps t.1)) ts - zsum drained ts ∧
  count (sems c lock) = 1 - zsum inside ts ∧
  ∀ s, (2 < s)%nat → count (sems c s) = 0.
Proof.
  intros Hok. pose proof (ok_permits _ _ _ _ _ _ Hok) as Hp. split_and!.
  - rewrite (Hp nEmpty). simpl.
    rewrite (zsum_ext _ (λ t, Z.of_nat (gs t.1) - entered t)); [rewrite zsum_sub; lia|].
    intros t _. unfold permits_of, entered, net. simpl. destruct (decide _), (bool_decide_reflect (t.2 = Some nEmpty)); simpl; try done; lia.
  - rewrite (Hp nFull). simpl.
    rewrite (zsum_ext _ (λ t, Z.of_nat (ps t.1) - drained t)); [rewrite zsum_sub; lia|].
    intros t _. unfold permits_of, drained, net. simpl. destruct (decide _), (bool_decide_reflect (t.2 = Some nFull)); simpl; try done; lia.
  - rewrite (Hp lock). simpl.
    rewrite (zsum_ext _ (λ t, 0 - inside t)); [rewrite zsum_sub|].
    { assert (Hz : zsum (λ _ : point * option nat, 0) ts = 0) by (clear; induction ts; simpl; [done|lia]). lia. }
    intros t _. unfold permits_of, inside, net. simpl. destruct (decide _), (bool_decide_reflect (t.2 = Some lock)); simpl; try done; lia.
  - intros s Hs. rewrite (Hp s). destruct s as [|[|[|s]]]; [lia..|]. simpl.
    rewrite (zsum_ext _ (λ t, 0)); [clear; induction ts; simpl; [done|lia]|].
    intros t [j Hj]%list_elem_of_lookup_1. unfold permits_of. simpl. rewrite decide_False; [done|].
    intros E. destruct t as [p o]. simpl in E. subst o.
    destruct (blocked_phase c ts j p _ Hok Hj) as [[[=] _]|[[[=] _]|[[=] _]]].
Qed.

(** What the counts say of the sums, with the slack of one running thread. *)
Lemma sums_bound c ts i p :
  ok c ts → ts !! i = Some (p, None) →
  sum writes ts + (entered (p, None) - writes p) - sum reads ts ≤ N ∧
  sum reads ts + (drained (p, None) - reads p) ≤ sum writes ts ∧
  sum half_put ts + sum half_get ts + sum half_took ts +
    (inside (p, None) - half_put p - half_get p - half_took p) ≤ 1 ∧
  0 ≤ sum half_put ts ∧ 0 ≤ sum half_get ts ∧ 0 ≤ sum half_took ts ∧
  half_put p ≤ sum half_put ts ∧ half_get p ≤ sum half_get ts ∧ half_took p ≤ sum half_took ts.
Proof.
  intros Hok Hi. destruct (permits_eq c ts Hok) as (E0 & E1 & E2 & _).
  pose proof (so_count _ _ (so_sem _ _ _ (ok_sems _ _ _ _ _ _ Hok) nEmpty)) as C0.
  pose proof (so_count _ _ (so_sem _ _ _ (ok_sems _ _ _ _ _ _ Hok) nFull)) as C1.
  pose proof (so_count _ _ (so_sem _ _ _ (ok_sems _ _ _ _ _ _ Hok) lock)) as C2.
  assert (Hle := λ t, weights_le c ts t Hok).
  unfold sum. split_and!.
  - pose proof (zsum_gap (λ t, writes t.1) entered ts i (p, None) ltac:(intros; by apply Hle) Hi) as G. simpl in G.
    pose proof (zsum_le (λ t, Z.of_nat (gs t.1)) (λ t, reads t.1) ts ltac:(intros; by apply Hle)). lia.
  - pose proof (zsum_gap (λ t, reads t.1) drained ts i (p, None) ltac:(intros; by apply Hle) Hi) as G. simpl in G.
    pose proof (zsum_le (λ t, Z.of_nat (ps t.1)) (λ t, writes t.1) ts ltac:(intros; by apply Hle)). lia.
  - pose proof (zsum_gap (λ t, half_put t.1 + half_get t.1 + half_took t.1) inside ts i (p, None) ltac:(intros; by apply Hle) Hi) as G.
    simpl in G. rewrite !zsum_add in G. lia.
  - apply zsum_nonneg. intros; by apply Hle.
  - apply zsum_nonneg. intros; by apply Hle.
  - apply zsum_nonneg. intros; by apply Hle.
  - apply (zsum_lookup (λ t, half_put t.1) ts i (p, None)); [|done]. intros; by apply Hle.
  - apply (zsum_lookup (λ t, half_get t.1) ts i (p, None)); [|done]. intros; by apply Hle.
  - apply (zsum_lookup (λ t, half_took t.1) ts i (p, None)); [|done]. intros; by apply Hle.
Qed.

Lemma counts_bound c ts i p s :
  ok c ts → ts !! i = Some (p, None) → count (sems c s) + 1 < 2 ^ 64.
Proof.
  intros Hok Hi. destruct (permits_eq c ts Hok) as (E0 & E1 & E2 & E3).
  destruct (sums_bound c ts i p Hok Hi) as (B0 & B1 & _).
  assert (Hle := λ t, weights_le c ts t Hok). unfold sum in *.
  pose proof (zsum_le (λ t, Z.of_nat (gs t.1)) (λ t, reads t.1) ts ltac:(intros; by apply Hle)).
  pose proof (zsum_le (λ t, Z.of_nat (ps t.1)) (λ t, writes t.1) ts ltac:(intros; by apply Hle)).
  pose proof (zsum_le (λ t, writes t.1) entered ts ltac:(intros; by apply Hle)).
  pose proof (zsum_le (λ t, reads t.1) drained ts ltac:(intros; by apply Hle)).
  pose proof (zsum_nonneg inside ts ltac:(intros; by apply Hle)).
  assert (Hg : writes p ≤ entered (p, None) ∧ reads p ≤ drained (p, None)).
  { destruct (Hle (p, None)) as (? & _ & ? & _); [by eapply list_elem_of_lookup_2|done]. }
  destruct s as [|[|[|s]]]; [unfold nEmpty in E0; lia|unfold nFull in E1; lia|unfold lock in E2; lia|rewrite E3; lia].
Qed.

(** The five accesses to the fields. *)
Lemma queue_write b W R q x :
  holds_queue b W R 0 0 0 q → W - R < N → holds_queue (write x b) (W + 1) R 1 0 0 (q ++ [x]).
Proof.
  intros (Hl & HW & HR & Hn & Hh & Hd) Hlt. unfold write. split_and!; simpl; [|..].
  - by rewrite Hl, <-app_assoc.
  - rewrite length_app. simpl. lia.
  - done.
  - rewrite length_app. simpl. lia.
  - lia.
  - lia.
  - assert (Hq : Z.of_nat (length q) = W - R) by (rewrite Hl, length_app in HW; lia).
    intros i y Hi. replace (n b) with (Z.of_nat (length q)) by lia.
    rewrite u32_small by lia. rewrite Z.add_0_r in *.
    apply lookup_snoc_Some in Hi as [[Hlt' Hi]|[-> <-]].
    + rewrite upd_ne; [by apply Hd|].
      intros E. pose proof (Z.div_mod (head b + Z.of_nat i) N ltac:(lia)).
      pose proof (Z.div_mod (head b + Z.of_nat (length q)) N ltac:(lia)).
      set (d1 := (head b + Z.of_nat i) / N) in *. set (d2 := (head b + Z.of_nat (length q)) / N) in *.
      assert (Ed : Z.of_nat (length q) - Z.of_nat i = N * (d2 - d1)) by lia.
      destruct (decide (d2 - d1 ≤ 0)); nia.
    + apply upd_eq.
Qed.

Lemma queue_incr b W R q :
  holds_queue b W R 1 0 0 q → Z.of_nat (length q) ≤ N → holds_queue (incr b) W R 0 0 0 q.
Proof.
  intros (Hl & HW & HR & Hn & Hh & Hd) Hlt.
  unfold incr. split_and!; simpl; [done|done|done| |lia|lia|done].
  replace (n b + 1) with (Z.of_nat (length q)) by lia. rewrite u32_small; lia.
Qed.

Lemma queue_note b W R q :
  holds_queue b W R 0 0 0 q → R < W → ∃ x q', q = x :: q' ∧ data b (head b) = x ∧ holds_queue (note b) W (R + 1) 0 1 0 q'.
Proof.
  intros (Hl & HW & HR & Hn & Hh & Hd) Hlt.
  destruct q as [|x q]; [rewrite Hl, app_nil_r in HW; lia|]. exists x, q.
  pose proof (Hd 0%nat x eq_refl) as Hx. rewrite !Z.add_0_r, Z.mod_small in Hx by lia.
  split; [done|]. split; [done|]. unfold note. split_and!; simpl.
  - by rewrite Hl, <-app_assoc, Hx.
  - done.
  - rewrite length_app. simpl. lia.
  - simpl in Hn. lia.
  - lia.
  - lia.
  - intros i y Hi. rewrite <-(Hd (S i) y Hi). f_equal. f_equal. lia.
Qed.

Lemma queue_advance b W R q : holds_queue b W R 0 1 0 q → holds_queue (advance b) W R 0 0 1 q.
Proof.
  intros (Hl & HW & HR & Hn & Hh & Hd). unfold advance. rewrite u32_small by lia.
  pose proof (Z.mod_pos_bound (head b + 1) N ltac:(lia)).
  split_and!; simpl; [done|done|done|lia|lia|lia|].
  intros i y Hi. rewrite <-(Hd i y Hi). f_equal. rewrite Z.add_0_r, Z.add_mod_idemp_l by lia. done.
Qed.

Lemma queue_decr b W R q :
  holds_queue b W R 0 0 1 q → Z.of_nat (length q) ≤ N → holds_queue (decr b) W R 0 0 0 q.
Proof.
  intros (Hl & HW & HR & Hn & Hh & Hd) Hlt.
  unfold decr. rewrite u32_small by lia. split_and!; simpl; try done; lia.
Qed.

Lemma queue_eq b W R HP HG HT W' R' HP' HG' HT' q :
  W = W' → R = R' → HP = HP' → HG = HG' → HT = HT' →
  holds_queue b W R HP HG HT q → holds_queue b W' R' HP' HG' HT' q.
Proof. by intros -> -> -> -> ->. Qed.

Lemma bb_step i c c' ts :
  bb_inv c ts → exec i c = Some c' → bb_inv c' (points_step first i c ts).
Proof.
  intros [Hok (q & Hq)] Hex.
  destruct (points_exec code first code_first i c c' ts (ok_points _ _ _ _ _ _ Hok) Hex) as (_ & p & Hi & Hsem).
  split.
  { eapply (conf_ok_step code first code_first); [by apply net_first|done| |done]. intros s. by eapply counts_bound. }
  destruct (sums_bound c ts i p Hok Hi) as (B0 & B1 & B2 & B3 & B4 & B5 & B6 & B7 & B8).
  assert (Hsum : ∀ w, sum w (points_step first i c ts) = sum w ts - w p + w (successor first c p))
    by (intros w; by apply points_sum).
  rewrite !Hsum. clear Hsum.
  assert (Hlen : Z.of_nat (length q) = sum writes ts - sum reads ts).
  { destruct Hq as (Hl & HW & HR & _). rewrite Hl, length_app in HW. lia. }
  set (W := sum writes ts) in *. set (R := sum reads ts) in *. set (HP := sum half_put ts) in *.
  set (HG := sum half_get ts) in *. set (HT := sum half_took ts) in *. clearbody W R HP HG HT.
  destruct p as [ph rs a b].
  unfold successor, entered, drained, inside, writes, reads, half_put, half_get, half_took, first in *. simpl in *.
  destruct ph; simpl in *; [destruct rs as [|[t|] rs]; simpl in *; [done|..]|..]; destruct Hsem as [_ ->];
    try (exists q; eapply queue_eq; [..|exact Hq]; lia).
  - assert (HP = 0 ∧ HG = 0 ∧ HT = 0) as (-> & -> & ->) by lia. exists (q ++ [t]).
    eapply queue_eq; [..|apply (queue_write _ W R); [exact Hq|]]; lia.
  - assert (HP = 1 ∧ HG = 0 ∧ HT = 0) as (-> & -> & ->) by lia. exists q.
    eapply queue_eq; [..|apply (queue_incr _ W R); [exact Hq|]]; lia.
  - assert (HP = 0 ∧ HG = 0 ∧ HT = 0) as (-> & -> & ->) by lia.
    destruct (queue_note _ W R q Hq) as (x & q' & _ & _ & Hq'); [lia|]. exists q'.
    eapply queue_eq; [..|exact Hq']; lia.
  - assert (HP = 0 ∧ HG = 1 ∧ HT = 0) as (-> & -> & ->) by lia. exists q.
    eapply queue_eq; [..|apply (queue_advance _ W R); exact Hq]; lia.
  - assert (HP = 0 ∧ HG = 0 ∧ HT = 1) as (-> & -> & ->) by lia. exists q.
    eapply queue_eq; [..|apply (queue_decr _ W R); [exact Hq|]]; lia.
Qed.

(** Threads that have not started. *)
Lemma bb_start memory scripts :
  bb_inv (start memory scripts) ((λ rs, (mkPoint Idle rs 0 0, None)) <$> scripts).
Proof.
  assert (Hs : ∀ w, (∀ rs, w (mkPoint Idle rs 0 0) = 0) →
    sum w ((λ rs, (mkPoint Idle rs 0 0, None)) <$> scripts) = 0).
  { intros w Hw. unfold sum. induction scripts as [|rs l IH]; [done|]. rewrite fmap_cons. simpl. rewrite Hw. exact IH. }
  split.
  - pose proof (conf_ok_start code first net initial ((λ rs, mkPoint Idle rs 0 0) <$> scripts) (fresh memory)) as H.
    rewrite <-!list_fmap_compose in H. unfold start. eapply conf_ok_sems; [| |apply H].
    + done.
    + intros s. simpl. unfold make. rewrite u32_small; [done|]. destruct s as [|[|[|s]]]; simpl; lia.
    + intros s. unfold initial. destruct s as [|[|[|s]]]; lia.
    + intros p s (rs & -> & _)%list_elem_of_fmap. destruct s as [|[|[|s]]]; done.
  - exists []. rewrite !Hs by done. split_and!; simpl; try done; lia.
Qed.

Lemma bb_reachable memory scripts c :
  steps (start memory scripts) c → ∃ ts, bb_inv c ts.
Proof.
  intros Hr. assert (Hinv : ∃ ts, bb_inv (start memory scripts) ts) by (eexists; apply bb_start).
  induction Hr as [c|c1 c2 c3 [i Hi] _ IH]; [done|]. apply IH.
  destruct Hinv as [ts Hts]. eexists. by eapply bb_step.
Qed.

(** Between a [note] and its [decr] an item has been read but is still
    counted: at most one thread is there. *)
Lemma half_bound c ts :
  ok c ts → 0 ≤ sum half_put ts ∧ 0 ≤ sum half_get ts ∧ 0 ≤ sum half_took ts ∧
  sum half_put ts + sum half_get ts + sum half_took ts ≤ 1 ∧ sum writes ts - sum reads ts ≤ N.
Proof.
  intros Hok. destruct (permits_eq c ts Hok) as (E0 & _ & E2 & _).
  pose proof (so_count _ _ (so_sem _ _ _ (ok_sems _ _ _ _ _ _ Hok) nEmpty)) as C0.
  pose proof (so_count _ _ (so_sem _ _ _ (ok_sems _ _ _ _ _ _ Hok) lock)) as C2.
  assert (Hle := λ t, weights_le c ts t Hok). unfold sum.
  pose proof (zsum_le (λ t, half_put t.1 + half_get t.1 + half_took t.1) inside ts ltac:(intros; by apply Hle)) as G.
  rewrite !zsum_add in G.
  pose proof (zsum_le (λ t, Z.of_nat (gs t.1)) (λ t, reads t.1) ts ltac:(intros; by apply Hle)).
  pose proof (zsum_le (λ t, writes t.1) entered ts ltac:(intros; by apply Hle)).
  split_and!; [apply zsum_nonneg; intros; by apply Hle..|lia|lia].
Qed.

(** ** Nobody is left waiting *)

Lemma stuck_threads c ts :
  bb_inv c ts → (∀ i, exec i c = None) → ∀ j t, ts !! j = Some t →
  (t.2 = None ∧ at_ t.1 = Idle ∧ todo t.1 = []) ∨
  (t.2 = Some nEmpty ∧ (∃ x, at_ t.1 = P1 x) ∧ count (sems c nEmpty) = 0) ∨
  (t.2 = Some nFull ∧ at_ t.1 = G1 ∧ count (sems c nFull) = 0).
Proof.
  intros [Hok _] Hst. pose proof (stuck_points code first code_first c ts (ok_points _ _ _ _ _ _ Hok) Hst) as Hdone.
  assert (Hrun : ∀ j p, ts !! j = Some (p, None) → at_ p = Idle ∧ todo p = []).
  { intros j [ph rs a b] Hj. specialize (Hdone j _ Hj). unfold first in Hdone. simpl in Hdone.
    destruct ph; try (by destruct Hdone). destruct rs as [|[t|] rs]; [done|by destruct Hdone..]. }
  assert (Hzero : ∀ j p s, ts !! j = Some (p, Some s) → count (sems c s) = 0).
  { intros j p s Hj. pose proof (so_sem _ _ _ (ok_sems _ _ _ _ _ _ Hok) s) as Hs.
    pose proof (so_count _ _ Hs). destruct (decide (0 < count (sems c s))) as [Hpos|]; [|lia].
    pose proof (so_empty _ _ Hs Hpos) as He. assert (j ∈ waiting (sems c s)) as Hin.
    { apply (so_waiting _ _ Hs). by exists p. } rewrite He in Hin. by apply not_elem_of_nil in Hin. }
  intros j [p [s|]] Hj; simpl; [|left; split; [done|by eapply Hrun]].
  destruct (blocked_phase c ts j p s Hok Hj) as [(-> & Ht)|[(-> & Ht)|(-> & Ht)]].
  - right. left. split; [done|]. split; [done|by eapply Hzero].
  - right. right. split; [done|]. split; [done|by eapply Hzero].
  - exfalso. destruct (permits_eq c ts Hok) as (_ & _ & E2 & _). rewrite (Hzero _ _ _ Hj) in E2.
    destruct (zsum_pos inside ts) as (m & [p' [s'|]] & Hm & Hpos); [lia|..].
    + unfold inside in Hpos. simpl in Hpos.
      destruct (blocked_phase c ts m p' s' Hok Hm) as [(-> & t & E)|[(-> & E)|(-> & [[t E]|E])]]; rewrite E in Hpos; simpl in Hpos; lia.
    + destruct (Hrun m p' Hm) as [E _]. unfold inside in Hpos. simpl in Hpos. rewrite E in Hpos. simpl in Hpos. lia.
Qed.
End buffer.

(** ** Properties *)

Section properties.
Context (N : Z).

(** Whatever threads put and get, and however their steps interleave:
    the items read are the items written, in the same order and without
    repetition or loss, and at most [N] of them are in the buffer, whose
    indices stay within the array. *)
Theorem buffer_fifo memory scripts c :
  1 ≤ N < 2 ^ 31 → steps (start N memory scripts) c →
  ∃ q, written (shared c) = taken (shared c) ++ q ∧ Z.of_nat (length q) ≤ N ∧ 0 ≤ head (shared c) < N.
Proof.
  intros HN Hr. destruct (bb_reachable N HN memory scripts c Hr) as (ts & Hok & q & Hl & HW & HR & _ & Hh & _).
  exists q. split; [done|]. split; [|done].
  destruct (half_bound N c ts Hok) as (_ & _ & _ & _ & Hb). rewrite Hl, length_app in HW. lia.
Qed.

(** No wakeup is lost: when no thread can take a step, each thread has
    finished its script, or waits in [put] with [N] items in the buffer, or
    waits in [get] with none; no thread is left in the queue of the lock. *)
Theorem buffer_wakeups memory scripts c :
  1 ≤ N < 2 ^ 31 → steps (start N memory scripts) c → (∀ i, exec i c = None) →
  ∀ j p o, pool c !! j = Some (p, o) →
    (o = None ∧ p = Done) ∨ (o = Some nEmpty ∧ n (shared c) = N) ∨ (o = Some nFull ∧ n (shared c) = 0).
Proof.
  intros HN Hr Hst j p o Hj. destruct (bb_reachable N HN memory scripts c Hr) as (ts & Hinv).
  pose proof (stuck_threads N c ts Hinv Hst) as Hth. destruct Hinv as (Hok & q & Hl & HW & HR & Hn & _).
  destruct (permits_eq N c ts Hok) as (E0 & E1 & _).
  assert (Hq : ∀ t, t ∈ ts → entered t = writes t.1 ∧ Z.of_nat (gs t.1) = reads t.1 ∧ drained t = reads t.1 ∧
    Z.of_nat (ps t.1) = writes t.1 ∧ half_put t.1 = 0 ∧ half_get t.1 = 0 ∧ half_took t.1 = 0).
  { intros [x s] [m Hm]%list_elem_of_lookup_1. unfold entered, drained, writes, reads, half_put, half_get, half_took.
    destruct (Hth m _ Hm) as [(-> & -> & _)|[(-> & [y ->] & _)|(-> & -> & _)]]; simpl; lia. }
  assert (Hn' : n (shared c) = Z.of_nat (length q)).
  { unfold sum in Hn. rewrite (zsum_ext (λ t, half_put t.1) (λ _, 0)), (zsum_ext (λ t, half_get t.1) (λ _, 0)),
      (zsum_ext (λ t, half_took t.1) (λ _, 0)) in Hn by (intros; by apply Hq).
    rewrite Hn. clear. assert (Hz : zsum (λ _ : point * option nat, 0) ts = 0) by (induction ts; simpl; [done|lia]). lia. }
  rewrite (zsum_ext entered (λ t, writes t.1)), (zsum_ext (λ t, Z.of_nat (gs t.1)) (λ t, reads t.1)) in E0 by (intros; by apply Hq).
  rewrite (zsum_ext (λ t, Z.of_nat (ps t.1)) (λ t, writes t.1)), (zsum_ext drained (λ t, reads t.1)) in E1 by (intros; by apply Hq).
  unfold sum in *. rewrite Hl, length_app in HW.
  rewrite (ok_points _ _ _ _ _ _ Hok), list_lookup_fmap in Hj. destruct (ts !! j) as [t|] eqn:Et; [|done].
  injection Hj as <- <-. destruct (Hth j t Et) as [(-> & E & F)|[(-> & _ & Hc)|(-> & _ & Hc)]].
  - left. split; [done|]. unfold code. by rewrite E, F.
  - right. left. split; [done|]. lia.
  - right. right. split; [done|]. lia.
Qed.
End properties.

(** ** Witnesses *)

(** A producer and a consumer, run for a while in turns. *)
Definition sample_scripts : list (list request) := [[Put 5; Put 6; Put 7]; [Get; Get]].
Definition sample_turns : list nat := concat (replicate 20 [0; 1; 1]%nat).

Lemma buffer_fifo_witness :
  taken (shared (run_schedule sample_turns (start 1 (λ _, 0) sample_scripts))) = [5; 6] ∧
  ∃ q, written (shared (run_schedule sample_turns (start 1 (λ _, 0) sample_scripts))) =
         taken (shared (run_schedule sample_turns (start 1 (λ _, 0) sample_scripts))) ++ q ∧
       Z.of_nat (length q) ≤ 1 ∧
       0 ≤ head (shared (run_schedule sample_turns (start 1 (λ _, 0) sample_scripts))) < 1.
Proof.
  split; [vm_compute; reflexivity|].
  apply (buffer_fifo 1 (λ _, 0) sample_scripts); [lia|apply run_schedule_steps].
Defined.

(** A lone consumer waits for ever. *)
Lemma buffer_wakeups_witness :
  n (shared (run_schedule [0%nat] (start 1 (λ _, 0) [[Get]]))) = 0 ∧
  ∀ j p o, pool (run_schedule [0%nat] (start 1 (λ _, 0) [[Get]])) !! j = Some (p, o) →
    (o = None ∧ p = Done) ∨
    (o = Some nEmpty ∧ n (shared (run_schedule [0%nat] (start 1 (λ _, 0) [[Get]]))) = 1) ∨
    (o = Some nFull ∧ n (shared (run_schedule [0%nat] (start 1 (λ _, 0) [[Get]]))) = 0).
Proof.
  split; [reflexivity|]. apply (buffer_wakeups 1 (λ _, 0) [[Get]]); [lia|apply run_schedule_steps|].
  intros [|i]; reflexivity.
Defined.
