(* ===== verification/Future.v ===== *)
(** * Futures (kernel/future.h)

    [set] and [get] as programs; one thread sets the value and any number
    of others get it, in any interleaving: every [get] returns the value,
    none is left waiting, and [set] does not find the future already set.
    [Primitives] concludes the same for the code of semaphores. *)

From S2P Require Import Prelude.
From S2P Require Import Semaphore.
From Stdlib Require Import FunctionalExtensionality.

(** The fields, and what the [get]s have returned (a ghost). *)
Record future := mkFuture { isReady : bool; value : Z; results : list Z }.

(** The semaphore [go]. *)
Definition go : nat := 0.

Definition fresh : future := mkFuture false 0 [].

Definition store (v : Z) (f : future) : future := mkFuture (isReady f) v (results f).
Definition ready (f : future) : future := mkFuture true (value f) (results f).
(** [return t] *)
Definition note (f : future) : future := mkFuture (isReady f) (value f) (results f ++ [value f]).

Definition set (v : Z) (k : prog future) : prog future :=
  Act id (λ f, if isReady f then Panic else
    Act (store v) (λ _, Act ready (λ _, Up go k))).

Definition get (k : Z → prog future) : prog future :=
  Act id (λ f,
    let read := Act note (λ f, k (value f)) in
    if isReady f then read else Down go (Up go read)).

(** A thread that gets [m] times. *)
Fixpoint getter (m : nat) : prog future :=
  match m with O => Done | S m => get (λ _, getter m) end.

(** A setter of [v] and the getters. *)
Definition start (v : Z) (ms : list nat) : conf future :=
  mkConf ((set v Done, None) :: ((λ m, (getter m, None)) <$> ms)) (λ _, make 0) fresh.

(** ** Control points *)

Section points.
Context (v : Z).

(** The setter before each of its steps and at its end, a getter with [m]
    calls left before its steps: the test, [down], [up], the read. *)
Inductive point := S0 | S1 | S2 | S3 | S4 | G0 (m : nat) | G1 (m : nat) | G2 (m : nat) | G3 (m : nat) | Bad.

Definition read_then (m : nat) : prog future := Act note (λ _, getter m).

Definition code (p : point) : prog future :=
  match p with
  | S0 => set v Done
  | S1 => Act (store v) (λ _, Act ready (λ _, Up go Done))
  | S2 => Act ready (λ _, Up go Done)
  | S3 => Up go Done
  | S4 => Done
  | G0 m => getter m
  | G1 m => Down go (Up go (read_then m))
  | G2 m => Up go (read_then m)
  | G3 m => read_then m
  | Bad => Panic
  end.

Definition first (p : point) : instr future point :=
  match p with
  | S0 => IAct id (λ f, if isReady f then Bad else S1)
  | S1 => IAct (store v) (λ _, S2)
  | S2 => IAct ready (λ _, S3)
  | S3 => IUp go S4
  | S4 => IDone
  | G0 O => IDone
  | G0 (S m) => IAct id (λ f, if isReady f then G3 m else G1 m)
  | G1 m => IDown go (G2 m)
  | G2 m => IUp go (G3 m)
  | G3 m => IAct note (λ _, G0 m)
  | Bad => IPanic
  end.

Lemma fut_code_first p : code p = instr_prog code (first p).
Proof.
  destruct p as [| | | | |[|m]| | | |]; simpl; try reflexivity.
  - unfold set. f_equal. extensionality f. by destruct (isReady f).
  - unfold get. f_equal. extensionality f. by destruct (isReady f).
Qed.

(** The setter's progress; a getter past [down] owes an [up]. *)
Definition setter (p : point) : Z := match p with S0 | S1 | S2 | S3 | S4 => 1 | _ => 0 end.
Definition stored (p : point) : Z := match p with S2 | S3 | S4 => 1 | _ => 0 end.
Definition readied (p : point) : Z := match p with S3 | S4 => 1 | _ => 0 end.
Definition fired (p : point) : Z := match p with S4 => 1 | _ => 0 end.
Definition owing (p : point) : Z := match p with G2 _ => 1 | _ => 0 end.

Abbreviation net := (gate_net go fired owing).

Lemma fut_net_first : net_ok first net.
Proof.
  intros p s. unfold gate_net. destruct p as [| | | | |[|m]| | | |]; simpl; try done; intros; repeat goal_decide; try done; try lia;
    by destruct (isReady _).
Qed.

Lemma fut_down p s k : first p = IDown s k → s = go ∧ owing k = 1.
Proof. by destruct p as [| | | | |[|m]| | | |]; intros [= <- <-]. Qed.

Lemma owing_pos p : 0 ≤ owing p.
Proof. by destruct p. Qed.

Definition sum (w : point → Z) (ts : list (point * option nat)) : Z := zsum (λ t, w t.1) ts.

Abbreviation ok c ts := (conf_ok code first net (λ _, 0) c ts).

(** A getter about to read, or running past [down], has seen the value. *)
Definition seen (t : point * option nat) : Prop :=
  match t with (G3 _, _) => True | (G2 _, None) => True | _ => False end.

Record fut_inv (c : conf future) (ts : list (point * option nat)) : Prop := {
  fu_ok : ok c ts;
  fu_one : sum setter ts = 1;
  fu_ready : isReady (shared c) = true ↔ sum readied ts = 1;
  fu_value : sum stored ts = 1 → value (shared c) = v;
  fu_seen : ∀ t, t ∈ ts → seen t → isReady (shared c) = true;
  fu_good : ∀ t, t ∈ ts → t.1 ≠ Bad;
  fu_results : Forall (λ x, x = v) (results (shared c))
}.

Lemma fired_le c ts : ok c ts → sum fired ts ≤ sum readied ts ∧ sum readied ts ≤ sum stored ts ∧
  sum stored ts ≤ sum setter ts ∧ 0 ≤ sum fired ts.
Proof.
  intros _. unfold sum. split_and!.
  - apply zsum_le. intros [[] o] _; simpl; lia.
  - apply zsum_le. intros [[] o] _; simpl; lia.
  - apply zsum_le. intros [[] o] _; simpl; lia.
  - apply zsum_nonneg. intros [[] o] _; simpl; lia.
Qed.

Lemma count_bound c ts i p s :
  fut_inv c ts → ts !! i = Some (p, None) → count (sems c s) + 1 < 2 ^ 64.
Proof.
  intros Hinv Hi. pose proof (fu_ok _ _ Hinv) as Hok. pose proof (fu_one _ _ Hinv).
  destruct (fired_le c ts Hok) as (? & ? & ? & ?).
  pose proof (gate_count code first go fired owing fut_down owing_pos c ts s Hok). unfold sum in *. lia.
Qed.

(** A positive count means that the setter is done. *)
Lemma count_ready c ts s : fut_inv c ts → count (sems c s) > 0 → isReady (shared c) = true.
Proof.
  intros Hinv Hc. pose proof (fu_ok _ _ Hinv) as Hok. pose proof (fu_one _ _ Hinv).
  destruct (fired_le c ts Hok) as (? & ? & ? & ?).
  pose proof (gate_count code first go fired owing fut_down owing_pos c ts s Hok).
  apply (fu_ready _ _ Hinv). unfold sum in *. lia.
Qed.

(** What the thread about to step knows. *)
Lemma here c ts i p :
  fut_inv c ts → ts !! i = Some (p, None) →
  (p = S0 → isReady (shared c) = false) ∧
  (setter p = 1 → sum stored ts = stored p ∧ sum readied ts = readied p) ∧
  (match p with S3 | G2 _ | G3 _ => True | _ => False end → isReady (shared c) = true).
Proof.
  intros Hinv Hi. pose proof (fu_ok _ _ Hinv) as Hok. pose proof (fu_one _ _ Hinv) as H1. unfold sum in *.
  assert (Hgap : setter p = 1 → sum stored ts = stored p ∧ sum readied ts = readied p).
  { intros Hp. unfold sum.
    pose proof (zsum_gap (λ t, stored t.1) (λ t, setter t.1) ts i (p, None) ltac:(intros [[] o] _; simpl; lia) Hi) as G1.
    pose proof (zsum_gap (λ t, readied t.1) (λ t, setter t.1) ts i (p, None) ltac:(intros [[] o] _; simpl; lia) Hi) as G2.
    pose proof (zsum_lookup (λ t, stored t.1) ts i (p, None) ltac:(intros [[] o] _; simpl; lia) Hi) as G3.
    pose proof (zsum_lookup (λ t, readied t.1) ts i (p, None) ltac:(intros [[] o] _; simpl; lia) Hi) as G4.
    simpl in *. lia. }
  split; [|split; [done|]].
  - intros ->. destruct (isReady (shared c)) eqn:E; [|done]. apply (fu_ready _ _ Hinv) in E.
    destruct (Hgap eq_refl) as [_ Hr]. simpl in Hr. lia.
  - intros Hp. destruct p; try done.
    + apply (fu_ready _ _ Hinv). by apply Hgap.
    + eapply (fu_seen _ _ Hinv); [by eapply list_elem_of_lookup_2|done].
    + eapply (fu_seen _ _ Hinv); [by eapply list_elem_of_lookup_2|done].
Qed.

Lemma ready_value c ts : fut_inv c ts → isReady (shared c) = true → value (shared c) = v.
Proof.
  intros Hinv Hr. apply (fu_value _ _ Hinv). apply (fu_ready _ _ Hinv) in Hr.
  pose proof (fu_one _ _ Hinv). destruct (fired_le c ts (fu_ok _ _ Hinv)) as (? & ? & ? & ?). lia.
Qed.

Lemma fut_step c c' ts i :
  fut_inv c ts → exec i c = Some c' → fut_inv c' (points_step first i c ts).
Proof.
  intros Hinv Hex. pose proof (fu_ok _ _ Hinv) as Hok.
  destruct (points_exec code first fut_code_first i c c' ts (ok_points _ _ _ _ _ _ Hok) Hex) as (_ & p & Hi & Hsem).
  destruct (here c ts i p Hinv Hi) as (Hs0 & Hgap & Hrdy).
  assert (Hsum : ∀ w, sum w (points_step first i c ts) = sum w ts - w p + w (successor first c p))
    by (intros w; by apply points_sum).
  pose proof (fu_one _ _ Hinv) as H1. pose proof (fu_ready _ _ Hinv) as H2. pose proof (fu_value _ _ Hinv) as H3.
  assert (Hmono : isReady (shared c) = true → isReady (shared c') = true).
  { intros E. destruct p as [| | | | |[|m]| | | |]; simpl in Hsem; try done; destruct Hsem as [_ ->]; done. }
  assert (Hsucc : seen (successor first c p, None) →
      (∀ s k, first p = IDown s k → count (sems c s) > 0) → isReady (shared c') = true).
  { intros Hs Hc. apply Hmono. unfold successor in Hs. destruct p as [| | | | |[|m]|m|m|m|]; simpl in *; try done.
    - by destruct (isReady (shared c)).
    - by destruct (isReady (shared c)).
    - by eapply count_ready, Hc.
    - by apply Hrdy. }
  split.
  - eapply (conf_ok_step code first fut_code_first); [apply fut_net_first|done| |done]. intros s. by eapply count_bound.
  - rewrite Hsum. unfold successor. destruct p as [| | | | |[|m]|m|m|m|]; simpl in *; try lia; try rewrite Hs0 by done; try (by destruct (isReady _); simpl; lia).
  - rewrite Hsum. unfold successor. destruct p as [| | | | |[|m]|m|m|m|]; simpl in *; try (by destruct Hsem);
      destruct Hsem as [_ ->]; simpl; try (rewrite H2; lia).
    + rewrite Hs0 in H2 |- * by done. rewrite H2. simpl. lia.
    + destruct (Hgap eq_refl) as [_ ->]. lia.
    + by destruct (isReady (shared c)); simpl; rewrite Z.sub_0_r, Z.add_0_r.
  - rewrite Hsum. unfold successor. destruct p as [| | | | |[|m]|m|m|m|]; simpl in *; try (by destruct Hsem);
      destruct Hsem as [_ ->]; simpl; try (intros; apply H3; lia).
    + rewrite Hs0 by done. simpl. intros. apply H3. lia.
    + done.
    + destruct (isReady (shared c)); simpl; intros; apply H3; lia.
  - intros [q o] [j Hj]%list_elem_of_lookup_1 Hs.
    destruct (points_lookup first i c ts p j q o (ok_sems _ _ _ _ _ _ Hok) Hi Hj)
      as [(-> & -> & Hd)|[(_ & Ht)|(_ & -> & s & k & Hu & Ht)]].
    + apply Hsucc; [by destruct (successor first c p), o|]. intros s k E. apply (Hd s k E). destruct o; [|done].
      exfalso. destruct p as [| | | | |[|m]|m|m|m|]; done.
    + apply Hmono. eapply (fu_seen _ _ Hinv); [by eapply list_elem_of_lookup_2|done].
    + apply Hmono. apply Hrdy. destruct p as [| | | | |[|m]|m|m|m|]; done.
  - intros [q o] [j Hj]%list_elem_of_lookup_1.
    destruct (points_lookup first i c ts p j q o (ok_sems _ _ _ _ _ _ Hok) Hi Hj)
      as [(-> & -> & Hd)|[(_ & Ht)|(_ & -> & s & k & Hu & Ht)]]; simpl;
      try (by apply (fu_good _ _ Hinv _ (list_elem_of_lookup_2 _ _ _ Ht))).
    unfold successor. pose proof (fu_good _ _ Hinv _ (list_elem_of_lookup_2 _ _ _ Hi)).
    destruct p as [| | | | |[|m]|m|m|m|]; simpl; try done; [by rewrite Hs0|by destruct (isReady (shared c))].
  - pose proof (fu_results _ _ Hinv) as Hres.
    destruct p as [| | | | |[|m]|m|m|m|]; simpl in Hsem; try done; destruct Hsem as [_ ->]; try done.
    simpl. apply Forall_app_2; [done|]. apply Forall_singleton. eapply ready_value; [done|]. by apply Hrdy.
Qed.

Lemma fut_start ms : fut_inv (start v ms) ((S0, None) :: ((λ m, (G0 m, None)) <$> ms)).
Proof.
  assert (Hs : ∀ w, (∀ m, w (G0 m) = 0) → sum w ((S0, None) :: ((λ m, (G0 m, None)) <$> ms)) = w S0).
  { intros w Hw. unfold sum. simpl. rewrite zsum_fmap. simpl. rewrite (zsum_zero _ ms); [lia|]. intros; apply Hw. }
  split; try (rewrite Hs by done; done).
  - pose proof (conf_ok_start code first net (λ _, 0) (S0 :: (G0 <$> ms)) fresh) as H.
    rewrite !fmap_cons, <-!list_fmap_compose in H. apply H; [lia|].
    intros p s [->|(m & -> & _)%list_elem_of_fmap]%elem_of_cons; unfold gate_net; by destruct (decide _).
  - intros t [->|(m & -> & _)%list_elem_of_fmap]%elem_of_cons; done.
  - intros t [->|(m & -> & _)%list_elem_of_fmap]%elem_of_cons; done.
  - constructor.
Qed.

Lemma fut_reachable ms c : steps (start v ms) c → ∃ ts, fut_inv c ts.
Proof.
  intros Hr. assert (Hinv : ∃ ts, fut_inv (start v ms) ts) by (eexists; apply fut_start).
  induction Hr as [c|c1 c2 c3 [i Hi] _ IH]; [done|]. apply IH.
  destruct Hinv as [ts Hts]. eexists. by eapply fut_step.
Qed.
End points.

(** ** Properties *)

(** However [set] and the [get]s interleave: every value that a [get]
    has returned is the one set, and no thread fails the assertion of
    [set]. *)
Theorem future_values v ms c :
  steps (start v ms) c →
  Forall (λ x, x = v) (results (shared c)) ∧ ∀ j o, pool c !! j ≠ Some (Panic, o).
Proof.
  intros Hr. destruct (fut_reachable v ms c Hr) as (ts & Hinv). split; [apply (fu_results _ _ _ Hinv)|].
  intros j o Hj. rewrite (ok_points _ _ _ _ _ _ (fu_ok _ _ _ Hinv)), list_lookup_fmap in Hj.
  destruct (ts !! j) as [[p s]|] eqn:E; [|done]. apply list_elem_of_lookup_2 in E.
  pose proof (fu_good _ _ _ Hinv _ E) as Hg. destruct p as [| | | | |[|m]| | | |]; done.
Qed.

(** No [get] is left waiting: when no thread can take a step, all have
    finished, and each getter has been given its values. *)
Theorem future_finish v ms c :
  steps (start v ms) c → (∀ i, exec i c = None) →
  ∀ j p o, pool c !! j = Some (p, o) → p = Done ∧ o = None.
Proof.
  intros Hr Hst. destruct (fut_reachable v ms c Hr) as (ts & Hinv).
  pose proof (fu_ok _ _ _ Hinv) as Hok. pose proof (ok_points _ _ _ _ _ _ Hok) as Hp.
  pose proof (stuck_points (code v) (first v) (fut_code_first v) c ts Hp Hst) as Hstk.
  assert (Hrun : ∀ i p, ts !! i = Some (p, None) → p = S4 ∨ p = G0 0).
  { intros i p Hi. pose proof (fu_good _ _ _ Hinv _ (list_elem_of_lookup_2 _ _ _ Hi)) as Hg.
    destruct (Hstk i p Hi) as [E|E]; destruct p as [| | | | |[|m]| | | |]; try done; auto. }
  assert (Hbl : ∀ k p s, ts !! k = Some (p, Some s) → ∃ m, p = G2 m).
  { intros k p s Hk. destruct (gate_blocked (code v) (first v) go fired owing (fut_down v) c ts k p s Hok Hk) as [_ [p0 E]].
    destruct p0 as [| | | | |[|m]|m| | |]; try done. exists m. by injection E. }
  pose proof (gate_nobody_waits (code v) (first v) go fired owing (fut_down v) c ts Hok) as Hwait.
  specialize (Hwait ltac:(
    fold (sum fired ts); replace (sum fired ts) with (sum setter ts); [rewrite (fu_one _ _ _ Hinv); lia|];
    apply zsum_ext; intros [p' [s'|]] [k Hk]%list_elem_of_lookup_1; simpl;
      [by destruct (Hbl k p' s' Hk) as [m ->]|by destruct (Hrun k p' Hk) as [-> | ->]])
    ltac:(intros k p Hk; by destruct (Hrun k p Hk) as [-> | ->])).
  intros j p o Hj. rewrite Hp, list_lookup_fmap in Hj. destruct (ts !! j) as [[q s]|] eqn:E; [|done].
  injection Hj as <- <-. destruct s as [s|]; [by apply Hwait in E|]. by destruct (Hrun j q E) as [-> | ->].
Qed.

(** ** Witnesses *)

(** Two getters that ask before the value is there. *)
Definition early : conf future := start 7 [2; 1]%nat.
Definition early_turns : list nat := [1; 1; 2; 2; 0; 0; 0; 0; 1; 1; 2; 2; 1; 1]%nat.

Lemma future_values_witness :
  results (shared (run_schedule early_turns early)) = [7; 7; 7] ∧
  Forall (λ x, x = 7) (results (shared (run_schedule early_turns early))) ∧
  ∀ j o, pool (run_schedule early_turns early) !! j ≠ Some (Panic, o).
Proof. split; [vm_compute; reflexivity|]. apply (future_values 7 [2; 1]%nat), run_schedule_steps. Defined.

Lemma future_finish_witness :
  results (shared (run_schedule early_turns early)) = [7; 7; 7] ∧
  ∀ j p o, pool (run_schedule early_turns early) !! j = Some (p, o) → p = Done ∧ o = None.
Proof.
  split; [vm_compute; reflexivity|]. apply (future_finish 7 [2; 1]%nat); [apply run_schedule_steps|].
  intros [|[|[|i]]]; vm_compute; reflexivity.
Defined.
