(* ===== verification/Barrier.v ===== *)
(** * The barrier (kernel/barrier.h)

    [sync] of the one-shot barrier as a program: in any interleaving of as
    many threads as the barrier is made for, none passes before all have
    arrived, and then all do; one thread more stops the machine.
    [Primitives] concludes the same for the code of semaphores. *)

From S2P Require Import Prelude.
From S2P Require Import Semaphore.
From Stdlib Require Import FunctionalExtensionality.

(** The count, and how many threads have arrived and passed (ghosts). *)
Record barrier := mkBarrier { bcount : Z; arrived : Z; passed : Z }.

(** The semaphore [sem]. *)
Definition gate : nat := 0.

(** [Barrier(count)]: the [uint32_t] becomes an [int32_t]. *)
Definition fresh (n : Z) : barrier := mkBarrier (i32 n) 0 0.

(** [count.add_fetch(-1)], which yields the new count. *)
Definition decr (b : barrier) : barrier := mkBarrier (i32 (bcount b - 1)) (arrived b + 1) (passed b).
Definition pass (b : barrier) : barrier := mkBarrier (bcount b) (arrived b) (passed b + 1).

Definition sync (k : prog barrier) : prog barrier :=
  Act decr (λ b,
    let x := bcount (decr b) in
    if decide (x < 0) then Panic else
    if decide (x = 0) then Up gate k else Down gate (Up gate k)).

(** A thread that goes through the barrier, and [m] of them. *)
Definition participant : prog barrier := sync (Act pass (λ _, Done)).
Definition start (n : Z) (m : nat) : conf barrier :=
  mkConf (replicate m (participant, None)) (λ _, make 0) (fresh n).

(** ** Control points *)

(** Before each step: the decrement, the last thread's [up], the others'
    [down] and [up], the passage, the end; [last] marks the last thread. *)
Inductive point := B0 | BLast | BDown | BUp | BPass (last : bool) | BEnd (last : bool) | Bad.

Definition out : prog barrier := Act pass (λ _, Done).

Definition code (p : point) : prog barrier :=
  match p with
  | B0 => participant
  | BLast => Up gate out
  | BDown => Down gate (Up gate out)
  | BUp => Up gate out
  | BPass _ => out
  | BEnd _ => Done
  | Bad => Panic
  end.

Definition first (p : point) : instr barrier point :=
  match p with
  | B0 => IAct decr (λ b, if decide (bcount (decr b) < 0) then Bad else
                          if decide (bcount (decr b) = 0) then BLast else BDown)
  | BLast => IUp gate (BPass true)
  | BDown => IDown gate BUp
  | BUp => IUp gate (BPass false)
  | BPass l => IAct pass (λ _, BEnd l)
  | BEnd _ => IDone
  | Bad => IPanic
  end.

Lemma bar_code_first p : code p = instr_prog code (first p).
Proof.
  destruct p; simpl; try reflexivity. unfold participant, sync. f_equal. extensionality b.
  by repeat goal_decide.
Qed.

Definition past (p : point) : Z := match p with B0 => 0 | _ => 1 end.
Definition lastw (p : point) : Z := match p with BLast | BPass true | BEnd true => 1 | _ => 0 end.
Definition fired (p : point) : Z := match p with BPass true | BEnd true => 1 | _ => 0 end.
Definition owing (p : point) : Z := match p with BUp => 1 | _ => 0 end.
Definition ended (p : point) : Z := match p with BEnd _ => 1 | _ => 0 end.
Definition failed (p : point) : Z := match p with Bad => 1 | _ => 0 end.

Lemma bar_net_first : net_ok first (gate_net gate fired owing).
Proof.
  intros p s. unfold gate_net. destruct p as [| | | |[]|[]|]; simpl; try done; intros; repeat goal_decide; done || lia.
Qed.

Lemma bar_down p s k : first p = IDown s k → s = gate ∧ owing k = 1.
Proof. by destruct p; intros [= <- <-]. Qed.

Lemma bar_owing p : 0 ≤ owing p.
Proof. by destruct p. Qed.

Definition sum (w : point → Z) (ts : list (point * option nat)) : Z := zsum (λ t, w t.1) ts.

Lemma bar_le (w w' : point → Z) ts : (∀ p, w p ≤ w' p) → sum w ts ≤ sum w' ts.
Proof. intros Hw. apply zsum_le. auto. Qed.

(** ** The invariant *)

Section barrier.
Context (n : Z) (m : nat) (Hn : 1 ≤ n < 2 ^ 31) (Hm : Z.of_nat m < 2 ^ 31).

Definition seen (t : point * option nat) : Prop :=
  match t with (BPass _, _) | (BEnd _, _) => True | (BUp, None) => True | _ => False end.

Record bar_inv (c : conf barrier) (ts : list (point * option nat)) : Prop := {
  br_ok : conf_ok code first (gate_net gate fired owing) (λ _, 0) c ts;
  br_total : sum (λ _, 1) ts = Z.of_nat m;
  br_arrived : arrived (shared c) = sum past ts;
  br_count : bcount (shared c) = n - sum past ts;
  br_last : sum lastw ts = if decide (n ≤ sum past ts) then 1 else 0;
  br_seen : ∀ t, t ∈ ts → seen t → n ≤ sum past ts;
  br_passed : passed (shared c) = sum ended ts;
  br_failed : sum failed ts = Z.max 0 (sum past ts - n)
}.

Lemma bar_bounds c ts : bar_inv c ts → 0 ≤ sum past ts ≤ Z.of_nat m ∧ sum fired ts ≤ sum lastw ts ∧ sum lastw ts ≤ 1.
Proof.
  intros Hinv. rewrite <-(br_total _ _ Hinv). split_and!.
  - apply zsum_nonneg. by intros [[] ?] _.
  - apply bar_le. by intros [].
  - apply bar_le. by intros [| | | |[]|[]|].
  - rewrite (br_last _ _ Hinv). by destruct (decide _).
Qed.

(** A positive count: the last thread has come. *)
Lemma bar_open c ts s : bar_inv c ts → count (sems c s) > 0 → n ≤ sum past ts.
Proof.
  intros Hinv Hc. pose proof (bar_bounds _ _ Hinv). pose proof (br_last _ _ Hinv) as Hl.
  pose proof (gate_count code first gate fired owing bar_down bar_owing c ts s (br_ok _ _ Hinv)).
  unfold sum in *. destruct (decide (n ≤ zsum (λ t, past t.1) ts)); lia.
Qed.

(** The threads with an [up] or the passage ahead know that all have come. *)
Lemma bar_knows c ts i p :
  bar_inv c ts → ts !! i = Some (p, None) →
  match p with BLast | BUp | BPass _ | BEnd _ => n ≤ sum past ts | _ => True end.
Proof.
  intros Hinv Hi. pose proof (list_elem_of_lookup_2 _ _ _ Hi) as Hin.
  destruct p; try done; try (by eapply (br_seen _ _ Hinv)).
  pose proof (br_last _ _ Hinv) as Hl. destruct (decide (n ≤ sum past ts)); [done|].
  pose proof (zsum_lookup (λ t, lastw t.1) ts i (BLast, None) ltac:(by intros [[| | | |[]|[]|] ?] _) Hi).
  unfold sum in *. simpl in *. lia.
Qed.

Lemma bar_step c c' ts i : bar_inv c ts → exec i c = Some c' → bar_inv c' (points_step first i c ts).
Proof.
  intros Hinv Hex. pose proof (br_ok _ _ Hinv) as Hok.
  destruct (points_exec code first bar_code_first i c c' ts (ok_points _ _ _ _ _ _ Hok) Hex) as (_ & p & Hi & Hsem).
  assert (Hsum : ∀ w, sum w (points_step first i c ts) = sum w ts - w p + w (successor first c p))
    by (intros w; by apply points_sum).
  destruct (bar_bounds _ _ Hinv) as (Hp1 & Hp2 & Hp3).
  pose proof (zsum_gap (λ t, past t.1) (λ _, 1) ts i (p, None) ltac:(by intros [[] ?] _) Hi) as Hgap.
  pose proof (br_total _ _ Hinv) as Htot. pose proof (br_count _ _ Hinv) as Hcnt.
  assert (Hdec : p = B0 → i32 (bcount (shared c) - 1) = n - sum past ts - 1).
  { intros ->. rewrite Hcnt. apply i32_small. unfold sum, int_min, int_max in *. simpl in Hgap. lia. }
  assert (Hpast : sum past ts ≤ sum past (points_step first i c ts)).
  { rewrite Hsum. destruct p; simpl; try lia. unfold successor. simpl. repeat goal_decide; simpl; lia. }
  pose proof (br_last _ _ Hinv) as Hlast. pose proof (br_failed _ _ Hinv) as Hfail.
  split.
  - eapply (conf_ok_step code first bar_code_first); [apply bar_net_first|done| |done]. intros s.
    pose proof (gate_count code first gate fired owing bar_down bar_owing c ts s Hok). unfold sum in *. lia.
  - rewrite Hsum. lia.
  - rewrite Hsum. unfold successor. destruct p; simpl in *; try done; destruct Hsem as [_ ->]; simpl;
      rewrite (br_arrived _ _ Hinv); repeat goal_decide; simpl; lia.
  - rewrite Hsum. unfold successor. destruct p; simpl in *; try done; destruct Hsem as [_ ->]; simpl; try lia.
    rewrite Hdec by done. repeat goal_decide; simpl; lia.
  - rewrite !Hsum. unfold successor. destruct p as [| | | |[]|[]|]; cbn [first] in *; try done; simpl; rewrite ?Hlast; simpl;
      try (rewrite Hdec by done); repeat goal_decide; simpl in *; try done; try lia.
  - intros [q o] [j Hj]%list_elem_of_lookup_1 Hs.
    destruct (points_lookup first i c ts p j q o (ok_sems _ _ _ _ _ _ Hok) Hi Hj)
      as [(-> & -> & Hd)|[(_ & Ht)|(_ & -> & s & k & Hu & Ht)]].
    + etrans; [|exact Hpast]. destruct p as [| | | |[]|[]|]; cbn in Hs, Hd; try done;
        try (exact (bar_knows _ _ _ _ Hinv Hi)); [revert Hs; by repeat goal_decide|].
      destruct o; [done|]. by eapply bar_open, Hd.
    + etrans; [|exact Hpast]. eapply (br_seen _ _ Hinv); [by eapply list_elem_of_lookup_2|done].
    + etrans; [|exact Hpast]. pose proof (bar_knows _ _ _ _ Hinv Hi). by destruct p.
  - rewrite Hsum. unfold successor. destruct p; simpl in *; try done; destruct Hsem as [_ ->]; simpl;
      rewrite (br_passed _ _ Hinv); repeat goal_decide; simpl; lia.
  - rewrite !Hsum. unfold successor. destruct p as [| | | |[]|[]|]; cbn [first] in *; try done; simpl; rewrite ?Hfail; simpl;
      try (rewrite Hdec by done); repeat goal_decide; simpl in *; try done; try lia.
Qed.

Lemma bar_start : bar_inv (start n m) (replicate m (B0, None)).
Proof.
  assert (Hs : ∀ w, w B0 = 0 → sum w (replicate m (B0, None)) = 0).
  { intros w Hw. apply zsum_zero. by intros t [-> _]%elem_of_replicate. }
  split; simpl; rewrite ?Hs by done; try done.
  - pose proof (conf_ok_start code first (gate_net gate fired owing) (λ _, 0) (replicate m B0) (fresh n)) as H.
    rewrite !fmap_replicate in H. apply H; [lia|].
    intros p s [-> _]%elem_of_replicate. unfold gate_net. by destruct (decide _).
  - unfold sum. by rewrite zsum_one, length_replicate.
  - rewrite Z.sub_0_r. apply i32_small. unfold int_min, int_max. lia.
  - rewrite decide_False by lia. done.
  - by intros t [-> _]%elem_of_replicate.
  - lia.
Qed.

Lemma bar_reachable c : steps (start n m) c → ∃ ts, bar_inv c ts.
Proof.
  intros Hr. assert (Hinv : ∃ ts, bar_inv (start n m) ts) by (eexists; apply bar_start).
  induction Hr as [c|c1 c2 c3 [i Hi] _ IH]; [done|]. apply IH.
  destruct Hinv as [ts Hts]. eexists. by eapply bar_step.
Qed.
End barrier.

(** ** Properties *)

(** However many threads use a barrier made for [n], and however they
    interleave: none passes before [n] have arrived, and if there are at
    most [n] of them the machine does not stop. *)
Theorem barrier_waits n m c :
  1 ≤ n < 2 ^ 31 → Z.of_nat m < 2 ^ 31 → steps (start n m) c →
  (0 < passed (shared c) → n ≤ arrived (shared c)) ∧
  (Z.of_nat m ≤ n → ∀ j o, pool c !! j ≠ Some (Panic, o)).
Proof.
  intros Hn Hm Hr. destruct (bar_reachable n m Hn Hm c Hr) as (ts & Hinv). split.
  - rewrite (br_passed _ _ _ _ Hinv), (br_arrived _ _ _ _ Hinv). intros Hp.
    destruct (zsum_pos _ _ Hp) as (j & [p o] & Hj & Hpos).
    eapply (br_seen _ _ _ _ Hinv); [by eapply list_elem_of_lookup_2|]. by destruct p.
  - intros Hle j o Hj. rewrite (ok_points _ _ _ _ _ _ (br_ok _ _ _ _ Hinv)), list_lookup_fmap in Hj.
    destruct (ts !! j) as [[p s]|] eqn:E; [|done]. destruct p as [| | | |[]|[]|]; try done.
    pose proof (zsum_lookup (λ t, failed t.1) ts j (Bad, s) ltac:(by intros [[] ?] _) E) as Hf.
    pose proof (br_failed _ _ _ _ Hinv). destruct (bar_bounds _ _ _ _ Hinv). unfold sum in *. simpl in Hf. lia.
Qed.

(** When no thread can take a step: if at least [n] threads use the
    barrier, nobody waits and exactly [n] have passed; otherwise nobody
    has passed. *)
Theorem barrier_opens n m c :
  1 ≤ n < 2 ^ 31 → Z.of_nat m < 2 ^ 31 → steps (start n m) c → (∀ i, exec i c = None) →
  arrived (shared c) = Z.of_nat m ∧
  (n ≤ Z.of_nat m → passed (shared c) = n ∧ ∀ j p o, pool c !! j = Some (p, o) → o = None) ∧
  (Z.of_nat m < n → passed (shared c) = 0).
Proof.
  intros Hn Hm Hr Hst. destruct (bar_reachable n m Hn Hm c Hr) as (ts & Hinv).
  pose proof (br_ok _ _ _ _ Hinv) as Hok. pose proof (ok_points _ _ _ _ _ _ Hok) as Hp.
  pose proof (stuck_points code first bar_code_first c ts Hp Hst) as Hstk.
  assert (Hrun : ∀ i p, ts !! i = Some (p, None) → (∃ l, p = BEnd l) ∨ p = Bad).
  { intros i p Hi. destruct (Hstk i p Hi) as [E|E]; destruct p; try done; eauto. }
  assert (Hbl : ∀ k p s, ts !! k = Some (p, Some s) → p = BUp).
  { intros k p s Hk. destruct (gate_blocked code first gate fired owing bar_down c ts k p s Hok Hk) as [_ [p0 E]].
    by destruct p0; simplify_eq/=. }
  assert (Hall : sum past ts = Z.of_nat m).
  { rewrite <-(br_total _ _ _ _ Hinv). apply zsum_ext. intros [p [s|]] [k Hk]%list_elem_of_lookup_1; simpl.
    - by rewrite (Hbl k p s Hk).
    - by destruct (Hrun k p Hk) as [[l ->]| ->]. }
  rewrite (br_arrived _ _ _ _ Hinv), (br_passed _ _ _ _ Hinv), Hall. split; [done|]. split.
  - intros Hle. assert (Hwait : ∀ j p s, ts !! j ≠ Some (p, Some s)).
    { apply (gate_nobody_waits code first gate fired owing bar_down c ts Hok).
      - pose proof (br_last _ _ _ _ Hinv) as Hl. rewrite Hall, decide_True in Hl by done.
        unfold sum in Hl. rewrite (zsum_ext _ (λ t, lastw t.1)); [rewrite Hl; lia|].
        intros [p [s|]] [k Hk]%list_elem_of_lookup_1; simpl.
        + by rewrite (Hbl k p s Hk).
        + by destruct (Hrun k p Hk) as [[l ->]| ->].
      - intros j p Hj. by destruct (Hrun j p Hj) as [[l ->]| ->]. }
    split.
    + pose proof (br_failed _ _ _ _ Hinv) as Hf. pose proof (br_total _ _ _ _ Hinv) as Ht. rewrite Hall in Hf. unfold sum in *.
      assert (Hs : zsum (λ t, ended t.1) ts + zsum (λ t, failed t.1) ts = zsum (λ _, 1) ts); [|lia].
      rewrite <-zsum_add. apply zsum_ext. intros [p [s|]] [k Hk]%list_elem_of_lookup_1.
      * by apply Hwait in Hk.
      * by destruct (Hrun k p Hk) as [[l ->]| ->].
    + intros j p [s|] Hj; [|done]. rewrite Hp, list_lookup_fmap in Hj. destruct (ts !! j) as [[q s']|] eqn:E; [|done].
      injection Hj as <- ->. by apply Hwait in E.
  - intros Hlt. apply zsum_zero. intros t Ht. destruct t as [p o]. destruct p; try done.
    pose proof (br_seen _ _ _ _ Hinv _ Ht I). lia.
Qed.

(** ** Witnesses *)

(** Three threads at a barrier for two: one finds the count negative. *)
Definition crowd : conf barrier := run_schedule (concat (replicate 4 [0; 1; 2]%nat)) (start 2 3).

Lemma barrier_waits_witness :
  passed (shared crowd) = 2 ∧ (0 < passed (shared crowd) → 2 ≤ arrived (shared crowd)) ∧
  (Z.of_nat 3 ≤ 2 → ∀ j o, pool crowd !! j ≠ Some (Panic, o)).
Proof.
  split; [vm_compute; reflexivity|]. apply (barrier_waits 2 3); [lia|lia|apply run_schedule_steps].
Defined.

Lemma barrier_opens_witness :
  arrived (shared crowd) = Z.of_nat 3 ∧
  (2 ≤ Z.of_nat 3 → passed (shared crowd) = 2 ∧ ∀ j p o, pool crowd !! j = Some (p, o) → o = None) ∧
  (Z.of_nat 3 < 2 → passed (shared crowd) = 0).
Proof.
  apply (barrier_opens 2 3); [lia|lia|apply run_schedule_steps|].
  intros [|[|[|[|i]]]]; vm_compute; reflexivity.
Defined.
