(* ===== verification/Primitives.v ===== *)
(** * Buffers, futures, barriers and locks on the code of semaphores

    [BoundedBuffer], [Future], [Barrier] and [BlockingLock] with [down] and
    [up] an instruction at a time ([SemaphoreImpl]), rather than as the
    single steps with which their files prove them correct.  The threads
    run on any cores, with interrupts on or off, and interleave at every
    access to memory. *)

From S2P Require Import Prelude.
From S2P Require Import Semaphore.
From S2P Require Import BlockingLock.
From S2P Require Import BoundedBuffer.
From S2P Require Import Future.
From S2P Require Import Barrier.
From S2P Require Import SemaphoreImpl.

(** A thread that has done all it had to do. *)
Definition finished {S} (t : thread S) : Prop := todo t = Done ∧ at_ t = Running.

(** ** The programs *)

Definition buffer_code (N : Z) (flags : nat → bool) (memory : Z → Z) (scripts : list (list request)) : machine bb :=
  boot (on_cores flags (script N <$> scripts)) (initial N) (BoundedBuffer.fresh memory).

Definition future_code (v : Z) (flags : nat → bool) (ms : list nat) : machine future :=
  boot (on_cores flags (set v Done :: (getter <$> ms))) (λ _, 0) Future.fresh.

Definition barrier_code (n : Z) (flags : nat → bool) (m : nat) : machine barrier :=
  boot (on_cores flags (replicate m participant)) (λ _, 0) (Barrier.fresh n).

Definition lock_code {S : Type} (flags : nat → bool) (scripts : list (list (BlockingLock.critical S))) (s0 : S) : machine S :=
  boot (on_cores flags (worker <$> scripts)) (λ s, if decide (s = mutex) then 1 else 0) s0.

(** Each begins as in its own file. *)
Lemma buffer_start N flags memory scripts :
  start (on_cores flags (script N <$> scripts)) (initial N) (BoundedBuffer.fresh memory) = BoundedBuffer.start N memory scripts.
Proof. rewrite start_on_cores. unfold BoundedBuffer.start. f_equal. by rewrite <-list_fmap_compose. Qed.

Lemma future_start v flags ms :
  start (on_cores flags (set v Done :: (getter <$> ms))) (λ _, 0) Future.fresh = Future.start v ms.
Proof. rewrite start_on_cores. unfold Future.start. f_equal. rewrite fmap_cons. f_equal. by rewrite <-list_fmap_compose. Qed.

Lemma barrier_start n flags m :
  start (on_cores flags (replicate m participant)) (λ _, 0) (Barrier.fresh n) = Barrier.start n m.
Proof. rewrite start_on_cores. unfold Barrier.start. f_equal. by rewrite fmap_replicate. Qed.

Lemma lock_start {S : Type} flags (scripts : list (list (BlockingLock.critical S))) s0 :
  steps (start (on_cores flags (worker <$> scripts)) (λ s, if decide (s = mutex) then 1 else 0) s0) =
  steps (BlockingLock.start scripts s0).
Proof.
  f_equal. rewrite start_on_cores. unfold BlockingLock.start. f_equal; [by rewrite <-list_fmap_compose|].
  apply FunctionalExtensionality.functional_extensionality. intros s. by destruct (decide (s = mutex)).
Qed.

(** ** Properties *)

(** C12. The bounded buffer, on the code of semaphores: the items read are
    the items written, in the same order and without repetition or loss, at
    most [N] of them are in the buffer and its indices stay within the
    array; and no wakeup is lost: when no thread can take a step each has
    finished, or waits in [put] with [N] items there, or in [get] with
    none. *)
Theorem buffer_correct N flags memory scripts m :
  1 ≤ N < 2 ^ 31 → isteps (buffer_code N flags memory scripts) m →
  (∃ q, written (data m) = BoundedBuffer.taken (data m) ++ q ∧ Z.of_nat (List.length q) ≤ N ∧ 0 ≤ head (data m) < N) ∧
  ((∀ i, iexec i m = None) → ∀ i t, threads m !! i = Some t →
     finished t ∨ (waiting_on t = Some nEmpty ∧ n (data m) = N) ∨ (waiting_on t = Some nFull ∧ n (data m) = 0)).
Proof.
  intros HN H. pose proof (code_reaches _ _ _ _ H) as Hs. rewrite buffer_start in Hs. split; [by apply (buffer_fifo N memory scripts (abs m))|].
  intros Hst i t Hi. destruct (code_stuck _ _ _ _ H Hst) as [Hex Hall].
  pose proof (buffer_wakeups N memory scripts (abs m) HN Hs Hex i) as Hw.
  destruct (Hall i t Hi) as [[Hat Hp]|(s & Hw' & Hp)]; destruct (Hw _ _ Hp) as [[? ?]|[[[=] ?]|[[=] ?]]]; try done.
  - by left.
  - right; left. by subst.
  - right; right. by subst.
Qed.

(** C33. Futures, on the code of semaphores: every value that a [get] has
    returned is the one set, the assertion of [set] holds, and when no
    thread can take a step all have finished, so that no [get] is left
    waiting. *)
Theorem futures_correct v flags ms m :
  isteps (future_code v flags ms) m →
  Forall (λ x, x = v) (results (data m)) ∧
  (∀ i t, threads m !! i = Some t → at_ t = Running → todo t ≠ Panic) ∧
  ((∀ i, iexec i m = None) → ∀ i t, threads m !! i = Some t → finished t).
Proof.
  intros H. pose proof (code_reaches _ _ _ _ H) as Hs. rewrite future_start in Hs.
  destruct (future_values v ms (abs m) Hs) as [Hr Hp]. split_and!; [done| |].
  - intros i t Hi Hat E. apply (Hp i None). rewrite <-E. by apply code_outside.
  - intros Hst i t Hi. destruct (code_stuck _ _ _ _ H Hst) as [Hex Hall].
    pose proof (future_finish v ms (abs m) Hs Hex i) as Hf.
    destruct (Hall i t Hi) as [[Hat Hp']|(s & _ & Hp')]; destruct (Hf _ _ Hp'); done.
Qed.

(** C34. The one-shot barrier for [n], on the code of semaphores: no thread
    passes before [n] have arrived; with at most [n] threads the machine
    does not stop; and when no thread can take a step, all have arrived and
    exactly [n] have passed and nobody waits if there are that many, and
    none has passed if there are fewer. *)
Theorem barriers_correct n flags k m :
  1 ≤ n < 2 ^ 31 → Z.of_nat k < 2 ^ 31 → isteps (barrier_code n flags k) m →
  (0 < passed (data m) → n ≤ arrived (data m)) ∧
  (Z.of_nat k ≤ n → ∀ i t, threads m !! i = Some t → at_ t = Running → todo t ≠ Panic) ∧
  ((∀ i, iexec i m = None) →
   arrived (data m) = Z.of_nat k ∧
   (n ≤ Z.of_nat k → passed (data m) = n ∧ ∀ i t, threads m !! i = Some t → waiting_on t = None) ∧
   (Z.of_nat k < n → passed (data m) = 0)).
Proof.
  intros Hn Hk H. pose proof (code_reaches _ _ _ _ H) as Hs. rewrite barrier_start in Hs.
  destruct (barrier_waits n k (abs m) Hn Hk Hs) as [H1 H2]. split_and!; [done| |].
  - intros Hle i t Hi Hat E. apply (H2 Hle i None). rewrite <-E. by apply code_outside.
  - intros Hst. destruct (code_stuck _ _ _ _ H Hst) as [Hex Hall].
    destruct (barrier_opens n k (abs m) Hn Hk Hs Hex) as (Ha & Hp & Hz). split_and!; [done| |done].
    intros Hle. destruct (Hp Hle) as [Hp1 Hp2]. split; [done|]. intros i t Hi.
    destruct (Hall i t Hi) as [[Hat _]|(s & _ & Hp')]; [by unfold waiting_on; rewrite Hat|by apply Hp2 in Hp'].
Qed.

(** C23. Threads that touch the shared data only under a [BlockingLock], on
    the code of semaphores, an access at a time: whenever all are between
    calls and outside of sections, the data are as if whole sections had
    run one after the other, each thread's in the order of its program; and
    when no thread can take a step all have finished and all sections have
    been run. *)
Theorem locked_sections_atomic {S : Type} flags (scripts : list (list (BlockingLock.critical S))) s0 m :
  isteps (lock_code flags scripts s0) m →
  ((∀ i t, threads m !! i = Some t → at_ t = Running ∧ ¬ BlockingLock.inside (todo t, None)) →
   ∃ log, (∀ i xs, scripts !! i = Some xs → of_thread i log `prefix_of` xs) ∧
     (∀ e, e ∈ log → (e.1 < List.length scripts)%nat) ∧ data m = replay s0 log) ∧
  ((∀ i, iexec i m = None) →
   (∀ i t, threads m !! i = Some t → finished t) ∧
   ∃ log, (∀ i xs, scripts !! i = Some xs → of_thread i log = xs) ∧
     (∀ e, e ∈ log → (e.1 < List.length scripts)%nat) ∧ data m = replay s0 log).
Proof.
  intros H. pose proof (code_reaches _ _ _ _ H) as Hs. rewrite lock_start in Hs. split.
  - intros Hout. destruct (sections_serial scripts s0 (abs m) Hs) as (_ & log & Hlen & Hpre & Hdata).
    exists log. split_and!; [done|done|]. apply Hdata. intros i t Hi. rewrite abs_lookup in Hi.
    destruct (threads m !! i) as [u|] eqn:Hu; [|done]. destruct (Hout i u Hu) as [Hat Hin]. injection Hi as <-.
    unfold abs_thread. by rewrite Hat.
  - intros Hst. destruct (code_stuck _ _ _ _ H Hst) as [Hex Hall].
    destruct (sections_finish scripts s0 (abs m) Hs Hex) as (Hdone & log & Hlen & Hall' & Hdata). split; [|by exists log].
    intros i t Hi. destruct (Hall i t Hi) as [[Hat Hp]|(s & _ & Hp)]; pose proof (Hdone _ _ Hp) as E; [|done].
    injection E as E. by split.
Qed.

(** ** Witnesses *)

(** Round after round, each thread an instruction. *)
Definition rounds (k n : nat) : list nat := concat (replicate k (seq 0 n)).

Definition sample_buffer : machine bb := irun (rounds 140 2) (buffer_code 1 (λ _, true) (λ _, 0) [[Put 5; Put 6]; [Get; Get; Get]]).

(** Nobody can take a step. *)
Definition all_stuck {S : Type} (m : machine S) : bool :=
  forallb (λ i, match iexec i m with None => true | Some _ => false end) (seq 0 (List.length (threads m))).

Lemma all_stuck_spec {S : Type} (m : machine S) : all_stuck m = true → ∀ i, iexec i m = None.
Proof.
  unfold all_stuck. rewrite forallb_forall. intros Hf i. destruct (threads m !! i) as [t|] eqn:E.
  - specialize (Hf i). destruct (iexec i m); [|done]. assert (List.In i (seq 0 (List.length (threads m)))) as Hin; [|by specialize (Hf Hin)].
    apply list_elem_of_In, elem_of_seq. pose proof (lookup_lt_Some _ _ _ E). lia.
  - unfold iexec. by rewrite E.
Qed.

Lemma buffer_correct_witness :
  BoundedBuffer.taken (data sample_buffer) = [5; 6] ∧
  (∃ q, written (data sample_buffer) = BoundedBuffer.taken (data sample_buffer) ++ q ∧ Z.of_nat (List.length q) ≤ 1 ∧
        0 ≤ head (data sample_buffer) < 1) ∧
  ∀ i t, threads sample_buffer !! i = Some t →
    finished t ∨ (waiting_on t = Some nEmpty ∧ n (data sample_buffer) = 1) ∨ (waiting_on t = Some nFull ∧ n (data sample_buffer) = 0).
Proof.
  split; [vm_compute; reflexivity|].
  destruct (buffer_correct 1 (λ _, true) (λ _, 0) [[Put 5; Put 6]; [Get; Get; Get]] sample_buffer) as [H1 H2];
    [lia|apply irun_isteps|]. split; [exact H1|]. apply H2, all_stuck_spec. vm_compute. reflexivity.
Defined.

Definition sample_future : machine future := irun (rounds 90 3) (future_code 7 (λ i, bool_decide (i = 1%nat)) [2; 1]%nat).

Lemma futures_correct_witness :
  results (data sample_future) = [7; 7; 7] ∧ ∀ i t, threads sample_future !! i = Some t → finished t.
Proof.
  split; [vm_compute; reflexivity|].
  apply (futures_correct 7 (λ i, bool_decide (i = 1%nat)) [2; 1]%nat sample_future); [apply irun_isteps|].
  apply all_stuck_spec. vm_compute. reflexivity.
Defined.

(** Three threads at a barrier for two. *)
Definition sample_barrier : machine barrier := irun (rounds 90 3) (barrier_code 2 (λ _, false) 3).

Lemma barriers_correct_witness :
  arrived (data sample_barrier) = Z.of_nat 3 ∧ passed (data sample_barrier) = 2.
Proof.
  destruct (barriers_correct 2 (λ _, false) 3 sample_barrier) as (_ & _ & H); [lia|lia|apply irun_isteps|].
  destruct H as (H1 & H2 & _).
  - apply all_stuck_spec. vm_compute. reflexivity.
  - split; [exact H1|]. by apply H2.
Defined.

Definition sample_lock : machine (Z * Z * Z) := irun (rounds 90 2) (lock_code (λ _, true) adds (0, 0, 0)).

Lemma locked_sections_atomic_witness :
  (data sample_lock).1.1 = 11 ∧ ∀ i t, threads sample_lock !! i = Some t → finished t.
Proof.
  split; [vm_compute; reflexivity|].
  apply (locked_sections_atomic (λ _, true) adds (0, 0, 0) sample_lock); [apply irun_isteps|].
  apply all_stuck_spec. vm_compute. reflexivity.
Defined.
