(* ===== verification/Condition.v ===== *)
(** * The condition variable and the reusable barrier
    (kernel/condition.h, kernel/barrier.h)

    [Condition] gives up its lock while a thread waits and numbers the
    notifications, so that one that comes between the release of the lock
    and the entry of the thread into the queue is not missed.  The reusable
    barrier waits on it.

    What happens under the lock is one step ([Locks] shows that nobody comes
    in between); a waiting thread takes its steps at the release of the
    lock, in the callback of [block], which takes the lock again, and when
    it has been scheduled and gets the lock back.  The lock and the interrupt
    flag are followed for the assertions about them, and so that a lock
    that is not given back stops the others.  The epochs are of 64 bits and
    wrap around. *)

From S2P Require Import Prelude.
From S2P Require Import Semaphore.

(** ** State *)

Record Condition := mkCondition { c_epoch : Z; queue : list nat }.

Definition new_condition : Condition := mkCondition 0 [].

(** Where a thread is: outside after [k] calls of [sync], or in its next
    call, with its local [t], between the release of the lock and the
    callback, in the queue, or scheduled. *)
Inductive point :=
| Outside (k : Z)
| Blocking (k t old_epoch : Z)
| Queued (k t : Z)
| Woken (k t : Z).

#[export] Instance point_eq_dec : EqDecision point.
Proof. solve_decision. Defined.

(** The barrier; with it the interrupt flag of the core that takes a step,
    the flags of the threads, kept while they do not run, and where they
    are. *)
Record ReusableBarrier := mkRB {
  iflag : bool;
  taken : bool;
  was : bool;
  newEpoch : Condition;
  count : Z;
  epoch : Z;
  flags : list bool;
  threads : list point
}.

Abbreviation R := (M ReusableBarrier).

Definition set_iflag (x : bool) (b : ReusableBarrier) : ReusableBarrier :=
  mkRB x (taken b) (was b) (newEpoch b) (count b) (epoch b) (flags b) (threads b).
Definition set_lock (x w : bool) (b : ReusableBarrier) : ReusableBarrier :=
  mkRB (iflag b) x w (newEpoch b) (count b) (epoch b) (flags b) (threads b).
Definition set_condition (c : Condition) (b : ReusableBarrier) : ReusableBarrier :=
  mkRB (iflag b) (taken b) (was b) c (count b) (epoch b) (flags b) (threads b).
Definition set_count (n : Z) (b : ReusableBarrier) : ReusableBarrier :=
  mkRB (iflag b) (taken b) (was b) (newEpoch b) n (epoch b) (flags b) (threads b).
Definition set_epoch (e : Z) (b : ReusableBarrier) : ReusableBarrier :=
  mkRB (iflag b) (taken b) (was b) (newEpoch b) (count b) e (flags b) (threads b).
Definition set_flags (l : list bool) (b : ReusableBarrier) : ReusableBarrier :=
  mkRB (iflag b) (taken b) (was b) (newEpoch b) (count b) (epoch b) l (threads b).
Definition set_threads (ts : list point) (b : ReusableBarrier) : ReusableBarrier :=
  mkRB (iflag b) (taken b) (was b) (newEpoch b) (count b) (epoch b) (flags b) ts.
Definition set_point (i : nat) (p : point) (b : ReusableBarrier) : ReusableBarrier :=
  set_threads (<[i := p]> (threads b)) b.

(** ** The lock and the scheduler *)

(** [InterruptSafeLock::lock]: while the lock is taken the core goes round
    the loop. *)
Definition lock : R () :=
  b ← get;
  modify (set_iflag false);;
  if taken b then diverge else modify (set_lock true (negb (iflag b))).

Definition unlock : R () :=
  b ← get;
  modify (set_lock false (was b));;
  if was b then mret () else modify (set_iflag true).

(** [ASSERT(the_lock->isMine())], which asks only whether it is taken. *)
Definition assert_isMine : R () := b ← get; assert (taken b = true).

(** [schedule] of a thread in [wait]. *)
Definition scheduled (p : point) : point :=
  match p with Queued k t | Blocking k t _ => Woken k t | _ => p end.
Definition schedule (i : nat) : R () := modify (λ b, set_threads (alter scheduled i (threads b)) b).

(** [queue.add(me)], with which the thread is blocked. *)
Definition enqueued (p : point) : point := match p with Blocking k t _ => Queued k t | _ => p end.
Definition queue_add (me : nat) : R () :=
  modify (λ b, set_threads (alter enqueued me (threads b))
                 (set_condition (mkCondition (c_epoch (newEpoch b)) (queue (newEpoch b) ++ [me])) b)).

(** ** [Condition] *)

(** [wait] up to the release of the lock: the epoch is remembered. *)
Definition wait : R Z :=
  assert_isMine;;
  b ← get;
  assert (iflag b = false);;
  let old_epoch := c_epoch (newEpoch b) in
  unlock;;
  mret old_epoch.

(** The callback of [block] for thread [me]. *)
Definition block (me : nat) (old_epoch : Z) : R () :=
  lock;;
  b ← get;
  if decide (c_epoch (newEpoch b) = old_epoch) then queue_add me;; unlock
  else assert (c_epoch (newEpoch b) > old_epoch);; unlock;; schedule me.

(** The rest of [wait], after [block]. *)
Definition wait_rest : R () :=
  b ← get;
  assert (iflag b = true);;
  lock;;
  assert_isMine.

Definition notify_body (limit : Z) (i : Z) : R (Z + ()) :=
  if decide (i < limit) then
    b ← get;
    match queue (newEpoch b) with
    | [] => mret (inr ())
    | next :: q =>
        modify (set_condition (mkCondition (c_epoch (newEpoch b)) q));;
        schedule next;;
        mret (inl (u64 (i + 1)))
    end
  else mret (inr ()).

Definition notify (limit : Z) : R () :=
  assert_isMine;;
  modify (λ b, set_condition (mkCondition (u64 (c_epoch (newEpoch b) + 1)) (queue (newEpoch b))) b);;
  b ← get;
  iter (S (List.length (queue (newEpoch b)))) (notify_body limit) 0;;
  assert_isMine.

Definition notifyOne : R () := notify 1.
Definition notifyAll : R () := notify (u64 (Z.lnot 0)).

(** ** [ReusableBarrier] *)

Section barrier.
Context (initial_count : nat) (rounds : Z).

(** [while (epoch <= t) newEpoch.wait()] and the rest, with the lock. *)
Definition check (i : nat) (k t : Z) : R () :=
  b ← get;
  if decide (epoch b ≤ t) then old_epoch ← wait; modify (set_point i (Blocking k t old_epoch))
  else unlock;; modify (set_point i (Outside (k + 1))).

Definition sync (i : nat) (k : Z) : R () :=
  lock;;
  b ← get;
  assert (count b ≠ 0);;
  let t := epoch b in
  modify (set_count (u32 (count b - 1)));;
  b ← get;
  if decide (count b = 0) then
    modify (set_epoch (u64 (epoch b + 1)));;
    modify (set_count (Z.of_nat initial_count));;
    notifyAll;;
    unlock;;
    modify (set_point i (Outside (k + 1)))
  else check i k t.

(** The code of a thread runs with the flag of the thread; the callback
    runs inside the switch, with interrupts off. *)
Definition as_thread (i : nat) (flag : bool) (m : R ()) : R () :=
  modify (set_iflag flag);;
  m;;
  modify (λ b, set_flags (<[i := iflag b]> (flags b)) b).
Definition in_switch (m : R ()) : R () := modify (set_iflag false);; m.

(** A thread that has no step waits in the queue or for the lock. *)
Inductive result := Waits | Finished | Panics | Goes (b : ReusableBarrier).
Definition run_step (m : R ()) (b : ReusableBarrier) : result :=
  match m b with Ok _ b' => Goes b' | OutOfFuel => Waits | Panicked _ | Faulted => Panics end.

(** The next step of thread [i]: a thread outside calls [sync], up to the
    number of rounds. *)
Definition step (i : nat) (b : ReusableBarrier) : result :=
  match threads b !! i, flags b !! i with
  | Some (Outside k), Some flag => if decide (k = rounds) then Finished else run_step (as_thread i flag (sync i k)) b
  | Some (Blocking k t old_epoch), _ => run_step (in_switch (block i old_epoch)) b
  | Some (Queued k t), _ => Waits
  | Some (Woken k t), Some flag => run_step (as_thread i flag (wait_rest;; check i k t)) b
  | _, _ => Finished
  end.

(** The threads come with interrupts on or off. *)
Definition start (fl : list bool) : ReusableBarrier :=
  mkRB true false false new_condition (Z.of_nat initial_count) 0 fl (replicate initial_count (Outside 0)).

(** What the threads make of it, all of which have interrupts on. *)
Inductive reachable : ReusableBarrier → Prop :=
| reach_start : reachable (start (replicate initial_count true))
| reach_step i b b' : reachable b → step i b = Goes b' → reachable b'.

(** ** The invariant *)

(** The calls that a thread has begun and ended. *)
Definition begun (p : point) : Z := match p with Outside k => k | Blocking k _ _ | Queued k _ | Woken k _ => k + 1 end.
Definition ended (p : point) : Z := match p with Outside k | Blocking k _ _ | Queued k _ | Woken k _ => k end.

(** The thread has come for the epoch [e] and still waits for it. *)
Definition waiting (e : Z) (p : point) : Z :=
  match p with Outside _ => 0 | Blocking _ t _ | Queued _ t | Woken _ t => if decide (t = e) then 1 else 0 end.

Definition point_ok (e : Z) (p : point) : Prop :=
  match p with
  | Outside k => k = e
  | Blocking k t old => k = t ∧ old = t ∧ (t = e ∨ t = e - 1)
  | Queued k t => k = t ∧ t = e
  | Woken k t => k = t ∧ (t = e ∨ t = e - 1)
  end.

Definition is_queued (p : point) : Prop := match p with Queued _ _ => True | _ => False end.

Record inv (b : ReusableBarrier) : Prop := {
  rb_free : taken b = false;
  rb_flags : flags b = replicate initial_count true;
  rb_epoch : c_epoch (newEpoch b) = epoch b;
  rb_rounds : 0 ≤ epoch b ≤ rounds;
  rb_length : List.length (threads b) = initial_count;
  rb_points : ∀ i p, threads b !! i = Some p → point_ok (epoch b) p;
  rb_queue : ∀ i, i ∈ queue (newEpoch b) ↔ ∃ p, threads b !! i = Some p ∧ is_queued p;
  rb_nodup : NoDup (queue (newEpoch b));
  rb_count : count b = Z.of_nat initial_count - zsum (waiting (epoch b)) (threads b) ∧ 0 < count b;
  (** nobody waits for an epoch after the last *)
  rb_last : epoch b = rounds → zsum (waiting (epoch b)) (threads b) = 0
}.

Context (Hn : 0 < Z.of_nat initial_count < 2 ^ 32) (Hrounds : 0 ≤ rounds < 2 ^ 64).

Lemma waiting_range e p : 0 ≤ waiting e p ≤ 1.
Proof. destruct p; simpl; try case_decide; lia. Qed.

Lemma inv_rb_start : inv (start (replicate initial_count true)).
Proof.
  assert (Hz : zsum (waiting 0) (replicate initial_count (Outside 0)) = 0).
  { apply zsum_zero. intros x Hx. apply elem_of_replicate in Hx as [-> _]. done. }
  split; simpl; rewrite ?Hz; [done|done|done|lia|by rewrite length_replicate| | |constructor|lia|done].
  - intros i p [-> _]%lookup_replicate. done.
  - intros i. split; [by intros ?%elem_of_nil|]. by intros (p & [-> _]%lookup_replicate & ?).
Qed.

(** A step of one thread that changes who waits for the epoch. *)
Lemma inv_set b f w i p p' c' m :
  inv b → threads b !! i = Some p → point_ok (epoch b) p' → c_epoch c' = c_epoch (newEpoch b) →
  NoDup (queue c') → (∀ j, j ∈ queue c' ↔ (j = i ∧ is_queued p') ∨ (j ≠ i ∧ j ∈ queue (newEpoch b))) →
  m = count b + waiting (epoch b) p - waiting (epoch b) p' → 0 < m →
  (epoch b = rounds → waiting (epoch b) p' ≤ waiting (epoch b) p) →
  inv (mkRB f false w c' m (epoch b) (flags b) (<[i := p']> (threads b))).
Proof.
  intros [Hf Hfl He Hr Hl Hp Hq Hnd [Hc Hpos] Hlast] Ei Hp' Hce Hnd' Hq' Hm Hm0 Hnew.
  pose proof (zsum_insert (waiting (epoch b)) _ _ _ p' Ei) as Hz.
  split; simpl; [done|done|congruence|done|by rewrite length_insert| | |done|rewrite Hz; lia|].
  - intros j q [(-> & -> & _)|(_ & Ej)]%list_lookup_insert_Some; [done|by eapply Hp].
  - intros j. rewrite Hq', Hq. destruct (decide (j = i)) as [->|Hne].
    + rewrite list_lookup_insert_eq by (by eapply lookup_lt_Some). naive_solver.
    + rewrite list_lookup_insert_ne by done. naive_solver.
  - intros E. rewrite Hz, Hlast by done. specialize (Hnew E).
    pose proof (zsum_lookup (waiting (epoch b)) _ _ _ ltac:(intros x _; pose proof (waiting_range (epoch b) x); lia) Ei).
    rewrite Hlast in * by done. pose proof (waiting_range (epoch b) p'). lia.
Qed.

(** The same queue, without the thread. *)
Lemma queue_others b i p :
  inv b → threads b !! i = Some p → ¬ is_queued p →
  ∀ j, j ∈ queue (newEpoch b) ↔ (j = i ∧ False) ∨ (j ≠ i ∧ j ∈ queue (newEpoch b)).
Proof.
  intros Hinv Ei Hp j. split; [|tauto]. intros Hj. right. split; [|done]. intros ->.
  apply (rb_queue _ Hinv) in Hj as (q & Eq & Hq). congruence.
Qed.

(** Waking the queue. *)
Definition wake (ts : list point) (i : nat) : list point := alter scheduled i ts.
Definition woken (p : point) : point := match p with Queued k t => Woken k t | _ => p end.

Lemma wake_lookup q ts j : foldl wake ts q !! j = (if decide (j ∈ q) then scheduled <$> ts !! j else ts !! j).
Proof.
  revert ts. induction q as [|x q IH]; intros ts; cbn [foldl]; [by rewrite decide_False by apply not_elem_of_nil|].
  rewrite IH. unfold wake. destruct (decide (j = x)) as [->|Hne].
  - rewrite list_lookup_alter_eq, (decide_True (P := x ∈ x :: q)) by left. destruct (decide (x ∈ q)); [|done]. by destruct (ts !! x) as [[]|].
  - rewrite list_lookup_alter_ne by done.
    destruct (decide (j ∈ q)); [rewrite decide_True by (by right)|rewrite decide_False by (by rewrite not_elem_of_cons)]; done.
Qed.

Lemma wake_all b : inv b → foldl wake (threads b) (queue (newEpoch b)) = woken <$> threads b.
Proof.
  intros Hinv. apply list_eq. intros j. rewrite wake_lookup, list_lookup_fmap.
  destruct (threads b !! j) as [p|] eqn:E; [|by case_decide]. destruct (decide (j ∈ _)) as [Hj|Hno].
  - apply (rb_queue _ Hinv) in Hj as (q & Eq & Hq). simplify_eq. by destruct p.
  - destruct p; try done. destruct Hno. apply (rb_queue _ Hinv). by eexists.
Qed.

(** The queue is not so long that the limit of [notifyAll] is reached. *)
Lemma queue_bound b : inv b → Z.of_nat (List.length (queue (newEpoch b))) < 2 ^ 64 - 1.
Proof.
  intros Hinv. enough (List.length (queue (newEpoch b)) <= initial_count)%nat by lia.
  rewrite <-(length_seq initial_count 0), <-(rb_length _ Hinv). apply NoDup_incl_length.
  - apply NoDup_ListNoDup, (rb_nodup _ Hinv).
  - intros j Hj%list_elem_of_In. apply (rb_queue _ Hinv) in Hj as (p & Ep & _). apply in_seq.
    apply lookup_lt_Some in Ep. lia.
Qed.

(** ** The operations *)

Lemma wp_mlock (Q : () → ReusableBarrier → Prop) b :
  taken b = false → Q () (set_lock true (negb (iflag b)) (set_iflag false b)) → wp lock Q b.
Proof. intros Ht HQ. unfold lock. apply wp_bind, wp_get, wp_bind, wp_modify. rewrite Ht. by apply wp_modify. Qed.

Lemma wp_munlock (Q : () → ReusableBarrier → Prop) b :
  Q () (set_iflag (if was b then iflag b else true) (set_lock false (was b) b)) → wp unlock Q b.
Proof.
  intros HQ. unfold unlock. apply wp_bind, wp_get, wp_bind, wp_modify. destruct (was b) eqn:E; [|by apply wp_modify].
  apply wp_ret. by destruct b.
Qed.

Lemma wp_mine (Q : () → ReusableBarrier → Prop) b : taken b = true → Q () b → wp assert_isMine Q b.
Proof. intros Ht HQ. unfold assert_isMine. by apply wp_bind, wp_get, wp_assert. Qed.

Lemma wp_notifyAll (Q : () → ReusableBarrier → Prop) b :
  taken b = true → Z.of_nat (List.length (queue (newEpoch b))) < 2 ^ 64 - 1 →
  Q () (set_threads (foldl wake (threads b) (queue (newEpoch b)))
          (set_condition (mkCondition (u64 (c_epoch (newEpoch b) + 1)) []) b)) →
  wp notifyAll Q b.
Proof.
  intros Ht Hlen HQ. unfold notifyAll, notify. apply wp_bind, wp_mine; [done|]. apply wp_bind, wp_modify, wp_bind, wp_get, wp_bind.
  set (e := u64 (c_epoch _ + 1)) in *. set (c := newEpoch b) in *. cbn [newEpoch queue set_condition].
  apply (wp_iter (λ i b', ∃ done_ rest, queue c = done_ ++ rest ∧ i = Z.of_nat (List.length done_) ∧
                    b' = set_threads (foldl wake (threads b) done_) (set_condition (mkCondition e rest) b))
                 (λ i _, List.length (queue c) - Z.to_nat i)%nat); [| |lia].
  - intros i b' (done_ & rest & E & -> & ->). unfold notify_body. assert (Hle : (List.length done_ <= List.length (queue c))%nat).
    { rewrite E, length_app. lia. }
    change (u64 (Z.lnot 0)) with (2 ^ 64 - 1). rewrite decide_True by lia. apply wp_bind, wp_get.
    cbn [newEpoch queue set_condition set_threads]. destruct rest as [|next rest].
    + apply wp_ret, wp_mine; [done|]. rewrite app_nil_r in E. by rewrite <-E.
    + apply wp_bind, wp_modify, wp_bind, wp_modify, wp_ret.
      assert (Hlt : (List.length done_ < List.length (queue c))%nat) by (rewrite E, length_app; simpl; lia).
      unfold u64. rewrite Z.mod_small by lia. split; [|lia]. exists (done_ ++ [next]), rest.
      split; [by rewrite <-app_assoc|]. split; [rewrite length_app; simpl; lia|]. by rewrite foldl_app.
  - exists [], (queue c). by destruct b.
Qed.

(** When the count reaches zero all other threads wait for the epoch. *)
Lemma others_wait b i k j p :
  inv b → threads b !! i = Some (Outside k) → count b = 1 → j ≠ i → threads b !! j = Some p → waiting (epoch b) p = 1.
Proof.
  intros Hinv Ei H1 Hne Ej. destruct (rb_count _ Hinv) as [Hc _].
  pose proof (zsum_lookup_2 (λ p, 1 - waiting (epoch b) p) (threads b) i j _ _
    ltac:(intros x _; pose proof (waiting_range (epoch b) x); lia) (not_eq_sym Hne) Ei Ej) as Hz.
  rewrite zsum_sub, zsum_one, (rb_length _ Hinv) in Hz. simpl in Hz. pose proof (waiting_range (epoch b) p). lia.
Qed.

Lemma inv_step_last b i k f w :
  inv b → threads b !! i = Some (Outside k) → k ≠ rounds → count b = 1 →
  inv (mkRB f false w (mkCondition (c_epoch (newEpoch b) + 1) []) (Z.of_nat initial_count) (epoch b + 1) (flags b)
         (<[i := Outside (k + 1)]> (woken <$> threads b))).
Proof.
  intros Hinv Ei Hk H1. pose proof (others_wait b i k) as Hother.
  destruct Hinv as [Hf Hfl He Hr Hl Hp Hq Hnd [Hc Hpos] Hlast]. specialize (Hp _ _ Ei) as Hpi. simpl in Hpi. subst k.
  assert (Hpt : ∀ j p, <[i := Outside (epoch b + 1)]> (woken <$> threads b) !! j = Some p →
            point_ok (epoch b + 1) p ∧ waiting (epoch b + 1) p = 0 ∧ ¬ is_queued p).
  { intros j p [(-> & <- & _)|(Hne & Ej)]%list_lookup_insert_Some; [by split_and!; [..|intros []]|].
    rewrite list_lookup_fmap in Ej. destruct (threads b !! j) as [q|] eqn:Eq; [|done]. injection Ej as <-.
    assert (Hw : waiting (epoch b) q = 1) by (apply (Hother j); try done; split; done).
    specialize (Hp _ _ Eq). destruct q as [k|k t old|k t|k t]; simpl in Hp, Hw |- *; [lia|..];
      (destruct (decide (t = epoch b)) as [E|]; [|lia]); rewrite decide_False by lia; (split; [lia|tauto]). }
  assert (Hz : zsum (waiting (epoch b + 1)) (<[i := Outside (epoch b + 1)]> (woken <$> threads b)) = 0).
  { apply zsum_zero. intros x [j Ej]%list_elem_of_lookup. by destruct (Hpt j x Ej) as (_ & ? & _). }
  split; simpl; rewrite ?Hz; [done|done|lia|lia|by rewrite length_insert, length_fmap| | |constructor|lia|done].
  - intros j p Ej. by destruct (Hpt j p Ej).
  - intros j. split; [by intros ?%elem_of_nil|]. intros (p & Ej & Hqp). by destruct (Hpt j _ Ej) as (_ & _ & []).
Qed.

(** The end of a thread's step, which restores its flag. *)
Lemma wp_as_thread i m b (Q : () → ReusableBarrier → Prop) :
  inv b → flags b !! i = Some true →
  wp m (λ _ b', iflag b' = true ∧ flags b' = flags b ∧ Q () b') (set_iflag true b) → wp (as_thread i true m) Q b.
Proof.
  intros Hinv Hi Hm. unfold as_thread. apply wp_bind, wp_modify, wp_bind. eapply wp_mono; [exact Hm|].
  intros [] b' (E1 & E2 & HQ). apply wp_modify. rewrite E1, E2, list_insert_id by done. rewrite <-E2. by destruct b'.
Qed.

(** A thread that waits goes to the release of the lock, a thread that does
    not leaves. *)
Lemma wp_check b i k t p m :
  inv b → threads b !! i = Some p → ¬ is_queued p → k = t → t = epoch b ∨ t = epoch b - 1 →
  (t = epoch b → m = count b + waiting (epoch b) p - 1) → (t = epoch b - 1 → m = count b + waiting (epoch b) p) → 0 < m →
  (epoch b = rounds → t = epoch b → waiting (epoch b) p = 1) →
  wp (check i k t) (λ _ b', iflag b' = true ∧ flags b' = flags b ∧ inv b')
    (mkRB false true false (newEpoch b) m (epoch b) (flags b) (threads b)).
Proof.
  intros Hinv Ei Hp -> Ht Hm1 Hm2 Hm0 Hlast. unfold check. apply wp_bind, wp_get. cbn [epoch].
  pose proof (waiting_range (epoch b) p). pose proof (queue_others b i p Hinv Ei Hp) as Hq. pose proof (rb_nodup _ Hinv).
  destruct (decide (epoch b ≤ t)) as [Hle|Hgt].
  - assert (t = epoch b) as -> by lia. apply wp_bind. unfold wait. apply wp_bind, wp_mine; [done|]. apply wp_bind, wp_get, wp_bind, wp_assert; [done|].
    apply wp_bind, wp_munlock, wp_ret, wp_modify. split; [done|]. split; [done|]. cbn.
    apply (inv_set b true false i p); try done; simpl; rewrite ?(rb_epoch _ Hinv), ?decide_True by done; auto; lia.
  - apply wp_bind, wp_munlock, wp_modify. split; [done|]. split; [done|]. cbn.
    apply (inv_set b true false i p); try done; simpl; lia.
Qed.

Lemma flag_of b i p : inv b → threads b !! i = Some p → flags b !! i = Some true.
Proof.
  intros Hinv Ei. rewrite (rb_flags _ Hinv). apply lookup_replicate. split; [done|]. rewrite <-(rb_length _ Hinv). by eapply lookup_lt_Some.
Qed.

(** No step fails an assertion or waits for the lock. *)
Lemma wp_sync b i k :
  inv b → threads b !! i = Some (Outside k) → k ≠ rounds →
  wp (as_thread i true (sync i k)) (λ _ b', inv b') b.
Proof.
  intros Hinv Ei Hk. pose proof (rb_points _ Hinv _ _ Ei) as Hp. simpl in Hp. destruct (rb_count _ Hinv) as [Hc Hpos].
  assert (Hwp : 0 ≤ zsum (waiting (epoch b)) (threads b)).
  { apply zsum_nonneg. intros x _. pose proof (waiting_range (epoch b) x). lia. }
  apply wp_as_thread; [done|by eapply flag_of|]. unfold sync. apply wp_bind, wp_mlock; [apply (rb_free _ Hinv)|].
  apply wp_bind, wp_get, wp_bind, wp_assert; [cbn; lia|]. apply wp_bind, wp_modify, wp_bind, wp_get. cbn -[u32 u64].
  rewrite u32_small by lia. destruct (decide (count b - 1 = 0)) as [H0|H0].
  - apply wp_bind, wp_modify, wp_bind, wp_modify, wp_bind, wp_notifyAll; [done|apply (queue_bound b Hinv)|]. cbn -[u64].
    apply wp_bind, wp_munlock, wp_modify. split; [done|]. split; [done|]. cbn -[u64]. rewrite wake_all by done.
    pose proof (rb_rounds _ Hinv). pose proof (rb_epoch _ Hinv) as He. unfold u64. rewrite !Z.mod_small by lia.
    apply (inv_step_last b i k true false); [done|done|done|lia].
  - pose proof (wp_check b i k (epoch b) (Outside k) (count b - 1) Hinv Ei) as Hw. cbn in Hw.
    apply Hw; [tauto|done|by left|lia|lia|lia|congruence].
Qed.

Lemma wp_block b i k t old :
  inv b → threads b !! i = Some (Blocking k t old) → wp (in_switch (block i old)) (λ _ b', inv b') b.
Proof.
  intros Hinv Ei. pose proof (rb_points _ Hinv _ _ Ei) as (-> & -> & Ht). pose proof (rb_epoch _ Hinv) as He.
  destruct (rb_count _ Hinv) as [Hc Hpos]. pose proof (queue_others b i _ Hinv Ei) as Hq. specialize (Hq ltac:(tauto)).
  pose proof (rb_nodup _ Hinv) as Hnd.
  unfold in_switch, block. apply wp_bind, wp_modify, wp_bind, wp_mlock; [apply (rb_free _ Hinv)|]. apply wp_bind, wp_get. cbn.
  assert (Ha : ∀ f p, f (Blocking t t t) = p → alter f i (threads b) = <[i := p]> (threads b)).
  { intros f p Ef. apply list_eq. intros j. destruct (decide (j = i)) as [->|Hne].
    - rewrite list_lookup_alter_eq, list_lookup_insert_eq by (by eapply lookup_lt_Some). by rewrite Ei, <-Ef.
    - by rewrite list_lookup_alter_ne, list_lookup_insert_ne. }
  destruct (decide (c_epoch (newEpoch b) = t)) as [E|Hne].
  - apply wp_bind, wp_modify, wp_munlock. cbn. rewrite (Ha enqueued (Queued t t)) by done.
    apply (inv_set b false true i (Blocking t t t)); try done; simpl; try lia.
    + apply NoDup_app. split; [done|]. split; [|by apply NoDup_singleton]. intros x Hx ->%list_elem_of_singleton. naive_solver.
    + intros j. rewrite elem_of_app, list_elem_of_singleton. naive_solver.
  - apply wp_bind, wp_assert; [lia|]. apply wp_bind, wp_munlock, wp_modify. cbn. rewrite (Ha scheduled (Woken t t)) by done.
    apply (inv_set b false true i (Blocking t t t)); try done; simpl; lia.
Qed.

Lemma wp_woken b i k t :
  inv b → threads b !! i = Some (Woken k t) → wp (as_thread i true (wait_rest;; check i k t)) (λ _ b', inv b') b.
Proof.
  intros Hinv Ei. pose proof (rb_points _ Hinv _ _ Ei) as (-> & Ht). destruct (rb_count _ Hinv) as [Hc Hpos].
  apply wp_as_thread; [done|by eapply flag_of|]. apply wp_bind. unfold wait_rest.
  apply wp_bind, wp_get, wp_bind, wp_assert; [done|]. apply wp_bind, wp_mlock; [apply (rb_free _ Hinv)|]. apply wp_mine; [done|].
  pose proof (wp_check b i t t (Woken t t) (count b) Hinv Ei) as Hw. cbn in Hw |- *.
  apply Hw; [tauto|done|done|intros ->; rewrite decide_True by done; lia|intros ->; rewrite decide_False by lia; lia|done|].
  intros _ ->. by rewrite decide_True.
Qed.

Lemma step_ok b i :
  inv b → match threads b !! i with
          | Some p => if decide (p = Outside rounds) then step i b = Finished
                      else if p is Queued _ _ then step i b = Waits else ∃ b', step i b = Goes b' ∧ inv b'
          | None => step i b = Finished
          end.
Proof.
  intros Hinv. assert (Hrun : ∀ m, wp m (λ _ b', inv b') b → ∃ b', run_step m b = Goes b' ∧ inv b').
  { intros m ([] & b' & E & Hb)%wp_Ok. exists b'. unfold run_step. by rewrite E. }
  unfold step. destruct (threads b !! i) as [p|] eqn:Ei; [|done]. rewrite (flag_of b i p) by done.
  destruct p as [k|k t old|k t|k t].
  - destruct (decide (Outside k = Outside rounds)) as [[= ->]|Hne]; [by rewrite decide_True|].
    rewrite decide_False by congruence. apply Hrun, wp_sync; [done|done|congruence].
  - rewrite decide_False by done. by eapply Hrun, wp_block.
  - by rewrite decide_False by done.
  - rewrite decide_False by done. by apply Hrun, wp_woken.
Qed.

Lemma rb_reachable_inv b : reachable b → inv b.
Proof.
  induction 1 as [|i b b' _ IH E]; [apply inv_rb_start|]. pose proof (step_ok b i IH) as H. rewrite E in H.
  destruct (threads b !! i) as [p|]; [|done]. destruct (decide _); [done|]. destruct p; try done; by destruct H as (? & [= <-] & ?).
Qed.
End barrier.

(** ** Properties *)

(** C30. For as many threads as the barrier is made for, each calling [sync]
    with interrupts on for a number of rounds below 2^64, in any
    interleaving: no assertion fails, neither in the barrier nor in the
    condition variable, about the lock, the flag, the count or the epoch,
    and no thread is out of a call of [sync] before every thread has begun
    its own call of that round. *)
Theorem reusable_barrier_holds n rounds b :
  0 < Z.of_nat n < 2 ^ 32 → 0 ≤ rounds < 2 ^ 64 → reachable n rounds b →
  (∀ i, step n rounds i b ≠ Panics) ∧
  (∀ i j p q, threads b !! i = Some p → threads b !! j = Some q → ended p ≤ begun q).
Proof.
  intros Hn Hr Hb%rb_reachable_inv; [|done..]. split.
  - intros i E. pose proof (step_ok n rounds Hn Hr b i Hb) as H. rewrite E in H. destruct (threads b !! i) as [p|]; [|done].
    destruct (decide _); [done|]. destruct p; try done; by destruct H as (? & ? & ?).
  - intros i j p q Ei Ej. pose proof (rb_points _ _ _ Hb _ _ Ei) as Hp. pose proof (rb_points _ _ _ Hb _ _ Ej) as Hq.
    destruct p, q; simpl in *; lia.
Qed.

(** C31. For fewer than 2^64 rounds no signal is missed and no lock is left
    taken: when no thread can take a step, every thread has finished all its
    rounds, and none is left in the queue.  After 2^64 - 1 rounds the epoch
    wraps and a thread waits for ever ([epoch_wraps]). *)
Theorem reusable_barrier_no_deadlock n rounds b :
  0 < Z.of_nat n < 2 ^ 32 → 0 ≤ rounds < 2 ^ 64 → reachable n rounds b →
  (∀ i b', step n rounds i b ≠ Goes b') → ∀ i p, threads b !! i = Some p → p = Outside rounds.
Proof.
  intros Hn Hr Hb%rb_reachable_inv Hstuck; [|done..]. destruct (rb_count _ _ _ Hb) as [Hc Hpos].
  assert (Hkind : ∀ i p, threads b !! i = Some p → p = Outside rounds ∨ ∃ k t, p = Queued k t).
  { intros i p Ei. pose proof (step_ok n rounds Hn Hr b i Hb) as Hok. specialize (Hstuck i). rewrite Ei in Hok.
    destruct (decide (p = Outside rounds)) as [|Hne]; [by left|right].
    destruct p; try (destruct Hok as (b' & E & _); by destruct (Hstuck b')). by do 2 eexists. }
  destruct (zsum_pos (λ p, 1 - waiting (epoch b) p) (threads b)) as (j & q & Ej & Hq).
  { rewrite zsum_sub, zsum_one, (rb_length _ _ _ Hb). lia. }
  assert (He : epoch b = rounds).
  { pose proof (rb_points _ _ _ Hb _ _ Ej) as Hp. destruct (Hkind j q Ej) as [->|(k & t & ->)]; simpl in *; [done|].
    rewrite decide_True in Hq by lia. lia. }
  intros i p Ei. destruct (Hkind i p Ei) as [|(k & t & ->)]; [done|exfalso].
  pose proof (rb_points _ _ _ Hb _ _ Ei) as Hp. simpl in Hp.
  pose proof (zsum_lookup (waiting (epoch b)) _ _ _ ltac:(intros x _; pose proof (waiting_range n (epoch b) x); lia) Ei) as Hz.
  rewrite (rb_last _ _ _ Hb He) in Hz. simpl in Hz. rewrite decide_True in Hz by lia. lia.
Qed.

(** ** Witnesses *)

Fixpoint run (n : nat) (rounds : Z) (l : list nat) (b : ReusableBarrier) : option ReusableBarrier :=
  match l with
  | [] => Some b
  | i :: l => match step n rounds i b with Goes b => run n rounds l b | _ => None end
  end.

Lemma rb_run_reachable n rounds l b b' : reachable n rounds b → run n rounds l b = Some b' → reachable n rounds b'.
Proof.
  revert b. induction l as [|i l IH]; simpl; intros b Hb E; [by injection E as <-|].
  destruct (step n rounds i b) eqn:Es; try done. apply (IH b0); [by eapply reach_step|done].
Qed.

(** A thread that calls [sync] with interrupts off does not get them back
    from [wait], which asks for them. *)
Example sync_needs_interrupts :
  match run 2 1 [0; 0; 1]%nat (start 2 [false; true]) with Some b => step 2 1 0 b = Panics | None => False end.
Proof. by vm_compute. Qed.

(** The last epoch before the wrap: the last thread sets it to zero, and
    the other one, with [t] the greatest number, waits for ever. *)
Example epoch_wraps :
  let e := 2 ^ 64 - 1 in
  match run 2 (e + 2) [0; 0; 1; 0; 0]%nat
          (mkRB true false false (mkCondition e []) 2 e [true; true] [Outside e; Outside e]) with
  | Some b => threads b = [Queued e e; Outside (e + 1)] ∧ epoch b = 0
  | None => False
  end.
Proof. by vm_compute. Qed.

(** Three threads: one is in the queue and one on the way to it when the
    third arrives, which goes on to the second round. *)
Definition sample_run : list nat := [0; 0; 1; 2; 2; 1; 2]%nat.
Definition sample_barrier : ReusableBarrier :=
  mkRB false false true (mkCondition 1 [2%nat]) 2 1 [true; true; true] [Woken 0 0; Woken 0 0; Queued 1 1].

Lemma reusable_barrier_holds_witness :
  run 3 2 sample_run (start 3 (replicate 3 true)) = Some sample_barrier ∧
  (∀ i, step 3 2 i sample_barrier ≠ Panics) ∧
  (∀ i j p q, threads sample_barrier !! i = Some p → threads sample_barrier !! j = Some q → ended p ≤ begun q).
Proof.
  split; [vm_compute; reflexivity|]. apply (reusable_barrier_holds 3 2 sample_barrier); [lia|lia|].
  apply (rb_run_reachable 3 2 sample_run (start 3 (replicate 3 true))); [constructor|vm_compute; reflexivity].
Defined.

(** Two threads to the end of one round. *)
Definition final_run : list nat := [0; 1; 0; 0]%nat.
Definition final_barrier : ReusableBarrier :=
  mkRB true false false (mkCondition 1 []) 2 1 [true; true] [Outside 1; Outside 1].

Lemma reusable_barrier_no_deadlock_witness :
  run 2 1 final_run (start 2 (replicate 2 true)) = Some final_barrier ∧
  ∀ i p, threads final_barrier !! i = Some p → p = Outside 1.
Proof.
  split; [vm_compute; reflexivity|]. apply (reusable_barrier_no_deadlock 2 1 final_barrier); [lia|lia| |].
  - apply (rb_run_reachable 2 1 final_run (start 2 (replicate 2 true))); [constructor|vm_compute; reflexivity].
  - intros [|[|i]] b'; vm_compute; discriminate.
Defined.
