(* ===== verification/BlockIO.v ===== *)
(** * Block devices (kernel/block_io.cc, kernel/block_io.h)

    Reading any range of bytes from something that is read a block at a
    time.  The virtual functions of the class are the fields of a record;
    an implementation promises what [Content] says, and the reads are
    proved to return the range against that promise.  A buffer is modelled
    by the bytes put into it, in order. *)

From S2P Require Import Prelude.

(** ** The class *)

Record BlockIO (S : Type) := mkBlockIO {
  block_size : Z;
  size_in_bytes : Z;
  read_block : Z → M S (list Z)
}.
Arguments mkBlockIO {S}.
Arguments block_size {S}.
Arguments size_in_bytes {S}.
Arguments read_block {S}.

Section io.
Context {S : Type}.
Implicit Type io : BlockIO S.

Definition size_in_blocks io : Z :=
  u32 (u32 (size_in_bytes io + block_size io) - 1) / block_size io.

(** [memcpy] of [n] bytes of a buffer of the block size, from [from]. *)
Definition copy_part (temp : list Z) (from n : Z) : M S (list Z) :=
  require (0 ≤ from ∧ 0 ≤ n ∧ from + n ≤ Z.of_nat (List.length temp));;
  mret (take (Z.to_nat n) (drop (Z.to_nat from) temp)).

(** The count returned, and the bytes put into the buffer. *)
Definition read io (offset desired_n : Z) : M S (Z * list Z) :=
  let sz := size_in_bytes io in
  let bs := block_size io in
  if decide (offset > sz) then mret (-1, []) else
  if decide (offset = sz) then mret (0, []) else
  let n := Z.min desired_n (sz - offset) in
  require (bs ≠ 0);;
  let block_number := offset / bs in
  let offset_in_block := offset mod bs in
  let actual_n := Z.min (bs - offset_in_block) n in
  assert (actual_n ≤ n);;
  assert (u32 (offset + actual_n) ≤ sz);;
  if decide (actual_n = bs) then
    assert (offset_in_block = 0);;
    b ← read_block io block_number;
    mret (actual_n, b)
  else
    assert (u32 (offset_in_block + actual_n) ≤ bs);;
    temp ← read_block io block_number;
    b ← copy_part temp offset_in_block actual_n;
    mret (actual_n, b).

(** One round of [read_all]: the offset, what is left, the total so far and
    the bytes so far. *)
Definition read_all_body io (st : Z * Z * Z * list Z) : M S ((Z * Z * Z * list Z) + (Z * list Z)) :=
  let '(offset, n, total, acc) := st in
  if decide (n > 0) then
    r ← read io offset n;
    let '(cnt, b) := r : Z * list Z in
    if decide (cnt < 0) then mret (inr (cnt, acc)) else
    if decide (cnt = 0) then mret (inr (total, acc)) else
    mret (inl (u32 (offset + cnt), u32 (n - cnt), total + cnt, acc ++ b))
  else mret (inr (total, acc)).

Definition read_all io (offset n : Z) : M S (Z * list Z) :=
  iter (Datatypes.S (Z.to_nat n)) (read_all_body io) (offset, n, 0, []).

(** [read(offset,thing)] for a thing of [n] bytes. *)
Definition read_thing io (offset n : Z) : M S (list Z) :=
  r ← read_all io offset n;
  assert (r.1 = n);;
  mret r.2.

End io.

(** ** What an implementation promises *)

(** The bytes of [f] from [off] on. *)
Fixpoint slice (f : Z → Z) (off : Z) (n : nat) : list Z :=
  match n with O => [] | Datatypes.S n => f off :: slice f (off + 1) n end.

Lemma length_slice f off n : List.length (slice f off n) = n.
Proof. revert off. induction n; intros; simpl; auto. Qed.

Lemma slice_app f off n m : slice f off (n + m) = slice f off n ++ slice f (off + Z.of_nat n) m.
Proof.
  revert off. induction n as [|n IH]; intros off; simpl; [by rewrite Z.add_0_r|].
  rewrite IH. do 3 f_equal. lia.
Qed.

Lemma slice_part f off n i k :
  (i + k ≤ n)%nat → take k (drop i (slice f off n)) = slice f (off + Z.of_nat i) k.
Proof.
  intros. replace n with (i + (k + (n - i - k)))%nat by lia.
  rewrite slice_app, drop_app_length' by (by rewrite length_slice).
  by rewrite slice_app, take_app_length' by (by rewrite length_slice).
Qed.

Lemma slice_ext f g off n :
  (∀ i, off ≤ i < off + Z.of_nat n → f i = g i) → slice f off n = slice g off n.
Proof.
  revert off. induction n as [|n IH]; intros off Hfg; simpl; [done|].
  rewrite Hfg by lia. f_equal. apply IH. intros. apply Hfg. lia.
Qed.

Lemma slice_lookup f off n i : (i < n)%nat → slice f off n !! i = Some (f (off + Z.of_nat i)).
Proof.
  revert off i. induction n as [|n IH]; intros off [|i] Hi; simpl; [lia|lia|by rewrite Z.add_0_r|].
  rewrite IH by lia. do 2 f_equal. lia.
Qed.

(** *** Little-endian words *)

Fixpoint le (b : list Z) : Z := match b with [] => 0 | x :: b => x + 256 * le b end.

(** The four bytes of a word. *)
Definition word (v : Z) : list Z := [v mod 256; v / 2 ^ 8 mod 256; v / 2 ^ 16 mod 256; v / 2 ^ 24 mod 256].

Lemma le_range b : Forall (λ x, 0 ≤ x < 256) b → 0 ≤ le b < 256 ^ Z.of_nat (List.length b).
Proof.
  induction 1 as [|x b Hx _ IH]; [done|]. cbn [le List.length]. rewrite Nat2Z.inj_succ, Z.pow_succ_r by lia. lia.
Qed.

Lemma slice_bytes f off n : (∀ i, 0 ≤ f i < 256) → Forall (λ x, 0 ≤ x < 256) (slice f off n).
Proof. intros Hf. revert off. induction n; intros; simpl; constructor; auto. Qed.

Lemma le_word v : 0 ≤ v < 2 ^ 32 → le (word v) = v.
Proof.
  intros Hv. unfold word. cbn [le]. rewrite Z.mul_0_r, Z.add_0_r.
  replace (v / 2 ^ 24) with (v / 256 / 256 / 256) by (rewrite !Z.div_div by lia; done).
  replace (v / 2 ^ 16) with (v / 256 / 256) by (rewrite !Z.div_div by lia; done).
  change (2 ^ 8) with 256. pose proof (Z.div_mod v 256 ltac:(lia)).
  pose proof (Z.div_mod (v / 256) 256 ltac:(lia)). pose proof (Z.div_mod (v / 256 / 256) 256 ltac:(lia)).
  rewrite (Z.mod_small (v / 256 / 256 / 256)) by (rewrite !Z.div_div by lia; split; [apply Z.div_pos|apply Z.div_lt_upper_bound]; lia).
  lia.
Qed.

(** The bytes of the word of four bytes. *)
Lemma word_le a b c d :
  0 ≤ a < 256 → 0 ≤ b < 256 → 0 ≤ c < 256 → 0 ≤ d < 256 → word (le [a; b; c; d]) = [a; b; c; d].
Proof.
  intros Ha Hb Hc Hd. unfold word. cbn [le].
  set (v := a + _).
  assert (Hv : v / 2 ^ 8 = b + 256 * (c + 256 * d)) by (unfold v; symmetry; apply Z.div_unique with a; lia).
  replace (v / 2 ^ 16) with (v / 2 ^ 8 / 256) by (rewrite Z.div_div by lia; done).
  replace (v / 2 ^ 24) with (v / 2 ^ 8 / 256 / 256) by (rewrite !Z.div_div by lia; done). rewrite Hv.
  assert (E1 : (b + 256 * (c + 256 * d)) / 256 = c + 256 * d) by (symmetry; apply Z.div_unique with b; lia). rewrite E1.
  assert (E2 : (c + 256 * d) / 256 = d) by (symmetry; apply Z.div_unique with c; lia). rewrite E2.
  f_equal; [symmetry; apply Z.mod_unique with (b + 256 * (c + 256 * d)); unfold v; lia|].
  f_equal; [symmetry; apply Z.mod_unique with (c + 256 * d); lia|].
  f_equal; [symmetry; apply Z.mod_unique with d; lia|].
  f_equal. apply Z.mod_small. lia.
Qed.

(** In the states of [I] a block within the size is read as the bytes of
    [content], and [I] still holds. *)
Record Content {S} (io : BlockIO S) (I : S → Prop) (content : Z → Z) : Prop := {
  co_block : 0 < block_size io < 2 ^ 31;
  co_size : 0 ≤ size_in_bytes io < 2 ^ 32;
  co_read : ∀ k s, 0 ≤ k → k * block_size io < size_in_bytes io → I s →
    wp (read_block io k)
       (λ b s', b = slice content (k * block_size io) (Z.to_nat (block_size io)) ∧ I s') s
}.

Section content.
Context {S : Type} (io : BlockIO S) (I : S → Prop) (content : Z → Z) (Hio : Content io I content).

(** What one [read] delivers: up to the end of the block. *)
Definition chunk (offset n : Z) : Z :=
  Z.min (block_size io - offset mod block_size io) (Z.min n (size_in_bytes io - offset)).

Lemma wp_read offset n (Q : Z * list Z → S → Prop) s :
  I s → 0 ≤ offset < size_in_bytes io → 0 ≤ n →
  (∀ s', I s' → Q (chunk offset n, slice content offset (Z.to_nat (chunk offset n))) s') →
  wp (read io offset n) Q s.
Proof.
  destruct Hio as [Hbs Hsz Hread]. intros HI Ho Hn HQ. unfold read, chunk in *.
  set (sz := size_in_bytes io) in *. set (bs := block_size io) in *.
  pose proof (Z.mod_pos_bound offset bs ltac:(lia)) as Hm.
  pose proof (Z.div_mod offset bs ltac:(lia)) as Hdm.
  rewrite decide_False by lia. rewrite decide_False by lia.
  apply wp_bind, wp_require; [lia|]. apply wp_bind, wp_assert; [lia|].
  apply wp_bind, wp_assert; [unfold u32; rewrite Z.mod_small; lia|].
  assert (Hk : 0 ≤ offset / bs) by (apply Z.div_pos; lia).
  set (m := Z.min (bs - offset mod bs) (Z.min n (sz - offset))) in *.
  destruct (decide (m = bs)) as [E|E].
  - apply wp_bind, wp_assert; [lia|]. apply wp_bind. eapply wp_mono; [apply Hread; [done| |done]; nia|].
    intros b s' [-> HI']. apply wp_ret. replace (offset / bs * bs) with offset by lia.
    rewrite E in *. by apply HQ.
  - apply wp_bind, wp_assert; [unfold u32; rewrite Z.mod_small; lia|]. apply wp_bind.
    eapply wp_mono; [apply Hread; [done| |done]; nia|]. intros b s' [-> HI'].
    apply wp_bind. unfold copy_part. apply wp_bind, wp_require; [rewrite length_slice; lia|].
    apply wp_ret, wp_ret. rewrite slice_part by lia.
    replace (offset / bs * bs + Z.of_nat (Z.to_nat (offset mod bs))) with offset by lia. by apply HQ.
Qed.

(** [read_all] within the size: as much as there is. *)
Lemma wp_read_all offset n (Q : Z * list Z → S → Prop) s :
  I s → 0 ≤ offset ≤ size_in_bytes io → 0 ≤ n < 2 ^ 32 →
  (∀ s', I s' → let m := Z.min n (size_in_bytes io - offset) in
     Q (m, slice content offset (Z.to_nat m)) s') →
  wp (read_all io offset n) Q s.
Proof.
  intros HI Ho Hn HQ. unfold read_all. set (sz := size_in_bytes io) in *.
  set (m := Z.min n (sz - offset)) in *. simpl in HQ.
  apply (wp_iter (λ '(o, l, t, acc) s', I s' ∧ 0 ≤ t ≤ m ∧ o = offset + t ∧ l = n - t ∧
                                        acc = slice content offset (Z.to_nat t))
                 (λ '(o, l, t, acc) _, Z.to_nat l)); [|split_and!; try done; lia|lia].
  intros [[[o l] t] acc] s' (HI' & Ht & -> & -> & ->). unfold read_all_body.
  destruct Hio as [Hbs Hsz _]. fold sz in Hsz.
  destruct (decide (n - t > 0)) as [Hl|Hl].
  - apply wp_bind. destruct (decide (offset + t = sz)) as [E|E].
    + unfold read. fold sz. rewrite decide_False, decide_True by lia. apply wp_ret. simpl.
      apply wp_ret. replace t with m by lia. auto.
    + apply wp_read; [done|fold sz; lia|lia|]. intros s'' HI''.
      pose proof (Z.mod_pos_bound (offset + t) (block_size io) ltac:(lia)).
      set (c := chunk (offset + t) (n - t)). assert (Hc : 0 < c ≤ Z.min (n - t) (sz - (offset + t))) by (unfold c, chunk; fold sz; lia).
      rewrite !decide_False by lia. apply wp_ret. split; [|unfold u32; rewrite Z.mod_small; lia].
      unfold u32. rewrite !Z.mod_small by lia. split_and!; try done; try lia.
      replace (Z.to_nat (t + c)) with (Z.to_nat t + Z.to_nat c)%nat by lia. rewrite slice_app. do 2 f_equal. lia.
  - apply wp_ret. replace t with m by lia. auto.
Qed.

Lemma wp_read_thing offset n (Q : list Z → S → Prop) s :
  I s → 0 ≤ offset → 0 ≤ n → offset + n ≤ size_in_bytes io →
  (∀ s', I s' → Q (slice content offset (Z.to_nat n)) s') → wp (read_thing io offset n) Q s.
Proof.
  intros HI Ho Hn Hle HQ. unfold read_thing. apply wp_bind. destruct Hio as [_ Hsz _].
  apply wp_read_all; [done|lia|lia|]. intros s' HI' m. assert (m = n) as -> by lia.
  apply wp_bind, wp_assert; [done|]. apply wp_ret. by apply HQ.
Qed.
End content.

(** ** Properties *)

(** Against any implementation that keeps the promise, and for every
    offset and length: [read_all] terminates without a failed assertion
    and returns the bytes from the offset up to the length or the end,
    whichever comes first, however they lie across blocks; beyond the end
    it returns -1, except that a request for no bytes returns 0. *)
Theorem read_all_reads {S} (io : BlockIO S) I content offset n s :
  Content io I content → I s → 0 ≤ offset < 2 ^ 32 → 0 ≤ n < 2 ^ 32 →
  wp (read_all io offset n)
     (λ r s', I s' ∧
        if decide (offset ≤ size_in_bytes io) then
          let m := Z.min n (size_in_bytes io - offset) in r = (m, slice content offset (Z.to_nat m))
        else r = (if decide (n = 0) then 0 else -1, []))
     s.
Proof.
  intros Hio HI Ho Hn. destruct (decide (offset ≤ size_in_bytes io)) as [Hle|Hgt].
  - eapply wp_read_all; [done|done|lia|lia|]. by intros s' HI' m.
  - unfold read_all. simpl. apply wp_bind. unfold read_all_body. destruct (decide (n = 0)) as [->|].
    + rewrite decide_False by lia. by apply wp_ret, wp_ret.
    + rewrite decide_True by lia. unfold read. rewrite decide_True by lia.
      apply wp_bind, wp_ret. simpl. by apply wp_ret, wp_ret.
Qed.

(** ** Witness *)

(** Ten bytes in blocks of four. *)
Definition sample_content (i : Z) : Z := 65 + i.
Definition sample_io : BlockIO () := mkBlockIO 4 10 (λ k, mret (slice sample_content (k * 4) 4)).

Lemma sample_content_ok : Content sample_io (λ _, True) sample_content.
Proof. split; simpl; [lia|lia|]. by intros. Qed.

Lemma read_all_reads_witness :
  read_all sample_io 3 100 () = Ok (7, [68; 69; 70; 71; 72; 73; 74]) () ∧
  wp (read_all sample_io 3 100)
     (λ r s', True ∧
        if decide (3 ≤ size_in_bytes sample_io) then
          let m := Z.min 100 (size_in_bytes sample_io - 3) in r = (m, slice sample_content 3 (Z.to_nat m))
        else r = (if decide (100 = 0) then 0 else -1, []))
     ().
Proof.
  split; [vm_compute; reflexivity|].
  apply (read_all_reads sample_io (λ _, True) sample_content); [apply sample_content_ok|done|lia|lia].
Defined.
