(* ===== verification/Ext2.v ===== *)
(** * The file system (kernel/ext2.cc, kernel/ext2.h)

    Mounting, i-nodes, the blocks of a file, directories and paths, over a
    block device.  A structure read from the disk is kept as its bytes,
    with a function per field; the buffers that the code allocates for the
    time of a call are lists. *)

From S2P Require Import Prelude.
From S2P Require Import Libk.
From S2P Require Import BlockIO.

(** ** Structures on the disk *)

(** A little-endian field of [n] bytes at [o]. *)
Definition field (b : list Z) (o n : nat) : Z := le (take n (drop o b)).

Module SuperBlock.
Definition sizeof : Z := 140.
Definition inodes_count (b : list Z) : Z := field b 0 4.
Definition blocks_count (b : list Z) : Z := field b 4 4.
Definition log_block_size (b : list Z) : Z := field b 24 4.
Definition blocks_per_group (b : list Z) : Z := field b 32 4.
Definition inodes_per_group (b : list Z) : Z := field b 40 4.
Definition inode_size (b : list Z) : Z := field b 88 2.
End SuperBlock.

Module BlockGroup.
Definition sizeof : Z := 32.
Definition inode_table (b : list Z) (i : Z) : Z := field b (Z.to_nat (i * sizeof) + 8) 4.
End BlockGroup.

Module NodeData.
Definition sizeof : Z := 128.
Definition mode (b : list Z) : Z := field b 0 2.
Definition size_low (b : list Z) : Z := field b 4 4.
Definition n_links (b : list Z) : Z := field b 26 2.
Definition n_sectors (b : list Z) : Z := field b 28 4.
(** [(&direct0)[i]]. *)
Definition direct (b : list Z) (i : Z) : Z := field b (40 + Z.to_nat (4 * i)) 4.
Definition indirect_1 (b : list Z) : Z := field b 88 4.

Definition get_type (b : list Z) : Z := Z.shiftr (mode b) 12.
Definition is_dir (b : list Z) : bool := bool_decide (get_type b = 4).
Definition is_file (b : list Z) : bool := bool_decide (get_type b = 8).
Definition is_symlink (b : list Z) : bool := bool_decide (get_type b = 10).
End NodeData.

(** [number] is the i-number, [data] the bytes of the [NodeData]. *)
Record Node := mkNode { number : Z; data : list Z; node_bs : Z }.

Record Ext2 := mkExt2 {
  blockSize : Z;
  numberOfNodes : Z;
  numberOfBlocks : Z;
  iNodeSize : Z;
  nGroups : Z;
  iNodeTables : list Z;
  iNodesPerGroup : Z
}.

Section ext2.
Context {S : Type} (ide : BlockIO S).

(** ** Files *)

(** [Node::read_block]. *)
Definition node_read_block (n : Node) (index : Z) : M S (list Z) :=
  let bs := node_bs n in
  require (bs / 512 ≠ 0);;
  assert (index < NodeData.n_sectors (data n) / (bs / 512));;
  let refs_per_block := bs / 4 in
  block_index ←
    (if decide (index < 12) then mret (NodeData.direct (data n) index)
     else if decide (index < u32 (12 + refs_per_block)) then
       b ← read_thing ide (u32 (u32 (NodeData.indirect_1 (data n) * bs) + u32 ((index - 12) * 4))) 4;
       mret (le b)
     else panic);
  r ← read_all ide (u32 (block_index * bs)) bs;
  assert (r.1 = bs);;
  mret r.2.

(** The virtual functions of a node. *)
Definition node_io (n : Node) : BlockIO S :=
  mkBlockIO (node_bs n) (NodeData.size_low (data n)) (node_read_block n).

(** [get_symbol]: what is put into the buffer. *)
Definition get_symbol (n : Node) : M S (list Z) :=
  assert (NodeData.is_symlink (data n) = true);;
  let sz := NodeData.size_low (data n) in
  if decide (sz ≤ 60) then copy_part (data n) 40 sz
  else
    r ← read_all (node_io n) 0 sz;
    assert (r.1 = sz);;
    mret r.2.

(** ** Directories *)

(** The fields of the entry at [offset]; the name without its zero. *)
Definition read_name (n : Node) (offset name_length : Z) : M S (list Z) :=
  r ← read_all (node_io n) (u32 (offset + 8)) name_length;
  assert (r.1 = name_length);;
  mret r.2.

Definition entries_body {X} (n : Node) (work : X → Z → list Z → M S X) (st : Z * X) : M S ((Z * X) + X) :=
  let '(offset, x) := st in
  if decide (offset < NodeData.size_low (data n)) then
    inode ← read_thing (node_io n) offset 4;
    total_size ← read_thing (node_io n) (u32 (offset + 4)) 2;
    name_length ← read_thing (node_io n) (u32 (offset + 6)) 1;
    name ← read_name n offset (le name_length);
    x ← work x (le inode) (cstring name);
    mret (inl (u32 (offset + le total_size), x))
  else mret (inr x).

(** [entries(work)], with what [work] changes threaded through.  An entry
    of size zero keeps the loop at the same offset for ever. *)
Definition entries {X} (n : Node) (work : X → Z → list Z → M S X) (x : X) : M S X :=
  assert (NodeData.is_dir (data n) = true);;
  iter (Datatypes.S (Z.to_nat (NodeData.size_low (data n)))) (entries_body n work) (0, x).

(** [Node::find]. *)
Definition node_find (n : Node) (name : list Z) : M S Z :=
  entries n (λ out number nm, b ← streq name nm; mret (if b : bool then number else out)) 0.

Definition entry_count (n : Node) : M S Z :=
  assert (NodeData.is_dir (data n) = true);;
  entries n (λ count _ _, mret (u32 (count + 1))) 0.

Definition dir_entries_body (n : Node) (st : Z * list Z) : M S ((Z * list Z) + list Z) :=
  let '(offset, buffer) := st in
  if decide (offset < NodeData.size_low (data n)) then
    total_size ← read_thing (node_io n) (u32 (offset + 4)) 2;
    name_length ← read_thing (node_io n) (u32 (offset + 6)) 1;
    name ← read_name n offset (le name_length);
    mret (inl (u32 (offset + le total_size), buffer ++ name ++ [chr " "]))
  else mret (inr buffer).

(** [get_dir_entries]: the bytes put into the buffer.  In a directory
    without entries the last store is in front of it. *)
Definition get_dir_entries (n : Node) : M S (list Z) :=
  assert (NodeData.is_dir (data n) = true);;
  buffer ← iter (Datatypes.S (Z.to_nat (NodeData.size_low (data n)))) (dir_entries_body n) (0, []);
  require (buffer ≠ []);;
  mret (<[(List.length buffer - 1)%nat := 0]> buffer).

Definition dir_length_body (n : Node) (st : Z * Z) : M S ((Z * Z) + Z) :=
  let '(offset, namesSize) := st in
  if decide (offset < NodeData.size_low (data n)) then
    total_size ← read_thing (node_io n) (u32 (offset + 4)) 2;
    name_length ← read_thing (node_io n) (u32 (offset + 6)) 1;
    mret (inl (u32 (offset + le total_size), u32 (namesSize + (le name_length + 1))))
  else mret (inr namesSize).

Definition get_length_of_dir_entries (n : Node) : M S Z :=
  assert (NodeData.is_dir (data n) = true);;
  iter (Datatypes.S (Z.to_nat (NodeData.size_low (data n)))) (dir_length_body n) (0, 0).

(** ** The file system *)

(** [Ext2::get_node]. *)
Definition get_node (fs : Ext2) (number : Z) : M S Node :=
  assert (number > 0);;
  assert (number ≤ numberOfNodes fs);;
  let index := number - 1 in
  require (iNodesPerGroup fs ≠ 0);;
  let groupIndex := index / iNodesPerGroup fs in
  assert (groupIndex < nGroups fs);;
  let indexInGroup := index mod iNodesPerGroup fs in
  iTableBase ← char_at (iNodeTables fs) groupIndex;
  assert (iTableBase ≤ numberOfBlocks fs);;
  let nodeOffset := u32 (u32 (iTableBase * blockSize fs) + u32 (indexInGroup * iNodeSize fs)) in
  d ← read_thing ide nodeOffset NodeData.sizeof;
  mret (mkNode number d (blockSize fs)).

(** [Ext2::Ext2]: the file system and its root. *)
Definition mount : M S (Ext2 * Node) :=
  sb ← read_thing ide 1024 SuperBlock.sizeof;
  let shift := u32 (SuperBlock.log_block_size sb + 10) in
  require (shift < 32);;
  let blockSize := u32 (Z.shiftl 1 shift) in
  let bpg := SuperBlock.blocks_per_group sb in
  require (bpg ≠ 0);;
  let nGroups := u32 (u32 (SuperBlock.blocks_count sb + bpg) - 1) / bpg in
  assert (u32 (nGroups * bpg) >= SuperBlock.blocks_count sb);;
  let superBlockNumber := 1024 / blockSize in
  let groupTableNumber := superBlockNumber + 1 in
  let groupTableSize := u32 (BlockGroup.sizeof * nGroups) in
  r ← read_all ide (u32 (groupTableNumber * blockSize)) groupTableSize;
  assert (r.1 = groupTableSize);;
  let iNodeTables := map (BlockGroup.inode_table r.2) (seqZ 0 nGroups) in
  let fs := mkExt2 blockSize (SuperBlock.inodes_count sb) (SuperBlock.blocks_count sb)
                   (SuperBlock.inode_size sb) nGroups iNodeTables (SuperBlock.inodes_per_group sb) in
  root ← get_node fs 2;
  mret (fs, root).

(** [Ext2::find]: skipping slashes, the next part of the path, and the
    walk. *)
Definition skip_body (path : list Z) (idx : Z) : M S (Z + Z) :=
  c ← char_at path idx;
  mret (if decide (c = chr "/") then inl (u32 (idx + 1)) else inr idx).

Definition part_body (path : list Z) (st : Z * list Z) : M S ((Z * list Z) + (Z * list Z)) :=
  let '(idx, part) := st in
  c ← char_at path idx;
  if decide (c = 0 ∨ c = chr "/") then mret (inr (idx, part)) else
  assert (Z.of_nat (List.length part) < 256);;
  mret (inl (u32 (idx + 1), part ++ [c])).

Definition find_body (fs : Ext2) (path : list Z) (st : option Node * Z) : M S ((option Node * Z) + option Node) :=
  let '(current, idx) := st in
  idx ← iter (Datatypes.S (List.length path)) (skip_body path) idx;
  c ← char_at path idx;
  match current with
  | None => mret (inr None)
  | Some n =>
      if decide (c = 0) then mret (inr (Some n)) else
      r ← iter (Datatypes.S (List.length path)) (part_body path) (idx, []);
      let '(idx, part) := r : Z * list Z in
      number ← node_find n (cstring part);
      if decide (number = 0) then mret (inl (None, idx)) else
      n ← get_node fs number;
      mret (inl (Some n, idx))
  end.

Definition find (fs : Ext2) (current : option Node) (path : list Z) : M S (option Node) :=
  iter (Datatypes.S (Datatypes.S (List.length path))) (find_body fs path) (current, 0).
End ext2.

(** ** What a well-formed file system holds *)

Lemma slice_shift f g a b n :
  (∀ i, 0 ≤ i < Z.of_nat n → f (a + i) = g (b + i)) → slice f a n = slice g b n.
Proof.
  revert a b. induction n as [|n IH]; intros a b H; simpl; [done|].
  rewrite <-(Z.add_0_r a), <-(Z.add_0_r b), H, !Z.add_0_r by lia. f_equal.
  apply IH. intros i Hi. rewrite <-!Z.add_assoc. apply H. lia.
Qed.

Section spec.
Context {S : Type} (ide : BlockIO S) (I : S → Prop) (disk : Z → Z) (Hide : Content ide I disk).

(** The number of the disk block that holds block [k] of a node, and the
    byte at an offset of it. *)
Definition node_block (n : Node) (k : Z) : Z :=
  if decide (k < 12) then NodeData.direct (data n) k
  else le (slice disk (NodeData.indirect_1 (data n) * node_bs n + (k - 12) * 4) 4).

Definition node_content (n : Node) (o : Z) : Z :=
  disk (node_block n (o / node_bs n) * node_bs n + o mod node_bs n).

(** Every block of the node is reached directly or through the first
    indirect block, and lies on the device. *)
Record node_ok (n : Node) : Prop := {
  no_bs : 512 ≤ node_bs n < 2 ^ 31;
  no_size : 0 ≤ NodeData.size_low (data n) < 2 ^ 32;
  no_block : ∀ k, 0 ≤ k → k * node_bs n < NodeData.size_low (data n) →
    k < NodeData.n_sectors (data n) / (node_bs n / 512) ∧ k < 12 + node_bs n / 4 ∧
    0 ≤ node_block n k ∧ node_block n k * node_bs n + node_bs n ≤ size_in_bytes ide;
  no_indirect : 12 * node_bs n < NodeData.size_low (data n) →
    0 ≤ NodeData.indirect_1 (data n) ∧ NodeData.indirect_1 (data n) * node_bs n + node_bs n ≤ size_in_bytes ide
}.

(** A node is a block device whose bytes are those of its blocks. *)
Lemma node_io_content n : node_ok n → Content (node_io ide n) I (node_content n).
Proof.
  intros [Hbs Hsz Hblk Hind]. split; simpl; [lia|done|].
  intros k s Hk Hlt HI. destruct (Hblk k Hk Hlt) as (Hsec & Hmax & Hb0 & Hb1).
  pose proof (co_size _ _ _ Hide) as Hdev.
  unfold node_read_block. set (bs := node_bs n) in *.
  assert (H512 : 1 ≤ bs / 512) by (apply Z.div_le_lower_bound; lia).
  apply wp_bind, wp_require; [lia|]. apply wp_bind, wp_assert; [done|]. apply wp_bind.
  apply (wp_mono _ (λ b s', b = node_block n k ∧ I s')).
  - unfold node_block in *. destruct (decide (k < 12)) as [Hd|Hd]; [by apply wp_ret|].
    pose proof (Z.div_mod bs 4 ltac:(lia)). pose proof (Z.mod_pos_bound bs 4 ltac:(lia)).
    rewrite decide_True by (rewrite u32_small; lia). destruct Hind as [Hi0 Hi1]; [nia|].
    set (ind := NodeData.indirect_1 (data n)) in *.
    rewrite (u32_small (ind * bs)), (u32_small ((k - 12) * 4)), u32_small by lia.
    apply wp_bind. eapply wp_read_thing; [done|done|lia|lia|lia|].
    intros s' HI'. by apply wp_ret.
  - intros b s' [-> HI']. set (blk := node_block n k) in *. rewrite u32_small by nia.
    apply wp_bind. eapply wp_read_all; [done|done|nia|lia|].
    intros s'' HI'' m. assert (m = bs) as -> by lia. apply wp_bind, wp_assert; [done|]. apply wp_ret.
    split; [|done]. simpl. apply slice_shift. intros i Hi. unfold node_content. fold bs.
    rewrite (Z.add_comm (k * bs)), Z.div_add, Z.mod_add, Z.div_small, Z.mod_small by lia. by rewrite Z.add_0_l.
Qed.

(** ** Directories *)

Record entry := mkEntry { e_inode : Z; e_size : Z; e_name : list Z }.

(** The entries from offset [off] to the end. *)
Fixpoint dir_at (n : Node) (off : Z) (es : list entry) : Prop :=
  let size := NodeData.size_low (data n) in
  match es with
  | [] => off = size
  | e :: es =>
      e_inode e = le (slice (node_content n) off 4) ∧
      e_size e = le (slice (node_content n) (off + 4) 2) ∧
      Z.of_nat (List.length (e_name e)) = le (slice (node_content n) (off + 6) 1) ∧
      e_name e = slice (node_content n) (off + 8) (List.length (e_name e)) ∧
      0 < e_size e ∧ off + 8 + Z.of_nat (List.length (e_name e)) ≤ size ∧ off + e_size e ≤ size ∧
      (0 ∉ e_name e) ∧ (List.length (e_name e) < 256)%nat ∧
      dir_at n (off + e_size e) es
  end.

Lemma dir_at_le n off es : dir_at n off es → off ≤ NodeData.size_low (data n).
Proof. destruct es; simpl; [lia|]. intros. destruct_and!. lia. Qed.

(** Every loop over a directory. *)
Lemma wp_dir {X} (n : Node) (J : list entry → X → Prop) (body : Z * X → M S ((Z * X) + X)) es x0 (Q : X → S → Prop) s :
  node_ok n → dir_at n 0 es → I s → J [] x0 →
  (∀ x s, I s → ∀ off, off = NodeData.size_low (data n) →
     wp (body (off, x)) (λ r s', r = inr x ∧ I s') s) →
  (∀ x s off pre e post, I s → J pre x → es = pre ++ e :: post → 0 ≤ off → dir_at n off (e :: post) →
     wp (body (off, x)) (λ r s', I s' ∧ ∃ x', r = inl (off + e_size e, x') ∧ J (pre ++ [e]) x') s) →
  (∀ x s, I s → J es x → Q x s) →
  wp (iter (Datatypes.S (Z.to_nat (NodeData.size_low (data n)))) body (0, x0)) Q s.
Proof.
  intros Hok Hdir HI HJ Hend Hbody HQ.
  apply (wp_iter (λ '(off, x) s', I s' ∧ 0 ≤ off ∧ ∃ pre post, es = pre ++ post ∧ J pre x ∧ dir_at n off post)
                 (λ '(off, x) _, Z.to_nat (NodeData.size_low (data n) - off))).
  - intros [off x] s' (HI' & Hoff & pre & [|e post] & -> & HJ' & Hd).
    + eapply wp_mono; [apply Hend; [done|exact Hd]|]. intros r s'' [-> HI'']. apply HQ; [done|].
      by rewrite app_nil_r.
    + eapply wp_mono; [apply (Hbody x s' off pre e post); done|].
      intros r s'' (HI'' & x' & -> & HJ''). pose proof Hd as (_ & _ & _ & _ & Hpos & _ & Hle & _ & _ & Hd').
      split; [|lia]. split_and!; [done|lia|]. exists (pre ++ [e]), post. by rewrite <-app_assoc.
  - split_and!; [done|lia|]. by exists [], es.
  - lia.
Qed.

(** The fields of an entry as the loops read them. *)
Lemma wp_entry_field (n : Node) o k (Q : list Z → S → Prop) s :
  node_ok n → I s → 0 ≤ o → 0 ≤ k → o + k ≤ NodeData.size_low (data n) →
  (∀ s', I s' → Q (slice (node_content n) o (Z.to_nat k)) s') → wp (read_thing (node_io ide n) (u32 o) k) Q s.
Proof.
  intros Hok HI Ho Hk Hle HQ. pose proof (no_size _ Hok). rewrite u32_small by lia.
  eapply wp_read_thing; [by apply node_io_content|done|lia|lia|done|done].
Qed.

Lemma wp_read_name (n : Node) off e post (Q : list Z → S → Prop) s :
  node_ok n → I s → 0 ≤ off → dir_at n off (e :: post) →
  (∀ s', I s' → Q (e_name e) s') → wp (read_name ide n off (Z.of_nat (List.length (e_name e)))) Q s.
Proof.
  intros Hok HI Ho (_ & _ & _ & Hn & _ & Hle & _ & _ & _ & _) HQ. pose proof (no_size _ Hok).
  unfold read_name. rewrite u32_small by lia. apply wp_bind.
  eapply wp_read_all; [by apply node_io_content|done|simpl; lia|lia|].
  intros s' HI' m. simpl in m. assert (m = Z.of_nat (List.length (e_name e))) as -> by lia.
  apply wp_bind, wp_assert; [done|]. apply wp_ret. simpl. rewrite Nat2Z.id, <-Hn. by apply HQ.
Qed.

Lemma wp_entries {X} (n : Node) (work : X → Z → list Z → M S X) (J : list entry → X → Prop) es x0 (Q : X → S → Prop) s :
  node_ok n → NodeData.is_dir (data n) = true → dir_at n 0 es → I s → J [] x0 →
  (∀ x s pre e post, I s → J pre x → es = pre ++ e :: post → 0 ∉ e_name e → (List.length (e_name e) < 256)%nat →
     wp (work x (e_inode e) (cstring (e_name e))) (λ x' s', I s' ∧ J (pre ++ [e]) x') s) →
  (∀ x s, I s → J es x → Q x s) →
  wp (entries ide n work x0) Q s.
Proof.
  intros Hok Hdir Hd HI HJ Hwork HQ. unfold entries. apply wp_bind, wp_assert; [done|].
  apply (wp_dir n J _ es); try done.
  - intros x s' HI' off ->. unfold entries_body. rewrite decide_False by lia. by apply wp_ret.
  - intros x s' off pre e post HI' HJ' Hes Hoff Hd'.
    pose proof Hd' as (Ei & Et & El & _ & Hpos & Hle & Hlt & H0 & H256 & _). pose proof (no_size _ Hok).
    unfold entries_body. rewrite decide_True by lia.
    rewrite <-(u32_small off) at 1 by lia.
    apply wp_bind, wp_entry_field; [done|done|lia|lia|lia|]. intros s1 HI1.
    apply wp_bind, wp_entry_field; [done|done|lia|lia|lia|]. intros s2 HI2.
    apply wp_bind, wp_entry_field; [done|done|lia|lia|lia|]. intros s3 HI3.
    change (Z.to_nat 4) with 4%nat. change (Z.to_nat 2) with 2%nat. change (Z.to_nat 1) with 1%nat.
    rewrite <-El, <-Ei, <-Et.
    apply wp_bind. eapply wp_read_name; [done|done|done|exact Hd'|]. intros s4 HI4.
    apply wp_bind. eapply wp_mono; [by eapply Hwork|]. intros x' s5 [HI5 HJ5]. apply wp_ret.
    split; [done|]. exists x'. rewrite u32_small by lia. done.
Qed.

(** The i-number of the last entry with a name; 0 if there is none. *)
Definition lookup_name (name : list Z) (es : list entry) : Z :=
  foldl (λ out e, if decide (name = e_name e) then e_inode e else out) 0 es.

Lemma wp_node_find n es name (Q : Z → S → Prop) s :
  node_ok n → NodeData.is_dir (data n) = true → dir_at n 0 es → I s →
  0 ∉ name → Z.of_nat (List.length name) < int_max →
  (∀ s', I s' → Q (lookup_name name es) s') → wp (node_find ide n (cstring name)) Q s.
Proof.
  intros Hok Hdir Hd HI H0 Hlen HQ. unfold node_find.
  eapply (wp_entries n _ (λ pre x, x = lookup_name name pre)); try done.
  - intros x s' pre e post HI' -> _ He _. apply wp_bind.
    eapply wp_streq; [by apply points_to_cstring|by apply points_to_cstring|done|].
    apply wp_ret. split; [done|]. unfold lookup_name. rewrite foldl_app. simpl.
    by destruct (decide (name = e_name e)), (bool_decide_reflect (name = e_name e)).
  - intros x s' HI' ->. by apply HQ.
Qed.

Lemma wp_entry_count n es (Q : Z → S → Prop) s :
  node_ok n → NodeData.is_dir (data n) = true → dir_at n 0 es → I s →
  (∀ s', I s' → Q (u32 (Z.of_nat (List.length es))) s') → wp (entry_count ide n) Q s.
Proof.
  intros Hok Hdir Hd HI HQ. unfold entry_count. apply wp_bind, wp_assert; [done|].
  eapply (wp_entries n _ (λ pre x, x = u32 (Z.of_nat (List.length pre)))); try done.
  - intros x s' pre e post HI' -> _ _ _. apply wp_ret. split; [done|].
    rewrite length_app. simpl. unfold u32. rewrite Z.add_mod_idemp_l by lia. f_equal. lia.
  - intros x s' HI' ->. by apply HQ.
Qed.

(** The names of a listing, each with the space after it. *)
Definition listing (es : list entry) : list Z := concat (map (λ e, e_name e ++ [chr " "]) es).

Lemma wp_dir_name_length n es (Q : Z → S → Prop) s :
  node_ok n → NodeData.is_dir (data n) = true → dir_at n 0 es → I s →
  (∀ s', I s' → Q (u32 (Z.of_nat (List.length (listing es)))) s') →
  wp (get_length_of_dir_entries ide n) Q s.
Proof.
  intros Hok Hdir Hd HI HQ. unfold get_length_of_dir_entries. apply wp_bind, wp_assert; [done|].
  apply (wp_dir n (λ pre x, x = u32 (Z.of_nat (List.length (listing pre)))) _ es); try done.
  - intros x s' HI' off ->. unfold dir_length_body. rewrite decide_False by lia. by apply wp_ret.
  - intros x s' off pre e post HI' -> Hes Hoff Hd'.
    pose proof Hd' as (Ei & Et & El & _ & Hpos & Hle & Hlt & H0 & H256 & _). pose proof (no_size _ Hok).
    unfold dir_length_body. rewrite decide_True by lia.
    apply wp_bind, wp_entry_field; [done|done|lia|lia|lia|]. intros s2 HI2.
    apply wp_bind, wp_entry_field; [done|done|lia|lia|lia|]. intros s3 HI3.
    change (Z.to_nat 2) with 2%nat. change (Z.to_nat 1) with 1%nat. rewrite <-El, <-Et.
    apply wp_ret. split; [done|]. rewrite (u32_small (off + _)) by lia. eexists. split; [done|].
    unfold listing, u32. rewrite map_app, concat_app, !length_app. simpl. rewrite app_nil_r, length_app. simpl.
    rewrite Z.add_mod_idemp_l by lia. f_equal. lia.
  - intros x s' HI' ->. by apply HQ.
Qed.

Lemma wp_dir_entries n es (Q : list Z → S → Prop) s :
  node_ok n → NodeData.is_dir (data n) = true → dir_at n 0 es → I s → es ≠ [] →
  (∀ s', I s' → Q (removelast (listing es) ++ [0]) s') → wp (get_dir_entries ide n) Q s.
Proof.
  intros Hok Hdir Hd HI Hne HQ. unfold get_dir_entries. apply wp_bind, wp_assert; [done|]. apply wp_bind.
  apply (wp_dir n (λ pre x, x = listing pre) _ es); try done.
  - intros x s' HI' off ->. unfold dir_entries_body. rewrite decide_False by lia. by apply wp_ret.
  - intros x s' off pre e post HI' -> Hes Hoff Hd'.
    pose proof Hd' as (Ei & Et & El & _ & Hpos & Hle & Hlt & H0 & H256 & _). pose proof (no_size _ Hok).
    unfold dir_entries_body. rewrite decide_True by lia.
    apply wp_bind, wp_entry_field; [done|done|lia|lia|lia|]. intros s2 HI2.
    apply wp_bind, wp_entry_field; [done|done|lia|lia|lia|]. intros s3 HI3.
    change (Z.to_nat 2) with 2%nat. change (Z.to_nat 1) with 1%nat. rewrite <-El, <-Et.
    apply wp_bind. eapply wp_read_name; [done|done|done|exact Hd'|]. intros s4 HI4.
    apply wp_ret. split; [done|]. rewrite (u32_small (off + _)) by lia. eexists. split; [done|].
    unfold listing. rewrite map_app, concat_app. simpl. by rewrite app_nil_r.
  - intros x s' HI' ->. assert (Hn : listing es ≠ []).
    { destruct es as [|e es]; [done|]. unfold listing. simpl. by destruct (e_name e). }
    apply wp_bind, wp_require; [done|]. apply wp_ret.
    destruct (exists_last Hn) as (l & x & E). rewrite E, length_app. simpl.
    replace (List.length l + 1 - 1)%nat with (List.length l + 0)%nat by lia.
    rewrite insert_app_r. simpl. rewrite E, removelast_last in HQ. by apply HQ.
Qed.
End spec.

(** ** Paths *)

(** The parts of a path between slashes, none of them empty. *)
Definition emit (part : list Z) (ps : list (list Z)) : list (list Z) :=
  match part with [] => ps | _ => part :: ps end.

Fixpoint parts_from (part s : list Z) : list (list Z) :=
  match s with
  | [] => emit part []
  | c :: s => if decide (c = chr "/") then emit part (parts_from [] s) else parts_from (part ++ [c]) s
  end.

Abbreviation parts := (parts_from []).

(** The outcome of walking down the parts from a node. *)
Inductive resolved := Found (i : Z) | Missing | Stops.

Fixpoint resolve (dirs : Z → option (list entry)) (i : Z) (ps : list (list Z)) : resolved :=
  match ps with
  | [] => Found i
  | p :: ps =>
      if decide (256 < List.length p)%nat then Stops else
      match dirs i with
      | None => Stops
      | Some es => let j := lookup_name p es in if decide (j = 0) then Missing else resolve dirs j ps
      end
  end.

(** Where the bytes of node [i] lie. *)
Definition node_offset (fs : Ext2) (i base : Z) : Z :=
  base * blockSize fs + (i - 1) mod iNodesPerGroup fs * iNodeSize fs.

Section image.
Context {S : Type} (ide : BlockIO S) (I : S → Prop) (disk : Z → Z) (Hide : Content ide I disk).

(** A disk image: the data of the nodes in use, and the entries of those
    that are directories. *)
Record image (fs : Ext2) (nodes : Z → option (list Z)) (dirs : Z → option (list entry)) : Prop := {
  im_size : 0 ≤ blockSize fs ∧ 0 ≤ iNodeSize fs ∧ 0 < iNodesPerGroup fs;
  im_node : ∀ i d, nodes i = Some d → 0 < i ≤ numberOfNodes fs ∧ (i - 1) / iNodesPerGroup fs < nGroups fs ∧
    ∃ base, iNodeTables fs !! Z.to_nat ((i - 1) / iNodesPerGroup fs) = Some base ∧ 0 ≤ base ≤ numberOfBlocks fs ∧
      node_offset fs i base + NodeData.sizeof ≤ size_in_bytes ide ∧
      d = slice disk (node_offset fs i base) (Z.to_nat NodeData.sizeof);
  im_file : ∀ i d, nodes i = Some d → dirs i = None → NodeData.is_dir d = false;
  im_dir : ∀ i d es, nodes i = Some d → dirs i = Some es →
    let n := mkNode i d (blockSize fs) in
    NodeData.is_dir d = true ∧ node_ok ide disk n ∧ dir_at disk n 0 es ∧
    ∀ e, e ∈ es → e_inode e = 0 ∨ is_Some (nodes (e_inode e))
}.

Context (fs : Ext2) (nodes : Z → option (list Z)) (dirs : Z → option (list entry)) (Him : image fs nodes dirs).

Lemma wp_get_node i d (Q : Node → S → Prop) s :
  nodes i = Some d → I s → (∀ s', I s' → Q (mkNode i d (blockSize fs)) s') → wp (get_node ide fs i) Q s.
Proof.
  intros Hi HI HQ. destruct (im_size _ _ _ Him) as (Hb & Hs & Hp).
  destruct (im_node _ _ _ Him i d Hi) as (Hr & Hg & base & Hbase & Hb' & Hle & ->).
  pose proof (co_size _ _ _ Hide). unfold get_node.
  assert (0 ≤ (i - 1) / iNodesPerGroup fs) by (apply Z.div_pos; lia).
  pose proof (Z.mod_pos_bound (i - 1) (iNodesPerGroup fs) Hp).
  apply wp_bind, wp_assert; [lia|]. apply wp_bind, wp_assert; [lia|]. apply wp_bind, wp_require; [lia|].
  apply wp_bind, wp_assert; [done|]. apply wp_bind. eapply wp_char_at; [done|exact Hbase|].
  apply wp_bind, wp_assert; [lia|]. unfold node_offset in *. unfold NodeData.sizeof in *.
  rewrite (u32_small (base * _)), (u32_small (_ * iNodeSize fs)), u32_small by nia.
  apply wp_bind. eapply wp_read_thing; [done|done|nia|lia|lia|]. intros s' HI'. apply wp_ret. by apply HQ.
Qed.

(** ** The walk *)

Definition rest (s : list Z) (idx : Z) : list Z := drop (Z.to_nat idx) s.

Lemma rest_cons s idx c r : 0 ≤ idx → rest s idx = c :: r → rest s (idx + 1) = r ∧ s !! Z.to_nat idx = Some c.
Proof.
  unfold rest. intros Hi E. replace (Z.to_nat (idx + 1)) with (Z.to_nat idx + 1)%nat by lia.
  rewrite <-drop_drop, E. split; [done|]. rewrite <-(Nat.add_0_r (Z.to_nat idx)), <-lookup_drop, E. done.
Qed.

Lemma rest_nil s idx : rest s idx = [] → (List.length s ≤ Z.to_nat idx)%nat.
Proof. intros E%(f_equal List.length). unfold rest in E. rewrite length_drop in E. simpl in E. lia. Qed.

Lemma rest_length s idx : 0 ≤ idx ≤ Z.of_nat (List.length s) → Z.of_nat (List.length (rest s idx)) = Z.of_nat (List.length s) - idx.
Proof. intros. unfold rest. rewrite length_drop. lia. Qed.

(** The next character of the path. *)
Definition next_char (s : list Z) (idx : Z) : Z := default 0 (rest s idx !! 0%nat).

Lemma wp_path_char p s idx (Q : Z → S → Prop) σ :
  points_to p s → 0 ≤ idx ≤ Z.of_nat (List.length s) → Q (next_char s idx) σ → wp (char_at p idx) Q σ.
Proof.
  intros Hp Hi HQ. eapply wp_char_at; [lia|by apply points_to_at|].
  unfold next_char, rest in HQ. by rewrite lookup_drop, Nat.add_0_r in HQ.
Qed.

Context (p s : list Z) (Hp : points_to p s) (Hlen : Z.of_nat (List.length s) < int_max).

Lemma wp_skip idx (Q : Z → S → Prop) σ :
  0 ≤ idx ≤ Z.of_nat (List.length s) →
  (∀ idx', idx ≤ idx' ≤ Z.of_nat (List.length s) → parts (rest s idx') = parts (rest s idx) →
     next_char s idx' ≠ chr "/" → Q idx' σ) →
  wp (iter (Datatypes.S (List.length p)) (skip_body p) idx) Q σ.
Proof.
  intros Hi HQ.
  apply (wp_iter (λ j σ', σ' = σ ∧ idx ≤ j ≤ Z.of_nat (List.length s) ∧ parts (rest s j) = parts (rest s idx))
                 (λ j _, Z.to_nat (Z.of_nat (List.length s) - j))).
  - intros j σ' (-> & Hj & Hparts). unfold skip_body. apply wp_bind.
    eapply wp_path_char; [done|lia|]. apply wp_ret. destruct (decide (next_char s j = chr "/")) as [E|E]; [|by apply HQ].
    unfold next_char in E. destruct (rest s j) as [|c r] eqn:Er; simpl in E; [done|]. subst c.
    destruct (rest_cons s j _ r ltac:(lia) Er) as [Er' El]. apply lookup_lt_Some in El.
    unfold int_max in Hlen. rewrite u32_small by lia. split; [|lia]. split_and!; [done|lia|lia|].
    rewrite Er', <-Hparts. done.
  - split_and!; try done; lia.
  - apply points_to_length in Hp. lia.
Qed.

Lemma parts_from_snoc part r :
  (∀ c, r !! 0%nat = Some c → c = chr "/") → parts_from part r = emit part (parts r).
Proof.
  destruct r as [|c r]; intros Hc; [done|]. simpl. by rewrite !decide_True by (by apply Hc).
Qed.

(** The next part, or an assertion that fails when it has more than 256
    characters. *)
Lemma wpx_part idx (Q : Z * list Z → S → Prop) R σ :
  0 ≤ idx ≤ Z.of_nat (List.length s) → next_char s idx ≠ chr "/" → next_char s idx ≠ 0 →
  (∀ idx' part, idx < idx' ≤ Z.of_nat (List.length s) → parts (rest s idx) = part :: parts (rest s idx') →
     (List.length part ≤ 256)%nat → (0 ∉ part) → Q (idx', part) σ) →
  (∀ part ps, parts (rest s idx) = part :: ps → (256 < List.length part)%nat → R σ) →
  wpx (iter (Datatypes.S (List.length p)) (part_body p) (idx, [])) Q R σ.
Proof.
  intros Hi Hc Hc0 HQ HR.
  apply (wpx_iter R (λ '(j, part) σ', σ' = σ ∧ idx ≤ j ≤ Z.of_nat (List.length s) ∧ (j = idx ↔ part = []) ∧
                      parts_from part (rest s j) = parts (rest s idx) ∧ (List.length part ≤ 256)%nat ∧ (0 ∉ part))
                    (λ '(j, _) _, Z.to_nat (Z.of_nat (List.length s) - j))).
  - intros [j part] σ' (-> & Hj & Hne & Hparts & Hpl & H0). unfold part_body. apply wpx_bind.
    apply wp_wpx. eapply wp_path_char; [done|lia|].
    destruct (decide (next_char s j = 0 ∨ next_char s j = chr "/")) as [E|E].
    + apply wpx_ret. assert (Hij : j ≠ idx) by (intros ->; tauto).
      assert (Hpart : part ≠ []) by tauto. apply HQ; [lia| |done|done].
      rewrite <-Hparts, parts_from_snoc; [by destruct part|]. intros c Hc'.
      unfold next_char in E. rewrite Hc' in E. simpl in E. destruct E as [->|]; [|done].
      exfalso. destruct Hp as [Hs0 _]. apply Hs0. unfold rest in Hc'. rewrite lookup_drop in Hc'.
      by eapply list_elem_of_lookup_2.
    + unfold next_char in *. destruct (rest s j) as [|c r] eqn:Er; simpl in *; [tauto|].
      destruct (rest_cons s j _ r ltac:(lia) Er) as [Er' El]. apply lookup_lt_Some in El.
      rewrite decide_False in Hparts by tauto.
      apply wpx_bind. unfold assert. destruct (decide _) as [Hlt|Hge].
      * apply wpx_ret, wpx_ret. unfold int_max in Hlen. rewrite u32_small by lia. split; [|lia].
        rewrite Er'. split_and!; try done; try lia.
        -- split; [lia|]. by destruct part.
        -- rewrite length_app. simpl. lia.
        -- rewrite not_elem_of_app, not_elem_of_cons. split; [done|]. split; [|apply not_elem_of_nil]. intros <-. tauto.
      * (* the part is already 256 long, and another character follows *)
        assert (Hfrom : ∀ r part', (part' ≠ []) → ∃ q ps, parts_from part' r = q :: ps ∧ (List.length part' ≤ List.length q)%nat).
        { clear. induction r as [|c r IH]; intros part' Hn; simpl.
          - exists part', []. by destruct part'.
          - destruct (decide _); [exists part'; eexists; by destruct part'|].
            destruct (IH (part' ++ [c])) as (q & ps & E & Hl); [by destruct part'|].
            exists q, ps. split; [done|]. rewrite length_app in Hl. simpl in Hl. lia. }
        destruct (Hfrom r (part ++ [c])) as (q & ps & E' & Hl); [by destruct part|].
        eapply (HR q ps); [by rewrite <-Hparts|]. rewrite length_app in Hl. simpl in Hl. lia.
  - split_and!; try done; try lia; [simpl; lia|apply not_elem_of_nil].
  - apply points_to_length in Hp. lia.
Qed.

(** The node found, for an i-number. *)
Definition node_at (i : Z) : option Node := (λ d, mkNode i d (blockSize fs)) <$> nodes i.

Lemma lookup_name_inode name es : lookup_name name es = 0 ∨ ∃ e, e ∈ es ∧ lookup_name name es = e_inode e.
Proof.
  unfold lookup_name. induction es as [|e es IH] using rev_ind; [by left|]. rewrite foldl_app. simpl.
  destruct (decide _); [right; exists e; set_solver|].
  destruct IH as [IH|(e' & He & IH)]; [by left|right; exists e'; set_solver].
Qed.

Lemma wpx_find i σ :
  is_Some (nodes i) → I σ →
  wpx (find ide fs (node_at i) p)
      (λ r σ', I σ' ∧ match resolve dirs i (parts s) with
                      | Found j => r = node_at j ∧ is_Some (nodes j)
                      | Missing => r = None
                      | Stops => False
                      end)
      (λ _, resolve dirs i (parts s) = Stops) σ.
Proof.
  intros Hi HI. unfold find.
  apply (wpx_iter _ (λ '(cur, idx) σ', I σ' ∧ 0 ≤ idx ≤ Z.of_nat (List.length s) ∧
                       match cur with
                       | None => resolve dirs i (parts s) = Missing
                       | Some n => ∃ j d, nodes j = Some d ∧ n = mkNode j d (blockSize fs) ∧
                                     resolve dirs i (parts s) = resolve dirs j (parts (rest s idx))
                       end)
                    (λ '(cur, idx) _, (Z.to_nat (Z.of_nat (List.length s) - idx) + match cur with None => 0 | Some _ => 1 end)%nat)).
  - intros [cur idx] σ' (HI' & Hidx & Hcur). unfold find_body. apply wpx_bind, wp_wpx.
    apply wp_skip; [done|]. intros idx1 Hidx1 Hparts Hslash. apply wpx_bind, wp_wpx.
    eapply wp_path_char; [done|lia|]. destruct cur as [n|]; [|apply wpx_ret; by rewrite Hcur].
    destruct Hcur as (j & d & Hd & -> & Hres). rewrite <-Hparts in Hres.
    destruct (decide (next_char s idx1 = 0)) as [E0|E0].
    { apply wpx_ret. unfold next_char in E0. destruct (rest s idx1) as [|c r] eqn:Er.
      - rewrite Hres. simpl. unfold node_at. by rewrite Hd.
      - simpl in E0. subst c. exfalso. destruct Hp as [Hs0 _]. apply Hs0.
        destruct (rest_cons s idx1 _ r ltac:(lia) Er) as [_ El]. by eapply list_elem_of_lookup_2. }
    apply wpx_bind. apply wpx_part; [lia|done|done| |].
    + intros idx2 part Hidx2 Hps Hpl H0. rewrite Hps in Hres. simpl in Hres. rewrite decide_False in Hres by lia.
      apply wpx_bind. destruct (dirs j) as [es|] eqn:Ed.
      * destruct (im_dir _ _ _ Him j d es Hd Ed) as (Hdir & Hok & Hat & Hin).
        apply wp_wpx. eapply wp_node_find; [done|done|done|exact Hat|done|done|unfold int_max; lia|].
        intros σ2 HI2. destruct (decide (lookup_name part es = 0)) as [|Hn].
        -- apply wpx_ret. split; [split_and!; [done|lia|lia|done]|lia].
        -- destruct (lookup_name_inode part es) as [|(e & He & Ee)]; [done|]. destruct (Hin e He) as [|[d' Hd']]; [congruence|].
           rewrite <-Ee in Hd'. apply wpx_bind, wp_wpx. eapply wp_get_node; [exact Hd'|done|]. intros σ3 HI3.
           apply wpx_ret. split; [|lia]. split_and!; [done|lia|lia|]. by eexists _, d'.
      * unfold node_find, entries, wpx. simpl. unfold mbind, M_bind, assert.
        rewrite decide_False by (rewrite (im_file _ _ _ Him j d Hd Ed); done). done.
    + intros part ps Hps Hlong. rewrite Hres, Hps. simpl. by rewrite decide_True.
  - split_and!; [done|lia|lia|]. destruct Hi as [d Hd]. unfold node_at. rewrite Hd. simpl. by eexists i, d.
  - apply points_to_length in Hp. unfold node_at. destruct (nodes i); simpl; lia.
Qed.
End image.

(** ** Properties *)

Section properties.
Context {S : Type} (ide : BlockIO S) (I : S → Prop) (disk : Z → Z) (Hide : Content ide I disk).

(** C8. On a disk that holds an image of a directory graph, [find]
    terminates and returns the node that the parts of the path lead to
    from the given one, slashes repeated or at the ends notwithstanding,
    and null if a part is not in its directory; it stops the machine
    exactly when a part is looked up in a node that is not a directory, or
    has more than 256 characters. *)
Theorem find_resolves fs nodes dirs p s i σ :
  image ide disk fs nodes dirs → points_to p s → Z.of_nat (List.length s) < int_max →
  is_Some (nodes i) → I σ →
  wpx (find ide fs (node_at fs nodes i) p)
      (λ r σ', I σ' ∧ match resolve dirs i (parts s) with
                      | Found j => r = node_at fs nodes j ∧ is_Some (nodes j)
                      | Missing => r = None
                      | Stops => False
                      end)
      (λ _, resolve dirs i (parts s) = Stops) σ.
Proof. intros. by apply (wpx_find ide I disk Hide). Qed.

(** A file or directory whose blocks lie on the device is read as one
    range of bytes, through the direct and the first indirect block. *)
Theorem node_reads n offset len σ :
  node_ok ide disk n → I σ → 0 ≤ offset ≤ NodeData.size_low (data n) → 0 ≤ len < 2 ^ 32 →
  wp (read_all (node_io ide n) offset len)
     (λ r σ', I σ' ∧ let m := Z.min len (NodeData.size_low (data n) - offset) in
                     r = (m, slice (node_content disk n) offset (Z.to_nat m))) σ.
Proof.
  intros Hok HI Ho Hl. eapply wp_read_all; [by eapply node_io_content|done|done|done|]. by intros.
Qed.

(** A listing of a directory is the names of its entries separated by
    spaces and ended by a zero, its length is what
    [get_length_of_dir_entries] says, and [entry_count] counts the
    entries. *)
Theorem directory_lists n es σ :
  node_ok ide disk n → NodeData.is_dir (data n) = true → dir_at disk n 0 es → es ≠ [] → I σ →
  wp (get_dir_entries ide n) (λ b σ', I σ' ∧ b = removelast (listing es) ++ [0] ∧
                                      List.length b = List.length (listing es)) σ ∧
  wp (get_length_of_dir_entries ide n) (λ l σ', I σ' ∧ l = u32 (Z.of_nat (List.length (listing es)))) σ ∧
  wp (entry_count ide n) (λ c σ', I σ' ∧ c = u32 (Z.of_nat (List.length es))) σ.
Proof.
  intros Hok Hdir Hd Hne HI. split_and!.
  - eapply wp_dir_entries; [done|done|done|done|done|done|]. intros σ' HI'. split_and!; [done|done|].
    assert (Hn : listing es ≠ []) by (destruct es as [|e es']; [done|]; unfold listing; simpl; by destruct (e_name e)).
    destruct (exists_last Hn) as (l & x & ->). by rewrite removelast_last, !length_app.
  - eapply wp_dir_name_length; [done|done|done|done|done|]. by intros σ' HI'.
  - eapply wp_entry_count; [done|done|done|done|done|]. by intros σ' HI'.
Qed.

(** The geometry that the super block of a disk describes. *)
Definition geometry : Ext2 :=
  let sb := slice disk 1024 140 in
  let bs := 1024 * 2 ^ SuperBlock.log_block_size sb in
  let groups := (SuperBlock.blocks_count sb + SuperBlock.blocks_per_group sb - 1) / SuperBlock.blocks_per_group sb in
  mkExt2 bs (SuperBlock.inodes_count sb) (SuperBlock.blocks_count sb) (SuperBlock.inode_size sb) groups
         (map (BlockGroup.inode_table (slice disk ((1024 / bs + 1) * bs) (Z.to_nat (32 * groups)))) (seqZ 0 groups))
         (SuperBlock.inodes_per_group sb).

(** The group descriptors lie on the device, and nothing overflows. *)
Definition mountable : Prop :=
  let sb := slice disk 1024 140 in
  let fs := geometry in
  0 ≤ SuperBlock.log_block_size sb < 22 ∧ 0 < SuperBlock.blocks_per_group sb ∧
  0 ≤ SuperBlock.blocks_count sb ∧ SuperBlock.blocks_count sb + SuperBlock.blocks_per_group sb < 2 ^ 32 ∧
  1164 ≤ size_in_bytes ide ∧
  (1024 / blockSize fs + 1) * blockSize fs + 32 * nGroups fs ≤ size_in_bytes ide.

(** Mounting reads the geometry from the super block and the tables
    from the group descriptors, and finds the root at node 2.  (The magic
    number is not looked at.) *)
Theorem mount_reads nodes dirs d σ :
  mountable → image ide disk geometry nodes dirs → nodes 2 = Some d → I σ →
  wp (mount ide) (λ r σ', I σ' ∧ r = (geometry, mkNode 2 d (blockSize geometry))) σ.
Proof.
  intros (Hlog & Hbpg & Hbc & Hsum & Hdev & Hgrp) Him Hroot HI. pose proof (co_size _ _ _ Hide) as Hsz.
  unfold mount. apply wp_bind. eapply wp_read_thing; [done|done|lia|done|unfold SuperBlock.sizeof; lia|].
  change (Z.to_nat SuperBlock.sizeof) with 140%nat. intros σ1 HI1.
  set (sb := slice disk 1024 140) in *. set (bpg := SuperBlock.blocks_per_group sb) in *.
  set (bc := SuperBlock.blocks_count sb) in *. set (log := SuperBlock.log_block_size sb) in *.
  assert (Hbs : u32 (Z.shiftl 1 (log + 10)) = 1024 * 2 ^ log).
  { rewrite Z.shiftl_1_l, Z.pow_add_r by lia. change (2 ^ 10) with 1024.
    pose proof (Z.pow_lt_mono_r 2 log 22 ltac:(lia) ltac:(lia) ltac:(lia)).
    pose proof (Z.pow_pos_nonneg 2 log ltac:(lia) ltac:(lia)). rewrite u32_small; lia. }
  rewrite (u32_small (log + 10)) by lia.
  apply wp_bind, wp_require; [lia|]. apply wp_bind, wp_require; [lia|].
  rewrite Hbs, (u32_small (bc + bpg)), (u32_small (bc + bpg - 1)) by lia.
  pose proof (Z.div_mod (bc + bpg - 1) bpg ltac:(lia)) as Hdm.
  pose proof (Z.mod_pos_bound (bc + bpg - 1) bpg ltac:(lia)) as Hm.
  assert (Hgrp' : blockSize geometry = 1024 * 2 ^ log ∧ nGroups geometry = (bc + bpg - 1) / bpg) by done.
  destruct Hgrp' as [Eb Eg]. rewrite Eb, Eg in Hgrp. set (groups := (bc + bpg - 1) / bpg) in *.
  assert (Hg0 : 0 ≤ groups) by (apply Z.div_pos; lia).
  assert (Hbs0 : 1 ≤ 2 ^ log) by (pose proof (Z.pow_pos_nonneg 2 log ltac:(lia) ltac:(lia)); lia).
  set (bs := 1024 * 2 ^ log) in *. assert (Hq : 0 ≤ 1024 / bs) by (apply Z.div_pos; lia).
  apply wp_bind, wp_assert; [rewrite u32_small; nia|].
  change BlockGroup.sizeof with 32. rewrite (u32_small (32 * groups)), (u32_small ((1024 / bs + 1) * bs)) by nia.
  apply wp_bind. eapply wp_read_all; [done|done|nia|lia|]. intros σ2 HI2 m.
  assert (m = 32 * groups) as -> by lia. apply wp_bind, wp_assert; [done|].
  apply wp_bind. change (mkExt2 bs _ bc _ groups _ _) with geometry.
  eapply wp_get_node; [done|done|done|done|]. intros σ3 HI3. by apply wp_ret.
Qed.
End properties.

(** ** Witnesses *)

Module Sample.

(** A disk of sixteen blocks: its integers, each with its offset and width.
    The root directory has a file [f] that holds the word hello. *)
Definition fields : list (Z * Z * Z) :=
  [(1024, 4, 16); (1028, 4, 16); (1056, 4, 16); (1064, 4, 16); (1112, 2, 128);
   (2056, 4, 3);
   (3200, 2, 0x4000); (3204, 4, 1024); (3228, 4, 2); (3240, 4, 8);
   (3584, 2, 0x8000); (3588, 4, 5); (3612, 4, 2); (3624, 4, 9);
   (8192, 4, 2); (8196, 2, 12); (8198, 1, 1); (8200, 1, 46);
   (8204, 4, 2); (8208, 2, 12); (8210, 1, 2); (8212, 2, 0x2e2e);
   (8216, 4, 5); (8220, 2, 1000); (8222, 1, 1); (8224, 1, 102);
   (9216, 4, 0x6c6c6568); (9220, 1, 111)].

Fixpoint byte_in (fs : list (Z * Z * Z)) (i : Z) : Z :=
  match fs with
  | [] => 0
  | (o, n, v) :: fs => if decide (o ≤ i < o + n) then v / 2 ^ (8 * (i - o)) mod 256 else byte_in fs i
  end.

Definition disk : Z → Z := byte_in fields.
Definition device {S} : BlockIO S := mkBlockIO 512 16384 (λ k, mret (slice disk (k * 512) 512)).

Definition root_data : list Z := slice disk 3200 128.
Definition file_data : list Z := slice disk 3584 128.
Definition nodes (i : Z) : option (list Z) :=
  if decide (i = 2) then Some root_data else if decide (i = 5) then Some file_data else None.
Definition root_entries : list entry :=
  [mkEntry 2 12 (lit "."); mkEntry 2 12 (lit ".."); mkEntry 5 1000 (lit "f")].
Definition dirs (i : Z) : option (list entry) := if decide (i = 2) then Some root_entries else None.
Definition root : Node := mkNode 2 root_data 1024.

Lemma device_ok {S} (I : S → Prop) : Content device I disk.
Proof. split; simpl; [lia|lia|]. by intros. Qed.

Lemma geometry_eq : geometry disk = mkExt2 1024 16 16 128 1 [3] 16.
Proof. vm_compute. reflexivity. Qed.

Lemma root_ok {S} : node_ok (S := S) device disk root.
Proof.
  assert (Hsize : NodeData.size_low root_data = 1024) by (vm_compute; reflexivity).
  split; simpl; rewrite ?Hsize; [lia|lia| |lia].
  intros k Hk Hlt. assert (k = 0) as -> by lia. vm_compute. repeat split; discriminate || reflexivity.
Qed.

Lemma root_entries_ok : dir_at disk root 0 root_entries.
Proof.
  unfold root_entries. cbn [dir_at].
  repeat split; apply (bool_decide_unpack _); vm_compute; exact I.
Qed.

Lemma image_ok {S} : image (S := S) device disk (geometry disk) nodes dirs.
Proof.
  rewrite geometry_eq. split.
  - simpl. lia.
  - intros i d. unfold nodes. destruct (decide (i = 2)) as [->|]; [|destruct (decide (i = 5)) as [->|]; [|done]];
      intros [= <-]; (split; [simpl; lia|]); (split; [vm_compute; reflexivity|]); exists 3;
      vm_compute; repeat split; discriminate || reflexivity.
  - intros i d. unfold nodes, dirs. destruct (decide (i = 2)) as [->|]; [done|].
    destruct (decide (i = 5)) as [->|]; [|done]. intros [= <-] _. vm_compute. reflexivity.
  - intros i d es. unfold nodes at 1, dirs. destruct (decide (i = 2)) as [->|]; [|done]. intros [= <-] [= <-].
    split; [vm_compute; reflexivity|]. split; [apply root_ok|]. split; [apply root_entries_ok|].
    intros e [->|[->|[->|[]%elem_of_nil]%elem_of_cons]%elem_of_cons]%elem_of_cons; right; vm_compute; by eexists.
Qed.
End Sample.

Definition sample_path : list Z := lit "//f/".

Lemma find_resolves_witness :
  resolve Sample.dirs 2 (parts sample_path) = Found 5 ∧
  wpx (find Sample.device (geometry Sample.disk) (node_at (geometry Sample.disk) Sample.nodes 2) (cstring sample_path))
      (λ r σ', True ∧ match resolve Sample.dirs 2 (parts sample_path) with
                      | Found j => r = node_at (geometry Sample.disk) Sample.nodes j ∧ is_Some (Sample.nodes j)
                      | Missing => r = None
                      | Stops => False
                      end)
      (λ _, resolve Sample.dirs 2 (parts sample_path) = Stops) ().
Proof.
  split; [vm_compute; reflexivity|].
  apply (find_resolves Sample.device (λ _, True) Sample.disk (Sample.device_ok _) _ _ Sample.dirs);
    [apply Sample.image_ok| |vm_compute; reflexivity|vm_compute; by eexists|done].
  apply points_to_cstring. apply (bool_decide_unpack _). vm_compute. exact I.
Defined.

Lemma node_reads_witness :
  slice (node_content Sample.disk Sample.root) 8 1 = lit "." ∧
  wp (read_all (node_io Sample.device Sample.root) 8 1)
     (λ r σ', True ∧ let m := Z.min 1 (NodeData.size_low (data Sample.root) - 8) in
                     r = (m, slice (node_content Sample.disk Sample.root) 8 (Z.to_nat m))) ().
Proof.
  split; [vm_compute; reflexivity|].
  apply (node_reads Sample.device (λ _, True) Sample.disk (Sample.device_ok _)); [apply Sample.root_ok|done| |lia].
  vm_compute. split; discriminate.
Defined.

Lemma directory_lists_witness :
  removelast (listing Sample.root_entries) ++ [0] = cstring (lit ". .. f") ∧
  wp (get_dir_entries Sample.device Sample.root)
     (λ b σ', True ∧ b = removelast (listing Sample.root_entries) ++ [0] ∧
              List.length b = List.length (listing Sample.root_entries)) () ∧
  wp (get_length_of_dir_entries Sample.device Sample.root)
     (λ l σ', True ∧ l = u32 (Z.of_nat (List.length (listing Sample.root_entries)))) () ∧
  wp (entry_count Sample.device Sample.root)
     (λ c σ', True ∧ c = u32 (Z.of_nat (List.length Sample.root_entries))) ().
Proof.
  split; [vm_compute; reflexivity|].
  apply (directory_lists Sample.device (λ _, True) Sample.disk (Sample.device_ok _));
    [apply Sample.root_ok|vm_compute; reflexivity|apply Sample.root_entries_ok|done|done].
Defined.

Lemma mount_reads_witness :
  geometry Sample.disk = mkExt2 1024 16 16 128 1 [3] 16 ∧
  wp (mount Sample.device)
     (λ r σ', True ∧ r = (geometry Sample.disk, mkNode 2 Sample.root_data (blockSize (geometry Sample.disk)))) ().
Proof.
  split; [apply Sample.geometry_eq|].
  apply (mount_reads Sample.device (λ _, True) Sample.disk (Sample.device_ok _) Sample.nodes Sample.dirs);
    [|apply Sample.image_ok|vm_compute; reflexivity|done].
  vm_compute. repeat split; discriminate || reflexivity.
Defined.

(** A block number of zero stands for a block of zeros in the format, but
    here block zero of the disk is read. *)
Definition holed : Node := mkNode 7 (<[4%nat := 1]> (<[28%nat := 2]> (replicate 128 0))) 1024.

Example hole_reads_block_zero (d : Z → Z) : node_content d holed 0 = d 0.
Proof. reflexivity. Qed.
