(* ===== verification/Elf.v ===== *)
(** * Loading programs (kernel/elf.cc, kernel/elf.h)

    The loader copies the segments of an executable file into memory, with
    [put] to store bytes.  It does not look where the segments go: the user
    half of memory, as the running address space shows it byte by byte, is
    the state here, and a segment elsewhere is a fault.  What page faults do
    behind the user half is the subject of [VmmProps]. *)

From S2P Require Import Prelude.
From S2P Require Import Libk.
From S2P Require Import BlockIO.
From S2P Require Import Ext2.

Abbreviation memory := (Z → Z).

Module ElfHeader.
Definition sizeof : Z := 52.
Definition magic (b : list Z) (i : nat) : Z := field b i 1.
Definition entry (b : list Z) : Z := field b 24 4.
Definition phoff (b : list Z) : Z := field b 28 4.
Definition phentsize (b : list Z) : Z := field b 42 2.
Definition phnum (b : list Z) : Z := field b 44 2.
End ElfHeader.

Module ProgramHeader.
Definition sizeof : Z := 32.
Definition type (b : list Z) : Z := field b 0 4.
Definition offset (b : list Z) : Z := field b 4 4.
Definition vaddr (b : list Z) : Z := field b 8 4.
Definition filesz (b : list Z) : Z := field b 16 4.
End ProgramHeader.

(** The user half of memory, without the registers of the two APICs. *)
Definition clear_of (base a n : Z) : Prop := n ≤ 0 ∨ a + n ≤ base ∨ base + 4096 ≤ a.
#[export] Instance clear_of_dec base a n : Decision (clear_of base a n).
Proof. unfold clear_of. apply _. Defined.

Definition user_range (ioAPIC localAPIC a n : Z) : Prop :=
  0x80000000 ≤ a ∧ a + n ≤ 2 ^ 32 ∧ clear_of localAPIC a n ∧ clear_of ioAPIC a n.
#[export] Instance user_range_dec ioAPIC localAPIC a n : Decision (user_range ioAPIC localAPIC a n).
Proof. unfold user_range. apply _. Defined.

(** A buffer from [new char[n]] after [read_all] into it: what is not read
    is [junk]. *)
Definition filled (junk : Z → Z) (b : list Z) (n : Z) : list Z :=
  b ++ slice junk (Z.of_nat (List.length b)) (Z.to_nat n - List.length b).

(** The bytes [b] stored from address [a] on. *)
Definition blit (m : memory) (a : Z) (b : list Z) : memory :=
  λ i, match (if decide (a ≤ i) then b !! Z.to_nat (i - a) else None) with Some x => x | None => m i end.

Section elf.
Context {S : Type} (put : Z → list Z → M S ()) (file : BlockIO S) (junk1 junk2 : Z → Z).

(** [progh[i]]. *)
Definition header_at (second_buffer : list Z) (i : Z) : M S (list Z) :=
  copy_part second_buffer (i * ProgramHeader.sizeof) ProgramHeader.sizeof.

Definition load_segment (second_buffer : list Z) (i : Z) : M S () :=
  cur ← header_at second_buffer i;
  if decide (ProgramHeader.type cur = 1) then
    r ← read_all file (ProgramHeader.offset cur) (ProgramHeader.filesz cur);
    put (ProgramHeader.vaddr cur) r.2
  else mret ().

(** [ELF::load]: the entry point. *)
Definition load : M S Z :=
  r ← read_all file 0 ElfHeader.sizeof;
  let elf := filled junk1 r.2 ElfHeader.sizeof in
  (if decide (ElfHeader.magic elf 0 ≠ 0x7F ∨ ElfHeader.magic elf 1 ≠ chr "E" ∨
              ElfHeader.magic elf 2 ≠ chr "L" ∨ ElfHeader.magic elf 3 ≠ chr "F")
   then panic else mret ());;
  n ← chk (ElfHeader.phnum elf * ElfHeader.phentsize elf);
  r ← read_all file (ElfHeader.phoff elf) n;
  let second_buffer := filled junk2 r.2 n in
  for_range 0 (Z.to_nat (ElfHeader.phnum elf)) (load_segment second_buffer);;
  mret (ElfHeader.entry elf).
End elf.

(** Storing into memory itself, beside the state of a device. *)
Definition put_memory {X} (ioAPIC localAPIC a : Z) (b : list Z) : M (X * memory) () :=
  require (b = [] ∨ user_range ioAPIC localAPIC a (Z.of_nat (List.length b)));;
  modify (λ s, (s.1, blit s.2 a b)).

(** ** What it loads *)

Lemma blit_in m a b i : a ≤ i < a + Z.of_nat (List.length b) → Some (blit m a b i) = b !! Z.to_nat (i - a).
Proof.
  intros Hi. unfold blit. rewrite decide_True by lia.
  destruct (lookup_lt_is_Some_2 b (Z.to_nat (i - a))) as [x ->]; [lia|done].
Qed.

Lemma blit_out m a b i : ¬ (a ≤ i < a + Z.of_nat (List.length b)) → blit m a b i = m i.
Proof.
  intros Hi. unfold blit. destruct (decide (a ≤ i)); [|done]. by rewrite lookup_ge_None_2 by lia.
Qed.

Lemma field_range b o n : Forall (λ x, 0 ≤ x < 256) b → 0 ≤ field b o n < 256 ^ Z.of_nat n.
Proof.
  intros Hb. unfold field. pose proof (le_range (take n (drop o b)) ltac:(by apply Forall_take, Forall_drop)) as Hr.
  rewrite length_take in Hr. split; [lia|]. eapply Z.lt_le_trans; [apply Hr|]. apply Z.pow_le_mono_r; lia.
Qed.

Lemma filled_full junk b n : n = Z.of_nat (List.length b) → filled junk b n = b.
Proof. intros ->. unfold filled. rewrite Nat2Z.id, Nat.sub_diag. apply app_nil_r. Qed.

Section loaded.
Context {S : Type} (put : Z → list Z → M S ()) (mem_of : S → memory) (room : Z → Z → Prop) (I : S → Prop).
Context (Hput : ∀ a b (Q : () → S → Prop) s, I s → room a (Z.of_nat (List.length b)) →
  (∀ s', I s' → mem_of s' = blit (mem_of s) a b → Q () s') → wp (put a b) Q s).
Context (file : BlockIO S) (content : Z → Z) (Hbytes : ∀ i, 0 ≤ content i < 256).
Context (Hfile : ∀ m, Content file (λ s, I s ∧ mem_of s = m) content).

Definition header : list Z := slice content 0 52.
Definition segment (i : Z) : list Z := slice content (ElfHeader.phoff header + i * 32) 32.

Abbreviation vaddr i := (ProgramHeader.vaddr (segment i)).
Abbreviation filesz i := (ProgramHeader.filesz (segment i)).

(** The header of an executable whose program headers and segments lie in
    the file. *)
Record executable : Prop := {
  ex_magic : take 4 header = 0x7F :: lit "ELF";
  ex_size : 52 ≤ size_in_bytes file;
  ex_phentsize : ElfHeader.phentsize header = 32;
  ex_headers : ElfHeader.phoff header + ElfHeader.phnum header * 32 ≤ size_in_bytes file;
  ex_segments : ∀ i, 0 ≤ i < ElfHeader.phnum header → ProgramHeader.type (segment i) = 1 →
    ProgramHeader.offset (segment i) + filesz i ≤ size_in_bytes file
}.

Definition loadable (i : Z) : Prop := 0 ≤ i < ElfHeader.phnum header ∧ ProgramHeader.type (segment i) = 1.
Definition covers (i a : Z) : Prop := vaddr i ≤ a < vaddr i + filesz i.

(** Where the segments go there is room for them. *)
Definition segments_fit : Prop := ∀ i, loadable i → room (vaddr i) (filesz i).

Lemma wp_load junk1 junk2 (J : Z → memory → Prop) (Q : Z → S → Prop) s :
  executable → segments_fit → I s → J 0 (mem_of s) →
  (∀ i m, 0 ≤ i < ElfHeader.phnum header → J i m →
     J (i + 1) (if decide (ProgramHeader.type (segment i) = 1) then
                  blit m (vaddr i) (slice content (ProgramHeader.offset (segment i)) (Z.to_nat (filesz i)))
                else m)) →
  (∀ s', I s' → J (ElfHeader.phnum header) (mem_of s') → Q (ElfHeader.entry header) s') →
  wp (load put file junk1 junk2) Q s.
Proof.
  intros [Hmag Hsz Hent Hhdr Hseg] Hfit HI HJ Hstep HQ.
  assert (Hb : ∀ o k, Forall (λ x, 0 ≤ x < 256) (slice content o k)) by (intros; by apply slice_bytes).
  pose proof (field_range header 44 2 (Hb 0 52%nat)) as Hn. change (field header 44 2) with (ElfHeader.phnum header) in Hn.
  pose proof (field_range header 28 4 (Hb 0 52%nat)) as Ho. change (field header 28 4) with (ElfHeader.phoff header) in Ho.
  unfold load. apply wp_bind. eapply wp_read_all; [apply (Hfile (mem_of s))|by split|lia|done|]. intros s1 [HI1 Em1] k.
  assert (k = 52) as -> by (unfold ElfHeader.sizeof in k; lia).
  change (Z.to_nat 52) with 52%nat. cbn [snd]. fold header.
  rewrite filled_full by (unfold header; by rewrite length_slice). apply wp_bind.
  assert (Hm : ElfHeader.magic header 0 = 0x7F ∧ ElfHeader.magic header 1 = chr "E" ∧
               ElfHeader.magic header 2 = chr "L" ∧ ElfHeader.magic header 3 = chr "F").
  { unfold header in *. cbn [slice take] in Hmag. injection Hmag as E0 E1 E2 E3.
    unfold ElfHeader.magic, field. cbn [slice take drop le]. rewrite E0, E1, E2, E3. done. }
  rewrite decide_False by (intros ?; destruct_and!; intuition congruence). apply wp_ret.
  apply wp_bind, wp_chk. { rewrite Hent. unfold int_min, int_max. lia. }
  rewrite Hent. apply wp_bind. eapply wp_read_all; [apply (Hfile (mem_of s))|by split|lia|lia|]. intros s2 [HI2 Em2] k.
  assert (k = ElfHeader.phnum header * 32) as -> by lia. cbn [snd].
  set (ph := slice content (ElfHeader.phoff header) (Z.to_nat (ElfHeader.phnum header * 32))).
  rewrite filled_full by (unfold ph; rewrite length_slice; lia). apply wp_bind.
  cut (wpx (for_range 0 (Z.to_nat (ElfHeader.phnum header)) (load_segment put file ph))
           (λ _ s', I s' ∧ J (ElfHeader.phnum header) (mem_of s')) (λ _, False) s2).
  { unfold wp, wpx. destruct (for_range _ _ _ _) as [[] s'|m'| |]; try done. intros [HI' HJ']. by apply HQ. }
  eapply (wpx_for _ (λ i s, I s ∧ J i (mem_of s))); [by rewrite Em2| |intros m'; by rewrite Z.add_0_l, Z2Nat.id by lia].
  intros i s' Hi [HI' HJ']. rewrite Z2Nat.id in Hi by lia.
  unfold load_segment. apply wpx_bind, wp_wpx. unfold header_at, copy_part.
  assert (Hlen : Z.of_nat (List.length ph) = ElfHeader.phnum header * 32) by (unfold ph; rewrite length_slice; lia).
  unfold ProgramHeader.sizeof.
  apply wp_bind, wp_require; [lia|]. apply wp_ret. unfold ph.
  rewrite slice_part by lia. replace (ElfHeader.phoff header + Z.of_nat (Z.to_nat (i * 32))) with (ElfHeader.phoff header + i * 32) by lia.
  change (Z.to_nat 32) with 32%nat. fold (segment i).
  specialize (Hstep i (mem_of s') ltac:(lia) HJ').
  destruct (decide (ProgramHeader.type (segment i) = 1)) as [Ht|Ht]; [|by apply wpx_ret].
  pose proof (Hseg i ltac:(lia) Ht) as Hle.
  pose proof (field_range (segment i) 4 4 (Hb _ 32%nat)) as Hoff.
  pose proof (field_range (segment i) 16 4 (Hb _ 32%nat)) as Hsz'.
  change (field (segment i) 4 4) with (ProgramHeader.offset (segment i)) in Hoff.
  change (field (segment i) 16 4) with (ProgramHeader.filesz (segment i)) in Hsz'.
  apply wpx_bind, wp_wpx. eapply wp_read_all; [apply (Hfile (mem_of s'))|by split|lia|lia|]. intros s3 [HI3 Em3] k.
  assert (k = filesz i) as -> by lia. cbn [snd]. apply wp_wpx, Hput; [done| |].
  { rewrite length_slice, Z2Nat.id by lia. apply Hfit. by split; [lia|]. }
  intros s4 HI4 ->. rewrite Em3. by split.
Qed.
End loaded.

(** Memory with the segments in it. *)
Definition loaded_memory (content : Z → Z) (m m' : memory) : Prop :=
  (∀ i a, loadable content i → covers content i a →
     m' a = content (ProgramHeader.offset (segment content i) + (a - ProgramHeader.vaddr (segment content i)))) ∧
  (∀ a, (∀ i, loadable content i → ¬ covers content i a) → m' a = m a).

Lemma wp_load_disjoint {S} put mem_of room (I : S → Prop) file content junk1 junk2 (Q : Z → S → Prop) s :
  (∀ a b (Q : () → S → Prop) s, I s → room a (Z.of_nat (List.length b)) →
     (∀ s', I s' → mem_of s' = blit (mem_of s) a b → Q () s') → wp (put a b) Q s) →
  (∀ i, 0 ≤ content i < 256) → (∀ m, Content file (λ s, I s ∧ mem_of s = m) content) →
  executable file content → segments_fit room content →
  (∀ i j a, loadable content i → loadable content j → covers content i a → covers content j a → i = j) →
  I s → (∀ s', I s' → loaded_memory content (mem_of s) (mem_of s') → Q (ElfHeader.entry (header content)) s') →
  wp (load put file junk1 junk2) Q s.
Proof.
  intros Hput Hb Hf Hex Hfit Hdis HI HQ. set (m := mem_of s).
  apply (wp_load put mem_of room I Hput file content Hb Hf junk1 junk2
           (λ k m', (∀ i a, i < k → loadable content i → covers content i a →
                       m' a = content (ProgramHeader.offset (segment content i) + (a - ProgramHeader.vaddr (segment content i)))) ∧
                    (∀ a, (∀ i, i < k → loadable content i → ¬ covers content i a) → m' a = m a))); [done..| | |].
  - split; [|done]. intros i a Hi [[]]. lia.
  - intros k m' Hk [H1 H2]. destruct (decide (ProgramHeader.type (segment content k) = 1)) as [Ht|Ht].
    + assert (Hload : loadable content k) by done.
      pose proof (field_range (segment content k) 16 4 ltac:(by apply slice_bytes)) as Hsz.
      change (field (segment content k) 16 4) with (ProgramHeader.filesz (segment content k)) in Hsz.
      assert (Hcov : ∀ a, covers content k a ↔
        ProgramHeader.vaddr (segment content k) ≤ a < ProgramHeader.vaddr (segment content k) +
          Z.of_nat (List.length (slice content (ProgramHeader.offset (segment content k)) (Z.to_nat (ProgramHeader.filesz (segment content k)))))).
      { intros a. rewrite length_slice, Z2Nat.id by lia. done. }
      split.
      * intros i a Hi Hl Hc. destruct (decide (i = k)) as [->|].
        -- apply (inj Some). rewrite blit_in by (by apply Hcov). rewrite slice_lookup.
           ++ do 2 f_equal. destruct Hc. lia.
           ++ destruct Hc. lia.
        -- rewrite blit_out; [apply H1; [lia|done|done]|]. rewrite <-Hcov. intros Hc'. by apply n, (Hdis i k a).
      * intros a Ha. rewrite blit_out; [apply H2; intros i Hi; apply Ha; lia|]. rewrite <-Hcov. apply Ha; [lia|done].
    + split.
      * intros i a Hi Hl Hc. apply H1; [|done|done]. destruct (decide (i = k)) as [->|]; [by destruct Hl|lia].
      * intros a Ha. apply H2. intros i Hi. apply Ha. lia.
  - intros s' HI' [H1 H2]. apply HQ; [done|]. split.
    + intros i a Hl. apply H1; [|done]. destruct Hl. lia.
    + intros a Ha. apply H2. intros i _. apply Ha.
Qed.

Lemma wp_put_memory {X} ioAPIC localAPIC a b (Q : () → X * memory → Prop) s :
  (Z.of_nat (List.length b) = 0 ∨ user_range ioAPIC localAPIC a (Z.of_nat (List.length b))) →
  Q () (s.1, blit s.2 a b) → wp (put_memory ioAPIC localAPIC a b) Q s.
Proof.
  intros Hr HQ. unfold put_memory. apply wp_bind, wp_require; [|by apply wp_modify].
  destruct Hr as [Hr|Hr]; [left; by destruct b|by right].
Qed.

(** ** Properties *)

(** The segments lie in the user half, clear of the APICs, or are empty. *)
Definition in_user_half (ioAPIC localAPIC : Z) (content : Z → Z) : Prop :=
  segments_fit (λ a n, n = 0 ∨ user_range ioAPIC localAPIC a n) content.

(** Loading an executable whose segments do not overlap and lie in the user
    half puts every segment where its program header says, byte for byte,
    leaves the rest of the user half alone and returns the entry point. *)
Theorem load_places_segments {X} (I : X → Prop) ioAPIC localAPIC file content junk1 junk2 x m :
  (∀ i, 0 ≤ content i < 256) → (∀ m0, Content file (λ s, I s.1 ∧ s.2 = m0) content) → executable file content →
  in_user_half ioAPIC localAPIC content →
  (∀ i j a, loadable content i → loadable content j → covers content i a → covers content j a → i = j) → I x →
  wp (load (put_memory ioAPIC localAPIC) file junk1 junk2)
     (λ entry s', entry = ElfHeader.entry (header content) ∧ I s'.1 ∧
        (∀ i a, loadable content i → covers content i a →
           s'.2 a = content (ProgramHeader.offset (segment content i) + (a - ProgramHeader.vaddr (segment content i)))) ∧
        (∀ a, (∀ i, loadable content i → ¬ covers content i a) → s'.2 a = m a)) (x, m).
Proof.
  intros Hb Hf Hex Hfit Hdis HI. eapply (wp_load_disjoint _ snd _ (λ s, I s.1)); [|done..|].
  - intros a b Q s HI' Hr HQ. apply wp_put_memory; [exact Hr|]. by apply HQ.
  - intros s' HI' [H1 H2]. by split_and!.
Qed.

(** ** Witness *)

(** An executable of one segment, and another program header. *)
Definition sample_file : memory :=
  Sample.byte_in
    [(0, 4, 0x464c457f); (24, 4, 0x80000010); (28, 4, 52); (42, 2, 32); (44, 2, 2);
     (52, 4, 4); (84, 4, 1); (88, 4, 128); (92, 4, 0x80000000); (100, 4, 5);
     (128, 4, 0x6c6c6568); (132, 1, 111)].
Definition sample_exe : BlockIO (() * memory) := mkBlockIO 64 200 (λ k, mret (slice sample_file (k * 64) 64)).

Lemma sample_exe_ok m0 : Content sample_exe (λ s, True ∧ s.2 = m0) sample_file.
Proof. split; simpl; [lia|lia|]. by intros. Qed.

Lemma sample_file_bytes i : 0 ≤ sample_file i < 256.
Proof.
  unfold sample_file, Sample.byte_in.
  repeat match goal with |- context [if decide ?P then _ else _] => destruct (decide P); [apply Z.mod_pos_bound; lia|] end.
  lia.
Qed.

Lemma sample_exe_executable : executable sample_exe sample_file.
Proof.
  split; try (apply (bool_decide_unpack _); vm_compute; exact I).
  intros i Hi Ht. assert (Hn : ElfHeader.phnum (header sample_file) = 2) by (vm_compute; reflexivity).
  rewrite Hn in Hi. destruct (decide (i = 0)) as [->|]; [|assert (i = 1) as -> by lia];
    apply (bool_decide_unpack _); vm_compute; exact I.
Qed.

Lemma sample_loadable i : loadable sample_file i → i = 1.
Proof.
  intros [Hi Ht]. assert (Hn : ElfHeader.phnum (header sample_file) = 2) by (vm_compute; reflexivity).
  rewrite Hn in Hi. destruct (decide (i = 0)) as [->|]; [|lia]. vm_compute in Ht. discriminate.
Qed.

Lemma load_places_segments_witness :
  (match load (put_memory 0xfec00000 0xfee00000) sample_exe (λ _, 0) (λ _, 0) (tt, λ _, 0) with
   | Ok e (_, m) => e = 0x80000010 ∧ slice m 0x80000000 6 = lit "hello" ++ [0]
   | _ => False
   end) ∧
  wp (load (put_memory 0xfec00000 0xfee00000) sample_exe (λ _, 0) (λ _, 0))
     (λ entry s', entry = ElfHeader.entry (header sample_file) ∧ True ∧
        (∀ i a, loadable sample_file i → covers sample_file i a →
           s'.2 a = sample_file (ProgramHeader.offset (segment sample_file i) + (a - ProgramHeader.vaddr (segment sample_file i)))) ∧
        (∀ a, (∀ i, loadable sample_file i → ¬ covers sample_file i a) → s'.2 a = 0)) (tt, λ _, 0).
Proof.
  split; [vm_compute; split; reflexivity|].
  apply (load_places_segments (λ _, True) 0xfec00000 0xfee00000 sample_exe sample_file);
    [apply sample_file_bytes|apply sample_exe_ok|apply sample_exe_executable| | |done].
  { intros i ->%sample_loadable. right. apply (bool_decide_unpack _); vm_compute; exact I. }
  intros i j a Hi%sample_loadable Hj%sample_loadable _ _. by subst.
Defined.
