(* ===== verification/Queue.v ===== *)
(** * The intrusive queue (kernel/queue.h)

    A singly linked list threaded through the [next] fields of its members.
    The fields of all objects are one store, since an object that is put
    into two queues has only one of them.  The lock of a queue makes each
    operation one step. *)

From S2P Require Import Prelude.

(** An object by its number; [None] is a null pointer. *)
Abbreviation links := (nat → option nat).

Definition set_next (nx : links) (t : nat) (v : option nat) : links := λ u, if decide (u = t) then v else nx u.

Record queue := mkQueue { first : option nat; last_ : option nat }.

Definition empty_queue : queue := mkQueue None None.

(** [add]: [None] if it goes through a null pointer. *)
Definition add (t : nat) (nx : links) (q : queue) : option (links * queue) :=
  let nx := set_next nx t None in
  match first q with
  | None => Some (nx, mkQueue (Some t) (Some t))
  | Some f =>
      match last_ q with
      | None => None
      | Some l => Some (set_next nx l (Some t), mkQueue (Some f) (Some t))
      end
  end.

Definition remove (nx : links) (q : queue) : option nat * queue :=
  match first q with
  | None => (None, q)
  | Some it =>
      let f := nx it in
      (Some it, mkQueue f (match f with None => None | Some _ => last_ q end))
  end.

Definition remove_all (q : queue) : option nat * queue := (first q, mkQueue None None).

(** ** What a queue holds *)

Definition is_queue (nx : links) (q : queue) (l : list nat) : Prop :=
  first q = head l ∧ last_ q = last l ∧ (∀ i t, l !! i = Some t → nx t = l !! S i).

Lemma is_queue_empty nx : is_queue nx empty_queue [].
Proof. by repeat split. Qed.

(** The links determine the members. *)
Lemma is_queue_unique nx q l l' : is_queue nx q l → is_queue nx q l' → l = l'.
Proof.
  intros (Hf & _ & Hn) (Hf' & _ & Hn'). apply list_eq. induction i as [|i IH].
  - rewrite Hf in Hf'. by destruct l, l'.
  - destruct (l !! i) as [t|] eqn:E.
    + rewrite <-(Hn i t E). apply Hn'. by rewrite <-IH.
    + symmetry in IH. apply lookup_ge_None in E, IH. rewrite !lookup_ge_None_2; [done|lia|lia].
Qed.

(** Queues without the object do not notice. *)
Lemma is_queue_frame nx q l t v : t ∉ l → is_queue nx q l → is_queue (set_next nx t v) q l.
Proof.
  intros Ht (Hf & Hl & Hn). split_and!; [done|done|]. intros i u Hu. unfold set_next.
  rewrite decide_False; [by apply Hn|]. intros ->. by apply list_elem_of_lookup_2 in Hu.
Qed.

(** [add] succeeds, changes no link but those of the object and of the last
    member, and appends. *)
Lemma add_spec nx q l t :
  is_queue nx q l → t ∉ l → NoDup l →
  ∃ nx' q', add t nx q = Some (nx', q') ∧ is_queue nx' q' (l ++ [t]) ∧
    (∀ q0 l0, (∀ u, u ∈ l0 → u ≠ t ∧ u ∉ l) → is_queue nx q0 l0 → is_queue nx' q0 l0).
Proof.
  intros (Hf & Hl & Hn) Ht Hnd. unfold add. rewrite Hf, Hl. destruct l as [|f l].
  - eexists _, _. split; [done|]. split.
    + split_and!; [done|done|]. intros [|i] u Hu; simplify_eq/=. unfold set_next. by rewrite decide_True.
    + intros q0 l0 H0 Hq0. apply is_queue_frame; [|done]. intros Hin. by destruct (H0 t Hin).
  - destruct (last (f :: l)) as [m|] eqn:Hlast; [|by apply last_None in Hlast]. simpl head.
    eexists _, _. split; [done|].
    assert (Hm : (f :: l) !! List.length l = Some m) by (rewrite last_lookup in Hlast; exact Hlast).
    assert (Hmt : m ≠ t) by (intros <-; by apply Ht, (list_elem_of_lookup_2 _ (List.length l))).
    split.
    + split_and!; [done|by rewrite last_snoc|].
      intros i u Hu. apply lookup_snoc_Some in Hu as [[Hi Hu]|[-> <-]].
      * unfold set_next. destruct (decide (u = m)) as [->|Hum].
        -- assert (i = List.length l) as -> by (eapply (NoDup_lookup (f :: l)); done).
           by rewrite (list_lookup_middle (f :: l) [] t).
        -- rewrite decide_False; [|by intros ->; apply Ht, (list_elem_of_lookup_2 _ i)].
           rewrite (Hn i u Hu). destruct (decide (S i < List.length (f :: l))%nat) as [Hlt|Hge].
           ++ by rewrite lookup_app_l.
           ++ exfalso. apply Hum. simpl in *. assert (i = List.length l) as -> by lia. congruence.
      * unfold set_next. rewrite decide_False by done. rewrite decide_True by done.
        symmetry. apply lookup_ge_None_2. rewrite length_app. simpl. lia.
    + intros q0 l0 H0 Hq0. apply is_queue_frame; [|apply is_queue_frame; [|done]].
      * intros Hin. destruct (H0 m Hin) as [_ Hn0]. by apply Hn0, (list_elem_of_lookup_2 _ (List.length l)).
      * intros Hin. by destruct (H0 t Hin).
Qed.

Lemma remove_spec nx q l :
  is_queue nx q l → fst (remove nx q) = head l ∧ is_queue nx (snd (remove nx q)) (tail l).
Proof.
  intros (Hf & Hl & Hn). unfold remove. rewrite Hf. destruct l as [|t l]; simpl; [by repeat split|].
  split; [done|]. pose proof (Hn 0%nat t eq_refl) as Ht. simpl in Ht. rewrite Ht.
  split_and!; simpl.
  - by destruct l.
  - rewrite Hl. by destruct l.
  - intros i u Hu. apply (Hn (S i) u Hu).
Qed.

(** [remove_all] hands out the whole chain. *)
Lemma remove_all_spec nx q l :
  is_queue nx q l → fst (remove_all q) = head l ∧ is_queue nx (snd (remove_all q)) [].
Proof. intros (Hf & _). split; [done|]. by repeat split. Qed.

(** ** A client *)

Inductive request := Add (t : nat) | Remove.

(** What the requests return, on the linked structure. *)
Fixpoint serve (rs : list request) (nx : links) (q : queue) : option (list (option nat)) :=
  match rs with
  | [] => Some []
  | Add t :: rs =>
      match add t nx q with Some (nx, q) => serve rs nx q | None => None end
  | Remove :: rs =>
      let '(r, q) := remove nx q in
      match serve rs nx q with Some out => Some (r :: out) | None => None end
  end.

(** The same on a list; no object is added while it is in the queue. *)
Fixpoint fifo (rs : list request) (l : list nat) : option (list (option nat)) :=
  match rs with
  | [] => Some []
  | Add t :: rs => if decide (t ∈ l) then None else fifo rs (l ++ [t])
  | Remove :: rs => match fifo rs (tail l) with Some out => Some (head l :: out) | None => None end
  end.

(** The linked queue is a first-in first-out queue: whatever is added
    and removed, as long as no object is added while it is in the queue,
    the removals return what a list would, and no null pointer is
    followed. *)
Theorem queue_fifo rs nx out :
  fifo rs [] = Some out → serve rs nx empty_queue = Some out.
Proof.
  enough (∀ nx q l out, is_queue nx q l → NoDup l → fifo rs l = Some out → serve rs nx q = Some out) as H.
  { intros. eapply H; [apply is_queue_empty|constructor|done]. }
  clear. induction rs as [|[t|] rs IH]; intros nx q l out Hq Hnd; simpl; [done| |].
  - destruct (decide (t ∈ l)); [done|]. intros Hout.
    destruct (add_spec nx q l t) as (nx' & q' & -> & Hq' & _); [done|done|done|].
    eapply IH; [exact Hq'| |done]. apply NoDup_app. split_and!; [done| |apply NoDup_singleton].
    intros u Hu ->%list_elem_of_singleton. done.
  - destruct (fifo rs (tail l)) as [o|] eqn:Ef; [|done]. intros [= <-].
    destruct (remove_spec nx q l Hq) as [H1 H2]. destruct (remove nx q) as [r q']. simpl in *. subst r.
    rewrite (IH nx q' (tail l) o); [done|done|by destruct l; [|inversion Hnd]|done].
Qed.

Lemma queue_fifo_witness :
  fifo [Add 3; Add 5; Remove; Add 3; Remove; Remove; Remove]%nat [] = Some [Some 3; Some 5; Some 3; None]%nat ∧
  serve [Add 3; Add 5; Remove; Add 3; Remove; Remove; Remove]%nat (λ _, Some 9%nat) empty_queue =
    Some [Some 3; Some 5; Some 3; None]%nat.
Proof. split; [vm_compute; reflexivity|]. apply queue_fifo. vm_compute. reflexivity. Defined.
