(* ===== verification/Threads.v ===== *)
(** * Threads and their scheduling (kernel/threads.h, kernel/threads.cc)

    The cores of the machine run [block] concurrently.  Each core goes
    through it in steps that take effect at once - an operation on a queue
    under its lock, or an access to what belongs to the core alone - and
    the steps of different cores interleave freely.  The timer interrupts a
    core between any two of them while its interrupts are on, inside
    [block] too: it is the test of the idle threads and of the
    [no_preempt] marks in [apitHandler] that makes nothing of it there.
    What a stack holds is left out but for what is to be done when [block]
    returns; the interrupt flag goes with the stack, as the context switch
    saves it there and restores it.  A thread that has taken another out of
    a queue, or created it, has it in hand until it calls [schedule]; the
    timer may come between the two.  What each step does to the places of
    threads, the queues and the hands is stated for [Kernel], which runs
    programs on the scheduler. *)

From Stdlib Require Import FunctionalExtensionality.
From S2P Require Import Prelude.
From S2P Require Import Queue.

(** ** State *)

(** The ready queue, the zombies and the queue of a semaphore. *)
Inductive qid := ReadyQ | Zombies | WaitingQ (w : nat).

#[export] Instance qid_eq_dec : EqDecision qid.
Proof. solve_decision. Defined.

Inductive blockOption := MustBlock | CanReturn.

(** What the callbacks of [yield], [stop] and [Semaphore::down] do with the
    thread that has been switched away from. *)
Inductive callback := Reschedule | Bury | WaitOn (w : nat).

(** On the way to the next thread: it has been chosen, has been marked, and
    is in [activeThreads], so that [gheith_contextSwitch] is called. *)
Inductive stage := Chosen | Marked | Entered.

(** Where a core is: running its thread, before [readyQ.remove()] with
    [me] about to block, on the way from [me] to [next], or, with interrupts
    off and on the stack of the next thread, about to run the callback on
    [me].  [core_id] and [me] are the local variables of [block]. *)
Inductive phase :=
| Run
| Look (o : blockOption) (f : callback) (core_id me : nat)
| Switch (st : stage) (f : callback) (core_id me next : nat)
| After (f : callback) (me : nat).

#[export] Instance blockOption_eq_dec : EqDecision blockOption.
Proof. solve_decision. Defined.
#[export] Instance callback_eq_dec : EqDecision callback.
Proof. solve_decision. Defined.
#[export] Instance stage_eq_dec : EqDecision stage.
Proof. solve_decision. Defined.

(** Who has called [block], where the return from it does more than go on
    with the program: [apitHandler], which has interrupted its thread in a
    phase, and [stop]. *)
Inductive frame := Interrupted (ph : phase) | Stopping.

#[export] Instance phase_eq_dec : EqDecision phase.
Proof. solve_decision. Defined.

Record sched := mkSched {
  nexts : links;
  isIdle : nat → bool;
  no_preempt : nat → bool;
  queues : qid → queue;
  activeThreads : nat → nat;
  idleThreads : nat → nat;
  at_ : nat → phase;
  next_id : nat;
  hand : nat → option nat;   (** a thread's local variable: the thread it is about to schedule *)
  dead : nat → bool;         (** deleted *)
  flag : nat → bool;         (** whether interrupts are on, on a thread's stack: in the core while it runs, else as saved *)
  frames : nat → list frame  (** on a thread's stack *)
}.

(** An update of a function at one number. *)
Definition fset {A} (f : nat → A) (i : nat) (x : A) : nat → A := λ j, if decide (j = i) then x else f j.
Definition qset (f : qid → queue) (i : qid) (x : queue) : qid → queue := λ j, if decide (j = i) then x else f j.

Definition set_phase (c : nat) (ph : phase) : M sched () :=
  modify (λ s, mkSched (nexts s) (isIdle s) (no_preempt s) (queues s) (activeThreads s) (idleThreads s)
                       (fset (at_ s) c ph) (next_id s) (hand s) (dead s) (flag s) (frames s)).
Definition set_no_preempt (t : nat) (b : bool) : M sched () :=
  modify (λ s, mkSched (nexts s) (isIdle s) (fset (no_preempt s) t b) (queues s) (activeThreads s) (idleThreads s)
                       (at_ s) (next_id s) (hand s) (dead s) (flag s) (frames s)).
Definition set_active (c t : nat) : M sched () :=
  modify (λ s, mkSched (nexts s) (isIdle s) (no_preempt s) (queues s) (fset (activeThreads s) c t) (idleThreads s)
                       (at_ s) (next_id s) (hand s) (dead s) (flag s) (frames s)).
Definition set_queues (nx : links) (q : qid → queue) : M sched () :=
  modify (λ s, mkSched nx (isIdle s) (no_preempt s) q (activeThreads s) (idleThreads s) (at_ s) (next_id s) (hand s) (dead s) (flag s) (frames s)).

Definition set_hand (t : nat) (h : option nat) : M sched () :=
  modify (λ s, mkSched (nexts s) (isIdle s) (no_preempt s) (queues s) (activeThreads s) (idleThreads s)
                       (at_ s) (next_id s) (fset (hand s) t h) (dead s) (flag s) (frames s)).
Definition set_dead (t : nat) : M sched () :=
  modify (λ s, mkSched (nexts s) (isIdle s) (no_preempt s) (queues s) (activeThreads s) (idleThreads s)
                       (at_ s) (next_id s) (hand s) (fset (dead s) t true) (flag s) (frames s)).
Definition set_flag (t : nat) (b : bool) : M sched () :=
  modify (λ s, mkSched (nexts s) (isIdle s) (no_preempt s) (queues s) (activeThreads s) (idleThreads s)
                       (at_ s) (next_id s) (hand s) (dead s) (fset (flag s) t b) (frames s)).
Definition set_frames (t : nat) (l : list frame) : M sched () :=
  modify (λ s, mkSched (nexts s) (isIdle s) (no_preempt s) (queues s) (activeThreads s) (idleThreads s)
                       (at_ s) (next_id s) (hand s) (dead s) (flag s) (fset (frames s) t l)).

(** The thread on whose stack a core is. *)
Definition on_stack (s : sched) (c : nat) : nat :=
  match at_ s c with Run | After _ _ => activeThreads s c | Look _ _ _ me | Switch _ _ _ me _ => me end.

(** Whether a core takes interrupts: [gheith_contextSwitch] turns them off. *)
Definition enabled (s : sched) (c : nat) : bool :=
  match at_ s c with After _ _ => false | _ => flag s (on_stack s c) end.

Definition q_add (id : qid) (t : nat) : M sched () :=
  s ← get;
  match add t (nexts s) (queues s id) with
  | Some (nx, q) => set_queues nx (qset (queues s) id q)
  | None => fault
  end.

Definition q_remove (id : qid) : M sched (option nat) :=
  s ← get;
  let '(r, q) := remove (nexts s) (queues s id) in
  set_queues (nexts s) (qset (queues s) id q);;
  mret r.

Definition schedule (tcb : nat) : M sched () :=
  i ← gets (λ s, isIdle s tcb);
  if i : bool then mret () else q_add ReadyQ tcb.

Definition run_callback (f : callback) (me : nat) : M sched () :=
  match f with
  | Reschedule => schedule me
  | Bury => i ← gets (λ s, isIdle s me); if i : bool then mret () else q_add Zombies me
  | WaitOn w => i ← gets (λ s, isIdle s me); assert (i = false);; q_add (WaitingQ w) me
  end.

(** ** [block], step by step *)

Definition block (c : nat) (o : blockOption) (f : callback) : M sched () :=
  me ← gets (λ s, activeThreads s c);
  set_no_preempt me true;;
  set_phase c (Look o f c me).

(** The return from [block] on the stack of [me]: to the program; through
    [apitHandler] to what it has interrupted, with interrupts on; or to
    [stop], which goes round. *)
Definition block_return (c me : nat) : M sched () :=
  fr ← gets (λ s, frames s me);
  match fr with
  | [] => set_phase c Run
  | Interrupted ph :: fr => set_frames me fr;; set_flag me true;; set_phase c ph
  | Stopping :: fr =>
      set_frames me fr;;
      i ← gets (λ s, isIdle s (activeThreads s c));
      assert (i = true);;
      set_phase c Run
  end.

Definition block_look (c : nat) (o : blockOption) (f : callback) (core_id me : nat) : M sched () :=
  r ← q_remove ReadyQ;
  match r with
  | Some next => set_phase c (Switch Chosen f core_id me next)
  | None =>
      match o with
      | CanReturn => block_return c me
      | MustBlock =>
          s ← get;
          if isIdle s me then
            assert (core_id = c);;
            assert (enabled s c = true);;
            assert (me = idleThreads s core_id);;
            assert (me = activeThreads s core_id)
          else set_phase c (Switch Chosen f core_id me (idleThreads s core_id))
      end
  end.

(** [gheith_contextSwitch] clears both marks before the callback, when
    interrupts are off. *)
Definition block_switch (c : nat) (st : stage) (f : callback) (core_id me next : nat) : M sched () :=
  match st with
  | Chosen => set_no_preempt next true;; set_phase c (Switch Marked f core_id me next)
  | Marked => set_active core_id next;; set_phase c (Switch Entered f core_id me next)
  | Entered => set_no_preempt me false;; set_no_preempt next false;; set_phase c (After f me)
  end.

Definition block_after (c : nat) (f : callback) (me : nat) : M sched () :=
  run_callback f me;;
  next ← gets (λ s, activeThreads s c);
  block_return c next.

(** ** What a running thread may do *)

Inductive action :=
| Yield
| Stop
| DownBlocked (w : nat)  (** [Semaphore::down] with a count of zero *)
| UpSome (w : nat)       (** [Semaphore::up], which schedules a waiting thread *)
| Create                 (** [thread()]: a new TCB, to be scheduled *)
| Wake                   (** the [schedule] of either *)
| Reap                   (** a round of [delete_zombies] *)
| Flag (b : bool)        (** [cli] or [sti] *)
| Go                     (** nothing that concerns the scheduler *)
| Tick.                  (** the timer interrupt *)

#[export] Instance action_eq_dec : EqDecision action.
Proof. solve_decision. Defined.

Definition yield (c : nat) : M sched () := block c CanReturn Reschedule.

Definition start_stop (c : nat) : M sched () :=
  s ← get;
  let me := activeThreads s c in
  set_frames me (Stopping :: frames s me);;
  block c MustBlock Bury.

Definition up_some (c w : nat) : M sched () :=
  me ← gets (λ s, activeThreads s c);
  r ← q_remove (WaitingQ w);
  set_hand me r.

(** A TCB that is not idle, with nothing in its [next]; on its stack are the
    flags with which it begins. *)
Definition create (c : nat) : M sched () :=
  s ← get;
  modify (λ s, mkSched (nexts s) (isIdle s) (no_preempt s) (queues s) (activeThreads s) (idleThreads s)
                       (at_ s) (S (next_id s)) (hand s) (dead s) (flag s) (frames s));;
  set_no_preempt (next_id s) false;;
  set_flag (next_id s) true;;
  set_frames (next_id s) [];;
  set_hand (activeThreads s c) (Some (next_id s)).

Definition wake (c : nat) : M sched () :=
  me ← gets (λ s, activeThreads s c);
  h ← gets (λ s, hand s me);
  match h with Some t => schedule t;; set_hand me None | None => mret () end.

Definition reap : M sched () :=
  r ← q_remove Zombies;
  match r with Some it => set_dead it | None => mret () end.

(** [apitHandler], the clock and the acknowledgement aside, with the gate
    that turns interrupts off and the [iret] that turns them on again.
    [activeThreads] has no null pointer once [threadsInit] has filled it. *)
Definition apitHandler (c : nat) : M sched () :=
  s ← get;
  let me := activeThreads s c in
  if isIdle s me || no_preempt s me then mret ()
  else
    let on := on_stack s c in
    set_frames on (Interrupted (at_ s c) :: frames s on);;
    set_flag on false;;
    yield c.

Definition act (c : nat) (a : action) : M sched () :=
  match a with
  | Yield => yield c
  | Stop => start_stop c
  | DownBlocked w => block c MustBlock (WaitOn w)
  | UpSome w => up_some c w
  | Create => create c
  | Wake => wake c
  | Reap => reap
  | Flag b => me ← gets (λ s, activeThreads s c); set_flag me b
  | Go | Tick => mret ()
  end.

(** The next step of core [c]: the timer's interrupt, if the core takes it,
    or else the next step of [block], or what its thread does, [a]. *)
Definition core_step (c : nat) (a : action) : M sched () :=
  s ← get;
  match a with
  | Tick => if enabled s c then apitHandler c else mret ()
  | _ =>
      match at_ s c with
      | Run => act c a
      | Look o f core_id me => block_look c o f core_id me
      | Switch st f core_id me next => block_switch c st f core_id me next
      | After f me => block_after c f me
      end
  end.

(** [threadsInit]: the idle threads, one for each of [n] cores; the reaper
    is the first thread created. *)
Definition threadsInit (n : nat) (nx : links) : sched :=
  mkSched nx (λ t, bool_decide (t < n)%nat) (λ _, false) (λ _, empty_queue) id id (λ _, Run) n (λ _, None) (λ _, false)
          (λ _, false) (λ _, []).

(** ** Every thread in one place *)

Inductive place :=
| Unborn
| In (q : qid)
| Held (c : nat)
| Hand (u : nat)   (** in the hand of thread [u] *)
| Parked           (** an idle thread that no core runs *)
| Gone.

#[export] Instance place_eq_dec : EqDecision place.
Proof. solve_decision. Defined.

Definition places := nat → place.

(** The threads in the hands of a core whose active thread is [a]. *)
Definition held (ph : phase) (a : nat) : list nat :=
  match ph with
  | Run | Look _ _ _ _ => [a]
  | Switch _ _ _ me next => [me; next]
  | After _ me => [me; a]
  end.

Definition queue_ok (nx : links) (q : queue) (Pl : nat → Prop) : Prop :=
  ∃ l, is_queue nx q l ∧ NoDup l ∧ ∀ t, t ∈ l ↔ Pl t.

Definition queues_ok (nx : links) (qs : qid → queue) (pl : places) : Prop :=
  ∀ id, queue_ok nx (qs id) (λ t, pl t = In id).

Lemma fset_eq {A} (f : nat → A) i x : fset f i x i = x.
Proof. unfold fset. by rewrite decide_True. Qed.
Lemma fset_ne {A} (f : nat → A) i j x : j ≠ i → fset f i x j = f j.
Proof. intros. unfold fset. by rewrite decide_False. Qed.

(** A thread that is in no queue may go from anywhere to anywhere. *)
Lemma queues_ok_move nx qs pl t p :
  (∀ id, pl t ≠ In id) → (∀ id, p ≠ In id) → queues_ok nx qs pl → queues_ok nx qs (fset pl t p).
Proof.
  intros Ht Hp Hq id. destruct (Hq id) as (l & Hl & Hnd & Hin). exists l. split_and!; [done|done|].
  intros u. rewrite Hin. destruct (decide (u = t)) as [->|]; [|by rewrite fset_ne].
  rewrite fset_eq. split; intros E; [by destruct (Ht id)|by destruct (Hp id)].
Qed.

(** What becomes of the members of the queues. *)
Definition snoc_to (id : qid) (t : nat) (id' : qid) (l : list nat) : list nat := if decide (id' = id) then l ++ [t] else l.
Definition tail_of (id id' : qid) (l : list nat) : list nat := if decide (id' = id) then tail l else l.
Definition same_lists (id : qid) (l : list nat) : list nat := l.

Definition lists_become (f : qid → list nat → list nat) (nx : links) (qs : qid → queue) (nx' : links) (qs' : qid → queue) : Prop :=
  ∀ id l, is_queue nx (qs id) l → is_queue nx' (qs' id) (f id l).

Lemma queues_ok_add nx qs pl id t :
  queues_ok nx qs pl → (∀ id, pl t ≠ In id) →
  ∃ nx' q', add t nx (qs id) = Some (nx', q') ∧ queues_ok nx' (qset qs id q') (fset pl t (In id)) ∧
    lists_become (snoc_to id t) nx qs nx' (qset qs id q').
Proof.
  intros Hq Ht. destruct (Hq id) as (l & Hl & Hnd & Hin).
  assert (Htl : t ∉ l) by (intros E; by apply (Ht id), Hin).
  destruct (add_spec nx (qs id) l t Hl Htl Hnd) as (nx' & q' & E & Hq' & Hframe).
  exists nx', q'. split; [done|]. split; [|intros id' l' Hl'; unfold snoc_to, qset; destruct (decide (id' = id)) as [->|Hne];
    [by rewrite (is_queue_unique _ _ _ _ Hl' Hl)|apply Hframe; [|done]; intros u Hu;
     destruct (Hq id') as (l0 & Hl0 & _ & Hin0); rewrite (is_queue_unique _ _ _ _ Hl' Hl0) in Hu; apply Hin0 in Hu;
     split; [by intros ->; apply (Ht id')|intros Hul%Hin; congruence]]].
  intros id'. unfold qset. destruct (decide (id' = id)) as [->|Hne].
  - exists (l ++ [t]). split_and!; [done| |].
    + apply NoDup_app. split_and!; [done| |apply NoDup_singleton]. by intros u Hu ->%list_elem_of_singleton.
    + intros u. rewrite elem_of_app, Hin, list_elem_of_singleton.
      destruct (decide (u = t)) as [->|]; [rewrite fset_eq; naive_solver|rewrite fset_ne by done; naive_solver].
  - destruct (Hq id') as (l' & Hl' & Hnd' & Hin'). exists l'. split_and!; [|done|].
    + apply Hframe; [|done]. intros u Hu. apply Hin' in Hu. split; [by intros ->; apply (Ht id')|].
      intros Hul%Hin. congruence.
    + intros u. rewrite Hin'. destruct (decide (u = t)) as [->|]; [|by rewrite fset_ne].
      rewrite fset_eq. split; [intros E'; by destruct (Ht id')|congruence].
Qed.

Lemma queues_ok_remove nx qs pl id :
  queues_ok nx qs pl →
  match remove nx (qs id) with
  | (Some t, q') => pl t = In id ∧ ∀ p, (∀ i, p ≠ In i) → queues_ok nx (qset qs id q') (fset pl t p)
  | (None, q') => queues_ok nx (qset qs id q') pl
  end.
Proof.
  intros Hq. destruct (Hq id) as (l & Hl & Hnd & Hin). destruct (remove_spec nx (qs id) l Hl) as [E Hq'].
  destruct (remove nx (qs id)) as [r q']. simpl in *. subst r. destruct l as [|t l]; simpl in *.
  - intros id'. unfold qset. destruct (decide (id' = id)) as [->|]; [by exists []|apply Hq].
  - apply NoDup_cons in Hnd as [Htl Hnd]. split; [apply Hin; by left|]. intros p Hp id'. unfold qset.
    assert (Ht : pl t = In id) by (apply Hin; by left).
    destruct (decide (id' = id)) as [->|Hne].
    + exists l. split_and!; [done|done|]. intros u. destruct (decide (u = t)) as [->|].
      * rewrite fset_eq. split; [done|intros ->; by destruct (Hp id)].
      * rewrite fset_ne by done. rewrite <-Hin, elem_of_cons. naive_solver.
    + destruct (Hq id') as (l' & Hl' & Hnd' & Hin'). exists l'. split_and!; [done|done|].
      intros u. rewrite Hin'. destruct (decide (u = t)) as [->|]; [|by rewrite fset_ne].
      rewrite fset_eq. split; [congruence|intros ->; by destruct (Hp id')].
Qed.

(** What threads have in hand; whoever has something runs, or is ready to. *)
Record hands_ok (h : nat → option nat) (idle : nat → bool) (pl : places) : Prop := {
  h_in : ∀ u t, h u = Some t ↔ pl t = Hand u;
  h_idle : ∀ u t, h u = Some t → idle t = false;
  h_holder : ∀ u t, h u = Some t → (∃ c, pl u = Held c) ∨ pl u = In ReadyQ
}.

Lemma hands_move h idle pl t p :
  hands_ok h idle pl → (∀ u, pl t ≠ Hand u) → (∀ u, p ≠ Hand u) → h t = None ∨ (∃ c, p = Held c) ∨ p = In ReadyQ →
  hands_ok h idle (fset pl t p).
Proof.
  intros [H1 H2 H3] Ht Hp Hh. split; [|exact H2|].
  - intros u v. rewrite H1. destruct (decide (v = t)) as [->|]; [rewrite fset_eq; naive_solver|by rewrite fset_ne].
  - intros u v Hu. destruct (decide (u = t)) as [->|]; [rewrite fset_eq; destruct Hh; [congruence|done]|rewrite fset_ne by done; by eapply H3].
Qed.

(** A thread that neither runs nor is ready has nothing in hand. *)
Lemma hands_none h idle pl u : hands_ok h idle pl → (∀ c, pl u ≠ Held c) → pl u ≠ In ReadyQ → h u = None.
Proof. intros [_ _ H3] H1 H2. destruct (h u) as [t|] eqn:E; [|done]. destruct (H3 u t E) as [[c ?]|?]; [by destruct (H1 c)|done]. Qed.

Lemma hands_take h idle pl u t c :
  hands_ok h idle pl → h u = None → pl u = Held c → idle t = false → (∀ c, pl t ≠ Held c) → pl t ≠ In ReadyQ →
  (∀ v, pl t ≠ Hand v) → hands_ok (fset h u (Some t)) idle (fset pl t (Hand u)).
Proof.
  intros Hh Hu Hc Hi Hth Htr Ht. pose proof (hands_none h idle pl t Hh Hth Htr) as Hnone. destruct Hh as [H1 H2 H3].
  assert (Hne : u ≠ t) by (intros ->; by apply (Hth c)). split.
  - intros v x. destruct (decide (v = u)) as [->|Hv]; [rewrite fset_eq|rewrite fset_ne by done].
    + destruct (decide (x = t)) as [->|]; [by rewrite fset_eq|rewrite fset_ne by done]. rewrite <-H1, Hu. split; congruence.
    + destruct (decide (x = t)) as [->|]; [rewrite fset_eq|by rewrite fset_ne]. rewrite H1. split; [intros E; by destruct (Ht v)|congruence].
  - intros v x. destruct (decide (v = u)) as [->|Hv]; [rewrite fset_eq; congruence|rewrite fset_ne by done; apply H2].
  - intros v x. destruct (decide (v = u)) as [->|Hv]; [rewrite fset_eq|rewrite fset_ne by done].
    + intros _. left. exists c. by rewrite fset_ne.
    + intros Hx. destruct (decide (v = t)) as [->|]; [congruence|]. rewrite fset_ne by done. by eapply H3.
Qed.

Lemma hands_give h idle pl u t :
  hands_ok h idle pl → h u = Some t → hands_ok (fset h u None) idle (fset pl t (In ReadyQ)).
Proof.
  intros [H1 H2 H3] Hu. pose proof (proj1 (H1 u t) Hu) as Ht. split.
  - intros v x. destruct (decide (x = t)) as [->|Hx]; [rewrite fset_eq|rewrite (fset_ne pl) by done].
    + split; [|done]. destruct (decide (v = u)) as [->|]; [by rewrite fset_eq|rewrite fset_ne by done]. rewrite H1. congruence.
    + destruct (decide (v = u)) as [->|]; [rewrite fset_eq|by rewrite fset_ne]. rewrite <-H1, Hu. split; congruence.
  - intros v x. destruct (decide (v = u)) as [->|]; [by rewrite fset_eq|rewrite fset_ne by done; apply H2].
  - intros v x. destruct (decide (v = u)) as [->|]; [by rewrite fset_eq|rewrite fset_ne by done]. intros Hx.
    destruct (decide (v = t)) as [->|]; [rewrite fset_eq; by right|rewrite fset_ne by done; by eapply H3].
Qed.

Lemma remove_lists nx qs id :
  lists_become (tail_of id) nx qs nx (qset qs id (remove nx (qs id)).2) ∧
  ∀ l, is_queue nx (qs id) l → (remove nx (qs id)).1 = head l.
Proof.
  split.
  - intros id' l Hl. unfold tail_of, qset. destruct (decide (id' = id)) as [->|]; [|done]. by apply remove_spec.
  - intros l Hl. by apply remove_spec.
Qed.

(** The interrupt flag that a thread sees: [apitHandler] returns with
    interrupts on. *)
Definition thread_flag (s : sched) (t : nat) : bool := match frames s t with Interrupted _ :: _ => true | _ => flag s t end.

(** What belongs to a thread, which no core but its own touches. *)
Definition own (s : sched) (t : nat) : option nat * bool * bool * list frame := (hand s t, no_preempt s t, flag s t, frames s t).

Lemma own_eq s s' t :
  own s' t = own s t → hand s' t = hand s t ∧ no_preempt s' t = no_preempt s t ∧ flag s' t = flag s t ∧ frames s' t = frames s t.
Proof. unfold own. by intros [= -> -> -> ->]. Qed.

Lemma own_thread_flag s s' t : own s' t = own s t → thread_flag s' t = thread_flag s t.
Proof. intros (_ & _ & Hf & Hr)%own_eq. unfold thread_flag. by rewrite Hf, Hr. Qed.

Section machine.
Context (n : nat).

(** A thread that is to run again was interrupted, if it was, while it ran
    its program; only idle threads come back to [stop]. *)
Definition resumes (s : sched) (t : nat) : Prop :=
  frames s t = [] ∨ frames s t = [Interrupted Run] ∨ frames s t = [Stopping] ∧ isIdle s t = true.

(** A thread that is on its way to a queue other than [readyQ] has nothing
    in hand, and is not idle if it is to wait; [stop] is the only one to
    bury. *)
Definition leaves_ok (s : sched) (f : callback) (me : nat) : Prop :=
  match f with
  | Reschedule => (isIdle s me = true → hand s me = None) ∧ (frames s me = [] ∨ frames s me = [Interrupted Run])
  | Bury => hand s me = None ∧ frames s me = [Stopping]
  | WaitOn _ => hand s me = None ∧ isIdle s me = false ∧ frames s me = []
  end.

(** What a core knows in each phase. *)
Definition phase_ok (s : sched) (c : nat) : Prop :=
  match at_ s c with
  | Run => frames s (activeThreads s c) = []
  | Look o f core_id me =>
      core_id = c ∧ me = activeThreads s c ∧ no_preempt s me = true ∧ leaves_ok s f me ∧
      match o with CanReturn => f = Reschedule | MustBlock => isIdle s me = true → flag s me = true end
  | Switch st f core_id me next =>
      core_id = c ∧ activeThreads s c = (match st with Entered => next | _ => me end) ∧ no_preempt s me = true ∧ leaves_ok s f me ∧
      resumes s next ∧ (st = Chosen ∨ no_preempt s next = true)
  | After f me => leaves_ok s f me ∧ resumes s (activeThreads s c)
  end.

(** Where a thread waits for a core. *)
Definition away (p : place) : bool :=
  match p with In ReadyQ | In (WaitingQ _) | Hand _ | Parked => true | _ => false end.

Record sched_inv (s : sched) (pl : places) : Prop := {
  si_queues : queues_ok (nexts s) (queues s) pl;
  si_held : ∀ c, (c < n)%nat → NoDup (held (at_ s c) (activeThreads s c)) ∧
    ∀ t, t ∈ held (at_ s c) (activeThreads s c) ↔ pl t = Held c;
  si_cores : ∀ t c, pl t = Held c → (c < n)%nat;
  si_phase : ∀ c, (c < n)%nat → phase_ok s c;
  si_idle : ∀ c, (c < n)%nat → isIdle s (idleThreads s c) = true ∧
    (pl (idleThreads s c) = Held c ∨ pl (idleThreads s c) = Parked);
  si_one_idle : ∀ c c', (c < n)%nat → (c' < n)%nat → idleThreads s c = idleThreads s c' → c = c';
  si_is_idle : ∀ t, isIdle s t = true → ∃ c, (c < n)%nat ∧ t = idleThreads s c;
  si_parked : ∀ t, pl t = Parked → isIdle s t = true;
  si_unborn : ∀ t, pl t = Unborn ↔ (next_id s ≤ t)%nat;
  si_hands : hands_ok (hand s) (isIdle s) pl;
  si_dead : ∀ t, pl t = Gone ↔ dead s t = true;
  si_away : ∀ t, away (pl t) = true → resumes s t
}.

(** An idle thread never waits on a semaphore, and stops with interrupts on;
    and between taking a thread in hand and scheduling it a thread does
    nothing else. *)
Definition allowed (s : sched) (c : nat) (a : action) : Prop :=
  at_ s c = Run →
  match a with
  | DownBlocked _ => hand s (activeThreads s c) = None ∧ isIdle s (activeThreads s c) = false
  | Stop => hand s (activeThreads s c) = None ∧ (isIdle s (activeThreads s c) = true → flag s (activeThreads s c) = true)
  | Yield | UpSome _ | Create | Reap => hand s (activeThreads s c) = None
  | Wake | Flag _ | Go | Tick => True
  end.

(** Idle threads are in no queue and not dead. *)
Lemma idle_place s pl t : sched_inv s pl → isIdle s t = true → (∃ c, pl t = Held c) ∨ pl t = Parked.
Proof.
  intros Hinv Ht. destruct (si_is_idle _ _ Hinv t Ht) as (c & Hc & ->).
  destruct (si_idle _ _ Hinv c Hc) as [_ [E|E]]; [left; by exists c|by right].
Qed.

(** A core's phase is not affected by what does not touch its threads. *)
Lemma phase_ok_same s s' c :
  isIdle s' = isIdle s → activeThreads s' c = activeThreads s c → at_ s' c = at_ s c →
  (∀ u, u ∈ held (at_ s c) (activeThreads s c) → own s' u = own s u) → phase_ok s c → phase_ok s' c.
Proof.
  intros Ei Ea Eat Eo. unfold phase_ok, leaves_ok, resumes. rewrite Ea, Eat, Ei.
  destruct (at_ s c) as [|o f i me|st f i me next|f me] eqn:E; simpl in Eo.
  - destruct (own_eq _ _ _ (Eo (activeThreads s c) ltac:(by left))) as (_ & _ & _ & ->). done.
  - intros (-> & -> & H). destruct (own_eq _ _ _ (Eo (activeThreads s c) ltac:(by left))) as (-> & -> & -> & ->). done.
  - destruct (own_eq _ _ _ (Eo me ltac:(by left))) as (-> & -> & _ & ->).
    destruct (own_eq _ _ _ (Eo next ltac:(by right; left))) as (_ & -> & _ & ->). done.
  - destruct (own_eq _ _ _ (Eo me ltac:(by left))) as (-> & _ & _ & ->).
    destruct (own_eq _ _ _ (Eo (activeThreads s c) ltac:(by right; left))) as (_ & _ & _ & ->). done.
Qed.

Lemma resumes_same s s' t : isIdle s' = isIdle s → own s' t = own s t → resumes s t → resumes s' t.
Proof. intros Ei (_ & _ & _ & Ef)%own_eq. unfold resumes. by rewrite Ei, Ef. Qed.

Lemma phase_ok_other s s' pl c :
  sched_inv s pl → (c < n)%nat → isIdle s' = isIdle s → activeThreads s' c = activeThreads s c → at_ s' c = at_ s c →
  (∀ u, pl u = Held c → own s' u = own s u) → phase_ok s' c.
Proof.
  intros Hinv Hc Ei Ea Eat Eo. destruct (si_held _ _ Hinv c Hc) as [_ Hin]. apply (phase_ok_same s); try done; [|by apply (si_phase _ _ Hinv)].
  intros u Hu. by apply Eo, Hin.
Qed.

(** The state after a step of core [c] that may move [t] to [p]. *)
Lemma inv_move s s' pl c t p :
  sched_inv s pl → (c < n)%nat →
  isIdle s' = isIdle s → idleThreads s' = idleThreads s →
  (∀ c', c' ≠ c → activeThreads s' c' = activeThreads s c' ∧ at_ s' c' = at_ s c') →
  (∀ u, u ≠ t → own s' u = own s u ∨ pl u = Held c) →
  queues_ok (nexts s') (queues s') (fset pl t p) →
  hands_ok (hand s') (isIdle s) (fset pl t p) →
  (isIdle s t = true → t = idleThreads s c ∧ (p = Held c ∨ p = Parked)) →
  (p = Parked → isIdle s t = true) →
  (∀ c', c' ≠ c → pl t ≠ Held c' ∧ p ≠ Held c') →
  NoDup (held (at_ s' c) (activeThreads s' c)) →
  (∀ u, u ∈ held (at_ s' c) (activeThreads s' c) ↔ fset pl t p u = Held c) →
  (∀ u, fset pl t p u = Unborn ↔ (next_id s' ≤ u)%nat) →
  (∀ u, fset pl t p u = Gone ↔ dead s' u = true) →
  (away p = true → resumes s' t) →
  phase_ok s' c → sched_inv s' (fset pl t p).
Proof.
  intros Hinv Hc Ei Ed Eo Ew Hq Hh Hidle Hpp Hoth Hnd Hin Hub Hgone Haw Hph.
  pose proof Hinv as [H1 H2 H3 H4 H5 H5' H6 H7 H8 H9 H10 H11]. split; rewrite ?Ei, ?Ed; try done.
  - intros c' Hc'. destruct (decide (c' = c)) as [->|Hne]; [done|].
    destruct (Eo c' Hne) as [-> ->]. destruct (H2 c' Hc') as [? Hheld]. split; [done|]. intros u. rewrite Hheld.
    destruct (decide (u = t)) as [->|]; [|by rewrite fset_ne]. rewrite fset_eq. destruct (Hoth c' Hne). naive_solver.
  - intros u c'. destruct (decide (u = t)) as [->|]; [rewrite fset_eq|rewrite fset_ne by done; apply H3].
    intros ->. destruct (decide (c' = c)) as [->|Hne]; [done|]. by destruct (Hoth c' Hne).
  - intros c' Hc'. destruct (decide (c' = c)) as [->|Hne]; [exact Hph|]. destruct (Eo c' Hne).
    apply (phase_ok_other s s' pl); try done. intros u Hu. destruct (decide (u = t)) as [->|Hu']; [by destruct (Hoth c' Hne)|].
    destruct (Ew u Hu'); congruence.
  - intros c' Hc'. destruct (H5 c' Hc') as [Hi Hp]. split; [done|].
    destruct (decide (idleThreads s c' = t)) as [E|]; [|by rewrite fset_ne].
    rewrite E, fset_eq. destruct Hidle as [Eid Hp']; [congruence|].
    assert (c' = c) as -> by (apply H5'; [done|done|congruence]). done.
  - intros u. destruct (decide (u = t)) as [->|]; [rewrite fset_eq; done|rewrite fset_ne by done; apply H7].
  - intros u. destruct (decide (u = t)) as [->|Hu]; [rewrite fset_eq; done|rewrite fset_ne by done].
    intros Hu'. destruct (Ew u Hu) as [E|E]; [|by rewrite E in Hu']. apply (resumes_same s); auto.
Qed.

(** The same when no thread moves. *)
Lemma inv_stay s s' pl c :
  sched_inv s pl → (c < n)%nat →
  isIdle s' = isIdle s → idleThreads s' = idleThreads s → next_id s' = next_id s → hand s' = hand s → dead s' = dead s →
  (∀ c', c' ≠ c → activeThreads s' c' = activeThreads s c' ∧ at_ s' c' = at_ s c') →
  (∀ u, own s' u = own s u ∨ pl u = Held c) →
  queues_ok (nexts s') (queues s') pl →
  NoDup (held (at_ s' c) (activeThreads s' c)) →
  (∀ u, u ∈ held (at_ s' c) (activeThreads s' c) ↔ pl u = Held c) →
  phase_ok s' c → sched_inv s' pl.
Proof.
  intros Hinv Hc Ei Ed En Eh Edd Eo Ew Hq Hnd Hin Hph.
  pose proof Hinv as [H1 H2 H3 H4 H5 H5' H6 H7 H8 H9 H10 H11]. split; rewrite ?Ei, ?Ed, ?En, ?Eh, ?Edd; try done.
  - intros c' Hc'. destruct (decide (c' = c)) as [->|Hne]; [done|].
    destruct (Eo c' Hne) as [-> ->]. by apply H2.
  - intros c' Hc'. destruct (decide (c' = c)) as [->|Hne]; [exact Hph|]. destruct (Eo c' Hne).
    apply (phase_ok_other s s' pl); try done. intros u Hu. destruct (Ew u); congruence.
  - intros u Hu. destruct (Ew u) as [E|E]; [|by rewrite E in Hu]. apply (resumes_same s); auto.
Qed.

(** The same when [t], which no core holds, goes where no core holds it. *)
Lemma inv_aside s s' pl c t p :
  sched_inv s pl → (c < n)%nat →
  isIdle s' = isIdle s → idleThreads s' = idleThreads s → activeThreads s' = activeThreads s → at_ s' = at_ s →
  (∀ u, u ≠ t → own s' u = own s u ∨ pl u = Held c) → frames s' (activeThreads s c) = frames s (activeThreads s c) → at_ s c = Run →
  queues_ok (nexts s') (queues s') (fset pl t p) → hands_ok (hand s') (isIdle s) (fset pl t p) →
  isIdle s t = false → p ≠ Parked → (∀ c, pl t ≠ Held c) → (∀ c, p ≠ Held c) →
  (∀ u, fset pl t p u = Unborn ↔ (next_id s' ≤ u)%nat) → (∀ u, fset pl t p u = Gone ↔ dead s' u = true) →
  (away p = true → resumes s' t) →
  sched_inv s' (fset pl t p).
Proof.
  intros Hinv Hc Ei Ed Ea Eat Ew Ef Hrun Hq Hh Hi Hpk Ht Hp Hub Hgone Haw. destruct (si_held _ _ Hinv c Hc) as [Hnd Hin].
  eapply inv_move; [exact Hinv|exact Hc|done|done|..]; rewrite ?Ea, ?Eat; try done; try congruence.
  - intros u. rewrite Hin. destruct (decide (u = t)) as [->|]; [rewrite fset_eq|by rewrite fset_ne].
    split; intros E; [by destruct (Ht c)|by destruct (Hp c)].
  - pose proof (si_phase _ _ Hinv c Hc) as Hph. unfold phase_ok in *. rewrite Eat, Ea. rewrite Hrun in *. by rewrite Ef.
Qed.

(** ** The steps *)

(** The dead stay dead. *)
Definition evolves (pl pl' : places) : Prop :=
  ∀ t, (pl t = In Zombies → pl' t = In Zombies ∨ pl' t = Gone) ∧ (pl t = Gone → pl' t = Gone).

Lemma evolves_refl pl : evolves pl pl.
Proof. intros t. auto. Qed.

Lemma evolves_move pl t p :
  (pl t = In Zombies → p = Gone) → pl t ≠ Gone → evolves pl (fset pl t p).
Proof. intros Hz Hg u. destruct (decide (u = t)) as [->|]; [rewrite fset_eq|rewrite fset_ne by done]; naive_solver. Qed.

Definition good (pl : places) : () → sched → Prop := λ _ s', ∃ pl', sched_inv s' pl' ∧ evolves pl pl'.

Lemma wp_q_add s pl id t (Q : () → sched → Prop) :
  queues_ok (nexts s) (queues s) pl → (∀ id, pl t ≠ In id) →
  (∀ nx qs, queues_ok nx qs (fset pl t (In id)) → lists_become (snoc_to id t) (nexts s) (queues s) nx qs →
     Q () (mkSched nx (isIdle s) (no_preempt s) qs (activeThreads s) (idleThreads s) (at_ s) (next_id s) (hand s) (dead s) (flag s) (frames s))) →
  wp (q_add id t) Q s.
Proof.
  intros Hq Ht HQ. unfold q_add. apply wp_bind, wp_get.
  destruct (queues_ok_add _ _ pl id t Hq Ht) as (nx & q & -> & Hq' & Hl). by apply HQ.
Qed.

Lemma wp_q_remove s pl id (Q : option nat → sched → Prop) :
  queues_ok (nexts s) (queues s) pl →
  (∀ qs, queues_ok (nexts s) qs pl → (∀ t, pl t ≠ In id) → lists_become same_lists (nexts s) (queues s) (nexts s) qs →
     Q None (mkSched (nexts s) (isIdle s) (no_preempt s) qs (activeThreads s) (idleThreads s) (at_ s) (next_id s) (hand s) (dead s) (flag s) (frames s))) →
  (∀ qs t, pl t = In id → (∀ p, (∀ i, p ≠ In i) → queues_ok (nexts s) qs (fset pl t p)) →
     (∀ l, is_queue (nexts s) (queues s id) l → head l = Some t) → lists_become (tail_of id) (nexts s) (queues s) (nexts s) qs →
     Q (Some t) (mkSched (nexts s) (isIdle s) (no_preempt s) qs (activeThreads s) (idleThreads s) (at_ s) (next_id s) (hand s) (dead s) (flag s) (frames s))) →
  wp (q_remove id) Q s.
Proof.
  intros Hq HN HS. unfold q_remove. apply wp_bind, wp_get.
  pose proof (queues_ok_remove _ _ pl id Hq) as Hr. destruct (remove_lists (nexts s) (queues s) id) as [Hl Hh].
  destruct (remove (nexts s) (queues s id)) as [[t|] q']; simpl in Hl, Hh; apply wp_bind.
  - destruct Hr as [? ?]. apply HS; [done|done| |done]. intros l El. by rewrite <-(Hh l El).
  - destruct (Hq id) as (l & El & _ & Hin). specialize (Hh l El). destruct l; [|done]. apply HN; [done| |].
    + intros t Ht%Hin. by apply not_elem_of_nil in Ht.
    + intros id' l' El'. pose proof (Hl id' l' El') as E. unfold tail_of in E. case_decide as Eid; [|done]. subst id'.
      by rewrite (is_queue_unique _ _ _ _ El' El) in *.
Qed.

(** The flag with which a thread runs its program; it begins with
    interrupts on. *)
Definition flag_of (s : sched) (pl : places) (t : nat) : bool := if decide (pl t = Unborn) then true else thread_flag s t.

(** What a step of core [c] does: [t] moves to [p], the core goes on at [ph],
    its thread now has [h] in hand and the interrupt flag [b], and the queues
    change by [f]. *)
Record stepped_with (b : bool) (c : nat) (s : sched) (pl : places) (t : nat) (p : place) (ph : phase) (h : option nat)
    (f : qid → list nat → list nat) (s' : sched) : Prop := {
  st_inv : sched_inv s' (fset pl t p);
  st_evolves : evolves pl (fset pl t p);
  st_at : at_ s' = fset (at_ s) c ph;
  st_hand : hand s' = fset (hand s) (activeThreads s c) h;
  st_idle : isIdle s' = isIdle s;
  st_lists : lists_become f (nexts s) (queues s) (nexts s') (queues s');
  st_flags : ∀ u, flag_of s' (fset pl t p) u = fset (flag_of s pl) (activeThreads s c) b u
}.

Abbreviation stepped c s pl := (stepped_with (flag_of s pl (activeThreads s c)) c s pl).

Lemma stepped_good b c s pl t p ph h f s' : stepped_with b c s pl t p ph h f s' → good pl () s'.
Proof. intros [H1 H2 _ _ _ _ _]. by exists (fset pl t p). Qed.

Lemma fset_same {A} (f : nat → A) i x : f i = x → fset f i x = f.
Proof. intros E. apply functional_extensionality. intros j. unfold fset. case_decide; congruence. Qed.

(** Nobody sees another flag. *)
Lemma same_flags s s' pl t p a :
  (pl t = Unborn ↔ p = Unborn) → (∀ u, thread_flag s' u = thread_flag s u) →
  ∀ u, flag_of s' (fset pl t p) u = fset (flag_of s pl) a (flag_of s pl a) u.
Proof.
  intros Hp Hf u. rewrite (fset_same (flag_of s pl) _ _ eq_refl). unfold flag_of. rewrite Hf.
  destruct (decide (u = t)) as [->|]; [rewrite fset_eq|by rewrite fset_ne]. repeat case_decide; tauto.
Qed.

(** The thread that core [c] runs. *)
Lemma active_held s pl c : sched_inv s pl → (c < n)%nat → at_ s c = Run → pl (activeThreads s c) = Held c.
Proof. intros Hinv Hc Hrun. apply (si_held _ _ Hinv c Hc). rewrite Hrun. by left. Qed.

Lemma active_frames s pl c : sched_inv s pl → (c < n)%nat → at_ s c = Run → frames s (activeThreads s c) = [].
Proof. intros Hinv Hc Hrun. pose proof (si_phase _ _ Hinv c Hc) as H. unfold phase_ok in H. by rewrite Hrun in H. Qed.

(** Interrupts are on in a core just if its thread sees them on. *)
Lemma enabled_run s pl c :
  sched_inv s pl → (c < n)%nat → at_ s c = Run → enabled s c = flag_of s pl (activeThreads s c).
Proof.
  intros Hinv Hc Hrun. unfold flag_of. rewrite decide_False by (by rewrite (active_held _ _ _ Hinv Hc Hrun)).
  unfold enabled, on_stack, thread_flag. by rewrite Hrun, (active_frames _ _ _ Hinv Hc Hrun).
Qed.

(** A step in which no thread moves. *)
Definition stays_with (b : bool) (c : nat) (s : sched) (pl : places) (ph : phase) (s' : sched) : Prop :=
  stepped_with b c s pl (activeThreads s c) (pl (activeThreads s c)) ph (hand s (activeThreads s c)) same_lists s'.

Abbreviation stays c s pl := (stays_with (flag_of s pl (activeThreads s c)) c s pl).

Lemma stays_intro c s pl ph s' :
  sched_inv s' pl → at_ s' = fset (at_ s) c ph → hand s' = hand s → isIdle s' = isIdle s →
  lists_become same_lists (nexts s) (queues s) (nexts s') (queues s') → (∀ u, thread_flag s' u = thread_flag s u) → stays c s pl ph s'.
Proof.
  intros Hinv Hat Hh Hi Hl Hf. unfold stays_with. split; rewrite ?(fset_same pl _ _ eq_refl), ?(fset_same (hand s) _ _ eq_refl); try done; [apply evolves_refl|].
  intros u. rewrite fset_same by done. unfold flag_of. by rewrite Hf.
Qed.

Lemma same_become nx qs : lists_become same_lists nx qs nx qs.
Proof. by intros id l Hl. Qed.

(** A thread taken out of a queue is not idle, and no core holds it. *)
Lemma queued_thread s pl t id :
  sched_inv s pl → pl t = In id → isIdle s t = false.
Proof.
  intros Hinv Ht. destruct (isIdle s t) eqn:E; [|done].
  destruct (idle_place s pl t Hinv E) as [[c ?]|?]; congruence.
Qed.

(** A core that has only its own thread takes another one. *)
Lemma inv_take s s' pl c t :
  sched_inv s pl → (c < n)%nat →
  isIdle s' = isIdle s → idleThreads s' = idleThreads s → next_id s' = next_id s → hand s' = hand s → dead s' = dead s →
  (∀ c', c' ≠ c → at_ s' c' = at_ s c') → activeThreads s' = activeThreads s →
  held (at_ s c) (activeThreads s c) = [activeThreads s c] →
  held (at_ s' c) (activeThreads s c) = [activeThreads s c; t] →
  (∀ u, own s' u = own s u) →
  queues_ok (nexts s') (queues s') (fset pl t (Held c)) →
  (isIdle s t = true → t = idleThreads s c) → (∀ u, pl t ≠ Hand u) →
  (∀ c', pl t ≠ Held c') → pl t ≠ In Zombies → pl t ≠ Gone → pl t ≠ Unborn →
  phase_ok s' c → sched_inv s' (fset pl t (Held c)) ∧ evolves pl (fset pl t (Held c)).
Proof.
  intros Hinv Hc Ei Ed En Ehd Edd Eo Ea Eh Eh' Ew Hq Hidle Hh Hfree Hz Hg Hu Hph.
  destruct (si_held _ _ Hinv c Hc) as [Hnd Hin]. rewrite Eh in Hnd, Hin.
  assert (Hact : pl (activeThreads s c) = Held c) by (apply Hin; by left).
  split; [|by apply evolves_move].
  eapply inv_move; [exact Hinv|exact Hc|done|done|..]; rewrite ?Ea, ?Eh', ?Ehd; try done.
  - intros c' Hc'. by rewrite Eo.
  - auto.
  - apply hands_move; [apply (si_hands _ _ Hinv)|done|done|eauto].
  - auto.
  - intros c' Hc'. split; [done|congruence].
  - apply NoDup_cons. split; [|apply NoDup_singleton]. rewrite list_elem_of_singleton. intros E. by apply (Hfree c); rewrite <-E.
  - intros u. rewrite elem_of_cons, list_elem_of_singleton. destruct (decide (u = t)) as [->|].
    + rewrite fset_eq. naive_solver.
    + rewrite fset_ne by done. rewrite <-Hin, list_elem_of_singleton. naive_solver.
  - intros u. rewrite En, <-(si_unborn _ _ Hinv). destruct (decide (u = t)) as [->|]; [by rewrite fset_eq|by rewrite fset_ne].
  - intros u. rewrite Edd, <-(si_dead _ _ Hinv). destruct (decide (u = t)) as [->|]; [by rewrite fset_eq|by rewrite fset_ne].
Qed.

(** A core leaves the thread it has switched from somewhere. *)
Lemma inv_leave s s' pl c t p :
  sched_inv s pl → (c < n)%nat →
  isIdle s' = isIdle s → idleThreads s' = idleThreads s → next_id s' = next_id s → hand s' = hand s → dead s' = dead s →
  (∀ c', c' ≠ c → at_ s' c' = at_ s c') → activeThreads s' = activeThreads s →
  held (at_ s c) (activeThreads s c) = [t; activeThreads s c] →
  at_ s' c = Run → frames s' (activeThreads s c) = [] → (∀ u, u ≠ activeThreads s c → own s' u = own s u) →
  queues_ok (nexts s') (queues s') (fset pl t p) →
  (if isIdle s t then p = Parked else ∃ id, p = In id) → hand s t = None ∨ p = In ReadyQ →
  (away p = true → resumes s t) →
  sched_inv s' (fset pl t p) ∧ evolves pl (fset pl t p).
Proof.
  intros Hinv Hc Ei Ed En Ehd Edd Eo Ea Eh Er Ef Ew Hq Hp Hh Haw.
  destruct (si_held _ _ Hinv c Hc) as [Hnd Hin]. rewrite Eh in Hnd, Hin.
  apply NoDup_cons in Hnd as [Hne _]. rewrite list_elem_of_singleton in Hne.
  assert (Ht : pl t = Held c) by (apply Hin; by left).
  assert (Hp' : (∀ c', p ≠ Held c') ∧ (∀ u, p ≠ Hand u) ∧ p ≠ Unborn ∧ p ≠ Gone) by (destruct (isIdle s t); [by subst p|by destruct Hp as [? ->]]).
  destruct Hp' as (Hp1 & Hp2 & Hp3 & Hp4).
  split; [|apply evolves_move; congruence].
  eapply inv_move; [exact Hinv|exact Hc|done|done|..]; rewrite ?Ea, ?Er, ?Ehd; try done.
  - intros c' Hc'. by rewrite Eo.
  - intros u _. destruct (decide (u = activeThreads s c)) as [->|]; [right; apply Hin; right; by left|left; by apply Ew].
  - apply hands_move; [apply (si_hands _ _ Hinv)|congruence|done|destruct Hh; auto].
  - intros Hi. rewrite Hi in Hp. split; [|by right]. destruct (si_is_idle _ _ Hinv t Hi) as (c' & Hc' & E).
    destruct (si_idle _ _ Hinv c' Hc') as [_ [?|?]]; congruence.
  - intros ->. destruct (isIdle s t); [done|by destruct Hp].
  - intros c' Hc'. split; [congruence|done].
  - apply NoDup_singleton.
  - intros u. simpl. rewrite list_elem_of_singleton. destruct (decide (u = t)) as [->|].
    + rewrite fset_eq. split; [congruence|]. intros E. by destruct (Hp1 c).
    + rewrite fset_ne by done. rewrite <-Hin, elem_of_cons, list_elem_of_singleton. naive_solver.
  - intros u. rewrite En, <-(si_unborn _ _ Hinv). destruct (decide (u = t)) as [->|]; [rewrite fset_eq, Ht; naive_solver|by rewrite fset_ne].
  - intros u. rewrite Edd, <-(si_dead _ _ Hinv). destruct (decide (u = t)) as [->|]; [rewrite fset_eq, Ht; naive_solver|by rewrite fset_ne].
  - intros Ha. apply (resumes_same s); auto.
  - unfold phase_ok. by rewrite Er, Ea.
Qed.

Lemma inv_requeue s pl c qs :
  sched_inv s pl → (c < n)%nat → queues_ok (nexts s) qs pl →
  sched_inv (mkSched (nexts s) (isIdle s) (no_preempt s) qs (activeThreads s) (idleThreads s) (at_ s) (next_id s) (hand s) (dead s) (flag s) (frames s)) pl.
Proof.
  intros Hinv Hc Hq. destruct (si_held _ _ Hinv c Hc).
  eapply inv_stay; simpl; [exact Hinv|exact Hc|..]; try done; [by left|]. apply (si_phase _ _ Hinv c Hc).
Qed.

(** A thread about to call [block], with what is on its stack then. *)
Definition pushed (s : sched) (t : nat) (b : bool) (fr : list frame) : sched :=
  mkSched (nexts s) (isIdle s) (no_preempt s) (queues s) (activeThreads s) (idleThreads s) (at_ s) (next_id s) (hand s) (dead s)
          (fset (flag s) t b) (fset (frames s) t fr).

Lemma pushed_same s t : pushed s t (flag s t) (frames s t) = s.
Proof. unfold pushed. rewrite !fset_same by done. by destruct s. Qed.

Lemma own_other s s' t u :
  u ≠ t → (hand s' u = hand s u) → (∃ b, no_preempt s' = fset (no_preempt s) t b) → (∃ b, flag s' = fset (flag s) t b) →
  (∃ l, frames s' = fset (frames s) t l) → own s' u = own s u.
Proof. intros Hu Hh [? E1] [? E2] [? E3]. unfold own. by rewrite Hh, E1, E2, E3, !fset_ne. Qed.

Lemma wp_enter_block s pl c o f b fr :
  sched_inv s pl → (c < n)%nat → at_ s c = Run →
  thread_flag (pushed s (activeThreads s c) b fr) (activeThreads s c) = thread_flag s (activeThreads s c) →
  leaves_ok (pushed s (activeThreads s c) b fr) f (activeThreads s c) →
  match o with CanReturn => f = Reschedule | MustBlock => isIdle s (activeThreads s c) = true → b = true end →
  wp (block c o f) (λ _, stays c s pl (Look o f c (activeThreads s c))) (pushed s (activeThreads s c) b fr).
Proof.
  intros Hinv Hc Hrun Hfl Hf Ho. unfold block. apply wp_bind, wp_gets, wp_bind, wp_modify, wp_modify.
  destruct (si_held _ _ Hinv c Hc) as [Hnd Hin]. rewrite Hrun in *. set (me := activeThreads s c) in *.
  assert (Hme : pl me = Held c) by (apply Hin; by left).
  apply stays_intro; simpl; try done; [|apply same_become|].
  - eapply inv_stay; simpl; [exact Hinv|exact Hc|..]; try done.
    + intros c' Hc'. by rewrite !fset_ne.
    + intros u. destruct (decide (u = me)) as [->|Hu]; [by right|left].
      apply (own_other _ _ me); simpl; eauto.
    + apply (si_queues _ _ Hinv).
    + rewrite fset_eq. apply NoDup_singleton.
    + by rewrite fset_eq.
    + unfold phase_ok. simpl. rewrite !fset_eq. unfold leaves_ok in *. simpl in *. split_and!; try done; fold me; rewrite ?fset_eq in *; try done.
  - intros u. destruct (decide (u = me)) as [->|Hu]; [exact Hfl|]. unfold thread_flag. simpl. by rewrite !fset_ne.
Qed.

(** [block] with nothing more on the stack. *)
Lemma wp_block_plain s pl c o f :
  sched_inv s pl → (c < n)%nat → at_ s c = Run → leaves_ok s f (activeThreads s c) →
  match o with CanReturn => f = Reschedule | MustBlock => isIdle s (activeThreads s c) = true → flag s (activeThreads s c) = true end →
  wp (block c o f) (λ _, stays c s pl (Look o f c (activeThreads s c))) s.
Proof.
  intros Hinv Hc Hrun Hf Ho. 
  pose proof (wp_enter_block s pl c o f (flag s (activeThreads s c)) (frames s (activeThreads s c)) Hinv Hc Hrun) as H.
  rewrite pushed_same in H. by apply H.
Qed.

Lemma wp_start_stop s pl c :
  sched_inv s pl → (c < n)%nat → at_ s c = Run → hand s (activeThreads s c) = None →
  (isIdle s (activeThreads s c) = true → flag s (activeThreads s c) = true) →
  wp (start_stop c) (λ _, stays c s pl (Look MustBlock Bury c (activeThreads s c))) s.
Proof.
  intros Hinv Hc Hrun Hh Hi. pose proof (active_frames s pl c Hinv Hc Hrun) as Hfr. unfold start_stop. apply wp_bind, wp_get. rewrite Hfr.
  apply wp_bind, wp_modify. set (me := activeThreads s c) in *.
  assert (E : mkSched (nexts s) (isIdle s) (no_preempt s) (queues s) (activeThreads s) (idleThreads s) (at_ s) (next_id s) (hand s) (dead s)
    (flag s) (fset (frames s) me [Stopping]) = pushed s me (flag s me) [Stopping]) by (unfold pushed; by rewrite (fset_same (flag s))).
  rewrite E. apply wp_enter_block; try done.
  - unfold thread_flag. simpl. fold me. by rewrite !fset_eq, Hfr.
  - split; [done|]. simpl. apply fset_eq.
Qed.

(** What the queues and places say of the numbers of threads and of the
    dead, when one thread moves that was neither unborn nor dead. *)
Lemma unborn_move s pl t p :
  sched_inv s pl → pl t ≠ Unborn → p ≠ Unborn → ∀ u, fset pl t p u = Unborn ↔ (next_id s ≤ u)%nat.
Proof. intros Hinv Ht Hp u. rewrite <-(si_unborn _ _ Hinv). destruct (decide (u = t)) as [->|]; [by rewrite fset_eq|by rewrite fset_ne]. Qed.

Lemma dead_move s pl t p :
  sched_inv s pl → pl t ≠ Gone → p ≠ Gone → ∀ u, fset pl t p u = Gone ↔ dead s u = true.
Proof. intros Hinv Ht Hp u. rewrite <-(si_dead _ _ Hinv). destruct (decide (u = t)) as [->|]; [by rewrite fset_eq|by rewrite fset_ne]. Qed.

(** Only the hand of the core's own thread has changed. *)
Lemma own_hand s s' u :
  (∃ h, hand s' = fset (hand s) u h) → no_preempt s' = no_preempt s → flag s' = flag s → frames s' = frames s →
  ∀ v, v ≠ u → own s' v = own s v.
Proof. intros [h E1] E2 E3 E4 v Hv. unfold own. by rewrite E1, E2, E3, E4, fset_ne. Qed.

(** What a thread has been in while no core had it. *)
Lemma away_same s s' pl t :
  sched_inv s pl → away (pl t) = true → isIdle s' = isIdle s → frames s' t = frames s t → resumes s' t.
Proof. intros Hinv Ht Ei Ef. pose proof (si_away _ _ Hinv t Ht). unfold resumes. by rewrite Ei, Ef. Qed.

Lemma wp_up_some s pl c w :
  sched_inv s pl → (c < n)%nat → at_ s c = Run → hand s (activeThreads s c) = None →
  wp (up_some c w) (λ _ s', ((∀ t, pl t ≠ In (WaitingQ w)) ∧ stays c s pl Run s') ∨
    ∃ t, pl t = In (WaitingQ w) ∧ (∀ l, is_queue (nexts s) (queues s (WaitingQ w)) l → head l = Some t) ∧
      stepped c s pl t (Hand (activeThreads s c)) Run (Some t) (tail_of (WaitingQ w)) s') s.
Proof.
  intros Hinv Hc Hrun Hnone. unfold up_some. apply wp_bind, wp_gets.
  pose proof (active_held s pl c Hinv Hc Hrun) as Hact.
  apply wp_bind. eapply wp_q_remove; [apply (si_queues _ _ Hinv)|..].
  - intros qs Hq Hno Hl. apply wp_modify. left. split; [done|].
    apply stays_intro; simpl; rewrite ?fset_same by done; try done. by eapply inv_requeue.
  - intros qs t Ht Hq Hd Hl. apply wp_modify. pose proof (queued_thread s pl t _ Hinv Ht) as Hidle.
    right. exists t. split_and!; [done|done|].
    split; simpl; rewrite ?(fset_same (at_ s)) by done; try done; [|apply evolves_move; congruence|apply same_flags; [by rewrite Ht|done]].
    eapply inv_aside; simpl; [exact Hinv|exact Hc|..]; try done; try congruence.
    + intros u _. destruct (decide (u = activeThreads s c)) as [->|]; [by right|left; eapply own_hand; simpl; eauto].
    + by apply Hq.
    + eapply hands_take; [apply (si_hands _ _ Hinv)|done|done|done|congruence..].
    + apply unborn_move; [done|congruence|done].
    + apply dead_move; [done|congruence|done].
    + intros _. eapply away_same; [exact Hinv|by rewrite Ht|done|done].
Qed.

Lemma wp_create s pl c :
  sched_inv s pl → (c < n)%nat → at_ s c = Run → hand s (activeThreads s c) = None →
  wp (create c) (λ _, stepped c s pl (next_id s) (Hand (activeThreads s c)) Run (Some (next_id s)) same_lists) s.
Proof.
  intros Hinv Hc Hrun Hnone. unfold create. apply wp_bind, wp_get. do 4 apply wp_bind, wp_modify. apply wp_modify.
  pose proof (active_held s pl c Hinv Hc Hrun) as Hact. set (t := next_id s).
  assert (Ht : pl t = Unborn) by (apply (si_unborn _ _ Hinv); lia).
  assert (Hne : activeThreads s c ≠ t) by congruence.
  assert (Hidle : isIdle s t = false).
  { destruct (isIdle s t) eqn:E; [|done]. destruct (idle_place s pl t Hinv E) as [[c' ?]|?]; congruence. }
  split; simpl; rewrite ?(fset_same (at_ s)) by done; try done; [|apply evolves_move; congruence|apply same_become|].
  - eapply inv_aside; simpl; [exact Hinv|exact Hc|..]; try done; try congruence.
    + intros u Hu. destruct (decide (u = activeThreads s c)) as [->|]; [by right|left]. unfold own. simpl. by rewrite !fset_ne.
    + by rewrite fset_ne.
    + apply queues_ok_move; [congruence|done|apply (si_queues _ _ Hinv)].
    + eapply hands_take; [apply (si_hands _ _ Hinv)|done|done|done|congruence..].
    + intros u. destruct (decide (u = t)) as [->|]; [rewrite fset_eq; split; [done|unfold t; lia]|].
      rewrite fset_ne, (si_unborn _ _ Hinv) by done. unfold t in *. lia.
    + apply dead_move; [done|congruence|done].
    + intros _. left. simpl. apply fset_eq.
  - intros u. rewrite (fset_same (flag_of s pl) _ _ eq_refl). unfold flag_of, thread_flag. simpl. destruct (decide (u = t)) as [->|]; [|by rewrite !fset_ne].
    rewrite !fset_eq. by rewrite decide_False, decide_True.
Qed.

Lemma wp_wake s pl c :
  sched_inv s pl → (c < n)%nat → at_ s c = Run →
  wp (wake c) (λ _ s', match hand s (activeThreads s c) with
                       | Some t => stepped c s pl t (In ReadyQ) Run None (snoc_to ReadyQ t) s'
                       | None => stays c s pl Run s'
                       end) s.
Proof.
  intros Hinv Hc Hrun. unfold wake. apply wp_bind, wp_gets, wp_bind, wp_gets.
  pose proof (active_held s pl c Hinv Hc Hrun) as Hact.
  destruct (hand s (activeThreads s c)) as [t|] eqn:Eh.
  2: { apply wp_ret, stays_intro; rewrite ?fset_same by done; try done. apply same_become. }
  pose proof (h_idle _ _ _ (si_hands _ _ Hinv) _ _ Eh) as Hidle. pose proof (proj1 (h_in _ _ _ (si_hands _ _ Hinv) _ _) Eh) as Ht.
  unfold schedule. apply wp_bind, wp_bind, wp_gets. rewrite Hidle.
  eapply wp_q_add; [apply (si_queues _ _ Hinv)|congruence|]. intros nx qs Hq Hl. apply wp_modify.
  split; simpl; rewrite ?(fset_same (at_ s)) by done; try done; [|apply evolves_move; congruence|apply same_flags; [by rewrite Ht|done]].
  eapply inv_aside; simpl; [exact Hinv|exact Hc|..]; try done; try congruence.
  - intros u _. destruct (decide (u = activeThreads s c)) as [->|]; [by right|left; eapply own_hand; simpl; eauto].
  - apply hands_give; [apply (si_hands _ _ Hinv)|done].
  - apply unborn_move; [done|congruence|done].
  - apply dead_move; [done|congruence|done].
  - intros _. eapply away_same; [exact Hinv|by rewrite Ht|done|done].
Qed.

Lemma wp_reap s pl c :
  sched_inv s pl → (c < n)%nat → at_ s c = Run →
  wp reap (λ _ s', stays c s pl Run s' ∨
    ∃ t, pl t = In Zombies ∧ stepped c s pl t Gone Run (hand s (activeThreads s c)) (tail_of Zombies) s') s.
Proof.
  intros Hinv Hc Hrun. unfold reap. apply wp_bind. eapply wp_q_remove; [apply (si_queues _ _ Hinv)|..].
  - intros qs Hq _ Hl. apply wp_ret. left. apply stays_intro; simpl; rewrite ?fset_same by done; try done. by eapply inv_requeue.
  - intros qs t Ht Hq _ Hl. apply wp_modify. right. exists t. split; [done|].
    split; simpl; rewrite ?(fset_same (hand s) _ _ eq_refl), ?(fset_same (at_ s)) by done; try done;
      [|apply evolves_move; congruence|apply same_flags; [by rewrite Ht|done]].
    pose proof (queued_thread s pl t _ Hinv Ht) as Hidle.
    eapply inv_aside; simpl; [exact Hinv|exact Hc|..]; try done; try congruence.
    + by left.
    + by apply Hq.
    + apply hands_move; [apply (si_hands _ _ Hinv)|congruence|done|left].
      eapply hands_none; [apply (si_hands _ _ Hinv)|congruence|congruence].
    + apply unborn_move; [done|congruence|done].
    + intros u. destruct (decide (u = t)) as [->|]; [by rewrite !fset_eq|rewrite !fset_ne by done; apply (si_dead _ _ Hinv)].
Qed.

(** [cli] and [sti] by the thread that a core runs, and steps of it that
    leave the scheduler alone. *)
Lemma wp_flag s pl c b :
  sched_inv s pl → (c < n)%nat → at_ s c = Run → wp (act c (Flag b)) (λ _, stays_with b c s pl Run) s.
Proof.
  intros Hinv Hc Hrun. pose proof (active_held s pl c Hinv Hc Hrun) as Hact. destruct (si_held _ _ Hinv c Hc) as [Hnd Hin].
  pose proof (active_frames s pl c Hinv Hc Hrun) as Hfr.
  apply wp_bind, wp_gets, wp_modify. unfold stays_with.
  split; simpl; rewrite ?(fset_same pl _ _ eq_refl), ?(fset_same (hand s) _ _ eq_refl), ?(fset_same (at_ s)) by done; try done;
    [|apply evolves_refl|apply same_become|].
  - eapply inv_stay; simpl; [exact Hinv|exact Hc|..]; try done; [| |].
    + intros u. destruct (decide (u = activeThreads s c)) as [->|]; [by right|left]. unfold own. simpl. by rewrite fset_ne.
    + apply (si_queues _ _ Hinv).
    + unfold phase_ok. simpl. by rewrite Hrun.
  - intros u. unfold flag_of, thread_flag. simpl. destruct (decide (u = activeThreads s c)) as [->|]; [|by rewrite !fset_ne].
    rewrite Hact, Hfr, decide_False, !fset_eq by done. done.
Qed.

Lemma wp_go s pl c : sched_inv s pl → (c < n)%nat → at_ s c = Run → wp (act c Go) (λ _, stays c s pl Run) s.
Proof. intros Hinv Hc Hrun. apply wp_ret, stays_intro; rewrite ?fset_same by done; try done. apply same_become. Qed.

(** The state when [block] has returned on the stack of [me]. *)
Definition returned (c me : nat) (s : sched) : sched :=
  mkSched (nexts s) (isIdle s) (no_preempt s) (queues s) (activeThreads s) (idleThreads s) (fset (at_ s) c Run) (next_id s) (hand s) (dead s)
          (fset (flag s) me (thread_flag s me)) (fset (frames s) me []).

Lemma wp_block_return s c me (Q : () → sched → Prop) :
  resumes s me → (isIdle s me = true → isIdle s (activeThreads s c) = true) → Q () (returned c me s) → wp (block_return c me) Q s.
Proof.
  unfold returned, thread_flag. intros Hr Hi HQ. unfold block_return. apply wp_bind, wp_gets. destruct Hr as [E|[E|[E Hi']]]; rewrite E in *.
  - apply wp_modify. by rewrite (fset_same (flag s)), (fset_same (frames s)) in HQ by done.
  - apply wp_bind, wp_modify, wp_bind, wp_modify, wp_modify. exact HQ.
  - apply wp_bind, wp_modify, wp_bind, wp_gets, wp_bind, wp_assert; [by apply Hi|]. apply wp_modify. by rewrite (fset_same (flag s)) in HQ.
Qed.

Lemma returned_flags s c me u : thread_flag (returned c me s) u = thread_flag s u.
Proof.
  unfold thread_flag at 1. simpl. destruct (decide (u = me)) as [->|]; [by rewrite !fset_eq|]. by rewrite !fset_ne.
Qed.

(** What [block_look] leads to. *)
Definition looked (c : nat) (s : sched) (pl : places) (o : blockOption) (f : callback) (me : nat) (s' : sched) : Prop :=
  (o = MustBlock ∧ isIdle s me = true ∧ stays c s pl (Look o f c me) s') ∨
  (o = CanReturn ∧ stays c s pl Run s') ∨
  ∃ t l, (pl t = In ReadyQ ∧ l = tail_of ReadyQ ∨ pl t = Parked ∧ l = same_lists) ∧
    stepped c s pl t (Held c) (Switch Chosen f c me t) (hand s (activeThreads s c)) l s'.

(** The next thread has been chosen. *)
Lemma looked_next s pl c o f me t l qs :
  sched_inv s pl → (c < n)%nat → at_ s c = Look o f c me → pl t = In ReadyQ ∧ l = tail_of ReadyQ ∨ pl t = Parked ∧ l = same_lists →
  (isIdle s t = true → t = idleThreads s c) → queues_ok (nexts s) qs (fset pl t (Held c)) →
  lists_become l (nexts s) (queues s) (nexts s) qs →
  wp (set_phase c (Switch Chosen f c me t)) (λ _, looked c s pl o f me)
     (mkSched (nexts s) (isIdle s) (no_preempt s) qs (activeThreads s) (idleThreads s) (at_ s) (next_id s) (hand s) (dead s) (flag s) (frames s)).
Proof.
  intros Hinv Hc Hat Ht Hidle Hq Hl. apply wp_modify. right; right. exists t, l. split; [done|].
  pose proof (si_phase _ _ Hinv c Hc) as Hph. unfold phase_ok in Hph. rewrite Hat in Hph. destruct Hph as (_ & Hme & Hmark & Hf & _).
  assert (Haw : away (pl t) = true ∧ (∀ u, pl t ≠ Hand u) ∧ (∀ c', pl t ≠ Held c') ∧ pl t ≠ In Zombies ∧ pl t ≠ Gone ∧ pl t ≠ Unborn)
    by (destruct Ht as [[-> _]|[-> _]]; done).
  destruct Haw as (Haw & Hp1 & Hp2 & Hp3 & Hp4 & Hp5).
  unshelve epose proof (inv_take s _ pl c t Hinv Hc _ _ _ _ _ _ _ _ _ _ _ _ _ _ _ _ _ _) as [? ?];
    [..|split; [done|done| | | | |]]; simpl; rewrite ?(fset_same (hand s) _ _ eq_refl), ?fset_eq, ?Hat; simpl; try done; try congruence.
  - intros. by rewrite fset_ne.
  - unfold phase_ok. simpl. rewrite fset_eq. split_and!; try done; [|by left]. by apply (si_away _ _ Hinv).
  - apply same_flags; [split; [done|done]|done].
Qed.

Lemma wp_look s pl c o f i me :
  sched_inv s pl → (c < n)%nat → at_ s c = Look o f i me → i = c ∧ wp (block_look c o f i me) (λ _, looked c s pl o f me) s.
Proof.
  intros Hinv Hc Hat. unfold block_look. destruct (si_held _ _ Hinv c Hc) as [Hnd Hin]. rewrite Hat in Hin. simpl in Hin.
  pose proof (si_phase _ _ Hinv c Hc) as Hph. unfold phase_ok in Hph. rewrite Hat in Hph. destruct Hph as (-> & Hme & Hmark & Hf & Ho).
  split; [done|]. assert (Hheld : pl me = Held c) by (subst me; apply Hin; by left).
  apply wp_bind. eapply wp_q_remove; [apply (si_queues _ _ Hinv)|..].
  - intros qs Hq _ Hl. destruct o.
    + apply wp_bind, wp_get. simpl. destruct (isIdle s me) eqn:Ei.
      * destruct (si_is_idle _ _ Hinv me Ei) as (c' & Hc' & E).
        assert (c' = c) as -> by (destruct (si_idle _ _ Hinv c' Hc') as [_ [?|?]]; congruence).
        apply wp_bind, wp_assert; [done|]. apply wp_bind, wp_assert; [unfold enabled, on_stack; simpl; rewrite Hat; by apply Ho|].
        apply wp_bind, wp_assert; [done|]. apply wp_assert; [done|]. left. split_and!; [done|done|].
        apply stays_intro; simpl; rewrite ?fset_same by done; try done. by eapply inv_requeue.
      * destruct (si_idle _ _ Hinv c Hc) as [Hidle Hpl].
        assert (Hpark : pl (idleThreads s c) = Parked).
        { destruct Hpl as [Hpl|]; [|done]. apply Hin in Hpl. apply list_elem_of_singleton in Hpl. congruence. }
        eapply looked_next; [done|done|done|by right|done| |done]. apply queues_ok_move; [congruence|done|exact Hq].
    + subst f. assert (Hre : resumes s me) by (destruct Hf as [_ [?|?]]; [by left|by right; left]).
      apply wp_block_return; [exact Hre|simpl; congruence|]. right; left. split; [done|].
      apply stays_intro; simpl; try done; [|intros u; by rewrite returned_flags].
      eapply inv_stay; simpl; [exact Hinv|exact Hc|..]; try done.
      * intros c' Hc'. by rewrite fset_ne.
      * intros u. destruct (decide (u = me)) as [->|Hu]; [by right|left]. unfold own. simpl. by rewrite !fset_ne.
      * rewrite fset_eq. simpl. apply NoDup_singleton.
      * by rewrite fset_eq.
      * unfold phase_ok. simpl. rewrite fset_eq, <-Hme. apply fset_eq.
  - intros qs t Ht Hq _ Hl. pose proof (queued_thread s pl t _ Hinv Ht) as Hidle.
    eapply looked_next; [done|done|done|by left|congruence|by apply Hq|done].
Qed.

(** The stage that follows, or the callback. *)
Definition next_stage (st : stage) (f : callback) (c me next : nat) : phase :=
  match st with Chosen => Switch Marked f c me next | Marked => Switch Entered f c me next | Entered => After f me end.

Lemma wp_switch s pl c st f i me next :
  sched_inv s pl → (c < n)%nat → at_ s c = Switch st f i me next →
  i = c ∧ wp (block_switch c st f i me next) (λ _, stays c s pl (next_stage st f c me next)) s.
Proof.
  intros Hinv Hc Hat. unfold block_switch. destruct (si_held _ _ Hinv c Hc) as [Hnd Hin]. rewrite Hat in Hnd, Hin. simpl in Hnd, Hin.
  pose proof (si_phase _ _ Hinv c Hc) as Hph. unfold phase_ok in Hph. rewrite Hat in Hph. destruct Hph as (-> & Hact & Hme & Hf & Hre & Hnext).
  split; [done|]. assert (Hpm : pl me = Held c) by (apply Hin; by left). assert (Hpn : pl next = Held c) by (apply Hin; right; by left).
  destruct st.
  - apply wp_bind, wp_modify, wp_modify. apply stays_intro; simpl; try done; [|apply same_become].
    eapply inv_stay; simpl; [exact Hinv|exact Hc|..]; try done; rewrite ?fset_eq; try done.
    + intros c' Hc'. by rewrite !fset_ne.
    + intros u. destruct (decide (u = next)) as [->|Hu]; [by right|left]. unfold own. simpl. by rewrite fset_ne.
    + apply (si_queues _ _ Hinv).
    + unfold phase_ok. simpl. rewrite !fset_eq. split_and!; try done; [|by right]. unfold fset. by case_decide.
  - apply wp_bind, wp_modify, wp_modify. apply stays_intro; simpl; try done; [|apply same_become].
    eapply inv_stay; simpl; [exact Hinv|exact Hc|..]; try done; rewrite ?fset_eq; try done.
    + intros c' Hc'. by rewrite !fset_ne.
    + by left.
    + apply (si_queues _ _ Hinv).
    + unfold phase_ok. simpl. rewrite !fset_eq. split_and!; try done. right. by destruct Hnext.
  - apply wp_bind, wp_modify, wp_bind, wp_modify, wp_modify. apply stays_intro; simpl; try done; [|apply same_become].
    eapply inv_stay; simpl; [exact Hinv|exact Hc|..]; try done; rewrite ?fset_eq, ?Hact; try done.
    + intros c' Hc'. by rewrite !fset_ne.
    + intros u. destruct (decide (u = next)) as [->|Hu]; [by right|]. destruct (decide (u = me)) as [->|Hu']; [by right|left].
      unfold own. simpl. by rewrite !fset_ne.
    + apply (si_queues _ _ Hinv).
    + unfold phase_ok. simpl. rewrite !fset_eq, Hact. done.
Qed.

(** The queue that a callback puts the thread into. *)
Definition target (f : callback) : qid := match f with Reschedule => ReadyQ | Bury => Zombies | WaitOn w => WaitingQ w end.

(** The end of [block] once the thread that was left, [t], is at [p]. *)
Lemma left_behind s pl c f t p nx qs l :
  sched_inv s pl → (c < n)%nat → at_ s c = After f t →
  (if isIdle s t then p = Parked else ∃ id, p = In id) → hand s t = None ∨ p = In ReadyQ → (away p = true → resumes s t) →
  queues_ok nx qs (fset pl t p) → lists_become l (nexts s) (queues s) nx qs →
  wp (next ← gets (λ s, activeThreads s c); block_return c next)
     (λ _, stepped c s pl t p Run (hand s (activeThreads s c)) l)
     (mkSched nx (isIdle s) (no_preempt s) qs (activeThreads s) (idleThreads s) (at_ s) (next_id s) (hand s) (dead s) (flag s) (frames s)).
Proof.
  intros Hinv Hc Hat Hp Hh Haw Hq Hl. destruct (si_held _ _ Hinv c Hc) as [Hnd Hin].
  pose proof (si_phase _ _ Hinv c Hc) as Hph. unfold phase_ok in Hph. rewrite Hat in Hph. destruct Hph as [_ Hre].
  assert (Eh : held (at_ s c) (activeThreads s c) = [t; activeThreads s c]) by (by rewrite Hat).
  assert (Ht : pl t = Held c) by (apply Hin; rewrite Eh; by left).
  apply wp_bind, wp_gets, wp_block_return; [exact Hre|done|].
  unshelve epose proof (inv_leave s _ pl c t p Hinv Hc _ _ _ _ _ _ _ Eh _ _ _ _ _ _ _) as [? ?];
    [..|split; [done|done| | | | |]]; simpl; rewrite ?(fset_same (hand s) _ _ eq_refl), ?fset_eq; try done.
  - intros. by rewrite fset_ne.
  - intros u Hu. unfold own. simpl. by rewrite !fset_ne.
  - apply same_flags; [rewrite Ht; destruct (isIdle s t); [by subst p|by destruct Hp as [? ->]]|]. intros u. by rewrite returned_flags.
Qed.

(** The thread that was left goes into a queue. *)
Lemma wp_put_down s pl c f t id :
  sched_inv s pl → (c < n)%nat → at_ s c = After f t → isIdle s t = false → hand s t = None ∨ id = ReadyQ →
  (away (In id) = true → resumes s t) →
  wp (q_add id t;; next ← gets (λ s, activeThreads s c); block_return c next)
     (λ _, stepped c s pl t (In id) Run (hand s (activeThreads s c)) (snoc_to id t)) s.
Proof.
  intros Hinv Hc Hat Hi Hh Haw. destruct (si_held _ _ Hinv c Hc) as [Hnd Hin].
  assert (Ht : pl t = Held c) by (apply Hin; rewrite Hat; by left).
  apply wp_bind. eapply wp_q_add; [apply (si_queues _ _ Hinv)|congruence|].
  intros nx qs Hq Hl. eapply left_behind; try done; [rewrite Hi; by eexists|]. destruct Hh as [?| ->]; auto.
Qed.

(** An idle thread goes nowhere. *)
Lemma wp_park s pl c f t :
  sched_inv s pl → (c < n)%nat → at_ s c = After f t → isIdle s t = true → hand s t = None → resumes s t →
  wp (next ← gets (λ s, activeThreads s c); block_return c next)
     (λ _, stepped c s pl t Parked Run (hand s (activeThreads s c)) same_lists) s.
Proof.
  intros Hinv Hc Hat Hi Hh Hre. destruct (si_held _ _ Hinv c Hc) as [Hnd Hin].
  assert (Ht : pl t = Held c) by (apply Hin; rewrite Hat; by left).
  pose proof (left_behind s pl c f t Parked (nexts s) (queues s) same_lists Hinv Hc Hat) as H. destruct s. apply H; simpl in *; auto.
  - by rewrite Hi.
  - apply queues_ok_move; [congruence|done|apply (si_queues _ _ Hinv)].
  - apply same_become.
Qed.

Lemma wp_after s pl c f me :
  sched_inv s pl → (c < n)%nat → at_ s c = After f me →
  wp (block_after c f me) (λ _, stepped c s pl me (if isIdle s me then Parked else In (target f)) Run
    (hand s (activeThreads s c)) (if isIdle s me then same_lists else snoc_to (target f) me)) s.
Proof.
  intros Hinv Hc Hat. unfold block_after.
  pose proof (si_phase _ _ Hinv c Hc) as Hph. unfold phase_ok in Hph. rewrite Hat in Hph. destruct Hph as [Hf _].
  destruct f as [| |w]; unfold run_callback, schedule; cbn [target leaves_ok] in *.
  - destruct Hf as [Hh Hfr]. assert (Hre : resumes s me) by (destruct Hfr; [by left|by right; left]).
    apply wp_bind, wp_bind, wp_gets. destruct (isIdle s me) eqn:Ei.
    + apply wp_ret. by eapply wp_park; auto.
    + apply wp_bind_inv. by eapply wp_put_down; eauto.
  - destruct Hf as [Hh Hfr]. apply wp_bind, wp_bind, wp_gets. destruct (isIdle s me) eqn:Ei.
    + apply wp_ret. eapply wp_park; try done. by right; right.
    + apply wp_bind_inv. by eapply wp_put_down; eauto.
  - destruct Hf as (Hh & Hi & Hfr). rewrite Hi. apply wp_bind, wp_bind, wp_gets. apply wp_bind, wp_assert; [done|].
    apply wp_bind_inv. eapply wp_put_down; [done|done|done|done|by left|by left].
Qed.

(** The timer, which leaves [block] alone. *)
Lemma tick_inside s pl c : sched_inv s pl → (c < n)%nat → at_ s c ≠ Run → core_step c Tick s = Ok () s.
Proof.
  intros Hinv Hc Hat. unfold core_step, apitHandler, get, mbind, M_bind. destruct (enabled s c) eqn:E; [|done].
  pose proof (si_phase _ _ Hinv c Hc) as Hph. unfold phase_ok in Hph.
  assert (Hm : no_preempt s (activeThreads s c) = true).
  { unfold enabled in E. destruct (at_ s c) as [|o f i me|st f i me next|f me]; [done| | |done].
    - by destruct Hph as (_ & <- & ? & _).
    - destruct Hph as (_ & -> & Hme & _ & _ & Hn). destruct st; [done|done|by destruct Hn]. }
  by rewrite Hm, orb_true_r.
Qed.

Lemma wp_tick s pl c :
  sched_inv s pl → (c < n)%nat → at_ s c = Run →
  wp (core_step c Tick) (λ _ s', s' = s ∨
    enabled s c = true ∧ isIdle s (activeThreads s c) = false ∧ stays c s pl (Look CanReturn Reschedule c (activeThreads s c)) s') s.
Proof.
  intros Hinv Hc Hrun. unfold core_step. apply wp_bind, wp_get. destruct (enabled s c) eqn:En; [|apply wp_ret; by left].
  unfold apitHandler. apply wp_bind, wp_get. destruct (isIdle s (activeThreads s c)) eqn:Ei; simpl; [apply wp_ret; by left|].
  destruct (no_preempt s (activeThreads s c)); [apply wp_ret; by left|].
  pose proof (active_frames s pl c Hinv Hc Hrun) as Hfr. unfold enabled in En. unfold on_stack in *. rewrite Hrun in *. rewrite Hfr.
  apply wp_bind, wp_modify, wp_bind, wp_modify. set (me := activeThreads s c) in *.
  eapply wp_mono; [apply (wp_enter_block s pl c CanReturn Reschedule false [Interrupted Run]); try done|by right].
  - unfold thread_flag. simpl. fold me. by rewrite fset_eq, Hfr.
  - simpl. fold me. rewrite fset_eq. split; [congruence|by right].
Qed.

(** All of them keep the invariant. *)
Lemma wp_good (m : M sched ()) s pl (Q : () → sched → Prop) :
  wp m Q s → (∀ s', Q () s' → good pl () s') → wp m (good pl) s.
Proof. intros H HQ. eapply wp_mono; [exact H|]. intros [] s'. apply HQ. Qed.

Lemma wp_act s pl c a :
  sched_inv s pl → (c < n)%nat → at_ s c = Run → allowed s c a → wp (act c a) (good pl) s.
Proof.
  intros Hinv Hc Hat Ha. specialize (Ha Hat). pose proof (active_frames s pl c Hinv Hc Hat) as Hfr.
  destruct a as [| |w|w| | | |b| |]; unfold act; eapply wp_good.
  - apply wp_block_plain; try done. split; [done|by left].
  - intros s'. apply stepped_good.
  - destruct Ha. by apply wp_start_stop.
  - intros s'. apply stepped_good.
  - destruct Ha as [? Hi]. apply wp_block_plain; try done. by rewrite Hi.
  - intros s'. apply stepped_good.
  - by apply wp_up_some.
  - intros s' [[_ H]|(t & _ & _ & H)]; by eapply stepped_good.
  - by apply wp_create.
  - intros s'. apply stepped_good.
  - by apply wp_wake.
  - intros s'. case_match; apply stepped_good.
  - by eapply wp_reap.
  - intros s' [H|(t & _ & H)]; by eapply stepped_good.
  - by apply (wp_flag s pl c b).
  - intros s'. apply stepped_good.
  - by apply wp_go.
  - intros s'. apply stepped_good.
  - by apply wp_go.
  - intros s'. apply stepped_good.
Qed.

Lemma core_step_at s c a ph (Q : () → sched → Prop) :
  at_ s c = ph → a ≠ Tick →
  wp (match ph with
      | Run => act c a
      | Look o f i me => block_look c o f i me
      | Switch st f i me next => block_switch c st f i me next
      | After f me => block_after c f me
      end) Q s → wp (core_step c a) Q s.
Proof. intros <- Ha H. unfold core_step. apply wp_bind, wp_get. by destruct a. Qed.

Lemma wp_core_step s pl c a :
  sched_inv s pl → (c < n)%nat → allowed s c a → wp (core_step c a) (good pl) s.
Proof.
  intros Hinv Hc Ha. assert (Hself : good pl () s) by (exists pl; split; [done|apply evolves_refl]).
  destruct (decide (a = Tick)) as [->|Ht].
  { destruct (decide (at_ s c = Run)) as [Hat|Hat]; [|unfold wp; by rewrite (tick_inside s pl c)].
    eapply wp_good; [by eapply wp_tick|]. intros s' [->|(_ & _ & H)]; [done|by eapply stepped_good]. }
  destruct (at_ s c) as [|o f i me|st f i me next|f me] eqn:Hat; (eapply core_step_at; [exact Hat|done|]).
  - by apply wp_act.
  - destruct (wp_look s pl c o f i me Hinv Hc Hat) as [-> Hw]. eapply wp_good; [exact Hw|].
    intros s' [(_ & _ & H)|[[_ H]|(t & l & _ & H)]]; by eapply stepped_good.
  - destruct (wp_switch s pl c st f i me next Hinv Hc Hat) as [-> Hw]. eapply wp_good; [exact Hw|]. intros s'. apply stepped_good.
  - eapply wp_good; [by apply wp_after|]. intros s'. apply stepped_good.
Qed.

Lemma inv_start nx :
  sched_inv (threadsInit n nx) (λ t, if decide (t < n)%nat then Held t else Unborn).
Proof.
  split; simpl.
  - intros id. exists []. split_and!; [apply is_queue_empty|constructor|].
    intros t. rewrite elem_of_nil. by destruct (decide (t < n)%nat).
  - intros c Hc. split; [apply NoDup_singleton|]. intros t. rewrite list_elem_of_singleton.
    destruct (decide (t < n)%nat); [|by split; [intros ->|]]. split; [by intros ->|by intros [= ->]].
  - intros t c. destruct (decide (t < n)%nat); [|done]. by intros [= <-].
  - done.
  - intros c Hc. rewrite bool_decide_true, decide_True by done. auto.
  - done.
  - intros t Ht%bool_decide_eq_true. by exists t.
  - intros t. by destruct (decide (t < n)%nat).
  - intros t. destruct (decide (t < n)%nat); split; try done; lia.
  - split; [|done|done]. intros u t. by destruct (decide (t < n)%nat).
  - intros t. by destruct (decide (t < n)%nat).
  - intros t. by destruct (decide (t < n)%nat).
Qed.
End machine.

(** Steps in which the thread of the core keeps its interrupt flag. *)
Abbreviation stepped n c s pl := (stepped_with n (flag_of s pl (activeThreads s c)) c s pl).
Abbreviation stays n c s pl := (stays_with n (flag_of s pl (activeThreads s c)) c s pl).

(** ** Properties *)

(** A step of some core of [n]. *)
Definition machine_step (n : nat) (s s' : sched) : Prop :=
  ∃ c a, (c < n)%nat ∧ allowed s c a ∧ core_step c a s = Ok () s'.

Definition reachable (n : nat) (s : sched) : Prop := ∃ nx, rtc (machine_step n) (threadsInit n nx) s.

Lemma step_inv n s s' pl : sched_inv n s pl → machine_step n s s' → good n pl () s'.
Proof.
  intros Hinv (c & a & Hc & Ha & E). pose proof (wp_core_step n s pl c a Hinv Hc Ha) as Hw.
  unfold wp in Hw. by rewrite E in Hw.
Qed.

Lemma steps_inv n s s' pl :
  sched_inv n s pl → rtc (machine_step n) s s' → ∃ pl', sched_inv n s' pl' ∧ evolves pl pl'.
Proof.
  intros Hinv Hr. revert pl Hinv. induction Hr as [s|s1 s2 s3 Hs _ IH]; intros pl Hinv.
  - exists pl. split; [done|apply evolves_refl].
  - destruct (step_inv _ _ _ _ Hinv Hs) as (pl1 & Hinv1 & He1). destruct (IH pl1 Hinv1) as (pl2 & Hinv2 & He2).
    exists pl2. split; [done|]. intros t. destruct (He1 t), (He2 t). naive_solver.
Qed.

Lemma reachable_inv n s : reachable n s → ∃ pl, sched_inv n s pl.
Proof.
  intros (nx & Hr). destruct (steps_inv n _ _ _ (inv_start n nx) Hr) as (pl & Hinv & _). by exists pl.
Qed.

(** [t] is in the queue [id]. *)
Definition queued (s : sched) (id : qid) (t : nat) : Prop := ∃ l, is_queue (nexts s) (queues s id) l ∧ t ∈ l.

Lemma queued_place n s pl id t : sched_inv n s pl → queued s id t ↔ pl t = In id.
Proof.
  intros Hinv. destruct (si_queues _ _ _ Hinv id) as (l & Hl & Hnd & Hin). rewrite <-Hin. split.
  - intros (l' & Hl' & Ht). by rewrite (is_queue_unique _ _ _ _ Hl Hl').
  - intros Ht. by exists l.
Qed.

(** [t] is in the hands of a core. *)
Definition on_core (n : nat) (s : sched) (t : nat) : Prop := ∃ c, (c < n)%nat ∧ t ∈ held (at_ s c) (activeThreads s c).

Lemma on_core_place n s pl t : sched_inv n s pl → on_core n s t ↔ ∃ c, pl t = Held c.
Proof.
  intros Hinv. split.
  - intros (c & Hc & Ht). exists c. by apply (si_held _ _ _ Hinv c Hc).
  - intros (c & Ht). pose proof (si_cores _ _ _ Hinv _ _ Ht) as Hc. exists c. split; [done|]. by apply (si_held _ _ _ Hinv c Hc).
Qed.

(** Where a thread that is neither idle nor deleted can be. *)
Lemma no_thread_lost n s pl t :
  sched_inv n s pl → (t < next_id s)%nat → isIdle s t = false → dead s t = false →
  on_core n s t ∨ (∃ id, queued s id t) ∨ ∃ u, hand s u = Some t ∧ (on_core n s u ∨ queued s ReadyQ u).
Proof.
  intros Hinv Ht Hi Hd. destruct (pl t) as [|id|c|u| |] eqn:E.
  - apply (si_unborn _ _ _ Hinv) in E. lia.
  - right; left. exists id. by apply (queued_place _ _ _ _ _ Hinv).
  - left. apply (on_core_place _ _ _ _ Hinv). by exists c.
  - right; right. exists u. apply (h_in _ _ _ (si_hands _ _ _ Hinv)) in E. split; [done|].
    destruct (h_holder _ _ _ (si_hands _ _ _ Hinv) _ _ E) as [Hu|Hu]; [left; by apply (on_core_place _ _ _ _ Hinv)|right; by apply (queued_place _ _ _ _ _ Hinv)].
  - apply (si_parked _ _ _ Hinv) in E. congruence.
  - apply (si_dead _ _ _ Hinv) in E. congruence.
Qed.

(** C4. However the steps of the cores interleave, with the timer's interrupt
    anywhere that interrupts are on: no step fails an assertion or follows a
    null pointer, the interrupt does nothing to a core that is inside
    [block], the links of every queue form a list, no thread is in the hands
    of two cores or twice in those of one, a thread in the hands of a core is
    in no queue, nor is one thread in two queues; and no thread is lost:
    unless it is idle or has been deleted it is in the hands of a core, in a
    queue, or is about to be scheduled by a thread that runs or is ready to,
    and then by one only.  What threads do is limited by [allowed]: who has
    taken another in hand does nothing before it schedules it, and idle
    threads do not wait on semaphores and stop with interrupts on. *)
Theorem threads_exclusive n s :
  reachable n s →
  (∀ c a, (c < n)%nat → allowed s c a → ∃ s', core_step c a s = Ok () s') ∧
  (∀ c, (c < n)%nat → at_ s c ≠ Run → core_step c Tick s = Ok () s) ∧
  (∀ id, ∃ l, is_queue (nexts s) (queues s id) l ∧ NoDup l) ∧
  (∀ c, (c < n)%nat → NoDup (held (at_ s c) (activeThreads s c))) ∧
  (∀ t c c', (c < n)%nat → (c' < n)%nat → t ∈ held (at_ s c) (activeThreads s c) →
     t ∈ held (at_ s c') (activeThreads s c') → c = c') ∧
  (∀ t id, on_core n s t → ¬ queued s id t) ∧
  (∀ t id id', queued s id t → queued s id' t → id = id') ∧
  (∀ t, (t < next_id s)%nat → isIdle s t = false → dead s t = false →
     on_core n s t ∨ (∃ id, queued s id t) ∨ ∃ u, hand s u = Some t ∧ (on_core n s u ∨ queued s ReadyQ u)) ∧
  (∀ t u u', hand s u = Some t → (hand s u' = Some t → u' = u) ∧ ¬ on_core n s t ∧ ∀ id, ¬ queued s id t).
Proof.
  intros (pl & Hinv)%reachable_inv. split_and!.
  - intros c a Hc Ha. pose proof (wp_core_step n s pl c a Hinv Hc Ha) as Hw. unfold wp in Hw.
    destruct (core_step c a s) as [[] s'| | |]; try done. by exists s'.
  - intros c. by apply (tick_inside n s pl).
  - intros id. destruct (si_queues _ _ _ Hinv id) as (l & Hl & Hnd & _). by exists l.
  - intros c Hc. by destruct (si_held _ _ _ Hinv c Hc).
  - intros t c c' Hc Hc' Ht Ht'. destruct (si_held _ _ _ Hinv c Hc) as [_ H]. destruct (si_held _ _ _ Hinv c' Hc') as [_ H'].
    apply H in Ht. apply H' in Ht'. congruence.
  - intros t id (c & Hc)%(on_core_place _ _ _ _ Hinv) Hq. apply (queued_place _ _ _ _ _ Hinv) in Hq. congruence.
  - intros t id id' Hq Hq'. apply (queued_place _ _ _ _ _ Hinv) in Hq, Hq'. congruence.
  - intros t. by eapply no_thread_lost.
  - intros t u u' Hu. apply (h_in _ _ _ (si_hands _ _ _ Hinv)) in Hu. split_and!.
    + intros Hu'. apply (h_in _ _ _ (si_hands _ _ _ Hinv)) in Hu'. congruence.
    + intros (c & Hc)%(on_core_place _ _ _ _ Hinv). congruence.
    + intros id Hq. apply (queued_place _ _ _ _ _ Hinv) in Hq. congruence.
Qed.

(** A thread that has stopped never runs again: once it is among the
    zombies, no core has it in its hands and it is in no other queue, for
    ever; so its stack is not in use when it is deleted. *)
Theorem zombies_stay n s s' t :
  reachable n s → queued s Zombies t → rtc (machine_step n) s s' →
  (∀ c, (c < n)%nat → t ∉ held (at_ s' c) (activeThreads s' c)) ∧
  (∀ id, queued s' id t → id = Zombies).
Proof.
  intros (pl & Hinv)%reachable_inv Hq Hr. apply (queued_place _ _ _ _ _ Hinv) in Hq.
  destruct (steps_inv n s s' pl Hinv Hr) as (pl' & Hinv' & He). destruct (He t) as [Hz _].
  destruct (Hz Hq) as [E|E]; split.
  - intros c Hc Ht. destruct (si_held _ _ _ Hinv' c Hc) as [_ H]. apply H in Ht. congruence.
  - intros id Hid. apply (queued_place _ _ _ _ _ Hinv') in Hid. congruence.
  - intros c Hc Ht. destruct (si_held _ _ _ Hinv' c Hc) as [_ H]. apply H in Ht. congruence.
  - intros id Hid. apply (queued_place _ _ _ _ _ Hinv') in Hid. congruence.
Qed.

(** When a thread yields and nothing is ready, [block] returns with its
    [no_preempt] mark still set, and the timer passes it over until it
    blocks again. *)
Lemma yield_alone_masks_timer s c :
  at_ s c = Run → frames s (activeThreads s c) = [] → first (queues s ReadyQ) = None →
  ∃ s1 s2, core_step c Yield s = Ok () s1 ∧ core_step c Go s1 = Ok () s2 ∧
    at_ s2 c = Run ∧ activeThreads s2 c = activeThreads s c ∧ core_step c Tick s2 = Ok () s2.
Proof.
  intros Hrun Hf Hq. eexists _, _. split; [unfold core_step, get, mbind, M_bind; rewrite Hrun; reflexivity|].
  split.
  - unfold core_step, get, mbind, M_bind. simpl. rewrite fset_eq.
    unfold block_look, q_remove, get, mbind, M_bind, remove. simpl. rewrite Hq. simpl.
    unfold block_return, gets, mbind, M_bind. simpl. rewrite Hf. reflexivity.
  - split_and!; simpl; [by rewrite fset_eq|done|].
    unfold core_step, get, mbind, M_bind. simpl. case_match; [|done].
    unfold apitHandler, get, mbind, M_bind. simpl. rewrite fset_eq, orb_true_r. done.
Qed.

(** ** Witnesses *)

(** Two cores: core 0 creates threads 2 and 3 and schedules them, core 1
    stops its idle thread and runs thread 2, which the timer preempts in
    favour of thread 3.  This one stops, and thread 2 goes on, as if nothing
    had happened.  The timer comes inside [block] too. *)
Definition inside (c : nat) : list (nat * action) := concat (replicate 5 [(c, Tick); (c, Go)]).
Definition preempting : list (nat * action) :=
  [(0, Create); (0, Wake); (1, Flag true); (1, Stop)]%nat ++ inside 1 ++ [(0, Create); (0, Wake); (1, Tick)]%nat ++ inside 1.
Definition sample_moves : list (nat * action) := preempting ++ [(1, Stop)]%nat ++ inside 1.

Definition may (s : sched) (c : nat) (a : action) : bool :=
  let me := activeThreads s c in
  match at_ s c, a with
  | Run, DownBlocked _ => bool_decide (hand s me = None) && negb (isIdle s me)
  | Run, Stop => bool_decide (hand s me = None) && (negb (isIdle s me) || flag s me)
  | Run, (Yield | UpSome _ | Create | Reap) => bool_decide (hand s me = None)
  | _, _ => true
  end.

Lemma may_allowed s c a : may s c a = true → allowed s c a.
Proof.
  unfold may, allowed. intros H E. rewrite E in H. destruct a; try done; try (by apply bool_decide_eq_true in H);
    apply andb_true_iff in H as [H1%bool_decide_eq_true H2]; (split; [done|]).
  - intros Hi. by rewrite Hi in H2.
  - by apply negb_true_iff.
Qed.

Fixpoint play (ms : list (nat * action)) (s : sched) : sched :=
  match ms with
  | [] => s
  | (c, a) :: ms => play ms (if may s c a then match core_step c a s with Ok _ s' => s' | _ => s end else s)
  end.

Definition sample_start : sched := threadsInit 2 (λ _, None).

Lemma play_steps ms s :
  forallb (λ m, (m.1 <? 2)%nat) ms = true → rtc (machine_step 2) s (play ms s).
Proof.
  revert s. induction ms as [|[c a] ms IH]; intros s; simpl; [constructor|].
  intros [Hc%Nat.ltb_lt Hms]%andb_true_iff. destruct (may s c a) eqn:Em; [|by apply IH].
  destruct (core_step c a s) as [[] s'| | |] eqn:E; auto.
  eapply rtc_l; [|by apply IH]. exists c, a. split_and!; [done|by apply may_allowed|done].
Qed.

Lemma sample_reachable ms : forallb (λ m, (m.1 <? 2)%nat) ms = true → reachable 2 (play ms sample_start).
Proof. intros. exists (λ _, None). by apply play_steps. Qed.

Definition sample_end : sched := play sample_moves sample_start.

Definition sample_preempted : sched := play preempting sample_start.

Example preempted_and_back :
  activeThreads sample_preempted 1 = 3%nat ∧ first (queues sample_preempted ReadyQ) = Some 2%nat ∧
  frames sample_preempted 2 = [Interrupted Run] ∧
  activeThreads sample_end 1 = 2%nat ∧ frames sample_end 2 = [] ∧ at_ sample_end 1 = Run ∧ enabled sample_end 1 = true.
Proof. vm_compute. repeat split. Qed.

Lemma threads_exclusive_witness :
  first (queues sample_end Zombies) = Some 3%nat ∧
  (∀ c a, (c < 2)%nat → allowed sample_end c a → ∃ s', core_step c a sample_end = Ok () s') ∧
  (∀ t, (t < next_id sample_end)%nat → isIdle sample_end t = false → dead sample_end t = false →
     on_core 2 sample_end t ∨ (∃ id, queued sample_end id t) ∨
     ∃ u, hand sample_end u = Some t ∧ (on_core 2 sample_end u ∨ queued sample_end ReadyQ u)).
Proof.
  split; [vm_compute; reflexivity|].
  destruct (threads_exclusive 2 sample_end) as (H1 & _ & _ & _ & _ & _ & _ & H2 & _); [apply sample_reachable; vm_compute; reflexivity|].
  split; [exact H1|exact H2].
Defined.

Lemma zombies_stay_witness :
  first (queues (play [(0, Reap)]%nat sample_end) Zombies) = None ∧
  (∀ c, (c < 2)%nat → 3%nat ∉ held (at_ (play [(0, Reap)]%nat sample_end) c) (activeThreads (play [(0, Reap)]%nat sample_end) c)) ∧
  (∀ id, queued (play [(0, Reap)]%nat sample_end) id 3 → id = Zombies).
Proof.
  split; [vm_compute; reflexivity|]. apply (zombies_stay 2 sample_end).
  - apply sample_reachable. vm_compute. reflexivity.
  - exists [3%nat]. split; [|by left]. vm_compute. repeat split. intros [|i] t Ht; [|done]. by injection Ht as <-.
  - apply play_steps. vm_compute. reflexivity.
Defined.
