(* ===== verification/Kernel.v ===== *)
(** * The scheduler under the semaphores (threads.cc with semaphore.h)

    [Threads] schedules threads of which it does not know what they do;
    [SemaphoreImpl] runs programs whose threads may step at any time.  Here
    the two are one machine: a thread steps when a core runs it, [down]
    blocks through [block], [up] takes the thread it wakes out of the
    intrusive queue and hands it to [schedule], and the timer may interrupt
    a core wherever its interrupts are on.  The promise that [SemaphoreImpl] makes to its
    clients, with the scheduler as it is: every run is one of its runs, no
    core gets stuck, and when nobody is left to be run its machine is at
    rest. *)

From S2P Require Import Prelude.
From S2P Require Import Semaphore.
From S2P Require Import Queue.
From S2P Require Import Threads.
From S2P Require Import SemaphoreImpl.

Abbreviation place := Threads.place.
Abbreviation at_ := SemaphoreImpl.at_.
Abbreviation phases := Threads.at_.

(** ** State *)

Section kernel.
Context {X : Type} (n last : nat).

(** The scheduler's side of the threads, their programs with the
    semaphores, and who is in the loop of [delete_zombies]. *)
Record kernel := mkKernel { sch : sched; mch : machine X; reaping : nat → bool }.

(** The numbers of threads: first the idle ones, then the reaper, then the
    threads that run the programs, in this order. *)
Definition reaper : nat := n.
Definition tid (i : nat) : nat := S (n + i).
Definition pid (t : nat) : nat := t - S n.

(** ** Steps *)

Definition scheduler (c : nat) (a : action) (k : kernel) : option sched :=
  match core_step c a (sch k) with Ok _ s => Some s | _ => None end.

(** A step that concerns only the scheduler. *)
Definition sched_step (c : nat) (a : action) (k : kernel) : option kernel :=
  s ← scheduler c a k;
  Some (mkKernel s (mch k) (reaping k)).

(** A round of [delete_zombies], which returns when it finds none. *)
Definition sweep (c t : nat) (k : kernel) : option kernel :=
  s ← scheduler c Reap k;
  Some (mkKernel s (mch k) (fset (reaping k) t (bool_decide (first (queues (sch k) Zombies) ≠ None)))).

(** [thread], called for each program at the end of [kernelInit] by the core
    that is [last] to come there, on its idle thread; then, and on the other
    cores at once, [stop]. *)
Definition starting (k : kernel) : bool :=
  (next_id (sch k) <? tid (List.length (threads (mch k))))%nat || bool_decide (hand (sch k) last ≠ None).

Definition start_thread (c : nat) (k : kernel) : option kernel :=
  if reaping k last then sweep c last k
  else match hand (sch k) last with
       | None => sched_step c Create k
       | Some _ => s ← scheduler c Wake k; Some (mkKernel s (mch k) (fset (reaping k) last true))
       end.

Definition idle_step (c t : nat) (k : kernel) : option kernel :=
  if negb (flag (sch k) t) then sched_step c (Flag true) k   (* sti() *)
  else if bool_decide (t = last) && starting k then start_thread c k else sched_step c Stop k.

(** The reaper: [delete_zombies], where interrupts must be on, [yield], and
    round again. *)
Definition reaper_step (c : nat) (k : kernel) : option kernel :=
  if reaping k reaper then if enabled (sch k) c then sweep c reaper k else None
  else s ← scheduler c Yield k; Some (mkKernel s (mch k) (fset (reaping k) reaper true)).

(** What the next step of a call asks of the scheduler. *)
Definition demand (t : thread X) : option action :=
  match at_ t, sem_of t with
  | Down_block _, Some w => Some (DownBlocked w)
  | Up_remove _, Some w => Some (UpSome w)
  | Up_schedule (Some _), _ => Some Wake
  | _, _ => None
  end.

(** What a step of a call, after which the thread is [t'], does to the
    scheduler: otherwise it may turn interrupts off or on. *)
Definition effect (t t' : thread X) : action := match demand t with Some a => a | None => Flag (iflag t') end.

(** A step of the program of thread [i]; at its end [entry] calls [stop]. *)
Definition program_step (c i : nat) (k : kernel) : option kernel :=
  t ← threads (mch k) !! i;
  match todo t with
  | Done => sched_step c Stop k
  | _ =>
      m ← iexec i (mch k);
      t' ← threads m !! i;
      s ← scheduler c (effect t t') k;
      Some (mkKernel s m (reaping k))
  end.

(** The rest of [down] in the callback of [block]. *)
Definition down_callback (c i : nat) (k : kernel) : option kernel :=
  m1 ← iexec i (mch k);
  m2 ← iexec i m1;
  s ← scheduler c Go k;
  Some (mkKernel s m2 (reaping k)).

(** The next step of core [c], or the timer's interrupt. *)
Definition kexec (c : nat) (timer : bool) (k : kernel) : option kernel :=
  if timer then if enabled (sch k) c then sched_step c Tick k else None
  else
    let me := activeThreads (sch k) c in
    match phases (sch k) c with
    | Run =>
        if isIdle (sch k) me then idle_step c me k
        else if decide (me = reaper) then reaper_step c k
        else program_step c (pid me) k
    | After (WaitOn _) t => down_callback c (pid t) k
    | _ => sched_step c Go k
    end.

Definition kstep (k k' : kernel) : Prop := ∃ c timer, (c < n)%nat ∧ kexec c timer k = Some k'.

(** The end of [threadsInit], which creates the reaper while there is only
    one core. *)
Definition threads_ready (nx : links) : sched :=
  match (core_step 0 Create;; core_step 0 Wake) (threadsInit n nx) with Ok _ s => s | _ => threadsInit n nx end.

(** Before the first program's thread is created; [entry] turns interrupts on before
    a program begins. *)
Definition boots (progs : list (prog X)) : list (prog X * bool) := map (λ p, (p, true)) progs.
Definition kstart (nx : links) (progs : list (prog X)) (counts : nat → Z) (x : X) : kernel :=
  mkKernel (threads_ready nx) (boot (boots progs) counts x) (λ _, true).

(** ** Where a thread can be in its program *)

(** A thread that a core runs, that [block] is to leave, or that no core
    has. *)
Inductive spot := Runs | Leaves (f : callback) | Off (p : place).

Definition core_spot (ph : phase) (t : nat) : spot :=
  match ph with
  | Run => Runs
  | Look _ f _ _ => Leaves f
  | Switch _ f _ me _ | After f me => if decide (t = me) then Leaves f else Runs
  end.

Definition spot_of (s : sched) (pl : places) (t : nat) : spot :=
  match pl t with Held c => core_spot (phases s c) t | p => Off p end.

Definition fresh (t : thread X) : Prop := at_ t = Running ∧ iflag t = true.
Definition ready (t : thread X) : Prop := iflag t = true ∨ ∃ was, at_ t = Down_back was.
Definition ended (t : thread X) : Prop := at_ t = Running ∧ todo t = Done.
Definition asleep (t : thread X) : Prop := ∃ was, at_ t = Down_waits was.
Definition on_cpu (t : thread X) : Prop :=
  match at_ t with Down_add _ | Down_release _ | Down_waits _ => False | _ => True end.

Definition program_ok (sp : spot) (t : thread X) : Prop :=
  match sp with
  | Runs => on_cpu t
  | Leaves Reschedule | Off (In ReadyQ) => ready t
  | Leaves Bury | Off (In Zombies) | Off Gone => ended t
  | Leaves (WaitOn w) => (∃ was, at_ t = Down_add was) ∧ sem_of t = Some w
  | Off (In (WaitingQ w)) => asleep t ∧ sem_of t = Some w
  | Off Unborn => fresh t
  | Off (Hand u) => if bool_decide (u < n)%nat then fresh t else asleep t
  | Off (Held _) | Off Parked => False
  end.

Definition reaper_ok (sp : spot) : Prop :=
  match sp with
  | Runs | Leaves Reschedule | Off Unborn | Off (In ReadyQ) | Off (Hand _) => True
  | _ => False
  end.

Record kinv (flags : list bool) (k : kernel) (pl : places) : Prop := {
  k_sched : sched_inv n (sch k) pl;
  k_sems : SemaphoreImpl.inv flags (mch k);
  k_idle : ∀ t, isIdle (sch k) t = bool_decide (t < n)%nat;
  k_reaper : reaper_ok (spot_of (sch k) pl reaper);
  k_program : ∀ i t, threads (mch k) !! i = Some t → program_ok (spot_of (sch k) pl (tid i)) t;
  k_bound : ∀ i, (List.length (threads (mch k)) ≤ i)%nat → pl (tid i) = Unborn;
  k_hands : ∀ i t, threads (mch k) !! i = Some t → hand (sch k) (tid i) = tid <$> claims (at_ t);
  k_low : ∀ t, (t ≤ n)%nat → hand (sch k) t ≠ None → t = last ∧ reaping k last = false ∧ (last < n)%nat;
  k_waiting : ∀ w l, is_queue (nexts (sch k)) (queues (sch k) (WaitingQ w)) l → l = tid <$> iwaiting (isems (mch k) w);
  k_flags : ∀ i t, threads (mch k) !! i = Some t → flag_of (sch k) pl (tid i) = iflag t;
  k_on : flag_of (sch k) pl reaper = true
}.

(** ** Their preservation *)

(** *** Spots *)

(** The spot of the thread that moves. *)
Definition new_spot (p : place) (ph : phase) (t : nat) : spot := match p with Held _ => core_spot ph t | _ => Off p end.

Section step.
Context (b : bool) (c : nat) (s s' : sched) (pl : places) (t : nat) (p : place) (ph : phase) (h : option nat) (f : qid → list nat → list nat).
Context (Hst : stepped_with n b c s pl t p ph h f s').

Lemma spot_moved : (∀ c', p = Held c' → c' = c) → spot_of s' (fset pl t p) t = new_spot p ph t.
Proof using Hst.
  intros Hp. unfold spot_of, new_spot. rewrite fset_eq. destruct p as [| |c'| | |]; try done.
  by rewrite (Hp c' eq_refl), (st_at _ _ _ _ _ _ _ _ _ _ _ Hst), fset_eq.
Qed.

Lemma spot_other u :
  u ≠ t → (pl u = Held c → core_spot ph u = core_spot (phases s c) u) → spot_of s' (fset pl t p) u = spot_of s pl u.
Proof using Hst.
  intros Hne Hc. unfold spot_of. rewrite fset_ne by done. destruct (pl u) as [| |c'| | |] eqn:E; try done.
  rewrite (st_at _ _ _ _ _ _ _ _ _ _ _ Hst). destruct (decide (c' = c)) as [->|]; [by rewrite fset_eq, Hc|by rewrite fset_ne].
Qed.
End step.

(** What a step of a core establishes, when thread [t] moves to [p] and
    [m'] is the machine of the programs then. *)
Lemma kinv_stepped flags k pl b c t p ph h f s' m' r' :
  kinv flags k pl → stepped_with n b c (sch k) pl t p ph h f s' →
  SemaphoreImpl.inv flags m' →
  (∀ c', p = Held c' → c' = c) →
  (∀ u, u ≠ t → pl u = Held c → core_spot ph u = core_spot (phases (sch k) c) u) →
  (t = reaper → reaper_ok (new_spot p ph t)) →
  (∀ i u, threads m' !! i = Some u → program_ok (if decide (tid i = t) then new_spot p ph t else spot_of (sch k) pl (tid i)) u) →
  (∀ i, (List.length (threads (mch k)) ≤ i)%nat → t = tid i → p = Unborn) →
  (∀ i u, threads m' !! i = Some u → fset (hand (sch k)) (activeThreads (sch k) c) h (tid i) = tid <$> claims (at_ u)) →
  (∀ u, (u ≤ n)%nat → fset (hand (sch k)) (activeThreads (sch k) c) h u ≠ None → u = last ∧ r' last = false ∧ (last < n)%nat) →
  (∀ w l, l = tid <$> iwaiting (isems (mch k) w) → f (WaitingQ w) l = tid <$> iwaiting (isems m' w)) →
  (∀ i u, threads m' !! i = Some u → fset (flag_of (sch k) pl) (activeThreads (sch k) c) b (tid i) = iflag u) →
  (activeThreads (sch k) c = reaper → b = true) →
  kinv flags (mkKernel s' m' r') (fset pl t p).
Proof.
  intros Hk Hst Hv Hp Hsame Hreap Hprog Hbound Hhands Hlow Hwait Hflags Hon.
  pose proof Hst as [H1 H2 H3 H4 H5 H6 H7]. destruct Hk as [K1 K2 K3 K5 K6 K7 K8 K9 K10 K11 K12]. split; cbn [sch mch reaping]; try done.
  - by rewrite H5.
  - destruct (decide (t = reaper)) as [E|]; [rewrite <-E at 1; erewrite spot_moved by done; auto|].
    by erewrite spot_other by eauto.
  - intros i u Hi. specialize (Hprog i u Hi). case_decide as E; [rewrite E; by erewrite spot_moved by done|].
    by erewrite spot_other by eauto.
  - intros i Hi. rewrite (v_length _ _ Hv), <-(v_length _ _ K2) in Hi. destruct (decide (tid i = t)) as [<-|]; [rewrite fset_eq; eauto|].
    rewrite fset_ne by done. auto.
  - intros i u Hi. rewrite H4. eauto.
  - intros u Hu. rewrite H4. eauto.
  - intros w l Hl. destruct (si_queues _ _ _ K1 (WaitingQ w)) as (l0 & Hl0 & _). pose proof (H6 _ _ Hl0) as Hl1.
    rewrite (is_queue_unique _ _ _ _ Hl Hl1). apply Hwait. by apply K10.
  - intros i u Hi. rewrite H7. by apply Hflags.
  - rewrite H7. destruct (decide (reaper = activeThreads (sch k) c)) as [E|]; [rewrite <-E, fset_eq; by apply Hon|by rewrite fset_ne].
Qed.

(** No thread has another interrupt flag. *)
Definition keep_flags (m m' : machine X) : Prop :=
  ∀ i u, threads m' !! i = Some u → ∃ u0, threads m !! i = Some u0 ∧ iflag u0 = iflag u.

Lemma keep_flags_same m : keep_flags m m.
Proof. intros i u Hi. by exists u. Qed.

(** When the thread of the core keeps its interrupt flag. *)
Lemma kinv_stepped_plain flags k pl c t p ph h f s' m' r' :
  kinv flags k pl → stepped n c (sch k) pl t p ph h f s' →
  SemaphoreImpl.inv flags m' →
  (∀ c', p = Held c' → c' = c) →
  (∀ u, u ≠ t → pl u = Held c → core_spot ph u = core_spot (phases (sch k) c) u) →
  (t = reaper → reaper_ok (new_spot p ph t)) →
  (∀ i u, threads m' !! i = Some u → program_ok (if decide (tid i = t) then new_spot p ph t else spot_of (sch k) pl (tid i)) u) →
  (∀ i, (List.length (threads (mch k)) ≤ i)%nat → t = tid i → p = Unborn) →
  (∀ i u, threads m' !! i = Some u → fset (hand (sch k)) (activeThreads (sch k) c) h (tid i) = tid <$> claims (at_ u)) →
  (∀ u, (u ≤ n)%nat → fset (hand (sch k)) (activeThreads (sch k) c) h u ≠ None → u = last ∧ r' last = false ∧ (last < n)%nat) →
  (∀ w l, l = tid <$> iwaiting (isems (mch k) w) → f (WaitingQ w) l = tid <$> iwaiting (isems m' w)) →
  keep_flags (mch k) m' →
  kinv flags (mkKernel s' m' r') (fset pl t p).
Proof.
  intros Hk Hst Hv Hp Hsame Hreap Hprog Hbound Hhands Hlow Hwait Hflags. eapply kinv_stepped; try done.
  - intros i u Hi. rewrite fset_same by done. destruct (Hflags i u Hi) as (u0 & Hu0 & <-). by apply (k_flags _ _ _ Hk).
  - intros ->. apply (k_on _ _ _ Hk).
Qed.

(** What the scheduler does is known from its own invariant. *)
Lemma scheduler_wp k c a (Q : sched → Prop) :
  wp (core_step c a) (λ _, Q) (sch k) → ∃ s, scheduler c a k = Some s ∧ Q s.
Proof. unfold scheduler, wp. destruct (core_step c a (sch k)) as [[] s| | |]; [by exists s|done..]. Qed.

Lemma core_run k c a (Q : () → sched → Prop) :
  phases (sch k) c = Run → a ≠ Tick → wp (act c a) Q (sch k) → wp (core_step c a) Q (sch k).
Proof. apply (core_step_at (sch k) c a Run). Qed.

(** The threads of a core that runs one. *)
Lemma only_active k pl c u : sched_inv n (sch k) pl → (c < n)%nat → phases (sch k) c = Run → pl u = Held c → u = activeThreads (sch k) c.
Proof.
  intros Hinv Hc Hrun Hu. apply (si_held _ _ _ Hinv c Hc) in Hu. rewrite Hrun in Hu. by apply list_elem_of_singleton in Hu.
Qed.

Lemma spot_active k pl c : sched_inv n (sch k) pl → (c < n)%nat → phases (sch k) c = Run → spot_of (sch k) pl (activeThreads (sch k) c) = Runs.
Proof. intros Hinv Hc Hrun. unfold spot_of. by rewrite (active_held n _ _ _ Hinv Hc Hrun), Hrun. Qed.

Lemma tid_pid t : (n < t)%nat → tid (pid t) = t.
Proof. unfold tid, pid. lia. Qed.
Lemma pid_tid i : pid (tid i) = i.
Proof. unfold tid, pid. lia. Qed.
Lemma tid_inj i j : tid i = tid j → i = j.
Proof. unfold tid. lia. Qed.
Lemma reaper_not_tid i : reaper ≠ tid i.
Proof. unfold tid, reaper. lia. Qed.

Definition kept (flags : list bool) (k : kernel) : Prop := ∃ pl, kinv flags k pl.

(** Who has another in hand, if idle or the reaper, is at work starting it. *)
Definition low_ok (k : kernel) (r : nat → bool) : Prop :=
  ∀ u, (u ≤ n)%nat → hand (sch k) u ≠ None → u = last ∧ r last = false ∧ (last < n)%nat.

(** A step in which no thread moves. *)
Lemma kept_stays flags k pl b c ph s' m' r' :
  kinv flags k pl → pl (activeThreads (sch k) c) = Held c → stays_with n b c (sch k) pl ph s' →
  SemaphoreImpl.inv flags m' →
  (∀ u, u ≠ activeThreads (sch k) c → pl u = Held c → core_spot ph u = core_spot (phases (sch k) c) u) →
  (activeThreads (sch k) c = reaper → reaper_ok (core_spot ph reaper)) →
  (∀ i u, threads m' !! i = Some u →
     program_ok (if decide (tid i = activeThreads (sch k) c) then core_spot ph (tid i) else spot_of (sch k) pl (tid i)) u) →
  (∀ i u, threads m' !! i = Some u → hand (sch k) (tid i) = tid <$> claims (at_ u)) →
  low_ok k r' →
  (∀ w, iwaiting (isems m' w) = iwaiting (isems (mch k) w)) →
  (∀ i u, threads m' !! i = Some u → fset (flag_of (sch k) pl) (activeThreads (sch k) c) b (tid i) = iflag u) →
  (activeThreads (sch k) c = reaper → b = true) →
  kept flags (mkKernel s' m' r').
Proof.
  intros Hk Hact Hst Hv Hsame Hreap Hprog Hhands Hlow Hwait Hflags Hon. unfold stays_with in Hst. rewrite Hact in Hst. eexists.
  eapply kinv_stepped; [exact Hk|exact Hst|exact Hv| | | | | | | | | |done].
  - by intros c' [= <-].
  - done.
  - intros E. unfold new_spot. rewrite E in *. auto.
  - intros i u Hi. specialize (Hprog i u Hi). unfold new_spot. case_decide as E; [by rewrite <-E|done].
  - intros i Hi E. rewrite E, (k_bound _ _ _ Hk i Hi) in Hact. done.
  - intros i u Hi. rewrite fset_same by done. by apply Hhands.
  - intros u. rewrite fset_same by done. apply Hlow.
  - intros w l ->. by rewrite Hwait.
  - done.
Qed.

Lemma flags_kept flags k pl c (m' : machine X) :
  kinv flags k pl → keep_flags (mch k) m' →
  (∀ i u, threads m' !! i = Some u →
     fset (flag_of (sch k) pl) (activeThreads (sch k) c) (flag_of (sch k) pl (activeThreads (sch k) c)) (tid i) = iflag u) ∧
  (activeThreads (sch k) c = reaper → flag_of (sch k) pl (activeThreads (sch k) c) = true).
Proof.
  intros Hk Hf. split; [|intros ->; apply (k_on _ _ _ Hk)].
  intros i u Hi. rewrite fset_same by done. destruct (Hf i u Hi) as (u0 & Hu0 & <-). by apply (k_flags _ _ _ Hk).
Qed.

(** And one that leaves the programs alone. *)
Lemma kept_sched flags k pl c ph s' r' :
  kinv flags k pl → pl (activeThreads (sch k) c) = Held c → stays n c (sch k) pl ph s' →
  (∀ u, u ≠ activeThreads (sch k) c → pl u = Held c → core_spot ph u = core_spot (phases (sch k) c) u) →
  (activeThreads (sch k) c = reaper → reaper_ok (core_spot ph reaper)) →
  (∀ i u, tid i = activeThreads (sch k) c → threads (mch k) !! i = Some u → program_ok (core_spot ph (tid i)) u) →
  low_ok k r' → kept flags (mkKernel s' (mch k) r').
Proof.
  intros Hk Hact Hst Hsame Hreap Hprog Hlow. destruct (flags_kept flags k pl c (mch k) Hk (keep_flags_same _)) as [Hf Hf'].
  eapply kept_stays; try done; [apply (k_sems _ _ _ Hk)| |apply (k_hands _ _ _ Hk)].
  intros i u Hi. case_decide as E; [by apply Hprog|by apply (k_program _ _ _ Hk)].
Qed.

(** [block], from the program that the core runs. *)
Lemma kept_block flags k pl c o f s' m' r' :
  kinv flags k pl → (c < n)%nat → phases (sch k) c = Run →
  stays n c (sch k) pl (Look o f c (activeThreads (sch k) c)) s' →
  SemaphoreImpl.inv flags m' → keep_flags (mch k) m' →
  (activeThreads (sch k) c = reaper → f = Reschedule) →
  (∀ i u, threads m' !! i = Some u → tid i = activeThreads (sch k) c →
     program_ok (Leaves f) u ∧ hand (sch k) (tid i) = tid <$> claims (at_ u)) →
  (∀ i u, threads m' !! i = Some u → tid i ≠ activeThreads (sch k) c → threads (mch k) !! i = Some u) →
  low_ok k r' →
  (∀ w, iwaiting (isems m' w) = iwaiting (isems (mch k) w)) →
  kept flags (mkKernel s' m' r').
Proof.
  intros Hk Hc Hrun Hst Hv Hfl Hr Hme Hother Hlow Hwait. pose proof (active_held n _ _ _ (k_sched _ _ _ Hk) Hc Hrun) as Hact.
  destruct (flags_kept flags k pl c m' Hk Hfl) as [Hf Hf'].
  eapply kept_stays; try done.
  - intros u Hu E. by destruct Hu; eapply only_active; [apply (k_sched _ _ _ Hk)| | |].
  - intros E. simpl. by rewrite (Hr E).
  - intros i u Hi. case_decide as E; [by apply (Hme i u Hi)|]. apply (k_program _ _ _ Hk). by apply Hother.
  - intros i u Hi. destruct (decide (tid i = activeThreads (sch k) c)) as [E|E].
    + by apply (Hme i u Hi).
    + apply (k_hands _ _ _ Hk). by apply Hother.
Qed.

(** The idle threads and the reaper run no program. *)
Lemma low_not_tid k pl c i : sched_inv n (sch k) pl → (activeThreads (sch k) c ≤ n)%nat → tid i ≠ activeThreads (sch k) c.
Proof. unfold tid. lia. Qed.

Lemma kept_block_low flags k pl c a o f r' :
  kinv flags k pl → (c < n)%nat → phases (sch k) c = Run → (activeThreads (sch k) c ≤ n)%nat →
  a ≠ Tick → wp (act c a) (λ _, stays n c (sch k) pl (Look o f c (activeThreads (sch k) c))) (sch k) →
  (activeThreads (sch k) c = reaper → f = Reschedule) → low_ok k r' →
  ∃ s', scheduler c a k = Some s' ∧ kept flags (mkKernel s' (mch k) r').
Proof.
  intros Hk Hc Hrun Hlow Ha Hw Hr Hlo.
  destruct (scheduler_wp k c a _ (core_run k c a _ Hrun Ha Hw)) as (s' & E & Hst).
  exists s'. split; [done|]. eapply kept_block; try done; [apply (k_sems _ _ _ Hk)|apply keep_flags_same|].
  intros i u _ E'. exfalso. unfold tid in E'. lia.
Qed.

Definition goes_on (flags : list bool) (o : option kernel) : Prop := ∃ k, o = Some k ∧ kept flags k.

Lemma goes_on_sched flags k c a r (Q : sched → Prop) :
  wp (core_step c a) (λ _, Q) (sch k) → (∀ s, Q s → kept flags (mkKernel s (mch k) r)) →
  goes_on flags (s ← scheduler c a k; Some (mkKernel s (mch k) r)).
Proof. intros (s & E & H)%scheduler_wp HQ. rewrite E. eexists. split; [done|]. by apply HQ. Qed.

Lemma low_fset k pl flags t b : kinv flags k pl → hand (sch k) t = None → low_ok k (fset (reaping k) t b).
Proof.
  intros Hk Ht u Hu E. destruct (k_low _ _ _ Hk u Hu E) as (-> & Hr & Hn). split_and!; [done| |done].
  rewrite fset_ne; [done|congruence].
Qed.

Lemma low_same k pl flags : kinv flags k pl → low_ok k (reaping k).
Proof. intros Hk u. apply (k_low _ _ _ Hk). Qed.

(** A step of the scheduler in which a thread moves that no core runs. *)
Lemma kept_moves flags k pl c t p h f s' r' :
  kinv flags k pl → (c < n)%nat → phases (sch k) c = Run → stepped n c (sch k) pl t p Run h f s' →
  (∀ c', p ≠ Held c') → (t = reaper → reaper_ok (Off p)) →
  (∀ i u, threads (mch k) !! i = Some u → tid i = t → program_ok (spot_of (sch k) pl t) u → program_ok (Off p) u) →
  (∀ i, (List.length (threads (mch k)) ≤ i)%nat → t ≠ tid i) →
  (activeThreads (sch k) c ≤ n)%nat →
  (∀ u, (u ≤ n)%nat → fset (hand (sch k)) (activeThreads (sch k) c) h u ≠ None → u = last ∧ r' last = false ∧ (last < n)%nat) →
  (∀ w l, f (WaitingQ w) l = l) →
  kept flags (mkKernel s' (mch k) r').
Proof.
  intros Hk Hc Hrun Hst Hp Hr Hprog Hbound Hlow Hr' Hf. eexists.
  eapply kinv_stepped_plain; [exact Hk|exact Hst|apply (k_sems _ _ _ Hk)|..]; try done.
  - intros c' E. by destruct (Hp c').
  - intros u _ E. by rewrite Hrun.
  - intros E. unfold new_spot. destruct p; auto. by destruct (Hp c0).
  - intros i u Hi. pose proof (k_program _ _ _ Hk i u Hi) as Hok. case_decide as E; [|done].
    rewrite E in Hok. pose proof (Hprog i u Hi E Hok) as Hnew. unfold new_spot. destruct p; auto. by destruct (Hp c0).
  - intros i Hi E. by destruct (Hbound i Hi).
  - intros i u Hi. rewrite fset_ne by (unfold tid; lia). by apply (k_hands _ _ _ Hk).
  - intros w l ->. by rewrite Hf.
  - apply keep_flags_same.
Qed.

Lemma kept_rests flags k pl c s' r' :
  kinv flags k pl → (c < n)%nat → phases (sch k) c = Run → stays n c (sch k) pl Run s' → low_ok k r' →
  kept flags (mkKernel s' (mch k) r').
Proof.
  intros Hk Hc Hrun Hst Hlow. pose proof (k_sched _ _ _ Hk) as Hs. pose proof (active_held n _ _ _ Hs Hc Hrun) as Hact.
  eapply kept_sched; try done.
  - intros u _ _. by rewrite Hrun.
  - intros i u E Hi. pose proof (k_program _ _ _ Hk i u Hi) as Hok. rewrite E in Hok. by rewrite (spot_active _ _ _ Hs Hc Hrun) in Hok.
Qed.

(** The places of programs that do not exist, which are never taken. *)
Lemma not_beyond flags k pl t i :
  kinv flags k pl → pl t ≠ Unborn → (List.length (threads (mch k)) ≤ i)%nat → t ≠ tid i.
Proof. intros Hk Ht Hi ->. apply Ht. by apply (k_bound _ _ _ Hk). Qed.

Lemma spot_off s pl t p : pl t = p → (∀ c, p ≠ Held c) → spot_of s pl t = Off p.
Proof. intros E Hp. unfold spot_of. rewrite E. destruct p; try done. by destruct (Hp c). Qed.

Lemma sweep_goes_on flags k pl c :
  kinv flags k pl → (c < n)%nat → phases (sch k) c = Run → (activeThreads (sch k) c ≤ n)%nat →
  hand (sch k) (activeThreads (sch k) c) = None → goes_on flags (sweep c (activeThreads (sch k) c) k).
Proof.
  intros Hk Hc Hrun Ht Hnone. pose proof (k_sched _ _ _ Hk) as Hs. unfold sweep. eapply goes_on_sched.
  - apply core_run; [done|done|]. eapply wp_mono; [by apply (wp_reap n _ _ _ Hs Hc Hrun)|]. intros [] s' H. exact H.
  - intros s' [H|(z & Hz & H)]; [eapply kept_rests; try done; by eapply low_fset|].
    eapply (kept_moves flags k pl c); try done.
    + intros E. subst z. pose proof (k_reaper _ _ _ Hk) as Hr. by rewrite (spot_off _ _ _ _ Hz) in Hr.
    + intros i u _ _. by rewrite (spot_off _ _ _ _ Hz).
    + intros i. eapply not_beyond; [done|congruence].
    + rewrite fset_same by done. by eapply low_fset.
Qed.

Lemma start_goes_on flags k pl c :
  kinv flags k pl → (c < n)%nat → phases (sch k) c = Run → activeThreads (sch k) c = last → (last < n)%nat → starting k = true →
  goes_on flags (start_thread c k).
Proof.
  intros Hk Hc Hrun Ht Hln Hstart. pose proof (k_sched _ _ _ Hk) as Hs. unfold start_thread.
  destruct (reaping k last) eqn:Er.
  { rewrite <-Ht. apply (sweep_goes_on flags k pl); try done; [lia|]. rewrite Ht. destruct (hand (sch k) last) eqn:E; [|done].
    destruct (k_low _ _ _ Hk last) as (_ & ? & _); [lia|by rewrite E|congruence]. }
  destruct (hand (sch k) last) as [t|] eqn:Eh.
  - eapply goes_on_sched.
    + apply core_run; [done|done|]. eapply wp_mono; [by apply (wp_wake n _ _ _ Hs Hc Hrun)|]. intros [] s' H. rewrite <-Ht in Eh. rewrite Eh in H. exact H.
    + intros s' H. pose proof (proj1 (h_in _ _ _ (si_hands _ _ _ Hs) _ _) Eh) as Hpl.
      eapply (kept_moves flags k pl c); try done.
      * intros i u _ _. rewrite (spot_off _ _ _ _ Hpl) by done. simpl. rewrite bool_decide_true by lia. intros [_ ?]. by left.
      * intros i. eapply not_beyond; [done|congruence].
      * lia.
      * intros u Hu. rewrite Ht. destruct (decide (u = last)) as [->|]; [by rewrite fset_eq|rewrite fset_ne by done].
        intros E. by destruct (k_low _ _ _ Hk u Hu E).
  - eapply goes_on_sched.
    + apply core_run; [done|done|]. eapply wp_mono; [apply (wp_create n _ _ _ Hs Hc Hrun); by rewrite Ht|]. intros [] s' H. exact H.
    + intros s' H. unfold starting in Hstart. rewrite Eh, bool_decide_false, orb_false_r in Hstart by auto. apply Nat.ltb_lt in Hstart.
      assert (Hpl : pl (next_id (sch k)) = Unborn) by (apply (si_unborn _ _ _ Hs); lia).
      eapply (kept_moves flags k pl c); try done.
      * intros i u _ _. rewrite (spot_off _ _ _ _ Hpl) by done. simpl. rewrite Ht, bool_decide_true by lia. done.
      * intros i Hi E. unfold tid in *. lia.
      * lia.
      * intros u Hu. rewrite Ht. destruct (decide (u = last)) as [->|]; [intros _; split_and!; [done|done|lia]|rewrite fset_ne by done].
        intros E. by destruct (k_low _ _ _ Hk u Hu E).
Qed.

(** [sti] by an idle thread. *)
Lemma sti_goes_on flags k pl c :
  kinv flags k pl → (c < n)%nat → phases (sch k) c = Run → (activeThreads (sch k) c < n)%nat → goes_on flags (sched_step c (Flag true) k).
Proof.
  intros Hk Hc Hrun Hlow. pose proof (k_sched _ _ _ Hk) as Hs. pose proof (active_held n _ _ _ Hs Hc Hrun) as Hact.
  unfold sched_step. eapply goes_on_sched; [apply core_run; [done|done|]; apply (wp_flag n _ _ c true Hs Hc Hrun)|].
  intros s' H. eapply kept_stays; try done; [apply (k_sems _ _ _ Hk)|..].
  - intros u _ _. by rewrite Hrun.
  - intros i u Hi. pose proof (k_program _ _ _ Hk i u Hi) as Hok. by rewrite decide_False by (unfold tid; lia).
  - apply (k_hands _ _ _ Hk).
  - by eapply low_same.
  - intros i u Hi. rewrite fset_ne by (unfold tid; lia). by apply (k_flags _ _ _ Hk).
Qed.

Lemma idle_goes_on flags k pl c :
  kinv flags k pl → (c < n)%nat → phases (sch k) c = Run → isIdle (sch k) (activeThreads (sch k) c) = true →
  goes_on flags (idle_step c (activeThreads (sch k) c) k).
Proof.
  intros Hk Hc Hrun Hi. rewrite (k_idle _ _ _ Hk) in Hi. apply bool_decide_eq_true in Hi. unfold idle_step.
  destruct (flag (sch k) (activeThreads (sch k) c)) eqn:Efl; simpl; [|by eapply sti_goes_on].
  destruct (bool_decide (activeThreads (sch k) c = last) && starting k) eqn:E.
  { apply andb_true_iff in E as [E0%bool_decide_eq_true E1]. eapply start_goes_on; try done. by rewrite <-E0. }
  assert (Hnone : hand (sch k) (activeThreads (sch k) c) = None).
  { destruct (hand (sch k) (activeThreads (sch k) c)) eqn:Eh; [|done].
    destruct (k_low _ _ _ Hk (activeThreads (sch k) c)) as (E0 & _); [lia|by rewrite Eh|].
    rewrite bool_decide_true in E by done. simpl in E. unfold starting in E. apply orb_false_iff in E as [_ E].
    apply bool_decide_eq_false in E. rewrite <-E0, Eh in E. by destruct E. }
  destruct (kept_block_low flags k pl c Stop MustBlock Bury (reaping k)) as (s' & Es & Hs'); try done; [lia| | |by eapply low_same|].
  - by apply (wp_start_stop n); [apply (k_sched _ _ _ Hk)|..].
  - intros E'. unfold reaper in E'. lia.
  - unfold sched_step. rewrite Es. by eexists.
Qed.

Lemma reaper_goes_on flags k pl c :
  kinv flags k pl → (c < n)%nat → phases (sch k) c = Run → activeThreads (sch k) c = reaper → goes_on flags (reaper_step c k).
Proof.
  intros Hk Hc Hrun Ha. unfold reaper_step.
  assert (Hnone : hand (sch k) reaper = None).
  { destruct (hand (sch k) reaper) eqn:Eh; [|done].
    destruct (k_low _ _ _ Hk reaper) as (E0 & _ & ?); [done|by rewrite Eh|]. unfold reaper in E0. lia. }
  pose proof (k_sched _ _ _ Hk) as Hs.
  destruct (reaping k reaper).
  { rewrite (enabled_run n _ pl c Hs Hc Hrun), Ha, (k_on _ _ _ Hk). rewrite <-Ha. eapply sweep_goes_on; try done; rewrite Ha; done. }
  destruct (kept_block_low flags k pl c Yield CanReturn Reschedule (fset (reaping k) reaper true)) as (s' & Es & Hs'); try done.
  - by rewrite Ha.
  - apply (wp_block_plain n); try done. rewrite Ha. split; [done|left]. rewrite <-Ha. by eapply active_frames.
  - by eapply low_fset.
  - rewrite Es. by eexists.
Qed.

(** The timer, wherever the core is. *)
Lemma timer_goes_on flags k pl c : kinv flags k pl → (c < n)%nat → goes_on flags (sched_step c Tick k).
Proof.
  intros Hk Hc. pose proof (k_sched _ _ _ Hk) as Hs. unfold sched_step.
  assert (Hself : kept flags (mkKernel (sch k) (mch k) (reaping k))) by (destruct k; by exists pl).
  destruct (decide (phases (sch k) c = Run)) as [Hrun|Hin].
  - eapply goes_on_sched; [apply (wp_tick n _ _ _ Hs Hc Hrun)|]. intros s' [->|(Hen & Hi & H)]; [done|].
    eapply kept_block; try done; [apply (k_sems _ _ _ Hk)|apply keep_flags_same| |by eapply low_same].
    intros i u Hu E. split; [|by apply (k_hands _ _ _ Hk)]. left.
    by rewrite <-(k_flags _ _ _ Hk i u Hu), E, <-(enabled_run n _ _ _ Hs Hc Hrun).
  - unfold scheduler. rewrite (tick_inside n _ pl c Hs Hc Hin). eexists. split; [done|exact Hself].
Qed.

(** *** Inside [block] *)

(** The thread that is leaving is the one that the core has. *)
Lemma leaving k pl c f me :
  sched_inv n (sch k) pl → (c < n)%nat →
  (∃ o i, phases (sch k) c = Look o f i me) → me = activeThreads (sch k) c ∧ pl me = Held c.
Proof.
  intros Hs Hc (o & i & E). pose proof (si_phase _ _ _ Hs c Hc) as Hp. destruct (si_held _ _ _ Hs c Hc) as [_ Hin]. unfold phase_ok in Hp.
  rewrite E in Hp, Hin. destruct Hp as (_ & -> & _). split; [done|]. apply Hin. by left.
Qed.

Lemma ready_on_cpu flags (m : machine X) i t : SemaphoreImpl.inv flags m → threads m !! i = Some t → ready t → on_cpu t.
Proof.
  intros Hv Hi Hr. unfold ready, on_cpu in *. destruct (thread_at _ _ _ _ Hv Hi) as (e & _ & [_ _ Hf _]).
  destruct (at_ t); try done; destruct Hf as [Hf _]; destruct Hr as [?|[? ?]]; congruence.
Qed.

Lemma look_goes_on flags k pl c o f i me :
  kinv flags k pl → (c < n)%nat → phases (sch k) c = Look o f i me → goes_on flags (sched_step c Go k).
Proof.
  intros Hk Hc Hat. pose proof (k_sched _ _ _ Hk) as Hs. destruct (leaving k pl c f me Hs Hc) as [Hme Hpl]; [by eauto|].
  pose proof Hpl as Hact. rewrite Hme in Hact. unfold sched_step. eapply goes_on_sched.
  - eapply core_step_at; [exact Hat|done|]. eapply wp_mono; [by apply (wp_look n _ _ _ _ _ _ _ Hs Hc Hat)|]. intros [] s' H. exact H.
  - assert (Hheld : ∀ u, pl u = Held c → u = me).
    { intros u Hu. apply (si_held _ _ _ Hs c Hc) in Hu. rewrite Hat in Hu. simpl in Hu. apply list_elem_of_singleton in Hu. congruence. }
    assert (Hspot : spot_of (sch k) pl me = Leaves f) by (unfold spot_of; by rewrite Hpl, Hat).
    assert (Hprog : ∀ i u, tid i = activeThreads (sch k) c → threads (mch k) !! i = Some u → program_ok (Leaves f) u).
    { intros j u E Hu. rewrite <-Hspot, Hme, <-E. by apply (k_program _ _ _ Hk). }
    intros s' [(-> & Hi & H)|[[-> H]|(t & l & Hl & H)]].
    + eapply kept_sched; try done; [| |by eapply low_same].
      * intros u Hne Hu. apply Hheld in Hu. congruence.
      * intros E. rewrite (k_idle _ _ _ Hk), Hme, E in Hi. apply bool_decide_eq_true in Hi. unfold reaper in Hi. lia.
    + pose proof (si_phase _ _ _ Hs c Hc) as Hph. unfold phase_ok in Hph. rewrite Hat in Hph. destruct Hph as (_ & _ & _ & _ & ->).
      eapply kept_sched; try done; [| |by eapply low_same].
      * intros u Hne Hu. apply Hheld in Hu. congruence.
      * intros j u E Hu. eapply ready_on_cpu; [apply (k_sems _ _ _ Hk)|exact Hu|]. by apply (Hprog j).
    + assert (Hne : t ≠ me) by (intros ->; destruct Hl as [[? _]|[? _]]; congruence).
      assert (Hruns : core_spot (Switch Chosen f c me t) t = Runs) by (simpl; by rewrite decide_False).
      eexists. eapply kinv_stepped_plain; [exact Hk|exact H|apply (k_sems _ _ _ Hk)|..]; try done.
      * by intros c' [= <-].
      * intros u _ ->%Hheld. rewrite Hat. simpl. by rewrite decide_True.
      * intros _. unfold new_spot. by rewrite Hruns.
      * intros j u Hi. pose proof (k_program _ _ _ Hk j u Hi) as Hok. case_decide as E; [|done]. unfold new_spot. rewrite Hruns.
        rewrite E in Hok. destruct Hl as [[Hpt _]|[Hpt _]]; rewrite (spot_off _ _ _ _ Hpt) in Hok by done; [|done].
        eapply ready_on_cpu; [apply (k_sems _ _ _ Hk)|exact Hi|exact Hok].
      * intros j Hi E. exfalso. eapply not_beyond; [exact Hk| |exact Hi|exact E]. destruct Hl as [[? _]|[? _]]; congruence.
      * intros j u Hi. rewrite fset_same by done. by apply (k_hands _ _ _ Hk).
      * rewrite fset_same by done. by eapply low_same.
      * intros w l' ->. by destruct Hl as [[_ ->]|[_ ->]].
      * apply keep_flags_same.
Qed.

Lemma switch_goes_on flags k pl c st f i me next :
  kinv flags k pl → (c < n)%nat → phases (sch k) c = Switch st f i me next → goes_on flags (sched_step c Go k).
Proof.
  intros Hk Hc Hat. pose proof (k_sched _ _ _ Hk) as Hs. destruct (si_held _ _ _ Hs c Hc) as [_ Hin].
  destruct (wp_switch n _ _ _ _ _ _ _ _ Hs Hc Hat) as [-> Hw]. pose proof (si_phase _ _ _ Hs c Hc) as Hph. unfold phase_ok in Hph. rewrite Hat in Hph, Hin.
  assert (Hact : pl (activeThreads (sch k) c) = Held c).
  { destruct Hph as (_ & -> & _). apply Hin. simpl. destruct st; [by left|by left|by right; left]. }
  assert (Hnext : ∀ u, core_spot (next_stage st f c me next) u = core_spot (Switch st f c me next) u) by (by destruct st).
  unfold sched_step. eapply goes_on_sched.
  - eapply core_step_at; [exact Hat|done|]. eapply wp_mono; [exact Hw|]. intros [] s' H. exact H.
  - assert (Hspot : ∀ u, pl u = Held c → core_spot (next_stage st f c me next) u = spot_of (sch k) pl u).
    { intros u Hu. unfold spot_of. by rewrite Hu, Hat, Hnext. }
    intros s' H. eapply kept_sched; try done; [| | |by eapply low_same].
    + intros u _ _. by rewrite Hat, Hnext.
    + intros E. rewrite Hspot by (by rewrite <-E). apply (k_reaper _ _ _ Hk).
    + intros j u E Hu. rewrite Hspot by (by rewrite E). by apply (k_program _ _ _ Hk).
Qed.

(** The end of [block], on the stack of the next thread. *)
Lemma after_steps flags k pl c f me :
  kinv flags k pl → (c < n)%nat → phases (sch k) c = After f me →
  ∃ s', scheduler c Go k = Some s' ∧ spot_of (sch k) pl me = Leaves f ∧
    stepped n c (sch k) pl me (if isIdle (sch k) me then Parked else In (target f)) Run
      (hand (sch k) (activeThreads (sch k) c)) (if isIdle (sch k) me then same_lists else snoc_to (target f) me) s' ∧
    (∀ u, u ≠ me → pl u = Held c → core_spot Run u = core_spot (phases (sch k) c) u).
Proof.
  intros Hk Hc Hat. pose proof (k_sched _ _ _ Hk) as Hs. destruct (si_held _ _ _ Hs c Hc) as [_ Hin]. rewrite Hat in Hin.
  destruct (scheduler_wp k c Go _ (core_step_at _ c Go _ _ Hat ltac:(done) (wp_after n _ _ _ _ _ Hs Hc Hat))) as (s' & E & H).
  exists s'. split_and!; [done| |exact H|].
  - unfold spot_of. assert (pl me = Held c) as -> by (apply Hin; by left). rewrite Hat. simpl. by rewrite decide_True.
  - intros u Hne _. rewrite Hat. simpl. by rewrite decide_False.
Qed.

Lemma after_goes_on flags k pl c f me :
  kinv flags k pl → (c < n)%nat → phases (sch k) c = After f me → (∀ w, f ≠ WaitOn w) → goes_on flags (sched_step c Go k).
Proof.
  intros Hk Hc Hat Hf. destruct (after_steps flags k pl c f me Hk Hc Hat) as (s' & E & Hspot & H & Hsame).
  unfold sched_step. rewrite E. eexists. split; [done|]. eexists.
  eapply kinv_stepped_plain; [exact Hk|exact H|apply (k_sems _ _ _ Hk)|..]; try done.
  - intros c'. by destruct (isIdle (sch k) me).
  - intros Er. pose proof (k_reaper _ _ _ Hk) as Hr. rewrite <-Er, Hspot in Hr.
    rewrite (k_idle _ _ _ Hk), bool_decide_false by (rewrite Er; unfold reaper; lia). by destruct f.
  - intros i u Hi. pose proof (k_program _ _ _ Hk i u Hi) as Hok. case_decide as Et; [|done]. rewrite Et, Hspot in Hok.
    rewrite (k_idle _ _ _ Hk), bool_decide_false by (rewrite <-Et; unfold tid; lia). by destruct f; [..|destruct (Hf w)].
  - intros i Hi Et. exfalso. pose proof (k_bound _ _ _ Hk i Hi) as Hb. rewrite <-Et in Hb. unfold spot_of in Hspot. by rewrite Hb in Hspot.
  - intros i u Hi. rewrite fset_same by done. by apply (k_hands _ _ _ Hk).
  - rewrite fset_same by done. by eapply low_same.
  - intros w l ->. destruct (isIdle (sch k) me); [done|]. destruct f; [done|done|by destruct (Hf w0)].
  - apply keep_flags_same.
Qed.

(** *** The steps of programs *)

Lemma iexec_advance (m : machine X) i t w q p f :
  threads m !! i = Some t → sem_of t = Some w → advance (is_down t) i (isems m w) (at_ t) (iflag t) = Some (q, p, f) →
  iexec i m = Some (mkMachine (<[i := mkThread (todo t) p f]> (threads m)) (upd_isem (isems m) w q) (data m)).
Proof. intros Hi Hs Ha. by apply iexec_move, (move_advance i m t w). Qed.

Lemma inv_iexec flags (m m' : machine X) i : SemaphoreImpl.inv flags m → iexec i m = Some m' → SemaphoreImpl.inv flags m'.
Proof. intros Hv E. eapply inv_moved; [exact Hv|]. apply iexec_move. exact E. Qed.

Lemma tid_lt i : bool_decide (tid i < n)%nat = false.
Proof. apply bool_decide_false. unfold tid. lia. Qed.

Lemma iwaiting_upd (h : nat → isem) w q w' : iwaiting (upd_isem h w q w') = if decide (w' = w) then iwaiting q else iwaiting (h w').
Proof. unfold upd_isem. by case_decide. Qed.

(** The thread that a core is leaving for a semaphore. *)
Lemma waits_on flags k pl c w me :
  kinv flags k pl → (c < n)%nat → phases (sch k) c = After (WaitOn w) me →
  ∃ i t was, me = tid i ∧ threads (mch k) !! i = Some t ∧ at_ t = Down_add was ∧ sem_of t = Some w.
Proof.
  intros Hk Hc Hat. pose proof (k_sched _ _ _ Hk) as Hs. destruct (after_steps flags k pl c _ me Hk Hc Hat) as (_ & _ & Hspot & _ & _).
  pose proof (si_phase _ _ _ Hs c Hc) as Hp. unfold phase_ok in Hp. rewrite Hat in Hp. destruct Hp as [(_ & Hi & _) _].
  rewrite (k_idle _ _ _ Hk) in Hi. apply bool_decide_eq_false in Hi.
  assert (me ≠ reaper) by (intros ->; pose proof (k_reaper _ _ _ Hk) as Hr; by rewrite Hspot in Hr).
  assert (Hme : tid (pid me) = me) by (apply tid_pid; unfold reaper in *; lia). exists (pid me).
  destruct (threads (mch k) !! pid me) as [t|] eqn:Ht.
  - pose proof (k_program _ _ _ Hk _ _ Ht) as Hok. rewrite Hme, Hspot in Hok. destruct Hok as [[was ?] ?]. by exists t, was.
  - apply lookup_ge_None in Ht. pose proof (k_bound _ _ _ Hk _ Ht) as Hb. rewrite Hme in Hb. unfold spot_of in Hspot. by rewrite Hb in Hspot.
Qed.

Lemma down_goes_on flags k pl c w me :
  kinv flags k pl → (c < n)%nat → phases (sch k) c = After (WaitOn w) me → goes_on flags (down_callback c (pid me) k).
Proof.
  intros Hk Hc Hat. destruct (waits_on flags k pl c w me Hk Hc Hat) as (i & t & was & -> & Hi & Ha & Hw).
  destruct (after_steps flags k pl c _ _ Hk Hc Hat) as (s' & E & Hspot & H & Hsame). rewrite pid_tid.
  rewrite (k_idle _ _ _ Hk), tid_lt in H. set (q := isems (mch k) w). assert (Hlt : (i < List.length (threads (mch k)))%nat) by (by eapply lookup_lt_Some).
  assert (E1 := iexec_advance (mch k) i t w (mkISem (taken q) (icount q) (iwaiting q ++ [i])) (Down_release was) (iflag t) Hi Hw ltac:(by rewrite Ha)).
  set (m1 := mkMachine _ _ _) in E1. set (t1 := mkThread (todo t) (Down_release was) (iflag t)) in m1.
  assert (Hi1 : threads m1 !! i = Some t1) by (by apply list_lookup_insert_eq).
  assert (Hq1 : isems m1 w = mkISem (taken q) (icount q) (iwaiting q ++ [i])) by apply upd_isem_eq.
  assert (E2 := iexec_advance m1 i t1 w (mkISem false (icount q) (iwaiting q ++ [i])) (Down_waits was) (iflag t) Hi1 Hw ltac:(by rewrite Hq1)).
  set (m2 := mkMachine _ _ _) in E2.
  assert (Hv2 : SemaphoreImpl.inv flags m2) by (eapply inv_iexec; [|exact E2]; eapply inv_iexec; [apply (k_sems _ _ _ Hk)|exact E1]).
  assert (Ht2 : threads m2 = <[i := mkThread (todo t) (Down_waits was) (iflag t)]> (threads (mch k))) by (simpl; apply list_insert_insert_eq).
  unfold down_callback. rewrite E1. cbn [mbind option_bind]. rewrite E2. cbn [mbind option_bind]. rewrite E. eexists. split; [done|]. eexists.
  eapply kinv_stepped_plain; [exact Hk|exact H|exact Hv2|..]; try done.
  - intros Er. by destruct (reaper_not_tid i).
  - intros j u. rewrite Ht2. intros [(<- & <- & _)|[Hne Hj]]%list_lookup_insert_Some.
    + rewrite decide_True by done. split; [by exists was|exact Hw].
    + rewrite decide_False by (intros ?%tid_inj; congruence). by apply (k_program _ _ _ Hk).
  - intros j Hj ->%tid_inj. lia.
  - intros j u. rewrite fset_same by done. rewrite Ht2. intros [(<- & <- & _)|[Hne Hj]]%list_lookup_insert_Some.
    + rewrite (k_hands _ _ _ Hk _ _ Hi). by rewrite Ha.
    + by apply (k_hands _ _ _ Hk).
  - rewrite fset_same by done. by eapply low_same.
  - intros v l ->. simpl. rewrite !iwaiting_upd. unfold snoc_to. destruct (decide (v = w)) as [->|Hne].
    + rewrite decide_True by done. simpl. by rewrite fmap_app.
    + by rewrite decide_False by congruence.
  - intros j u. rewrite Ht2. intros [(<- & <- & _)|[Hne Hj]]%list_lookup_insert_Some; [by exists t|by exists u].
Qed.

(** A step of a thread that keeps its flag. *)
Lemma keep_flags_step (m m' : machine X) i t t' :
  threads m !! i = Some t → threads m' = <[i := t']> (threads m) → iflag t' = iflag t → keep_flags m m'.
Proof.
  intros Hi Et Hf j u. rewrite Et. intros [(<- & <- & _)|[Hne Hj]]%list_lookup_insert_Some; [by exists t|by exists u].
Qed.

(** A step that asks nothing of the scheduler. *)
Lemma plain_step flags (m m' : machine X) i t :
  SemaphoreImpl.inv flags m → threads m !! i = Some t → on_cpu t → demand t = None → iexec i m = Some m' →
  ∃ t', threads m' = <[i := t']> (threads m) ∧ claims (at_ t') = claims (at_ t) ∧ on_cpu t' ∧
    ∀ w, iwaiting (isems m' w) = iwaiting (isems m w).
Proof.
  intros Hv Hi Hon Hd E. destruct (thread_at _ _ _ _ Hv Hi) as (e & _ & [Hrun _ _ _]). unfold demand in Hd.
  apply iexec_move in E as [g k a f Hi'|u w q p f Hi' Hs Ha|u was Hi' Hs Hat|u Hi' Hs Hat|u j p was f Hi' Hs Hat Hj];
    rewrite Hi in Hi'; injection Hi' as ->.
  - specialize (Hrun eq_refl). simpl in Hrun. subst a. by eexists.
  - eexists. split; [done|]. cbn [isems SemaphoreImpl.at_]. rewrite Hs in Hd.
    assert (Hq : iwaiting q = iwaiting (isems m w) ∧ claims p = claims (at_ u) ∧ on_cpu (mkThread (todo u) p f)).
    { unfold on_cpu in *. destruct (at_ u) eqn:Eat; cbn in Ha; repeat case_match; try done; injection Ha as <- <- <-; cbn; try done.
      all: by destruct (is_down u). }
    destruct Hq as (Hq & Hcl & Hon'). split_and!; [done|done|]. intros v. rewrite iwaiting_upd. by destruct (decide (v = w)) as [->|].
  - eexists. split; [done|]. split_and!; try done. by destruct Hat as [-> | ->].
  - eexists. split; [done|]. by rewrite Hat.
  - rewrite Hat in Hd. done.
Qed.

Lemma program_step_eq k c i t :
  threads (mch k) !! i = Some t → todo t ≠ Done →
  program_step c i k = (m ← iexec i (mch k); t' ← threads m !! i; s ← scheduler c (effect t t') k; Some (mkKernel s m (reaping k))).
Proof. intros Hi Hd. unfold program_step. rewrite Hi. cbn [mbind option_bind]. by destruct (todo t). Qed.

(** A program that has neither ended nor panicked, on a core, can go on. *)
Lemma program_moves flags k pl i t :
  kinv flags k pl → threads (mch k) !! i = Some t → on_cpu t → todo t ≠ Done → todo t ≠ Panic → ∃ m', iexec i (mch k) = Some m'.
Proof.
  intros Hk Hi Hon Hd Hp. destruct (decide (quiet t)) as [Hq|Hq].
  - assert (E : at_ t = Running) by (unfold quiet, on_cpu in *; by destruct (at_ t)). unfold iexec. rewrite Hi. destruct t as [p a f]. simpl in *. subst a. destruct p; try done; by eexists.
  - destruct (not_quiet_call _ _ _ _ (k_sems _ _ _ Hk) Hi Hq) as [s Hs].
    destruct (call_goes_on _ _ _ _ _ (k_sems _ _ _ Hk) Hi Hq Hs) as [m' Hm]. exists m'. by apply iexec_move.
Qed.

Section program.
Context (flags : list bool) (k : kernel) (pl : places) (c i : nat) (t : thread X).
Context (Hk : kinv flags k pl) (Hc : (c < n)%nat) (Hrun : phases (sch k) c = Run) (Hme : activeThreads (sch k) c = tid i).
Context (Hi : threads (mch k) !! i = Some t).

Lemma running_on_cpu : on_cpu t.
Proof using Hc Hi Hk Hme Hrun.
  pose proof (k_program _ _ _ Hk i t Hi) as Hok. rewrite <-Hme, (spot_active _ _ _ (k_sched _ _ _ Hk) Hc Hrun) in Hok. done.
Qed.

Lemma running_held : pl (tid i) = Held c.
Proof using Hc Hk Hme Hrun. rewrite <-Hme. exact (active_held n _ _ _ (k_sched _ _ _ Hk) Hc Hrun). Qed.

Lemma running_hand : hand (sch k) (activeThreads (sch k) c) = tid <$> claims (at_ t).
Proof using Hi Hk Hme. rewrite Hme. by apply (k_hands _ _ _ Hk). Qed.

Lemma running_low a : (∀ u, (u ≤ n)%nat → fset (hand (sch k)) (activeThreads (sch k) c) a u ≠ None → u = last ∧ reaping k last = false ∧ (last < n)%nat).
Proof using Hk Hme. intros u Hu. rewrite fset_ne by (rewrite Hme; unfold tid; clear -Hu; lia). by apply (k_low _ _ _ Hk). Qed.

(** [stop] at the end of a thread. *)
Lemma stop_goes_on : todo t = Done → goes_on flags (program_step c i k).
Proof using Hc Hi Hk Hme Hrun.
  intros Ht. unfold program_step. rewrite Hi. cbn [mbind option_bind]. rewrite Ht. unfold sched_step.
  destruct (thread_at _ _ _ _ (k_sems _ _ _ Hk) Hi) as (e & _ & [Hcall _ _ _]).
  assert (Hat : at_ t = Running) by (apply Hcall; unfold sem_of; by rewrite Ht).
  eapply goes_on_sched.
  - apply core_run; [done|done|]. eapply wp_mono; [apply (wp_start_stop n _ _ c (k_sched _ _ _ Hk) Hc Hrun)|].
    + by rewrite running_hand, Hat.
    + rewrite Hme, (k_idle _ _ _ Hk), tid_lt. done.
    + intros [] s' H. exact H.
  - intros s' H. eapply kept_block; try done; [apply (k_sems _ _ _ Hk)|apply keep_flags_same| | |by eapply low_same].
    + rewrite Hme. by intros ?%eq_sym%reaper_not_tid.
    + intros j u Hj Ej. rewrite Hme in Ej. apply tid_inj in Ej as ->. rewrite Hi in Hj. injection Hj as <-. split; [done|].
      by apply (k_hands _ _ _ Hk).
Qed.

(** A step that only turns interrupts off or on, if anything. *)
Lemma plain_goes_on m' :
  iexec i (mch k) = Some m' → demand t = None →
  ∃ t', threads m' !! i = Some t' ∧ goes_on flags (s ← scheduler c (Flag (iflag t')) k; Some (mkKernel s m' (reaping k))).
Proof using Hc Hi Hk Hme Hrun.
  intros E Hd. pose proof running_on_cpu as Hon. pose proof (k_sched _ _ _ Hk) as Hs.
  destruct (plain_step flags _ _ _ _ (k_sems _ _ _ Hk) Hi Hon Hd E) as (t' & Et & Hcl & Hon' & Hw).
  exists t'. split; [rewrite Et; apply list_lookup_insert_eq; by eapply lookup_lt_Some|].
  destruct (scheduler_wp k c (Flag (iflag t')) _ (core_run k c (Flag (iflag t')) _ Hrun ltac:(done) (wp_flag n _ _ c (iflag t') Hs Hc Hrun))) as (s' & Es & H).
  rewrite Es. eexists. split; [done|].
  eapply (kept_stays flags k pl (iflag t') c Run); try done.
  - rewrite Hme. apply running_held.
  - eapply inv_iexec; [apply (k_sems _ _ _ Hk)|exact E].
  - intros u _ _. by rewrite Hrun.
  - intros j u. rewrite Et. intros [(<- & <- & _)|[Hne Hj]]%list_lookup_insert_Some.
    + by rewrite decide_True.
    + rewrite decide_False by (rewrite Hme; intros ?%tid_inj; congruence). by apply (k_program _ _ _ Hk).
  - intros j u. rewrite Et. intros [(<- & <- & _)|[Hne Hj]]%list_lookup_insert_Some.
    + rewrite Hcl. by apply (k_hands _ _ _ Hk).
    + by apply (k_hands _ _ _ Hk).
  - by eapply low_same.
  - intros j u. rewrite Et, Hme. intros [(<- & <- & _)|[Hne Hj]]%list_lookup_insert_Some; [by rewrite fset_eq|].
    rewrite fset_ne by (intros ?%tid_inj; congruence). by apply (k_flags _ _ _ Hk).
  - rewrite Hme. by intros ?%eq_sym%reaper_not_tid.
Qed.

(** [block] of [down]. *)
Lemma block_goes_on m' was w :
  iexec i (mch k) = Some m' → at_ t = Down_block was → sem_of t = Some w →
  goes_on flags (s ← scheduler c (DownBlocked w) k; Some (mkKernel s m' (reaping k))).
Proof using Hc Hi Hk Hme Hrun.
  intros E Hat Hw.
  assert (Em := iexec_advance (mch k) i t w (isems (mch k) w) (Down_add was) (iflag t) Hi Hw ltac:(by rewrite Hat)).
  rewrite E in Em. injection Em as Em.
  destruct (scheduler_wp k c (DownBlocked w) _ (core_run k c (DownBlocked w) _ Hrun ltac:(done)
    (wp_block_plain n _ _ c MustBlock (WaitOn w) (k_sched _ _ _ Hk) Hc Hrun
       ltac:(split_and!; [rewrite running_hand, Hat; done|rewrite Hme, (k_idle _ _ _ Hk); apply tid_lt|by eapply active_frames; [apply (k_sched _ _ _ Hk)| |]])
       ltac:(rewrite Hme, (k_idle _ _ _ Hk), tid_lt; done)))) as (s' & Es & H).
  rewrite Es. eexists. split; [done|]. eapply kept_block; try done; [eapply inv_iexec; [apply (k_sems _ _ _ Hk)|exact E]|..].
  - eapply keep_flags_step; [exact Hi|by rewrite Em|done].
  - rewrite Hme. by intros ?%eq_sym%reaper_not_tid.
  - intros j u. rewrite Em. intros Hj Ej. rewrite Hme in Ej. apply tid_inj in Ej as ->. cbn [threads] in Hj.
    rewrite list_lookup_insert_eq in Hj by (by eapply lookup_lt_Some). injection Hj as <-. split; [split; [by exists was|exact Hw]|].
    rewrite (k_hands _ _ _ Hk _ _ Hi). by rewrite Hat.
  - intros j u. rewrite Em. cbn [threads]. intros Hj Ej. rewrite list_lookup_insert_ne in Hj; [done|]. intros <-. by rewrite Hme in Ej.
  - by eapply low_same.
  - intros v. rewrite Em. cbn [isems]. rewrite iwaiting_upd. by destruct (decide (v = w)) as [->|].
Qed.

(** The places of the others, when a thread moves and the program of this
    one goes on. *)
Lemma others_ok m' t' z q :
  threads m' = <[i := t']> (threads (mch k)) → on_cpu t' → z ≠ tid i →
  (∀ j u, threads (mch k) !! j = Some u → tid j = z → program_ok q u) →
  ∀ j u, threads m' !! j = Some u → program_ok (if decide (tid j = z) then q else spot_of (sch k) pl (tid j)) u.
Proof using Hc Hi Hk Hme Hrun.
  intros Et Hon Hz Hq j u. rewrite Et. intros [(<- & <- & _)|[Hne Hj]]%list_lookup_insert_Some.
  - rewrite decide_False by done. rewrite <-Hme, (spot_active _ _ _ (k_sched _ _ _ Hk) Hc Hrun). done.
  - case_decide as Ej; [by eapply Hq|by apply (k_program _ _ _ Hk)].
Qed.

Lemma hands_after m' t' h :
  threads m' = <[i := t']> (threads (mch k)) → h = tid <$> claims (at_ t') →
  ∀ j u, threads m' !! j = Some u → fset (hand (sch k)) (activeThreads (sch k) c) h (tid j) = tid <$> claims (at_ u).
Proof using Hk Hme.
  intros Et -> j u. rewrite Et, Hme. intros [(<- & <- & _)|[Hne Hj]]%list_lookup_insert_Some; [by rewrite fset_eq|].
  rewrite fset_ne by (intros ?%tid_inj; congruence). by apply (k_hands _ _ _ Hk).
Qed.

(** Nobody else runs on the core. *)
Lemma core_alone u : u ≠ tid i → pl u = Held c → core_spot Run u = core_spot (phases (sch k) c) u.
Proof using Hrun. by rewrite Hrun. Qed.

(** The head of the queue of a semaphore, for the scheduler and for the program. *)
Lemma queue_head w l z :
  is_queue (nexts (sch k)) (queues (sch k) (WaitingQ w)) l → head l = Some z →
  ∃ j r, iwaiting (isems (mch k) w) = j :: r ∧ z = tid j.
Proof using Hk.
  intros Hl Hz. pose proof (k_waiting _ _ _ Hk w l Hl) as El. destruct (iwaiting (isems (mch k) w)) as [|j r]; subst l; [done|].
  injection Hz as <-. eauto.
Qed.

(** [waiting.remove()] of [up]. *)
Lemma remove_goes_on m' was w :
  iexec i (mch k) = Some m' → at_ t = Up_remove was → sem_of t = Some w →
  goes_on flags (s ← scheduler c (UpSome w) k; Some (mkKernel s m' (reaping k))).
Proof using Hc Hi Hk Hme Hrun.
  intros E Hat Hw. pose proof (k_sched _ _ _ Hk) as Hs. pose proof (inv_iexec _ _ _ _ (k_sems _ _ _ Hk) E) as Hv.
  assert (Hnone : hand (sch k) (activeThreads (sch k) c) = None) by (by rewrite running_hand, Hat).
  destruct (scheduler_wp k c (UpSome w) _ (core_run k c (UpSome w) _ Hrun ltac:(done) (wp_up_some n _ _ c w Hs Hc Hrun Hnone))) as (s' & Es & H).
  rewrite Es. eexists. split; [done|]. destruct (si_queues _ _ _ Hs (WaitingQ w)) as (l & Hl & _ & Hin).
  destruct H as [[Hno H]|(z & Hz & Hhd & H)].
  - assert (Hnil : iwaiting (isems (mch k) w) = []).
    { destruct (iwaiting (isems (mch k) w)) as [|j r] eqn:Eq; [done|]. exfalso. apply (Hno (tid j)), Hin.
      rewrite (k_waiting _ _ _ Hk w l Hl), Eq. by left. }
    assert (Em := iexec_advance (mch k) i t w (isems (mch k) w) (Up_read was) (iflag t) Hi Hw ltac:(rewrite Hat; simpl; by rewrite Hnil)).
    rewrite E in Em. injection Em as Em. assert (Et : threads m' = <[i := mkThread (todo t) (Up_read was) (iflag t)]> (threads (mch k))) by (by rewrite Em).
    unfold stays_with in H. eexists. eapply kinv_stepped_plain; [exact Hk|exact H|exact Hv|..]; rewrite ?Hme, ?running_held; try done.
    + by intros c' [= <-].
    + apply core_alone.
    + intros j u. rewrite Et. intros [(<- & <- & _)|[Hne Hj]]%list_lookup_insert_Some; [by rewrite decide_True|].
      rewrite decide_False by (intros ?%tid_inj; congruence). by apply (k_program _ _ _ Hk).
    + intros j Hj. intros ->%tid_inj. apply lookup_ge_None in Hj. congruence.
    + rewrite <-Hme. eapply hands_after; [exact Et|]. by rewrite Hnone.
    + rewrite <-Hme. apply running_low.
    + intros v l' ->. rewrite Em. cbn [isems]. rewrite iwaiting_upd. by destruct (decide (v = w)) as [->|].
    + eapply keep_flags_step; [exact Hi|exact Et|done].
  - destruct (queue_head w l z Hl (Hhd l Hl)) as (j & r & Eq & ->).
    assert (Em := iexec_advance (mch k) i t w (mkISem (taken (isems (mch k) w)) (icount (isems (mch k) w)) r) (Up_unlock was (Some j)) (iflag t) Hi Hw
      ltac:(rewrite Hat; simpl; by rewrite Eq)).
    rewrite E in Em. injection Em as Em.
    assert (Et : threads m' = <[i := mkThread (todo t) (Up_unlock was (Some j)) (iflag t)]> (threads (mch k))) by (by rewrite Em).
    assert (Hji : tid j ≠ tid i) by (intros Ej; rewrite Ej, running_held in Hz; done).
    eexists. eapply kinv_stepped_plain; [exact Hk|exact H|exact Hv|..]; try done.
    + intros u _ _. by rewrite Hrun.
    + eapply others_ok; [exact Et|done|done|]. intros j' u Hj' ->%tid_inj. pose proof (k_program _ _ _ Hk _ _ Hj') as Hok.
      rewrite (spot_off _ _ _ _ Hz) in Hok by done. unfold new_spot, program_ok. rewrite Hme, tid_lt. by destruct Hok.
    + intros j' Hj' Ej. exfalso. eapply not_beyond; [exact Hk| |exact Hj'|exact Ej]. congruence.
    + eapply hands_after; [exact Et|done].
    + apply running_low.
    + intros v l' ->. rewrite Em. cbn [isems]. rewrite iwaiting_upd. unfold tail_of. destruct (decide (v = w)) as [->|Hne].
      * rewrite decide_True by done. by rewrite Eq.
      * by rewrite decide_False by congruence.
    + eapply keep_flags_step; [exact Hi|exact Et|done].
Qed.

(** [schedule] of the thread that [up] has taken. *)
Lemma wake_goes_on m' j :
  iexec i (mch k) = Some m' → at_ t = Up_schedule (Some j) → sem_of t ≠ None →
  goes_on flags (s ← scheduler c Wake k; Some (mkKernel s m' (reaping k))).
Proof using Hc Hi Hk Hme Hrun.
  intros E Hat Hw. pose proof (k_sched _ _ _ Hk) as Hs. pose proof (inv_iexec _ _ _ _ (k_sems _ _ _ Hk) E) as Hv.
  assert (Hsome : hand (sch k) (activeThreads (sch k) c) = Some (tid j)) by (by rewrite running_hand, Hat).
  destruct (scheduler_wp k c Wake _ (core_run k c Wake _ Hrun ltac:(done) (wp_wake n _ _ c Hs Hc Hrun))) as (s' & Es & H). rewrite Hsome in H.
  rewrite Es. eexists. split; [done|]. pose proof (proj1 (h_in _ _ _ (si_hands _ _ _ Hs) _ _) Hsome) as Hz.
  destruct (claimed_waits _ _ _ _ j (k_sems _ _ _ Hk) Hi) as (p & was & f & Hj & _); [by rewrite Hat|].
  assert (Hji : j ≠ i) by (intros ->; rewrite running_held in Hz; done).
  assert (Em := proj2 (iexec_move _ _ _) (move_wake i (mch k) t j p was f Hi Hw Hat Hj)). rewrite E in Em. injection Em as Em.
  assert (Et : ∀ j' u, threads m' !! j' = Some u → (j' = i ∧ at_ u = Running) ∨ (j' = j ∧ at_ u = Down_back was) ∨ (j' ≠ i ∧ j' ≠ j ∧ threads (mch k) !! j' = Some u)).
  { intros j' u. rewrite Em. cbn [threads]. intros [(<- & <- & _)|[Hn1 [(<- & <- & _)|[Hn2 Hj']]%list_lookup_insert_Some]]%list_lookup_insert_Some; eauto 8. }
  eexists. eapply kinv_stepped_plain; [exact Hk|exact H|exact Hv|..]; try done.
  - intros u _ _. by rewrite Hrun.
  - intros j' u [[-> Hu]|[[-> Hu]|(Hn1 & Hn2 & Hj')]]%Et.
    + rewrite decide_False by (intros ?%tid_inj; congruence). rewrite <-Hme, (spot_active _ _ _ Hs Hc Hrun). simpl. unfold on_cpu. by rewrite Hu.
    + rewrite decide_True by done. right. by exists was.
    + rewrite decide_False by (intros ?%tid_inj; congruence). by apply (k_program _ _ _ Hk).
  - intros j' Hj' Ej. exfalso. eapply not_beyond; [exact Hk| |exact Hj'|exact Ej]. congruence.
  - rewrite Hme. intros j' u [[-> Hu]|[[-> Hu]|(Hn1 & Hn2 & Hj')]]%Et; rewrite ?Hu.
    + by rewrite fset_eq.
    + rewrite fset_ne by (intros ?%tid_inj; congruence). by rewrite (k_hands _ _ _ Hk _ _ Hj).
    + rewrite fset_ne by (intros ?%tid_inj; congruence). by apply (k_hands _ _ _ Hk).
  - apply running_low.
  - intros v l' ->. by rewrite Em.
  - intros j' u. rewrite Em. cbn [threads].
    intros [(<- & <- & _)|[Hn1 [(<- & <- & _)|[Hn2 Hj']]%list_lookup_insert_Some]]%list_lookup_insert_Some; eauto.
Qed.

Lemma still_there m' : iexec i (mch k) = Some m' → ∃ t', threads m' !! i = Some t'.
Proof using Hi Hk.
  intros E. pose proof (v_length _ _ (inv_iexec _ _ _ _ (k_sems _ _ _ Hk) E)) as El. rewrite <-(v_length _ _ (k_sems _ _ _ Hk)) in El.
  apply lookup_lt_is_Some_2. rewrite El. by eapply lookup_lt_Some.
Qed.

(** A program on a core goes on, unless it has panicked. *)
Lemma program_goes_on : todo t ≠ Panic → goes_on flags (program_step c i k).
Proof using Hc Hi Hk Hme Hrun.
  intros Hp. destruct (todo t) eqn:Et; [by apply stop_goes_on|done|..].
  all: destruct (program_moves flags k pl i t Hk Hi running_on_cpu) as [m' E]; [congruence..|].
  all: rewrite (program_step_eq k c i t Hi) by congruence; rewrite E; cbn [mbind option_bind].
  all: destruct (demand t) as [a|] eqn:Ed; [destruct (still_there m' E) as (t' & Et')|destruct (plain_goes_on m' E Ed) as (t' & Et' & Hgo)].
  all: rewrite Et'; cbn [mbind option_bind]; unfold effect; rewrite Ed; try exact Hgo.
  all: destruct (thread_at _ _ _ _ (k_sems _ _ _ Hk) Hi) as (e & _ & [Hcall _ _ _]).
  all: unfold demand in Ed; destruct (sem_of t) as [w|] eqn:Hw; [|rewrite (Hcall eq_refl) in Ed; done].
  all: destruct (at_ t) eqn:Hat; try done; try (destruct next; try done); injection Ed as <-.
  all: first [by eapply block_goes_on|by eapply remove_goes_on|by eapply wake_goes_on; [| |congruence]].
Qed.
End program.

(** *** All steps *)

(** The core runs a thread whose program has panicked. *)
Definition panicked (k : kernel) (c : nat) : Prop :=
  phases (sch k) c = Run ∧ ∃ i t, activeThreads (sch k) c = tid i ∧ threads (mch k) !! i = Some t ∧ todo t = Panic.

(** Who runs a program. *)
Lemma runs_program flags k pl c :
  kinv flags k pl → (c < n)%nat → phases (sch k) c = Run → isIdle (sch k) (activeThreads (sch k) c) = false →
  activeThreads (sch k) c ≠ reaper →
  ∃ i t, activeThreads (sch k) c = tid i ∧ threads (mch k) !! i = Some t.
Proof.
  intros Hk Hc Hrun Hi Hr. rewrite (k_idle _ _ _ Hk) in Hi. apply bool_decide_eq_false in Hi. unfold reaper in Hr.
  assert (Hme : tid (pid (activeThreads (sch k) c)) = activeThreads (sch k) c) by (apply tid_pid; lia). exists (pid (activeThreads (sch k) c)).
  destruct (threads (mch k) !! pid (activeThreads (sch k) c)) as [t|] eqn:Ht; [by exists t|exfalso].
  apply lookup_ge_None in Ht. pose proof (k_bound _ _ _ Hk _ Ht) as Hb.
  by rewrite Hme, (active_held n _ _ _ (k_sched _ _ _ Hk) Hc Hrun) in Hb.
Qed.

Lemma next_step flags k pl c : kinv flags k pl → (c < n)%nat → goes_on flags (kexec c false k) ∨ panicked k c.
Proof.
  intros Hk Hc. unfold kexec. destruct (phases (sch k) c) as [|o f ci me|st f ci me next|f me] eqn:Hat.
  - destruct (isIdle (sch k) (activeThreads (sch k) c)) eqn:Ei; [left; by eapply idle_goes_on|].
    destruct (decide (activeThreads (sch k) c = reaper)) as [Er|Er]; [left; by eapply reaper_goes_on|].
    destruct (runs_program flags k pl c Hk Hc Hat Ei Er) as (i & t & Hme & Ht). rewrite Hme, pid_tid.
    assert (Hd : todo t = Panic ∨ todo t ≠ Panic) by (destruct (todo t); auto). destruct Hd as [Hp|Hp].
    + right. split; [done|]. by exists i, t.
    + left. by eapply program_goes_on.
  - left. by eapply look_goes_on.
  - left. by eapply switch_goes_on.
  - left. destruct f; [by eapply after_goes_on|by eapply after_goes_on|by eapply down_goes_on].
Qed.

Lemma kinv_kexec flags k pl c timer k' : kinv flags k pl → (c < n)%nat → kexec c timer k = Some k' → kept flags k'.
Proof.
  intros Hk Hc E. assert (Hgo : goes_on flags (Some k') → kept flags k') by (by intros (? & [= <-] & ?)).
  destruct timer.
  - unfold kexec in E. destruct (enabled (sch k) c); [|done]. apply Hgo. rewrite <-E. by eapply timer_goes_on.
  - destruct (next_step flags k pl c Hk Hc) as [Hg|(Hrun & i & t & Hme & Ht & Hp)]; [by rewrite E in Hg; apply Hgo|].
    exfalso. unfold kexec in E. rewrite Hrun, Hme in E. rewrite (k_idle _ _ _ Hk), tid_lt in E.
    rewrite decide_False in E by (intros ?%eq_sym%reaper_not_tid; done). rewrite pid_tid in E. unfold program_step in E.
    rewrite Ht in E. cbn [mbind option_bind] in E. rewrite Hp in E. unfold iexec in E. rewrite Ht in E. destruct t as [p a f].
    simpl in Hp. by subst p.
Qed.

(** The reaper is ready to run, and nobody has anything in hand. *)
Record ready_ok (nx : links) (s : sched) (pl : places) : Prop := {
  r_inv : sched_inv n s pl;
  r_places : ∀ t, pl t = if decide (t = n) then In ReadyQ else if decide (t < n)%nat then Held t else Unborn;
  r_phases : ∀ c, phases s c = Run;
  r_idle : ∀ t, isIdle s t = bool_decide (t < n)%nat;
  r_hand : ∀ t, hand s t = None;
  r_waiting : ∀ w l, is_queue (nexts s) (queues s (WaitingQ w)) l → l = [];
  r_flag : flag_of s pl n = true;
  r_steps : rtc (machine_step n) (threadsInit n nx) s
}.

Lemma threads_ready_ok nx : (0 < n)%nat → ∃ pl, ready_ok nx (threads_ready nx) pl.
Proof.
  intros Hn. set (s0 := threadsInit n nx). set (pl0 := λ t, if decide (t < n)%nat then Held t else Unborn).
  pose proof (inv_start n nx) as Hi0. fold s0 pl0 in Hi0.
  pose proof (wp_create n s0 pl0 0 Hi0 Hn eq_refl eq_refl) as H1. apply wp_Ok in H1 as ([] & s1 & E1 & H1).
  change (create 0 s0 = Ok () s1) in E1. change (next_id s0) with n in H1. change (activeThreads s0 0%nat) with 0%nat in H1.
  assert (Ha1 : activeThreads s1 = id) by (by injection E1 as <-).
  assert (Hr1 : ∀ c, phases s1 c = Run) by (by injection E1 as <-). assert (Hh1 : hand s1 = fset (λ _, None) 0%nat (Some n)) by (by injection E1 as <-).
  pose proof (wp_wake n s1 _ 0 (st_inv _ _ _ _ _ _ _ _ _ _ _ H1) Hn (Hr1 0%nat)) as H2.
  rewrite Ha1, Hh1 in H2. unfold id in H2 at 1. rewrite fset_eq in H2. apply wp_Ok in H2 as ([] & s2 & E2 & H2).
  assert (E1' : core_step 0 Create s0 = Ok () s1) by exact E1.
  assert (E2' : core_step 0 Wake s1 = Ok () s2) by (unfold core_step, get, mbind, M_bind; rewrite Hr1; exact E2).
  assert (Es : threads_ready nx = s2) by (unfold threads_ready; fold s0; unfold mbind, M_bind; by rewrite E1', E2').
  rewrite Es. eexists. split; [apply (st_inv _ _ _ _ _ _ _ _ _ _ _ H2)|..].
  - intros t. unfold fset. destruct (decide (t = n)); done.
  - intros c. rewrite (st_at _ _ _ _ _ _ _ _ _ _ _ H2). unfold fset. case_decide; [done|]. apply Hr1.
  - intros t. by rewrite (st_idle _ _ _ _ _ _ _ _ _ _ _ H2), (st_idle _ _ _ _ _ _ _ _ _ _ _ H1).
  - intros t. rewrite (st_hand _ _ _ _ _ _ _ _ _ _ _ H2), Ha1, Hh1. unfold fset, id. by case_decide.
  - intros w l Hl. pose proof (is_queue_empty nx) as H0. pose proof (st_lists _ _ _ _ _ _ _ _ _ _ _ H1 (WaitingQ w) [] H0) as Hl1.
    pose proof (st_lists _ _ _ _ _ _ _ _ _ _ _ H2 (WaitingQ w) _ Hl1) as Hl2. by rewrite (is_queue_unique _ _ _ _ Hl Hl2).
  - rewrite (st_flags _ _ _ _ _ _ _ _ _ _ _ H2), Ha1, (fset_same (flag_of s1 _)) by done.
    rewrite (st_flags _ _ _ _ _ _ _ _ _ _ _ H1), (fset_same (flag_of s0 _)) by done.
    unfold flag_of, pl0. rewrite decide_True; [done|]. by rewrite decide_False by lia.
  - eapply rtc_l; [|apply rtc_once]; [by exists 0%nat, Create|]. by exists 0%nat, Wake.
Qed.

Lemma kinv_start nx progs counts x : (0 < n)%nat → kept (map snd (boots progs)) (kstart nx progs counts x).
Proof.
  intros Hn. destruct (threads_ready_ok nx Hn) as (pl & [R1 R2 R3 R4 R5 R6 R7 _]). exists pl.
  assert (Hu : ∀ i, pl (tid i) = Unborn) by (intros i; rewrite R2; by rewrite !decide_False by (unfold tid; lia)).
  split; cbn [kstart sch mch reaping]; try done.
  - apply inv_boot.
  - rewrite (spot_off _ _ _ (In ReadyQ)); [done| |done]. rewrite R2. by rewrite decide_True.
  - intros i t Hi. rewrite (spot_off _ _ _ Unborn) by done.
    simpl in Hi. unfold boots in Hi. rewrite list_lookup_fmap in Hi. rewrite list_lookup_fmap in Hi. destruct (progs !! i); [|done].
    by injection Hi as <-.
  - intros i t Hi. rewrite R5. simpl in Hi. unfold boots in Hi. rewrite list_lookup_fmap in Hi. rewrite list_lookup_fmap in Hi. destruct (progs !! i); [|done].
    by injection Hi as <-.
  - intros t _. by rewrite R5.
  - intros i t Hi. unfold flag_of. rewrite decide_True by done. simpl in Hi. unfold boots in Hi. rewrite !list_lookup_fmap in Hi.
    destruct (progs !! i); [|done]. by injection Hi as <-.
Qed.

Lemma kinv_reach flags k k' : kept flags k → rtc kstep k k' → kept flags k'.
Proof. intros Hk Hr. induction Hr as [k|k1 k2 k3 (c & timer & Hc & E) _ IH]; [done|]. apply IH. destruct Hk as [pl Hk]. by eapply kinv_kexec. Qed.

(** ** Each side on its own *)

(** Whoever brings a step, the machine of the programs does its own. *)
Lemma sched_step_programs c a k k' : sched_step c a k = Some k' → mch k' = mch k.
Proof. unfold sched_step. destruct (scheduler c a k); [|done]. by intros [= <-]. Qed.

Lemma sweep_programs c t k k' : sweep c t k = Some k' → mch k' = mch k.
Proof. unfold sweep. destruct (scheduler c Reap k); [|done]. by intros [= <-]. Qed.

Lemma isteps_same (m m' : machine X) : m' = m → isteps m m'.
Proof. intros ->. constructor. Qed.

Lemma kexec_programs c timer k k' : kexec c timer k = Some k' → isteps (mch k) (mch k').
Proof.
  assert (Hsched : ∀ a r, (s ← scheduler c a k; Some (mkKernel s (mch k) r)) = Some k' → mch k' = mch k).
  { intros a r. destruct (scheduler c a k); [|done]. by intros [= <-]. }
  unfold kexec. destruct timer; [destruct (enabled (sch k) c); [by intros ?%sched_step_programs%isteps_same|done]|].
  destruct (phases (sch k) c) as [|? ? ? ?|? ? ? ? ?|[| |?] ?]; repeat case_match; try done;
    try (by intros ?%sched_step_programs%isteps_same).
  - unfold idle_step, start_thread. repeat case_match; intros E; apply isteps_same;
      first [by eapply sweep_programs|by eapply sched_step_programs|by eapply Hsched].
  - unfold reaper_step. repeat case_match; try done; intros E; apply isteps_same; first [by eapply sweep_programs|by eapply Hsched].
  - unfold program_step. destruct (threads (mch k) !! _) as [t|]; [|done]. cbn [mbind option_bind].
    destruct (todo t); [by intros ?%sched_step_programs%isteps_same|..];
      (destruct (iexec _ (mch k)) as [m|] eqn:E; [|done]); cbn [mbind option_bind];
      (destruct (threads m !! _) as [t'|]; [|done]); cbn [mbind option_bind];
      (destruct (scheduler c (effect t t') k); [|done]); intros [= <-]; apply rtc_once; by eexists.
  - unfold down_callback. destruct (iexec _ (mch k)) as [m1|] eqn:E1; [|done]. cbn [mbind option_bind].
    destruct (iexec _ m1) as [m2|] eqn:E2; [|done]. cbn [mbind option_bind]. destruct (scheduler c Go k); [|done]. intros [= <-].
    eapply rtc_l; [by eexists|]. apply rtc_once. by eexists.
Qed.

(** And the scheduler does one of its steps, of those that [Threads] allows. *)
Section scheduler.
Context (flags : list bool) (k : kernel) (pl : places) (c : nat) (Hk : kinv flags k pl) (Hc : (c < n)%nat).

Definition sched_moves (o : option kernel) : Prop := ∀ k', o = Some k' → sch k' = sch k ∨ machine_step n (sch k) (sch k').

Lemma moves_sched a r : allowed (sch k) c a → sched_moves (s ← scheduler c a k; Some (mkKernel s (mch k) r)).
Proof using Hc.
  intros Ha k'. unfold scheduler. destruct (core_step c a (sch k)) as [[] s| | |] eqn:E; [|done..]. intros [= <-]. right. by exists c, a.
Qed.

Lemma moves_with a m : allowed (sch k) c a → sched_moves (s ← scheduler c a k; Some (mkKernel s m (reaping k))).
Proof using Hc.
  intros Ha k'. unfold scheduler. destruct (core_step c a (sch k)) as [[] s| | |] eqn:E; [|done..]. intros [= <-]. right. by exists c, a.
Qed.

Lemma allowed_inside a : phases (sch k) c ≠ Run → allowed (sch k) c a.
Proof. by intros Hne E. Qed.

Lemma low_none t : (t ≤ n)%nat → (t = last → (last < n)%nat → reaping k last = false → hand (sch k) last = None) → hand (sch k) t = None.
Proof using Hk.
  intros Ht H0. destruct (hand (sch k) t) eqn:E; [|done]. destruct (k_low _ _ _ Hk t Ht) as (-> & Hr & Hn); [by rewrite E|].
  by rewrite H0 in E.
Qed.

Lemma idle_moves : phases (sch k) c = Run → isIdle (sch k) (activeThreads (sch k) c) = true → sched_moves (idle_step c (activeThreads (sch k) c) k).
Proof using Hc Hk.
  intros Hrun Hi. rewrite (k_idle _ _ _ Hk) in Hi. apply bool_decide_eq_true in Hi. unfold idle_step, start_thread.
  destruct (flag (sch k) (activeThreads (sch k) c)) eqn:Ef; simpl; [|by apply moves_sched].
  destruct (bool_decide (activeThreads (sch k) c = last) && starting k) eqn:E.
  - apply andb_true_iff in E as [E0%bool_decide_eq_true E1]. destruct (reaping k last) eqn:Er.
    + apply moves_sched. intros _. rewrite E0. apply low_none; [lia|congruence].
    + destruct (hand (sch k) last) eqn:Eh; apply moves_sched; [done|]. intros _. by rewrite E0.
  - apply moves_sched. intros _. split; [|done]. apply low_none; [lia|]. intros E0 _ _. rewrite bool_decide_true in E by done.
    unfold starting in E. apply orb_false_iff in E as [_ E]. apply bool_decide_eq_false in E. by destruct (hand (sch k) last); [destruct E|].
Qed.

Lemma reaper_moves : activeThreads (sch k) c = reaper → sched_moves (reaper_step c k).
Proof using Hc Hk.
  intros Ha. assert (Hnone : hand (sch k) reaper = None) by (apply low_none; [done|unfold reaper; lia]).
  unfold reaper_step. destruct (reaping k reaper); [destruct (enabled (sch k) c); [|done]|]; apply moves_sched; intros _; by rewrite Ha.
Qed.

Lemma demand_allowed i t a : activeThreads (sch k) c = tid i → threads (mch k) !! i = Some t → demand t = Some a → allowed (sch k) c a.
Proof using Hk.
  intros Hme Hi Hd _. pose proof (k_hands _ _ _ Hk _ _ Hi) as Hh. unfold demand in Hd. rewrite Hme, Hh.
  destruct (at_ t); try done; destruct (sem_of t); try done; try (destruct next; try done); injection Hd as <-; try done.
  split; [done|]. rewrite (k_idle _ _ _ Hk). apply tid_lt.
Qed.

Lemma program_sched_moves i : activeThreads (sch k) c = tid i → sched_moves (program_step c i k).
Proof using Hc Hk.
  intros Hme. unfold program_step. destruct (threads (mch k) !! i) as [t|] eqn:Hi; [|done]. cbn [mbind option_bind].
  assert (Hgo : sched_moves (m ← iexec i (mch k); t' ← threads m !! i; s ← scheduler c (effect t t') k; Some (mkKernel s m (reaping k)))).
  { destruct (iexec i (mch k)) as [m|]; [|done]. cbn [mbind option_bind]. destruct (threads m !! i) as [t'|]; [|done]. cbn [mbind option_bind].
    unfold effect. destruct (demand t) as [a|] eqn:Ed; apply moves_with; [by eapply demand_allowed|done]. }
  destruct (todo t) eqn:Et; try done. apply moves_sched. intros _. rewrite Hme, (k_idle _ _ _ Hk), tid_lt. split; [|done].
  rewrite (k_hands _ _ _ Hk _ _ Hi).
  destruct (thread_at _ _ _ _ (k_sems _ _ _ Hk) Hi) as (e & _ & [Hcall _ _ _]). rewrite Hcall; [done|]. unfold sem_of. by rewrite Et.
Qed.

Lemma kexec_moves timer : sched_moves (kexec c timer k).
Proof using Hc Hk.
  unfold kexec. destruct timer; [destruct (enabled (sch k) c); [by apply moves_sched|done]|].
  destruct (phases (sch k) c) as [|o f ci me|st f ci me next|f me] eqn:Hat.
  - destruct (isIdle (sch k) (activeThreads (sch k) c)) eqn:Ei; [by apply idle_moves|].
    destruct (decide (activeThreads (sch k) c = reaper)) as [Er|Er]; [by apply reaper_moves|].
    destruct (runs_program flags k pl c Hk Hc Hat Ei Er) as (i & t & Hme & _). rewrite Hme, pid_tid. by apply program_sched_moves.
  - apply moves_sched, allowed_inside. by rewrite Hat.
  - apply moves_sched, allowed_inside. by rewrite Hat.
  - assert (Hal : allowed (sch k) c Go) by (apply allowed_inside; by rewrite Hat).
    destruct f; try (by apply moves_sched).
    unfold down_callback. destruct (iexec (pid me) (mch k)) as [m1|]; [|done]. cbn [mbind option_bind].
    destruct (iexec (pid me) m1) as [m2|]; [|done]. by apply moves_with.
Qed.
End scheduler.

(** ** What every state is like *)

Lemma kernel_runs nx progs counts x k :
  (0 < n)%nat → rtc kstep (kstart nx progs counts x) k →
  (∃ pl, kinv (map snd (boots progs)) k pl) ∧ isteps (boot (boots progs) counts x) (mch k) ∧ rtc (machine_step n) (threadsInit n nx) (sch k).
Proof.
  intros Hn Hr. pose proof (kinv_start nx progs counts x Hn) as Hk. change (boot (boots progs) counts x) with (mch (kstart nx progs counts x)).
  cut ((∃ pl, kinv (map snd (boots progs)) k pl) ∧ isteps (mch (kstart nx progs counts x)) (mch k) ∧ rtc (machine_step n) (sch (kstart nx progs counts x)) (sch k)).
  { intros (H1 & H2 & H3). split_and!; [done|done|]. destruct (threads_ready_ok nx Hn) as (pl & [_ _ _ _ _ _ _ R7]). by etransitivity. }
  revert Hk.
  induction Hr as [k|k1 k2 k3 (c & timer & Hc & E) _ IH]; intros [pl Hk]; [split_and!; [by exists pl|constructor..]|].
  destruct IH as (H1 & H2 & H3); [by eapply kinv_kexec|]. split_and!; [done| |].
  - etransitivity; [by eapply kexec_programs|done].
  - destruct (kexec_moves _ _ _ _ Hk Hc timer _ E) as [Es|Hm]; [by rewrite <-Es|by eapply rtc_l].
Qed.

(** A thread that no core has is in no critical section. *)
Lemma off_core_free flags k pl i t :
  kinv flags k pl → threads (mch k) !! i = Some t → crit (at_ t) = true → on_core n (sch k) (tid i).
Proof.
  intros Hk Hi Hc. apply (on_core_place _ _ _ _ (k_sched _ _ _ Hk)).
  destruct (pl (tid i)) as [|q|c| | |] eqn:E; [|..|by exists c| | |].
  all: exfalso; pose proof (k_program _ _ _ Hk i t Hi) as Hok; rewrite (spot_off _ _ _ _ E) in Hok by done; simpl in Hok.
  - destruct Hok as [Ha _]. by rewrite Ha in Hc.
  - destruct (thread_at _ _ _ _ (k_sems _ _ _ Hk) Hi) as (e & _ & [_ _ Hf _]). destruct q; simpl in Hok.
    + destruct Hok as [Ho|[was Ho]]; [|by rewrite Ho in Hc]. destruct (at_ t); try done; destruct Hf as [Hf _]; congruence.
    + destruct Hok as [Ha _]. by rewrite Ha in Hc.
    + destruct Hok as [[was Ha] _]. by rewrite Ha in Hc.
  - case_bool_decide; [destruct Hok as [Ha _]|destruct Hok as [was Ha]]; by rewrite Ha in Hc.
  - done.
  - destruct Hok as [Ha _]. by rewrite Ha in Hc.
Qed.

(** Who is neither on a core nor ready has ended, or waits on a semaphore. *)
Lemma off_core_rests flags k pl i t :
  kinv flags k pl → threads (mch k) !! i = Some t →
  (∀ j u, threads (mch k) !! j = Some u → ¬ on_core n (sch k) (tid j) ∧ ¬ queued (sch k) ReadyQ (tid j)) →
  next_id (sch k) = tid (List.length (threads (mch k))) → hand (sch k) last = None →
  ended t ∨ ∃ w, sem_of t = Some w ∧ asleep t ∧ queued (sch k) (WaitingQ w) (tid i).
Proof.
  intros Hk Hi Hoff Hall H0. pose proof (k_sched _ _ _ Hk) as Hs. destruct (Hoff i t Hi) as [Hnc Hnq].
  destruct (pl (tid i)) as [|q|c|u| |] eqn:E.
  3: { destruct Hnc. apply (on_core_place _ _ _ _ Hs). by exists c. }
  all: pose proof (k_program _ _ _ Hk i t Hi) as Hok; rewrite (spot_off _ _ _ _ E) in Hok by done; simpl in Hok.
  - apply (si_unborn _ _ _ Hs) in E. apply lookup_lt_Some in Hi. unfold tid in *. lia.
  - destruct q; [destruct Hnq; by apply (queued_place _ _ _ _ _ Hs)|by left|]. right. exists w. destruct Hok as [Ha Hw]. split_and!; [done|done|].
    by apply (queued_place _ _ _ _ _ Hs).
  - exfalso. pose proof (proj2 (h_in _ _ _ (si_hands _ _ _ Hs) _ _) E) as Hh.
    destruct (decide (u ≤ n)%nat) as [Hu|Hu]; [destruct (k_low _ _ _ Hk u Hu) as (-> & _); [by rewrite Hh|congruence]|].
    assert (Hpu : tid (pid u) = u) by (apply tid_pid; lia).
    assert (Hlt : (pid u < List.length (threads (mch k)))%nat).
    { destruct (decide (pid u < List.length (threads (mch k)))%nat); [done|]. pose proof (k_bound _ _ _ Hk (pid u) ltac:(lia)) as Hb.
      rewrite Hpu in Hb. destruct (h_holder _ _ _ (si_hands _ _ _ Hs) _ _ Hh) as [[c Hp]|Hp]; congruence. }
    apply lookup_lt_is_Some_2 in Hlt as [v Hv]. destruct (Hoff _ _ Hv) as [H1 H2]. rewrite Hpu in H1, H2.
    destruct (h_holder _ _ _ (si_hands _ _ _ Hs) _ _ Hh) as [Hp|Hp]; [apply H1; by apply (on_core_place _ _ _ _ Hs)|apply H2; by apply (queued_place _ _ _ _ _ Hs)].
  - done.
  - by left.
Qed.
End kernel.

Arguments kernel : clear implicits.

(** ** Properties *)

(** C9. The scheduler keeps the promise that programs over semaphores rely
    on.  On any number of cores, however their steps interleave and wherever
    the timer interrupts a core that has interrupts on, from the creation of
    the first thread on: the programs run as in [SemaphoreImpl], the threads
    are scheduled as in [Threads]; every core can go on, unless its thread
    has panicked, and can take the timer's interrupt when its interrupts are
    on, which does nothing inside [block]; they are on, while a core runs a
    program, just if the program has them on; the intrusive queue of every
    semaphore is the list of the threads that wait on it, in order; and a
    thread in the critical section of a semaphore is on a core, whatever the
    timer does. *)
Theorem kernel_refines {X} n last nx (progs : list (prog X)) counts x k :
  (0 < n)%nat → rtc (kstep n last) (kstart n nx progs counts x) k →
  isteps (boot (boots progs) counts x) (mch k) ∧
  Threads.reachable n (sch k) ∧
  (∀ c, (c < n)%nat → (∃ k', kexec n last c false k = Some k') ∨ panicked n k c) ∧
  (∀ c, (c < n)%nat → enabled (sch k) c = true → ∃ k', kexec n last c true k = Some k' ∧ (phases (sch k) c ≠ Run → k' = k)) ∧
  (∀ c i t, (c < n)%nat → phases (sch k) c = Run → activeThreads (sch k) c = tid n i → threads (mch k) !! i = Some t →
     enabled (sch k) c = iflag t) ∧
  (∀ w, is_queue (nexts (sch k)) (queues (sch k) (WaitingQ w)) (tid n <$> iwaiting (isems (mch k) w))) ∧
  (∀ i t, threads (mch k) !! i = Some t → crit (at_ t) = true → on_core n (sch k) (tid n i)).
Proof.
  intros Hn Hr. destruct (kernel_runs n last nx progs counts x k Hn Hr) as ((pl & Hk) & H1 & H2). pose proof (k_sched _ _ _ _ _ Hk) as Hs.
  split_and!; [done|by exists nx|..].
  - intros c Hc. destruct (next_step n last _ k pl c Hk Hc) as [(k' & E & _)|Hp]; [left; by exists k'|by right].
  - intros c Hc Hen. unfold kexec. rewrite Hen. destruct (timer_goes_on n last _ k pl c Hk Hc) as (k' & E & _). exists k'. split; [done|].
    intros Hin. unfold sched_step, scheduler in E. rewrite (tick_inside n _ pl c Hs Hc Hin) in E. injection E as <-. by destruct k.
  - intros c i t Hc Hrun Ha Hi. rewrite (enabled_run n _ pl c Hs Hc Hrun), Ha. by apply (k_flags _ _ _ _ _ Hk).
  - intros w. destruct (si_queues _ _ _ (k_sched _ _ _ _ _ Hk) (WaitingQ w)) as (l & Hl & _). by rewrite <-(k_waiting _ _ _ _ _ Hk w l Hl).
  - intros i t. by eapply off_core_free.
Qed.

(** C11. No thread is forgotten: once all have been created, if none is on
    a core or ready to be run then each has ended or waits in the queue of a
    semaphore, none of them could take a step if all had cores, and the
    atomic steps of [Semaphore] lead to a state where nobody can take one:
    what buffers, futures, barriers and locks say of such states holds of
    the kernel that has nothing to run. *)
Theorem kernel_at_rest {X} n last nx (progs : list (prog X)) counts x k :
  (0 < n)%nat → rtc (kstep n last) (kstart n nx progs counts x) k →
  next_id (sch k) = tid n (List.length progs) → hand (sch k) last = None →
  (∀ i, (i < List.length progs)%nat → ¬ on_core n (sch k) (tid n i) ∧ ¬ queued (sch k) ReadyQ (tid n i)) →
  (∀ i t, threads (mch k) !! i = Some t →
     ended t ∨ ∃ w, sem_of t = Some w ∧ asleep t ∧ queued (sch k) (WaitingQ w) (tid n i)) ∧
  (∀ i, iexec i (mch k) = None) ∧
  steps (start (boots progs) counts x) (abs (mch k)) ∧ (∀ i, exec i (abs (mch k)) = None).
Proof.
  intros Hn Hr Hall H0 Hoff. destruct (kernel_runs n last nx progs counts x k Hn Hr) as ((pl & Hk) & H1 & _).
  assert (Hlen : List.length (threads (mch k)) = List.length progs).
  { rewrite (v_length _ _ (k_sems _ _ _ _ _ Hk)). unfold boots. by rewrite !length_map. }
  assert (Hrest : ∀ i t, threads (mch k) !! i = Some t → ended t ∨ ∃ w, sem_of t = Some w ∧ asleep t ∧ queued (sch k) (WaitingQ w) (tid n i)).
  { intros i t Hi. eapply off_core_rests; [exact Hk|exact Hi| |by rewrite Hlen|done].
    intros j u Hj. apply Hoff. rewrite <-Hlen. by eapply lookup_lt_Some. }
  assert (Hst : ∀ i, iexec i (mch k) = None).
  { intros i. unfold iexec. destruct (threads (mch k) !! i) as [[p a f]|] eqn:Hi; [|done]. cbn [mbind option_bind].
    destruct (Hrest i _ Hi) as [[Ha Ht]|(w & Hw & [was Ha] & _)]; simpl in *; subst; [done|]. by destruct p. }
  split_and!; [done|done|by apply code_reaches|]. by apply (code_stuck (boots progs) counts x).
Qed.

(** ** Witnesses *)

(** Steps of cores and interrupts of the timer, those that cannot be done
    passed over. *)
Fixpoint kplay {X} (n last : nat) (es : list (nat * bool)) (k : kernel X) : kernel X :=
  match es with
  | [] => k
  | (c, timer) :: es => kplay n last es (default k (kexec n last c timer k))
  end.

Lemma kplay_steps {X} n last es (k : kernel X) : forallb (λ e, (e.1 <? n)%nat) es = true → rtc (kstep n last) k (kplay n last es k).
Proof.
  revert k. induction es as [|[c timer] es IH]; intros k; simpl; [constructor|]. intros [Hc%Nat.ltb_lt Hes]%andb_true_iff.
  destruct (kexec n last c timer k) as [k'|] eqn:E; [|by apply IH]. eapply rtc_l; [by exists c, timer|by apply IH].
Qed.

(** Two cores; one thread gives a permit, another waits twice for one.  The
    timer interrupts core 1 after every step that its interrupts are on. *)
Definition sample : list (prog Z) := [Up 0 Done; Down 0 (Act (λ x, x + 1) (λ _, Down 0 Done))].
Definition sample_steps (r : nat) : list (nat * bool) := concat (replicate r [(0, false); (1, false); (1, true)])%nat.
Definition sample_kernel (r : nat) : kernel Z := kplay 2 1 (sample_steps r) (kstart 2 (λ _, None) sample (λ _, 0) 0).

Lemma sample_reached r : rtc (kstep 2 1) (kstart 2 (λ _, None) sample (λ _, 0) 0) (sample_kernel r).
Proof.
  apply kplay_steps. unfold sample_steps. induction r as [|r IH]; [done|]. simpl. exact IH.
Qed.

(** While the first thread gives its permit, with interrupts off: the second
    is in the queue. *)
Lemma kernel_refines_witness :
  map at_ (threads (mch (sample_kernel 36))) = [Up_remove false; Down_waits false] ∧
  activeThreads (sch (sample_kernel 36)) 0 = tid 2 0 ∧ enabled (sch (sample_kernel 36)) 0 = false ∧
  is_queue (nexts (sch (sample_kernel 36))) (queues (sch (sample_kernel 36)) (WaitingQ 0)) [tid 2 1].
Proof.
  split; [vm_compute; reflexivity|]. split; [vm_compute; reflexivity|]. split; [vm_compute; reflexivity|].
  destruct (kernel_refines 2 1 (λ _, None) sample (λ _, 0) 0 (sample_kernel 36)) as (_ & _ & _ & _ & _ & H & _); [lia|apply sample_reached|].
  assert (E : iwaiting (isems (mch (sample_kernel 36)) 0) = [1%nat]) by (vm_compute; reflexivity).
  specialize (H 0%nat). rewrite E in H. exact H.
Defined.

(** In the end the second waits for a permit that nobody gives. *)
Lemma kernel_at_rest_witness :
  data (mch (sample_kernel 74)) = 1 ∧ dead (sch (sample_kernel 74)) (tid 2 0) = true ∧
  (∀ i, iexec i (mch (sample_kernel 74)) = None) ∧
  steps (start (boots sample) (λ _, 0) 0) (abs (mch (sample_kernel 74))) ∧ (∀ i, exec i (abs (mch (sample_kernel 74))) = None).
Proof.
  split; [vm_compute; reflexivity|]. split; [vm_compute; reflexivity|].
  assert (E0 : held (phases (sch (sample_kernel 74)) 0) (activeThreads (sch (sample_kernel 74)) 0) = [0%nat]) by (vm_compute; reflexivity).
  assert (E1 : held (phases (sch (sample_kernel 74)) 1) (activeThreads (sch (sample_kernel 74)) 1) = [2%nat]) by (vm_compute; reflexivity).
  assert (E2 : first (queues (sch (sample_kernel 74)) ReadyQ) = None) by (vm_compute; reflexivity).
  assert (E3 : last_ (queues (sch (sample_kernel 74)) ReadyQ) = None) by (vm_compute; reflexivity).
  apply (kernel_at_rest 2 1 (λ _, None) sample (λ _, 0) 0 (sample_kernel 74) ltac:(lia) (sample_reached 74)).
  - vm_compute. reflexivity.
  - vm_compute. reflexivity.
  - intros i Hi. split.
    + intros (c & Hc & Ht). destruct c as [|[|c]]; [rewrite E0 in Ht|rewrite E1 in Ht|lia];
        apply list_elem_of_singleton in Ht; unfold tid in Ht; lia.
    + intros (l & Hl & Ht). rewrite (is_queue_unique _ _ l [] Hl) in Ht; [by apply not_elem_of_nil in Ht|].
      split; [exact E2|]. split; [exact E3|]. intros j u Hu. rewrite lookup_nil in Hu. discriminate.
Defined.
