(* ===== verification/ContextSwitch.v ===== *)
(** * The context switch (kernel/context.s, [SaveArea] and [TCBWithStack] of
    kernel/threads.h)

    The instructions of [gheith_contextSwitch] on the registers of a core
    and a memory of words.  A thread that is not running is its save area
    and the top of its stack; a switch makes the running thread one, makes
    the other the running one, and leaves all others alone. *)

From S2P Require Import Prelude.

(** ** The machine *)

Inductive reg := EAX | ECX | EDX | EBX | ESP | EBP | ESI | EDI | CR2 | CR3.

Record registers := mkRegs { eax : Z; ecx : Z; edx : Z; ebx : Z; esp : Z; ebp : Z; esi : Z; edi : Z; cr2 : Z; cr3 : Z }.

Definition rget (f : registers) (r : reg) : Z :=
  match r with
  | EAX => eax f | ECX => ecx f | EDX => edx f | EBX => ebx f | ESP => esp f
  | EBP => ebp f | ESI => esi f | EDI => edi f | CR2 => cr2 f | CR3 => cr3 f
  end.

Definition rset (f : registers) (r : reg) (v : Z) : registers :=
  let 'mkRegs a c d b sp bp si di r2 r3 := f in
  match r with
  | EAX => mkRegs v c d b sp bp si di r2 r3
  | ECX => mkRegs a v d b sp bp si di r2 r3
  | EDX => mkRegs a c v b sp bp si di r2 r3
  | EBX => mkRegs a c d v sp bp si di r2 r3
  | ESP => mkRegs a c d b v bp si di r2 r3
  | EBP => mkRegs a c d b sp v si di r2 r3
  | ESI => mkRegs a c d b sp bp v di r2 r3
  | EDI => mkRegs a c d b sp bp si v r2 r3
  | CR2 => mkRegs a c d b sp bp si di v r3
  | CR3 => mkRegs a c d b sp bp si di r2 v
  end.

(** Memory has a word at each address that is used; the addresses are
    multiples of four. *)
Record cpu := mkCpu { file : registers; eflags : Z; eip : Z; mem : Z → Z }.

Definition mset (m : Z → Z) (a v : Z) : Z → Z := λ b, if b =? a then v else m b.

Definition regs (s : cpu) (r : reg) : Z := rget (file s) r.

Definition set_reg (r : reg) (v : Z) (s : cpu) : cpu := mkCpu (rset (file s) r v) (eflags s) (eip s) (mem s).
Definition set_mem (a v : Z) (s : cpu) : cpu := mkCpu (file s) (eflags s) (eip s) (mset (mem s) a v).

Inductive instr :=
| Load (off : Z) (base dst : reg)     (** [mov off(base),dst] *)
| Store (src : reg) (off : Z) (base : reg)
| StoreImm (v off : Z) (base : reg)
| Mov (src dst : reg)
| PushMem (off : Z) (base : reg)
| Pushf
| Popf
| Cli
| Call (r : reg)                      (** [call *r] *)
| AddImm (v : Z) (r : reg)
| Ret.

(** The interrupt flag. *)
Definition IF : Z := 0x200.

Definition push (v : Z) (s : cpu) : cpu :=
  let sp := u32 (regs s ESP - 4) in set_reg ESP sp (set_mem sp v s).

Section switch.
(** What the code at an address does, from its first instruction until it
    has returned, and the address after the call. *)
Context (code : Z → cpu → cpu) (after : Z).

Definition exec (i : instr) (s : cpu) : cpu :=
  match i with
  | Load off base dst => set_reg dst (mem s (u32 (regs s base + off))) s
  | Store src off base => set_mem (u32 (regs s base + off)) (regs s src) s
  | StoreImm v off base => set_mem (u32 (regs s base + off)) v s
  | Mov src dst => set_reg dst (regs s src) s
  | PushMem off base => push (mem s (u32 (regs s base + off))) s
  | Pushf => push (eflags s) s
  | Popf => mkCpu (rset (file s) ESP (u32 (regs s ESP + 4))) (mem s (regs s ESP)) (eip s) (mem s)
  | Cli => mkCpu (file s) (Z.ldiff (eflags s) IF) (eip s) (mem s)
  | Call r => code (regs s r) (push after s)
  | AddImm v r => set_reg r (u32 (regs s r + v)) s
  | Ret => mkCpu (rset (file s) ESP (u32 (regs s ESP + 4))) (eflags s) (mem s (regs s ESP)) (mem s)
  end.

Definition run (l : list instr) (s : cpu) : cpu := foldl (λ s i, exec i s) s l.

(** ** The code *)

(** The members of [SaveArea]. *)
Definition off_ebx : Z := 0.
Definition off_esp : Z := 4.
Definition off_ebp : Z := 8.
Definition off_esi : Z := 12.
Definition off_edi : Z := 16.
Definition off_no_preempt : Z := 20.
Definition off_tcb : Z := 24.
Definition off_cr2 : Z := 28.
Definition off_cr3 : Z := 32.
Definition SaveArea_size : Z := 36.

Definition gheith_contextSwitch : list instr :=
  [Load 4 ESP EAX; Load 8 ESP ECX; Load 12 ESP EDX;
   Pushf;
   Store EBX off_ebx EAX; Store ESP off_esp EAX; Store EBP off_ebp EAX; Store ESI off_esi EAX; Store EDI off_edi EAX;
   Mov CR2 EDI; Store EDI off_cr2 EAX;
   Cli;
   StoreImm 0 off_no_preempt EAX; StoreImm 0 off_no_preempt ECX;
   Mov ESP EAX;
   Load off_cr2 ECX EDI; Mov EDI CR2;
   Load off_cr3 ECX EDI; Mov EDI CR3;
   Load off_ebx ECX EBX; Load off_esp ECX ESP; Load off_ebp ECX EBP; Load off_esi ECX ESI; Load off_edi ECX EDI;
   PushMem 20 EAX; PushMem 8 EAX;
   Call EDX;
   AddImm 8 ESP;
   Popf;
   Ret].

(** ** Threads that are not running *)

(** What a thread has of its own: the registers that calls preserve, the
    flags, and where it goes on with what stack. *)
Record context := mkContext { c_ebx : Z; c_ebp : Z; c_esi : Z; c_edi : Z; c_cr2 : Z; c_flags : Z; c_eip : Z; c_esp : Z }.

(** Thread [sa] waits in memory [m]; its stack pointer is that after the
    return from [gheith_contextSwitch]. *)
Record suspended (m : Z → Z) (sa : Z) (x : context) : Prop := {
  s_ebx : m (sa + off_ebx) = c_ebx x;
  s_esp : m (sa + off_esp) = c_esp x - 8;
  s_ebp : m (sa + off_ebp) = c_ebp x;
  s_esi : m (sa + off_esi) = c_esi x;
  s_edi : m (sa + off_edi) = c_edi x;
  s_cr2 : m (sa + off_cr2) = c_cr2 x;
  s_flags : m (c_esp x - 8) = c_flags x;
  s_eip : m (c_esp x - 4) = c_eip x
}.

(** The words that a waiting thread needs. *)
Definition needs (sa : Z) (x : context) (a : Z) : Prop :=
  (sa <= a < sa + SaveArea_size ∧ a ≠ sa + off_no_preempt) ∨ c_esp x - 8 <= a < c_esp x.

Lemma suspended_ext m m' sa x : (∀ a, needs sa x a → m' a = m a) → suspended m sa x → suspended m' sa x.
Proof.
  intros H []. unfold needs, SaveArea_size, off_no_preempt in H.
  split; rewrite H; try done; unfold off_ebx, off_esp, off_ebp, off_esi, off_edi, off_cr2; lia.
Qed.

(** The context of the running thread at the call of
    [gheith_contextSwitch]: the return address is on top of the stack. *)
Definition calling (st : cpu) : context :=
  mkContext (regs st EBX) (regs st EBP) (regs st ESI) (regs st EDI) (regs st CR2) (eflags st)
            (mem st (regs st ESP)) (regs st ESP + 4).

(** The arguments of the call, on the stack above the return address. *)
Definition argument (st : cpu) (i : Z) : Z := mem st (regs st ESP + 4 * i).

(** The registers that calls preserve. *)
Definition preserved (r : reg) : bool := match r with EBX | EBP | ESI | EDI | CR2 | CR3 => true | _ => false end.

(** What the conventions say of a function: it returns, with those
    registers, and does not touch the words of [keep]. *)
Record call_ok (keep : Z → Prop) (st st' : cpu) : Prop := {
  ok_esp : regs st' ESP = regs st ESP + 4;
  ok_regs : ∀ r, preserved r = true → regs st' r = regs st r;
  ok_mem : ∀ a, keep a → mem st' a = mem st a
}.

Lemma mset_eq m a v : mset m a v a = v.
Proof. unfold mset. by rewrite Z.eqb_refl. Qed.
Lemma mset_ne m a v b : b ≠ a → mset m a v b = m b.
Proof. unfold mset. intros Hb. by destruct (Z.eqb_spec b a). Qed.

(** The states before and in which the handler is called. *)
Definition to_call : list instr := take 26 gheith_contextSwitch.
Lemma switch_parts : gheith_contextSwitch = to_call ++ [Call EDX; AddImm 8 ESP; Popf; Ret].
Proof. reflexivity. Qed.

Lemma push_mem v s : mem (push v s) = mset (mem s) (u32 (regs s ESP - 4)) v.
Proof. reflexivity. Qed.
Lemma push_esp v s : regs (push v s) ESP = u32 (regs s ESP - 4).
Proof. unfold push, set_reg, set_mem, regs. cbn [file]. by destruct (file s). Qed.
Lemma push_regs v s r : r ≠ ESP → regs (push v s) r = regs s r.
Proof. unfold push, set_reg, set_mem, regs. cbn [file]. destruct (file s). by destruct r. Qed.
Lemma push_flags v s : eflags (push v s) = eflags s.
Proof. reflexivity. Qed.

Lemma run_app l l' s : run (l ++ l') s = run l' (run l s).
Proof. apply foldl_app. Qed.

Lemma run_cons i l s : run (i :: l) s = run l (exec i s).
Proof. reflexivity. Qed.
Lemma exec_call r s : exec (Call r) s = code (regs s r) (push after s).
Proof. reflexivity. Qed.

(** The instructions after the call. *)
Lemma run_return T st2 fl ip :
  20 <= T < 2 ^ 32 → regs st2 ESP = T - 16 → mem st2 (T - 8) = fl → mem st2 (T - 4) = ip →
  let st' := run [AddImm 8 ESP; Popf; Ret] st2 in
  regs st' ESP = T ∧ eflags st' = fl ∧ eip st' = ip ∧ mem st' = mem st2 ∧ ∀ r, r ≠ ESP → regs st' r = regs st2 r.
Proof.
  intros HT Hsp Hf Hip. unfold regs, run in *. destruct st2 as [[a c d b sp bp si di r2 r3] f i m].
  cbn [file rget mem esp] in *. subst sp. cbn [foldl exec]. unfold set_reg, regs. cbn [file rget rset esp mem eip eflags].
  assert (Hid : ∀ x, 0 <= x < 2 ^ 32 → u32 x = x) by (intros; by apply Z.mod_small).
  rewrite (Hid (T - 16 + 8)) by lia. replace (T - 16 + 8) with (T - 8) by lia.
  rewrite (Hid (T - 8 + 4)) by lia. replace (T - 8 + 4) with (T - 4) by lia. rewrite (Hid (T - 4 + 4)) by lia.
  split_and!; [lia|done|done|done|by intros []].
Qed.

(** Two ranges of words without a word in common. *)
Definition apart (a n b k : Z) : Prop := a + n <= b ∨ b + k <= a.

(** The two save areas and the two stacks do not meet. *)
Record layout (st : cpu) (y : context) : Prop := {
  l_source : 4 <= regs st ESP <= 2 ^ 32 - 20;
  l_target : 20 <= c_esp y < 2 ^ 32;
  l_s : 0 <= argument st 1 <= 2 ^ 32 - 36;
  l_t : 0 <= argument st 2 <= 2 ^ 32 - 36;
  l_st : apart (argument st 1) 36 (argument st 2) 36;
  l_ss : apart (argument st 1) 36 (regs st ESP - 4) 24;
  l_ts : apart (argument st 2) 36 (regs st ESP - 4) 24;
  l_sT : apart (argument st 1) 36 (c_esp y - 20) 20;
  l_tT : apart (argument st 2) 36 (c_esp y - 20) 20;
  l_stacks : apart (regs st ESP - 4) 24 (c_esp y - 20) 20
}.

(** From the call to the call of the handler. *)
Section to_call.
Context (st : cpu) (y : context).
Let E := regs st ESP.
Let s := argument st 1.
Let t := argument st 2.
Let T := c_esp y.
Context (Hwait : suspended (mem st) t y).
Context (Hl : layout st y).

Ltac open_layout :=
  destruct Hl as [HE HT Hs Ht Hst HsE HtE HsT HtT HET]; fold E in HE, HsE, HtE, HET; fold s in Hs, Hst, HsE, HsT;
  fold t in Ht, Hst, HtE, HtT; fold T in HT, HsT, HtT, HET.

Ltac words :=
  repeat first
    [ rewrite mset_eq
    | rewrite mset_ne by (unfold apart in *; lia) ].

Lemma u32_id a : 0 <= a < 2 ^ 32 → u32 a = a.
Proof. intros. by apply Z.mod_small. Qed.

(** The memory when the handler is called: the flags of the source on its
    stack, its save area, the marks, and the arguments on the other stack. *)
Definition saved : Z → Z :=
  let m := mset (mem st) (E - 4) (eflags st) in
  let m := mset m s (regs st EBX) in
  let m := mset m (s + 4) (E - 4) in
  let m := mset m (s + 8) (regs st EBP) in
  let m := mset m (s + 12) (regs st ESI) in
  let m := mset m (s + 16) (regs st EDI) in
  let m := mset m (s + 28) (regs st CR2) in
  let m := mset m (s + 20) 0 in
  let m := mset m (t + 20) 0 in
  let m := mset m (T - 12) (argument st 4) in
  mset m (T - 16) s.

Ltac run_instr :=
  match goal with |- context [foldl ?f ?st (?i :: ?l)] => change (foldl f st (i :: l)) with (foldl f (f st i) l) end;
  cbn beta; cbn [exec]; unfold push, set_reg, set_mem, regs;
  cbn [file mem eflags eip rset rget eax ecx edx ebx esp ebp esi edi cr2 cr3];
  unfold off_ebx, off_esp, off_ebp, off_esi, off_edi, off_no_preempt, off_cr2, off_cr3;
  repeat rewrite u32_id by (unfold apart in *; lia).

Lemma at_call :
  let st1 := run to_call st in
  regs st1 EBX = c_ebx y ∧ regs st1 EBP = c_ebp y ∧ regs st1 ESI = c_esi y ∧ regs st1 EDI = c_edi y ∧
  regs st1 CR2 = c_cr2 y ∧ regs st1 CR3 = mem st (t + off_cr3) ∧ regs st1 ESP = T - 16 ∧ regs st1 EDX = argument st 3 ∧
  eflags st1 = Z.ldiff (eflags st) IF ∧ mem st1 = saved.
Proof.
  open_layout.
  assert (Hrun : run to_call st = mkCpu (mkRegs (E - 4) t (argument st 3) (c_ebx y) (T - 16) (c_ebp y) (c_esi y) (c_edi y) (c_cr2 y) (mem st (t + off_cr3)))
            (Z.ldiff (eflags st) IF) (eip st) saved).
  { destruct Hwait as [W1 W2 W3 W4 W5 W6 _ _]. revert HE HT HsE HtE HET Hs Hst HsT HtT Ht W1 W2 W3 W4 W5 W6.
    unfold saved, s, t, argument, E, run, regs. clear. destruct st as [[a c d b sp bp si di r2 r3] fl ip m].
    cbn [file mem eflags eip esp rget]. intros HE HT HsE HtE HET Hs Hst HsT HtT Ht W1 W2 W3 W4 W5 W6.
    change (4 * 1) with 4 in *. change (4 * 2) with 8 in *. change (4 * 3) with 12 in *. change (4 * 4) with 16 in *.
    set (arg1 := m (sp + 4)) in *. set (arg2 := m (sp + 8)) in *. set (arg3 := m (sp + 12)) in *. set (arg4 := m (sp + 16)) in *.
    cbn [to_call take gheith_contextSwitch].
    do 3 run_instr. fold arg1 arg2 arg3. do 12 run_instr. 
    do 9 (run_instr; words).
    unfold off_ebx, off_esp, off_ebp, off_esi, off_edi, off_cr2 in *. rewrite W1, W2, W3, W4, W5, W6. fold T.
    do 2 (run_instr; words). cbn [foldl]. unfold arg1, arg4.
    replace (sp - 4 + 20) with (sp + 16) by lia. replace (sp - 4 + 8) with (sp + 4) by lia.
    replace (T - 8 - 4) with (T - 12) by lia. replace (T - 12 - 4) with (T - 16) by lia. by rewrite Z.add_0_r. }
  cbv zeta. rewrite Hrun. done.
Qed.

(** Words that the switch does not write before the call. *)
Lemma saved_other a :
  ¬ s <= a < s + 36 → a ≠ t + 20 → a ≠ E - 4 → ¬ T - 20 <= a < T - 8 → saved a = mem st a.
Proof.
  open_layout. intros. unfold saved; cbv zeta. words. done. Qed.

Lemma saved_suspended : suspended saved s (calling st).
Proof.
  open_layout.
  unfold calling. fold E. split; cbn [c_ebx c_esp c_ebp c_esi c_edi c_cr2 c_flags c_eip]; unfold saved, off_ebx, off_esp, off_ebp, off_esi, off_edi, off_cr2; cbv zeta.
  - rewrite Z.add_0_r. by words.
  - words. lia.
  - by words.
  - by words.
  - by words.
  - by words.
  - replace (E + 4 - 8) with (E - 4) by lia. by words.
  - replace (E + 4 - 4) with E by lia. words. done.
Qed.

Lemma saved_top : saved (T - 8) = c_flags y ∧ saved (T - 4) = c_eip y.
Proof.
  open_layout.
  destruct Hwait as [_ _ _ _ _ _ H7 H8]. split; rewrite saved_other; try (unfold apart in *; lia); assumption.
Qed.

Lemma saved_args : saved (T - 16) = s ∧ saved (T - 12) = argument st 4 ∧ saved (s + 20) = 0 ∧ saved (t + 20) = 0.
Proof.
  open_layout. unfold saved; cbv zeta. split_and!; by words. Qed.

(** The handler called, with its return address on the stack. *)
Definition called : cpu := push after (run to_call st).

Lemma called_mem a : a ≠ T - 20 → mem called a = saved a.
Proof.
  open_layout.
  intros Ha. destruct at_call as (_ & _ & _ & _ & _ & _ & Hsp & _ & _ & Hm). unfold called.
  rewrite push_mem, Hm, Hsp, u32_id, mset_ne by lia. done.
Qed.

Lemma called_regs r : r ≠ ESP → regs called r = regs (run to_call st) r.
Proof. apply push_regs. Qed.

Lemma called_esp : regs called ESP = T - 20.
Proof.
  open_layout.
  destruct at_call as (_ & _ & _ & _ & _ & _ & Hsp & _). unfold called. rewrite push_esp, Hsp, u32_id by lia. lia.
Qed.

Lemma called_flags : eflags called = Z.ldiff (eflags st) IF.
Proof. destruct at_call as (_ & _ & _ & _ & _ & _ & _ & _ & Hf & _). unfold called. by rewrite push_flags. Qed.

(** What the handler is given, and what it finds of the source. *)
Lemma handed_on :
  argument called 1 = s ∧ argument called 2 = argument st 4 ∧ mem called (s + 20) = 0 ∧ mem called (t + 20) = 0.
Proof.
  destruct saved_args as (H1 & H2 & H3 & H4).
  assert (Harg : ∀ i v, 1 <= i → saved (T - 20 + 4 * i) = v → argument called i = v).
  { intros i v Hi Hv. unfold argument. rewrite called_esp, called_mem; [exact Hv|lia]. }
  open_layout. split_and!; [apply Harg|apply Harg|rewrite called_mem..]; try assumption; try (unfold apart in *; lia).
  - by replace (T - 20 + 4 * 1) with (T - 16) by lia.
  - by replace (T - 20 + 4 * 2) with (T - 12) by lia.
Qed.

Lemma called_needs a : needs s (calling st) a → mem called a = saved a.
Proof.
  open_layout. intros Ha. apply called_mem. unfold needs, calling, SaveArea_size in Ha. cbn [c_esp] in Ha.
  fold E in Ha. unfold apart in *. lia.
Qed.

Lemma called_suspended : suspended (mem called) s (calling st).
Proof. eapply suspended_ext; [|exact saved_suspended]. exact called_needs. Qed.

(** After the call. *)
Lemma returned st2 :
  st2 = code (argument st 3) called → regs st2 ESP = T - 16 →
  mem st2 (T - 8) = c_flags y → mem st2 (T - 4) = c_eip y →
  let st' := run gheith_contextSwitch st in
  regs st' ESP = T ∧ eflags st' = c_flags y ∧ eip st' = c_eip y ∧ mem st' = mem st2 ∧
  ∀ r, r ≠ ESP → regs st' r = regs st2 r.
Proof.
  open_layout.
  intros -> Hsp Hf Hip. cbv zeta. rewrite switch_parts, run_app.
  destruct at_call as (_ & _ & _ & _ & _ & _ & _ & Hdx & _ & _).
  rewrite run_cons, exec_call, Hdx. apply run_return; assumption.
Qed.
End to_call.

(** The words the switch itself writes, or its handler may. *)
Definition written (st : cpu) (y : context) (a : Z) : Prop :=
  argument st 1 <= a < argument st 1 + 36 ∨ a = argument st 2 + off_no_preempt ∨ a = regs st ESP - 4 ∨
  c_esp y - 20 <= a < c_esp y - 8.

(** C18. [gheith_contextSwitch] makes the waiting thread the running one, to
    the registers, flags, stack, page directory and place with which it
    waited; it makes the running thread a waiting one, which when switched
    to will go on after its call with its registers and flags; and it
    leaves any third thread waiting.  In between the handler is called with
    the source save area and its argument, interrupts off, both marks
    cleared, and the source thread complete, so that it may hand it on. *)
Theorem context_switch_correct st y (keep : Z → Prop) :
  layout st y → suspended (mem st) (argument st 2) y →
  (∀ a, c_esp y - 8 <= a < c_esp y → keep a) → (∀ a, needs (argument st 1) (calling st) a → keep a) →
  (∀ st1, regs st1 ESP = c_esp y - 20 → call_ok keep st1 (code (argument st 3) st1)) →
  let st' := run gheith_contextSwitch st in
  (calling st = mkContext (regs st EBX) (regs st EBP) (regs st ESI) (regs st EDI) (regs st CR2) (eflags st) (mem st (regs st ESP)) (regs st ESP + 4) ∧
   y = mkContext (regs st' EBX) (regs st' EBP) (regs st' ESI) (regs st' EDI) (regs st' CR2) (eflags st') (eip st') (regs st' ESP)) ∧
  regs st' CR3 = mem st (argument st 2 + off_cr3) ∧
  suspended (mem st') (argument st 1) (calling st) ∧
  (∀ o z, suspended (mem st) o z → (∀ a, needs o z a → keep a ∧ ¬ written st y a) → suspended (mem st') o z) ∧
  ∃ st1, mem st' = mem (code (argument st 3) st1) ∧
    argument st1 1 = argument st 1 ∧ argument st1 2 = argument st 4 ∧ eflags st1 = Z.ldiff (eflags st) IF ∧
    mem st1 (argument st 1 + off_no_preempt) = 0 ∧ mem st1 (argument st 2 + off_no_preempt) = 0 ∧
    suspended (mem st1) (argument st 1) (calling st).
Proof.
  intros Hl Hw Hk1 Hk2 Hcode st'.
  pose proof (at_call st y Hw Hl) as (Ebx & Ebp & Esi & Edi & Ecr2 & Ecr3 & _).
  pose proof (called_esp st y Hw Hl) as Hsp.
  pose proof (called_mem st y Hw Hl) as Hmem.
  pose proof (called_regs st) as Hregs.
  pose proof (called_flags st y Hw Hl) as Hfl.
  destruct (saved_top st y Hw Hl) as [Htop1 Htop2].
  destruct (Hl) as [H1 H2 H3 H4 H5 H6 H7 H8 H9 H10]. destruct (Hcode _ Hsp) as [Ksp Kregs Kmem]. set (st2 := code (argument st 3) (called st)) in *.
  assert (Hret : let st' := run gheith_contextSwitch st in
     regs st' ESP = c_esp y ∧ eflags st' = c_flags y ∧ eip st' = c_eip y ∧ mem st' = mem st2 ∧ ∀ r, r ≠ ESP → regs st' r = regs st2 r).
  { apply (returned st y); try assumption; try reflexivity.
    - rewrite Ksp, Hsp. lia.
    - rewrite Kmem by (apply Hk1; lia). rewrite Hmem by lia. done.
    - rewrite Kmem by (apply Hk1; lia). rewrite Hmem by lia. done. }
  destruct Hret as (R1 & R2 & R3 & R4 & R5). fold st' in R1, R2, R3, R4, R5.
  assert (Hreg : ∀ r, preserved r = true → regs st' r = regs (run to_call st) r).
  { intros r Hr. assert (Hne : r ≠ ESP) by (by intros ->). rewrite (R5 r Hne), (Kregs r Hr). by apply Hregs. }
  split_and!.
  - reflexivity.
  - rewrite (Hreg EBX), (Hreg EBP), (Hreg ESI), (Hreg EDI), (Hreg CR2) by reflexivity. rewrite Ebx, Ebp, Esi, Edi, Ecr2, R1, R2, R3. by destruct y.
  - rewrite Hreg by reflexivity. exact Ecr3.
  - rewrite R4. eapply suspended_ext; [|exact (called_suspended st y Hw Hl)]. intros a Ha. by rewrite Kmem by auto.
  - intros o z Hoz Ha. rewrite R4. eapply suspended_ext; [|exact Hoz]. intros a Hn. destruct (Ha a Hn) as [Hka Hwr].
    unfold written, off_no_preempt in Hwr. rewrite Kmem, Hmem by (done || lia).
    pose proof (saved_other st y Hl a) as Ho. clear -Ho Hwr. apply Ho; lia.
  - destruct (handed_on st y Hw Hl) as (Ha1 & Ha2 & Ha3 & Ha4). exists (called st).
    split_and!; [exact R4|exact Ha1|exact Ha2|exact Hfl|exact Ha3|exact Ha4|exact (called_suspended st y Hw Hl)].
Qed.
End switch.

(** ** A new thread *)

(** [TCBWithStack()]: what it writes for a stack of [STACK_WORDS] words at
    [stack] and a save area at [sa]. *)
Definition STACK_WORDS : Z := 2048.
Definition TCBWithStack (stack sa entry : Z) (m : Z → Z) : Z → Z :=
  let m := mset m (stack + 4 * (STACK_WORDS - 2)) IF in
  let m := mset m (stack + 4 * (STACK_WORDS - 1)) entry in
  let m := mset m (sa + off_no_preempt) 0 in
  mset m (sa + off_esp) (stack + 4 * (STACK_WORDS - 2)).

(** A thread that has never run waits as if it had called
    [gheith_contextSwitch] from the start of [entry], interrupts on, with an
    empty stack. *)
Lemma new_thread_waits stack sa entry m :
  apart stack (4 * STACK_WORDS) sa SaveArea_size →
  suspended (TCBWithStack stack sa entry m) sa
    (mkContext (m sa) (m (sa + 8)) (m (sa + 12)) (m (sa + 16)) (m (sa + 28)) IF entry (stack + 4 * STACK_WORDS)).
Proof.
  unfold apart, STACK_WORDS, SaveArea_size. intros Ha. unfold TCBWithStack, STACK_WORDS.
  split; cbn [c_ebx c_esp c_ebp c_esi c_edi c_cr2 c_flags c_eip];
    unfold off_ebx, off_esp, off_ebp, off_esi, off_edi, off_no_preempt, off_cr2.
  - rewrite !mset_ne by lia. f_equal. lia.
  - rewrite mset_eq. lia.
  - by rewrite !mset_ne by lia.
  - by rewrite !mset_ne by lia.
  - by rewrite !mset_ne by lia.
  - by rewrite !mset_ne by lia.
  - rewrite !mset_ne by lia. replace (stack + 4 * 2048 - 8) with (stack + 4 * (2048 - 2)) by lia. by rewrite mset_eq.
  - rewrite !mset_ne by lia. replace (stack + 4 * 2048 - 4) with (stack + 4 * (2048 - 1)) by lia. by rewrite mset_eq.
Qed.

(** ** Witness *)

(** A handler that only returns. *)
Definition returns (f : Z) (s : cpu) : cpu := set_reg ESP (regs s ESP + 4) s.

(** A thread with its stack at 5000 and its save area at 1000 switches to a
    new one, with stack and save area at 20000 and 2000. *)
Definition sample_mem : Z → Z :=
  TCBWithStack 20000 2000 0x8000 (λ a, if a =? 5000 then 77 else if a =? 5004 then 1000 else if a =? 5008 then 2000 else
                                         if a =? 5012 then 0x9000 else if a =? 5016 then 88 else 0).
Definition sample_cpu : cpu := mkCpu (mkRegs 1 2 3 4 5000 6 7 8 9 10) 0x246 0 sample_mem.
Definition sample_context : context := mkContext 0 0 0 0 0 IF 0x8000 28192.

Lemma context_switch_correct_witness :
  let st' := run returns 99 gheith_contextSwitch sample_cpu in
  (eip st', eflags st', regs st' ESP) = (0x8000, IF, 28192) ∧
  suspended (mem st') 1000 (mkContext 4 6 7 8 9 0x246 77 5004).
Proof.
  split; [vm_compute; reflexivity|].
  assert (E1 : argument sample_cpu 1 = 1000) by (vm_compute; reflexivity).
  assert (E2 : argument sample_cpu 2 = 2000) by (vm_compute; reflexivity).
  destruct (context_switch_correct returns 99 sample_cpu sample_context (λ _, True)) as (_ & _ & H & _).
  - split; rewrite ?E1, ?E2; unfold apart, regs; simpl; lia.
  - rewrite E2. split; vm_compute; reflexivity.
  - done.
  - done.
  - intros st1 _. unfold returns, set_reg, regs. destruct st1 as [[] fl ip m]. split; [done|by intros []|done].
  - rewrite E1 in H. exact H.
Defined.
