(* ===== verification/Idt.v ===== *)
(** * The interrupt table (kernel/idt.cc)

    [IDT::interrupt] and [IDT::trap] write two words for a vector; the
    processor takes from them where to go, in what segment, whether
    interrupts stay on and who may ask for it.  What it finds after start-up
    is what the kernel meant. *)

From S2P Require Import Prelude.
From S2P Require Import ContextSwitch.

(** ** What the processor reads *)

Record gate := mkGate { offset : Z; selector : Z; is_trap : bool; dpl : Z; present : bool }.

(** The two words of an entry; an entry of another type than a 32-bit gate
    is no use to the kernel. *)
Definition gate_of (w0 w1 : Z) : gate :=
  mkGate (Z.lor (Z.land w1 0xffff0000) (Z.land w0 0xffff)) (Z.shiftr w0 16) (Z.testbit w1 8)
         (Z.land (Z.shiftr w1 13) 3) (Z.testbit w1 15 && (Z.land (Z.shiftr w1 9) 15 =? 7)).

(** ** The code *)

(** The selectors of mbr.S. *)
Definition kernelCS : Z := 8.
Definition kernelSS : Z := 24.
Definition userCS : Z := 32 + 3.
Definition userSS : Z := 16 + 3.

Section idt.
(** The address of the array [idt] of 512 words. *)
Context (idt : Z).

Definition idt_word (i : Z) : M (Z → Z) Z := require (0 ≤ i < 512);; gets (λ m, m (idt + 4 * i)).
Definition set_idt (i v : Z) : M (Z → Z) () := require (0 ≤ i < 512);; modify (λ m, mset m (idt + 4 * i) v).

(** [while (idt[i] != 0) i++]: only its end is shown. *)
Definition end_of_idt : M (Z → Z) Z :=
  iter 513 (λ i, w ← idt_word i; mret (if decide (w = 0) then inr i else inl (u32 (i + 1)))) 0.

Definition low_word (handler : Z) : Z := u32 (Z.shiftl kernelCS 16 + Z.land handler 0xffff).

Definition interrupt (index handler : Z) : M (Z → Z) () :=
  end_of_idt;;
  let i0 := 2 * index in
  let i1 := i0 + 1 in
  set_idt i0 (low_word handler);;
  set_idt i1 (Z.lor (Z.land handler 0xffff0000) 0x8e00).

Definition trap (index handler dpl : Z) : M (Z → Z) () :=
  let i0 := 2 * index in
  let i1 := i0 + 1 in
  set_idt i0 (low_word handler);;
  set_idt i1 (Z.lor (Z.lor (Z.land handler 0xffff0000) 0x8f00) (u32 (Z.shiftl dpl 13))).

(** The entry of a vector. *)
Definition entry (m : Z → Z) (v : Z) : gate := gate_of (m (idt + 8 * v)) (m (idt + 8 * v + 4)).

(** ** What is written is what is read *)

Lemma land_high h : 0 ≤ h < 2 ^ 32 → Z.land h 0xffff0000 = 65536 * (h / 65536).
Proof.
  intros Hh. assert (H16 : h / 65536 < 65536) by (apply Z.div_lt_upper_bound; lia). assert (0 ≤ h / 65536) by (apply Z.div_pos; lia).
  change 0xffff0000 with (Z.shiftl (Z.ones 16) 16). rewrite (Z.mul_comm 65536).
  change 65536 with (2 ^ 16) at 2. rewrite <-Z.shiftl_mul_pow2 by lia. change 65536 with (2 ^ 16) in *. rewrite <-Z.shiftr_div_pow2 in * by lia.
  rewrite <-(Z.mod_small (Z.shiftr h 16) (2 ^ 16)), <-Z.land_ones by lia.
  apply Z.bits_inj'. intros n Hn. rewrite Z.land_spec. destruct (Z_lt_dec n 16).
  - rewrite !Z.shiftl_spec_low by lia. by rewrite andb_false_r.
  - rewrite !Z.shiftl_spec by lia. rewrite Z.land_spec, Z.shiftr_spec by lia. f_equal. f_equal. lia.
Qed.

Lemma land_low h : Z.land h 0xffff = h mod 65536.
Proof. change 0xffff with (Z.ones 16). by rewrite Z.land_ones by lia. Qed.

(** Bits above and below the sixteenth do not meet. *)
Lemma lor_halves h x : 0 ≤ x < 65536 → Z.lor (65536 * h) x = 65536 * h + x.
Proof.
  intros Hx. rewrite <-Z.add_lor_land. replace (Z.land (65536 * h) x) with 0; [lia|]. symmetry.
  apply Z.bits_inj'. intros n Hn. rewrite Z.land_spec, Z.bits_0. replace (65536 * h) with (h * 2 ^ 16) by lia.
  destruct (Z_lt_dec n 16); [by rewrite Z.mul_pow2_bits_low by lia|].
  rewrite (Z.bits_above_log2 x); [by rewrite andb_false_r|lia|].
  destruct (decide (x = 0)) as [->|]; [simpl; lia|]. apply Z.log2_lt_pow2; [lia|].
  apply Z.lt_le_trans with 65536; [lia|]. change 65536 with (2 ^ 16). apply Z.pow_le_mono_r; lia.
Qed.

(** A field within the low half. *)
Lemma low_field q t k j :
  0 ≤ t < 65536 → 0 ≤ k → 0 ≤ j → k + j ≤ 16 →
  Z.land (Z.shiftr (65536 * q + t) k) (Z.ones j) = Z.land (Z.shiftr t k) (Z.ones j).
Proof.
  intros Ht Hk Hj Hkj. rewrite !Z.land_ones, !Z.shiftr_div_pow2 by lia.
  assert (H16 : 65536 = 2 ^ (16 - k - j) * 2 ^ j * 2 ^ k) by (rewrite <-!Z.pow_add_r by lia; by replace (16 - k - j + j + k) with 16 by lia).
  assert (0 < 2 ^ k) by (apply Z.pow_pos_nonneg; lia). assert (0 < 2 ^ j) by (apply Z.pow_pos_nonneg; lia).
  rewrite H16. replace (2 ^ (16 - k - j) * 2 ^ j * 2 ^ k * q + t) with (t + (q * 2 ^ (16 - k - j) * 2 ^ j) * 2 ^ k) by lia.
  rewrite Z.div_add, Z.mod_add by lia. done.
Qed.

Lemma testbit_field x n : 0 ≤ n → Z.testbit x n = (Z.land (Z.shiftr x n) (Z.ones 1) =? 1).
Proof.
  intros Hn. rewrite Z.land_ones by lia. replace (Z.testbit x n) with (Z.testbit (Z.shiftr x n) 0) by (rewrite Z.shiftr_spec by lia; f_equal; lia).
  rewrite Z.bit0_odd, Zmod_odd. by destruct (Z.odd (Z.shiftr x n)).
Qed.

Lemma gate_of_words h t :
  0 ≤ h < 2 ^ 32 → 0 ≤ t < 65536 →
  gate_of (low_word h) (Z.lor (Z.land h 0xffff0000) t) =
  mkGate h kernelCS (Z.testbit t 8) (Z.land (Z.shiftr t 13) 3) (Z.testbit t 15 && (Z.land (Z.shiftr t 9) 15 =? 7)).
Proof.
  intros Hh Ht. pose proof (Z.mod_pos_bound h 65536 ltac:(lia)) as Hm. pose proof (Z.div_mod h 65536 ltac:(lia)) as Hd.
  assert (Hw0 : low_word h = 65536 * 8 + h mod 65536).
  { unfold low_word, kernelCS. rewrite land_low. change (Z.shiftl 8 16) with (65536 * 8). apply Z.mod_small. lia. }
  rewrite land_high, lor_halves, Hw0 by lia. unfold gate_of.
  assert (H16 : h / 65536 < 65536) by (apply Z.div_lt_upper_bound; lia). assert (0 ≤ h / 65536) by (apply Z.div_pos; lia). f_equal.
  - rewrite land_high, land_low by lia. rewrite !(Z.mul_comm 65536), !(Z.add_comm (_ * 65536)), Z.div_add, Z.mod_add by lia.
    rewrite Z.div_small, Z.mod_small, Z.add_0_l, (Z.mul_comm _ 65536), lor_halves by lia. lia.
  - rewrite Z.shiftr_div_pow2 by lia. change (2 ^ 16) with 65536. rewrite (Z.mul_comm 65536), Z.add_comm, Z.div_add by lia.
    rewrite Z.div_small by lia. done.
  - by rewrite !testbit_field, low_field by lia.
  - change 3 with (Z.ones 2). by apply low_field.
  - rewrite !(testbit_field _ 15), low_field by lia.
    pose proof (low_field (h / 65536) t 9 4 ltac:(lia) ltac:(lia) ltac:(lia) ltac:(lia)) as E. change (Z.ones 4) with 15 in E. by rewrite E.
Qed.

Lemma interrupt_gate h : 0 ≤ h < 2 ^ 32 → gate_of (low_word h) (Z.lor (Z.land h 0xffff0000) 0x8e00) = mkGate h kernelCS false 0 true.
Proof. intros Hh. rewrite gate_of_words; [reflexivity|exact Hh|lia]. Qed.

Lemma trap_gate h d :
  0 ≤ h < 2 ^ 32 → 0 ≤ d < 4 →
  gate_of (low_word h) (Z.lor (Z.lor (Z.land h 0xffff0000) 0x8f00) (u32 (Z.shiftl d 13))) = mkGate h kernelCS true d true.
Proof.
  intros Hh Hd. rewrite <-Z.lor_assoc. set (t := Z.lor 0x8f00 (u32 (Z.shiftl d 13))).
  assert (Ht : 0 ≤ t < 65536 ∧ Z.testbit t 8 = true ∧ Z.land (Z.shiftr t 13) 3 = d ∧
               Z.testbit t 15 && (Z.land (Z.shiftr t 9) 15 =? 7) = true).
  { unfold t. assert (d = 0 ∨ d = 1 ∨ d = 2 ∨ d = 3) as Hd' by lia. clear -Hd'.
    destruct Hd' as [->|[->|[->| ->]]]; apply (bool_decide_unpack _); vm_compute; exact I. }
  destruct Ht as (Ht & E1 & E2 & E3). by rewrite gate_of_words, E1, E2, E3.
Qed.

(** ** What the operations do *)

Lemma wp_set_idt i v m (Q : () → (Z → Z) → Prop) : 0 ≤ i < 512 → Q () (mset m (idt + 4 * i) v) → wp (set_idt i v) Q m.
Proof. intros Hi HQ. unfold set_idt. by apply wp_bind, wp_require; [|apply wp_modify]. Qed.

(** The loop ends where a word is zero. *)
Lemma wp_end_of_idt m (Q : Z → (Z → Z) → Prop) :
  (∃ i, 0 ≤ i < 512 ∧ m (idt + 4 * i) = 0) → (∀ i, 0 ≤ i < 512 → Q i m) → wp end_of_idt Q m.
Proof.
  intros (z & Hz & Ez) HQ. unfold end_of_idt.
  apply (wp_iter (λ i m', m' = m ∧ 0 ≤ i ≤ z) (λ i _, Z.to_nat (z - i))).
  - intros i m' [-> Hi]. unfold idt_word. apply wp_bind, wp_bind, wp_require; [lia|]. apply wp_gets. case_decide as E.
    + apply wp_ret. apply HQ. lia.
    + assert (i ≠ z) by (by intros ->). apply wp_ret. rewrite u32_small by lia. split; [split; [done|lia]|lia].
  - by split; [|lia].
  - lia.
Qed.

(** Entry [v] is [g], and the rest of memory is as before. *)
Definition entry_set (v : Z) (g : gate) (m m' : Z → Z) : Prop :=
  entry m' v = g ∧ ∀ a, a ≠ idt + 8 * v → a ≠ idt + 8 * v + 4 → m' a = m a.

Lemma wp_gate_words v g w0 w1 m (Q : () → (Z → Z) → Prop) :
  0 ≤ v < 256 → gate_of w0 w1 = g → (∀ m', entry_set v g m m' → Q () m') →
  wp (set_idt (2 * v) w0;; set_idt (2 * v + 1) w1) Q m.
Proof.
  intros Hv Hg HQ. apply wp_bind, wp_set_idt; [lia|]. apply wp_set_idt; [lia|]. apply HQ. split.
  - unfold entry. replace (idt + 4 * (2 * v + 1)) with (idt + 8 * v + 4) by lia. replace (idt + 4 * (2 * v)) with (idt + 8 * v) by lia.
    rewrite mset_eq, mset_ne, mset_eq by lia. done.
  - intros a H1 H2. by rewrite !mset_ne by lia.
Qed.

Lemma wp_interrupt v h m (Q : () → (Z → Z) → Prop) :
  0 ≤ v < 256 → 0 ≤ h < 2 ^ 32 → (∃ i, 0 ≤ i < 512 ∧ m (idt + 4 * i) = 0) →
  (∀ m', entry_set v (mkGate h kernelCS false 0 true) m m' → Q () m') → wp (interrupt v h) Q m.
Proof.
  intros Hv Hh Hz HQ. unfold interrupt. apply wp_bind, wp_end_of_idt; [done|]. intros _ _.
  apply wp_gate_words with (g := mkGate h kernelCS false 0 true); [done|by apply interrupt_gate|done].
Qed.

Lemma wp_trap v h d m (Q : () → (Z → Z) → Prop) :
  0 ≤ v < 256 → 0 ≤ h < 2 ^ 32 → 0 ≤ d < 4 →
  (∀ m', entry_set v (mkGate h kernelCS true d true) m m' → Q () m') → wp (trap v h d) Q m.
Proof.
  intros Hv Hh Hd HQ. unfold trap. apply wp_gate_words with (g := mkGate h kernelCS true d true); [done|by apply trap_gate|done].
Qed.
End idt.
