(* ===== verification/Traps.v ===== *)
(** * Interrupts and system calls (kernel/machine.S, t0.dir/sbin/sys.S)

    From the processor's taking a vector, in user code or in the kernel, on
    whatever stack, through the assembly that calls the handler and back:
    the interrupted code does not notice.  A system call is an interrupt
    that the code asks for itself; [fork] returns from it twice. *)

From S2P Require Import Prelude.
From S2P Require Import ContextSwitch.
From S2P Require Import Idt.

(** ** The machine *)

(** A processor with its segments; the low bits of [cs] say whether it runs
    user code. *)
Record core := mkCore { proc : cpu; cs : Z; ss : Z }.

Inductive ins :=
| Basic (i : instr)
| MovImm (v : Z) (r : reg)
| Push (r : reg)
| PushVar (v : Z)          (** [push x], for a variable with that value *)
| Pop (r : reg)
| Pusha
| Popa
| CallTo                   (** [call] of the handler *)
| Iret.

(** The stubs by the names of their handlers. *)
Inductive handler := Spurious | Apit | KeyBoard | PageFault | SysCall.

#[export] Instance handler_eq_dec : EqDecision handler.
Proof. solve_decision. Defined.

Definition on (f : cpu → cpu) (c : core) : core := mkCore (f (proc c)) (cs c) (ss c).

Definition user (c : core) : bool := negb (Z.land (cs c) 3 =? 0).

Definition pop (r : reg) (s : cpu) : cpu :=
  let sp := regs s ESP in set_reg r (mem s sp) (set_reg ESP (u32 (sp + 4)) s).

Definition pushl (l : list Z) (s : cpu) : cpu := foldl (λ s v, push v s) s l.

Section traps.
(** Where the table and the task segment of the core are, where the stubs
    begin, what the C function does that a stub calls, and where that
    returns to. *)
Context (idt tss : Z) (label : handler → Z) (code : handler → cpu → cpu) (after : Z).

Definition kexec (h : handler) (i : ins) (c : core) : core :=
  match i with
  | Basic i => on (exec (λ _ s, s) 0 i) c
  | MovImm v r => on (set_reg r v) c
  | Push r => on (λ s, push (regs s r) s) c
  | PushVar v => on (push v) c
  | Pop r => on (pop r) c
  | Pusha => on (λ s, pushl (map (regs s) [EAX; ECX; EDX; EBX; ESP; EBP; ESI; EDI]) s) c
  | Popa =>
      on (λ s, let sp := regs s ESP in
               let s := pop EBX (set_reg ESP (u32 (sp + 16)) (pop EBP (pop ESI (pop EDI s)))) in
               pop EAX (pop ECX (pop EDX s))) c
  | CallTo => on (λ s, code h (push after s)) c
  | Iret =>
      let s := proc c in
      let sp := regs s ESP in
      let ip := mem s sp in
      let cs' := mem s (u32 (sp + 4)) in
      let fl := mem s (u32 (sp + 8)) in
      if decide (Z.land (cs c) 3 < Z.land cs' 3) then
        mkCore (mkCpu (rset (file s) ESP (mem s (u32 (sp + 12)))) fl ip (mem s)) cs' (mem s (u32 (sp + 16)))
      else mkCore (mkCpu (rset (file s) ESP (u32 (sp + 12))) fl ip (mem s)) cs' (ss c)
  end.

Definition krun (h : handler) (l : list ins) (c : core) : core := foldl (λ c i, kexec h i c) c l.

(** *** The stubs of machine.S *)

Definition spuriousHandler_ : list ins := [Iret].
Definition apitHandler_ : list ins := [Pusha; Push ESP; CallTo; Pop ESP; Popa; Iret].
Definition keyBoardHandler_ : list ins := [Pusha; Push ESP; CallTo; Pop ESP; Popa; Iret].
Definition pageFaultHandler_ : list ins :=
  [Pusha; Basic (Mov ESP EAX); Push EAX; Basic (Mov CR2 EAX); Push EAX; CallTo; Basic (AddImm 8 ESP);
   Popa; Basic (AddImm 4 ESP); Iret].
Definition sysHandler_ : list ins := [Push ESP; Push EAX; CallTo; Basic (AddImm 8 ESP); Iret].

Definition stub (h : handler) : list ins :=
  match h with
  | Spurious => spuriousHandler_
  | Apit => apitHandler_
  | KeyBoard => keyBoardHandler_
  | PageFault => pageFaultHandler_
  | SysCall => sysHandler_
  end.

Definition switchToUser : list ins :=
  [Basic (Load 12 ESP EAX); Basic (Load 8 ESP EDX); Basic (Load 4 ESP ECX);
   PushVar userSS; Push EDX; Basic Pushf; PushVar userCS; Push ECX; Iret].

(** *** Taking a vector

    From user code the processor changes to the stack of the task segment.
    Code that asks for a vector must have the privilege of its gate. *)

Definition frame (c : core) (err : option Z) : list Z :=
  (if user c then [ss c; regs (proc c) ESP] else []) ++ [eflags (proc c); cs c; eip (proc c)] ++
  match err with Some e => [e] | None => [] end.

Definition deliver (v : Z) (asked : bool) (err : option Z) (c : core) : option core :=
  let g := entry idt (mem (proc c)) v in
  if present g && (negb asked || (Z.land (cs c) 3 <=? dpl g)) then
    let s := proc c in
    let s := if user c then set_reg ESP (mem s (tss + 4)) s else s in
    let s := pushl (frame c err) s in
    Some (mkCore (mkCpu (file s) (if is_trap g then eflags s else Z.ldiff (eflags s) IF) (offset g) (mem s))
                 (selector g) (if user c then mem (proc c) (tss + 8) else ss c))
  else None.

Definition handler_at (a : Z) : option handler :=
  List.find (λ h, bool_decide (label h = a)) [Spurious; Apit; KeyBoard; PageFault; SysCall].

(** The vector is taken and the code at its gate runs to its [iret]. *)
Definition take (v : Z) (asked : bool) (err : option Z) (c : core) : option core :=
  c1 ← deliver v asked err c;
  h ← handler_at (eip (proc c1));
  Some (krun h (stub h) c1).

(** *** User code of sys.S *)

(** [int $v], with the address of the next instruction. *)
Inductive uins := Do (i : ins) | Int (v next : Z).

Definition uexec (i : uins) (c : core) : option core :=
  match i with
  | Do i => Some (kexec SysCall i c)
  | Int v next => take v true None (on (λ s, mkCpu (file s) (eflags s) next (mem s)) c)
  end.

Fixpoint urun (l : list uins) (c : core) : option core :=
  match l with [] => Some c | i :: l => c ← uexec i c; urun l c end.

(** The functions of sys.S other than [fork]. *)
Definition sys_call (n next : Z) : list uins := [Do (MovImm n EAX); Int 48 next; Do (Basic Ret)].

Definition fork_after : list uins := map Do [Pop EBP; Pop EDI; Pop ESI; Pop EBX; Basic Ret].
Definition fork (next : Z) : list uins :=
  map Do [Push EBX; Push ESI; Push EDI; Push EBP; MovImm 2 EAX] ++ Int 48 next :: fork_after.

(** *** The table *)

Definition vector (h : handler) : Z :=
  match h with Spurious => 0xff | Apit => 40 | KeyBoard => 9 | PageFault => 14 | SysCall => 48 end.
Definition traps (h : handler) : bool := match h with PageFault | SysCall => true | _ => false end.

(** [SYS::init] and [KeyBoard::init], but for its port. *)
Definition SYS_init : M (Z → Z) () := trap idt 48 (label SysCall) 3.
Definition KeyBoard_init : M (Z → Z) () := interrupt idt 9 (label KeyBoard).

(** What start-up writes, in its order: [PhysMem::init], [SYS::init],
    [SMP::init], [Pit::calibrate], and [KeyBoard::init] on every core. *)
Definition start_up (cores : nat) : M (Z → Z) () :=
  trap idt 14 (label PageFault) 3;;
  SYS_init;;
  interrupt idt 0xff (label Spurious);;
  interrupt idt 40 (label Apit);;
  Nat.iter cores (λ rest, KeyBoard_init;; rest) (mret ()).


(** ** Registers and stacks *)

#[local] Instance reg_eq_dec : EqDecision reg.
Proof. solve_decision. Defined.

Lemma set_reg_regs r v s r' : regs (set_reg r v s) r' = if decide (r' = r) then v else regs s r'.
Proof. unfold set_reg, regs. cbn [file]. destruct (file s). by destruct r, r'. Qed.

Lemma regs_ext f f' : (∀ r, rget f r = rget f' r) → f = f'.
Proof.
  intros H. destruct f, f'.
  pose proof (H EAX). pose proof (H ECX). pose proof (H EDX). pose proof (H EBX). pose proof (H ESP). pose proof (H EBP).
  pose proof (H ESI). pose proof (H EDI). pose proof (H CR2). pose proof (H CR3). simpl in *. congruence.
Qed.

Lemma pushl_app l l' s : pushl (l ++ l') s = pushl l' (pushl l s).
Proof. apply foldl_app. Qed.

Lemma push_other v r x s : r ≠ ESP → push v (set_reg r x s) = set_reg r x (push v s).
Proof. intros Hr. unfold push, set_reg, set_mem, regs. cbn [file mem eflags eip]. destruct (file s). by destruct r. Qed.

(** The stack after pushes, and where each word is. *)
Record pushed (l : list Z) (F : Z) (s s' : cpu) : Prop := {
  p_esp : regs s' ESP = F - 4 * Z.of_nat (List.length l);
  p_regs : ∀ r, r ≠ ESP → regs s' r = regs s r;
  p_flags : eflags s' = eflags s;
  p_word : ∀ i x, l !! i = Some x → mem s' (F - 4 * (Z.of_nat i + 1)) = x;
  p_mem : ∀ a, ¬ F - 4 * Z.of_nat (List.length l) ≤ a < F → mem s' a = mem s a
}.

Lemma pushl_pushed l s F :
  regs s ESP = F → 4 * Z.of_nat (List.length l) ≤ F < 2 ^ 32 → pushed l F s (pushl l s).
Proof.
  revert s F. induction l as [|v l IH]; intros s F HF Hr; [by split; try done; change (pushl [] s) with s; cbn [List.length]; lia|].
  cbn [List.length] in Hr. assert (Hsp : regs (push v s) ESP = F - 4) by (rewrite push_esp, HF, u32_id; lia).
  destruct (IH (push v s) (F - 4) Hsp ltac:(lia)) as [I1 I2 I3 I4 I5]. change (pushl (v :: l) s) with (pushl l (push v s)). split.
  - rewrite I1. simpl. lia.
  - intros r Hr'. rewrite I2 by done. by apply push_regs.
  - by rewrite I3, push_flags.
  - intros [|i] x Hx.
    + injection Hx as <-. rewrite I5 by (simpl; lia). rewrite push_mem, HF, u32_id by lia.
      replace (F - 4 * (Z.of_nat 0 + 1)) with (F - 4) by (simpl; lia). apply mset_eq.
    + rewrite <-(I4 i x Hx). f_equal. lia.
  - intros a Ha. simpl in Ha. rewrite I5 by lia. rewrite push_mem, HF, u32_id by lia. apply mset_ne. lia.
Qed.

(** A word taken from the stack. *)
Record popped (r : reg) (E : Z) (s s' : cpu) : Prop := {
  q_esp : r ≠ ESP → regs s' ESP = E + 4;
  q_reg : regs s' r = mem s E;
  q_regs : ∀ r', r' ≠ r → r' ≠ ESP → regs s' r' = regs s r';
  q_rest : mem s' = mem s ∧ eflags s' = eflags s ∧ eip s' = eip s
}.

Lemma pop_popped r s E : regs s ESP = E → 0 ≤ E < 2 ^ 32 - 4 → popped r E s (pop r s).
Proof.
  intros HE Hr. unfold pop. rewrite HE, u32_id by lia. split.
  - intros Hne. by rewrite !set_reg_regs, decide_False, decide_True by congruence.
  - by rewrite set_reg_regs, decide_True.
  - intros r' H1 H2. by rewrite !set_reg_regs, !decide_False.
  - done.
Qed.

(** [popa] gives the registers of [k] back, but for the stack pointer, which
    is the one before [pusha]. *)
Lemma popa_restores h k s F :
  regs (proc s) ESP = F - 32 → 32 ≤ F < 2 ^ 32 →
  (∀ i x, map (regs k) [EAX; ECX; EDX; EBX; ESP; EBP; ESI; EDI] !! i = Some x → mem (proc s) (F - 4 * (Z.of_nat i + 1)) = x) →
  (∀ r, r = CR2 ∨ r = CR3 → regs (proc s) r = regs k r) →
  ∃ s', kexec h Popa s = mkCore s' (cs s) (ss s) ∧ (∀ r, r ≠ ESP → regs s' r = regs k r) ∧ regs s' ESP = F ∧
    mem s' = mem (proc s) ∧ eflags s' = eflags (proc s) ∧ eip s' = eip (proc s).
Proof.
  intros HF Hr Hm Hcr. unfold kexec, on. eexists. split; [reflexivity|]. destruct s as [s cs0 ss0]. cbn [proc] in *. cbv zeta. rewrite HF.
  pose proof (Hm 0%nat _ eq_refl) as M0. pose proof (Hm 1%nat _ eq_refl) as M1. pose proof (Hm 2%nat _ eq_refl) as M2.
  pose proof (Hm 3%nat _ eq_refl) as M3. pose proof (Hm 5%nat _ eq_refl) as M5. pose proof (Hm 6%nat _ eq_refl) as M6.
  pose proof (Hm 7%nat _ eq_refl) as M7. clear Hm. cbn [Z.of_nat] in *.
  destruct (pop_popped EDI s _ HF ltac:(lia)) as [A1 A2 A3 (A4 & A5 & A6)]. set (s1 := pop EDI s) in *. clearbody s1.
  destruct (pop_popped ESI s1 _ (A1 ltac:(done)) ltac:(lia)) as [B1 B2 B3 (B4 & B5 & B6)]. set (s2 := pop ESI s1) in *. clearbody s2.
  destruct (pop_popped EBP s2 _ (B1 ltac:(done)) ltac:(lia)) as [C1 C2 C3 (C4 & C5 & C6)]. set (s3 := pop EBP s2) in *. clearbody s3.
  rewrite u32_id by lia. assert (D : regs (set_reg ESP (F - 32 + 16) s3) ESP = F - 32 + 16) by (by rewrite set_reg_regs).
  assert (D' : ∀ r, r ≠ ESP → regs (set_reg ESP (F - 32 + 16) s3) r = regs s3 r) by (intros; by rewrite set_reg_regs, decide_False).
  assert (D4 : mem (set_reg ESP (F - 32 + 16) s3) = mem s3 ∧ eflags (set_reg ESP (F - 32 + 16) s3) = eflags s3 ∧ eip (set_reg ESP (F - 32 + 16) s3) = eip s3) by done.
  set (s4 := set_reg _ _ _) in *. clearbody s4. destruct D4 as (D4 & D5 & D6).
  destruct (pop_popped EBX s4 _ D ltac:(lia)) as [E1 E2 E3 (E4 & E5 & E6)]. set (s5 := pop EBX s4) in *. clearbody s5.
  destruct (pop_popped EDX s5 _ (E1 ltac:(done)) ltac:(lia)) as [F1 F2 F3 (F4 & F5 & F6)]. set (s6 := pop EDX s5) in *. clearbody s6.
  destruct (pop_popped ECX s6 _ (F1 ltac:(done)) ltac:(lia)) as [G1 G2 G3 (G4 & G5 & G6)]. set (s7 := pop ECX s6) in *. clearbody s7.
  destruct (pop_popped EAX s7 _ (G1 ltac:(done)) ltac:(lia)) as [H1 H2 H3 (H4 & H5 & H6)]. set (s8 := pop EAX s7) in *. clearbody s8.
  assert (Hmem : mem s8 = mem s) by congruence. split_and!; [|rewrite H1 by done; lia|done|congruence|congruence].
  intros r Hne. destruct r; try done;
    rewrite ?H2, ?H3, ?G2, ?G3, ?F2, ?F3, ?E2, ?E3, ?D', ?C2, ?C3, ?B2, ?B3, ?A2, ?A3 by done;
    rewrite ?G4, ?F4, ?E4, ?D4, ?C4, ?B4, ?A4; try (apply Hcr; auto); etransitivity; try eassumption; f_equal; lia.
Qed.

(** ** Taking a vector and returning *)

(** The entries of the table. *)
Definition table_ok (m : Z → Z) : Prop :=
  ∀ h, entry idt m (vector h) = mkGate (label h) kernelCS (traps h) (if traps h then 3 else 0) true.

(** The top of the stack on which the code of the vector runs, and the words
    that are there when the stub begins. *)
Definition top (c : core) : Z := if user c then mem (proc c) (tss + 4) else regs (proc c) ESP.
Definition base (c : core) : cpu := if user c then set_reg ESP (mem (proc c) (tss + 4)) (proc c) else proc c.

Definition entered (h : handler) (err : option Z) (c : core) : core :=
  let s := pushl (frame c err) (base c) in
  mkCore (mkCpu (file s) (if traps h then eflags s else Z.ldiff (eflags s) IF) (label h) (mem s))
         kernelCS (if user c then mem (proc c) (tss + 8) else ss c).

Lemma frame_length c err :
  List.length (frame c err) = ((if user c then 5 else 3) + match err with Some _ => 1 | None => 0 end)%nat.
Proof. unfold frame. by destruct (user c), err. Qed.

Lemma frame_app c err : frame c err = frame c None ++ match err with Some e => [e] | None => [] end.
Proof. unfold frame. by destruct (user c), err. Qed.

Lemma entered_pushed h err c :
  24 ≤ top c < 2 ^ 32 → pushed (frame c err) (top c) (base c) (mkCpu (file (proc (entered h err c))) (eflags (proc c)) (eip (proc c)) (mem (proc (entered h err c)))).
Proof.
  intros Ht. destruct (pushl_pushed (frame c err) (base c) (top c)) as [P1 P2 P3 P4 P5].
  - unfold base, top. destruct (user c); [by rewrite set_reg_regs, decide_True|done].
  - rewrite frame_length. destruct (user c), err; lia.
  - split; [exact P1|exact P2| |exact P4|exact P5]. unfold base. by destruct (user c).
Qed.

Lemma base_regs c r : r ≠ ESP → regs (base c) r = regs (proc c) r.
Proof. intros Hr. unfold base. destruct (user c); [by rewrite set_reg_regs, decide_False|done]. Qed.

Lemma base_mem c : mem (base c) = mem (proc c).
Proof. unfold base. by destruct (user c). Qed.

(** Back to the interrupted code. *)
Lemma iret_back h c k :
  24 ≤ top c < 2 ^ 32 → regs (proc k) ESP = top c - 4 * Z.of_nat (List.length (frame c None)) →
  (∀ i x, frame c None !! i = Some x → mem (proc k) (top c - 4 * (Z.of_nat i + 1)) = x) →
  cs k = kernelCS → ss k = (if user c then mem (proc c) (tss + 8) else ss c) →
  kexec h Iret k =
    mkCore (mkCpu (rset (file (proc k)) ESP (regs (proc c) ESP)) (eflags (proc c)) (eip (proc c)) (mem (proc k))) (cs c) (ss c).
Proof.
  intros Ht HE Hm Hcs Hss. unfold kexec. rewrite Hcs, HE, frame_length. unfold frame, top, user in *.
  pose proof (Z.land_nonneg (cs c) 3) as Hn. change (Z.land kernelCS 3) with 0.
  destruct (Z.eqb_spec (Z.land (cs c) 3) 0) as [Hk|Hu]; cbn [negb Nat.add] in *.
  - set (T := regs (proc c) ESP) in *.
    pose proof (Hm 0%nat _ eq_refl) as M0. pose proof (Hm 1%nat _ eq_refl) as M1. pose proof (Hm 2%nat _ eq_refl) as M2. clear Hm.
    change (Z.of_nat 0) with 0 in *. change (Z.of_nat 1) with 1 in *. change (Z.of_nat 2) with 2 in *. change (Z.of_nat 3) with 3 in *.
    repeat rewrite u32_id by lia. replace (T - 4 * 3 + 4) with (T - 4 * (1 + 1)) by lia.
    replace (T - 4 * 3 + 8) with (T - 4 * (0 + 1)) by lia. replace (T - 4 * 3) with (T - 4 * (2 + 1)) by lia.
    rewrite M0, M1, M2, decide_False by lia. f_equal; [|done]. f_equal. f_equal. lia.
  - set (T := mem (proc c) (tss + 4)) in *.
    pose proof (Hm 0%nat _ eq_refl) as M0. pose proof (Hm 1%nat _ eq_refl) as M1. pose proof (Hm 2%nat _ eq_refl) as M2.
    pose proof (Hm 3%nat _ eq_refl) as M3. pose proof (Hm 4%nat _ eq_refl) as M4. clear Hm.
    change (Z.of_nat 0) with 0 in *. change (Z.of_nat 1) with 1 in *. change (Z.of_nat 2) with 2 in *. change (Z.of_nat 3) with 3 in *.
    change (Z.of_nat 4) with 4 in *. change (Z.of_nat 5) with 5 in *. repeat rewrite u32_id by lia. replace (T - 4 * 5 + 4) with (T - 4 * (3 + 1)) by lia.
    replace (T - 4 * 5 + 8) with (T - 4 * (2 + 1)) by lia. replace (T - 4 * 5 + 12) with (T - 4 * (1 + 1)) by lia.
    replace (T - 4 * 5 + 16) with (T - 4 * (0 + 1)) by lia. replace (T - 4 * 5) with (T - 4 * (4 + 1)) by lia.
    rewrite M0, M1, M2, M3, M4, decide_True by lia. done.
Qed.

(** The stack a stub finds is that at its [iret]. *)
Lemma iret_after h err c k :
  24 ≤ top c < 2 ^ 32 → regs (proc k) ESP = top c - 4 * Z.of_nat (List.length (frame c None)) →
  (∀ a, top c - 4 * Z.of_nat (List.length (frame c None)) ≤ a < top c → mem (proc k) a = mem (proc (entered h err c)) a) →
  (∀ r, r ≠ ESP → regs (proc k) r = regs (proc c) r) → cs k = cs (entered h err c) → ss k = ss (entered h err c) →
  kexec h Iret k = mkCore (mkCpu (file (proc c)) (eflags (proc c)) (eip (proc c)) (mem (proc k))) (cs c) (ss c).
Proof.
  intros Ht HE Hm Hr Hcs Hss. destruct (entered_pushed h err c Ht) as [_ _ _ P4 _]. rewrite (iret_back h c k Ht HE); [| |done|done].
  - f_equal. f_equal. apply regs_ext. intros r. change (regs (set_reg ESP (regs (proc c) ESP) (proc k)) r = regs (proc c) r).
    rewrite set_reg_regs. case_decide as E; [by rewrite E|by apply Hr].
  - intros i x Hi. rewrite Hm.
    + apply P4. rewrite frame_app. by apply lookup_app_l_Some.
    + apply lookup_lt_Some in Hi. lia.
Qed.

Lemma krun_cons h i l c : krun h (i :: l) c = krun h l (kexec h i c).
Proof. reflexivity. Qed.

(** The words between the top of the stack and the stack pointer with which
    the handler is called. *)
Definition depth (h : handler) (c : core) : Z :=
  4 * Z.of_nat (List.length (frame c None)) +
  match h with Spurious => 0 | Apit | KeyBoard => 40 | PageFault => 48 | SysCall => 12 end.

(** The handler keeps to the conventions, and to them in respect of the
    words that the stub needs after it. *)
Definition handler_ok (keep : Z → Prop) (h : handler) (c : core) : Prop :=
  (∀ st1, regs st1 ESP = top c - depth h c → call_ok keep st1 (code h st1)) ∧ ∀ a, top c - depth h c ≤ a < top c → keep a.

(** The state in which the handler is called: on its stack, interrupts off
    if they are to be, the memory as it was but for the stack. *)
Record called_at (h : handler) (c : core) (st1 : cpu) : Prop := {
  h_esp : regs st1 ESP = top c - depth h c;
  h_flags : eflags st1 = if traps h then eflags (proc c) else Z.ldiff (eflags (proc c)) IF;
  h_mem : ∀ a, ¬ top c - depth h c ≤ a < top c → mem st1 a = mem (proc c) a
}.

(** Registers saved with [pusha], any words pushed on them, and the handler
    called. *)
Definition all_regs : list reg := [EAX; ECX; EDX; EBX; ESP; EBP; ESI; EDI].

Lemma frame_room c : 12 ≤ 4 * Z.of_nat (List.length (frame c None)) ≤ 20.
Proof. rewrite frame_length. destruct (user c); simpl; lia. Qed.

Lemma depth_room h c : 12 ≤ depth h c ≤ 68.
Proof. pose proof (frame_room c). unfold depth. destruct h; lia. Qed.

Lemma entered_same h err c r : 24 ≤ top c < 2 ^ 32 → r ≠ ESP → regs (proc (entered h err c)) r = regs (proc c) r.
Proof. intros Ht Hr. destruct (entered_pushed h err c Ht) as [_ P2 _ _ _]. etransitivity; [by apply P2|by apply base_regs]. Qed.

Lemma entered_esp h err c :
  24 ≤ top c < 2 ^ 32 → regs (proc (entered h err c)) ESP = top c - 4 * Z.of_nat (List.length (frame c err)).
Proof. intros Ht. destruct (entered_pushed h err c Ht) as [P1 _ _ _ _]. exact P1. Qed.

(** The call of the handler, by a stub that has pushed [l]. *)
Lemma call_handler h err c l st1 keep :
  72 ≤ top c < 2 ^ 32 → depth h c = 4 * Z.of_nat (List.length (frame c err) + List.length l) →
  (∀ s, s = proc (entered h err c) → mem st1 = mem (pushl l s) ∧ eflags st1 = eflags s ∧ regs st1 ESP = regs (pushl l s) ESP) →
  handler_ok keep h c →
  called_at h c st1 ∧ regs (code h st1) ESP = top c - depth h c + 4 ∧
  (∀ r, preserved r = true → regs (code h st1) r = regs st1 r) ∧
  (∀ i x, l !! i = Some x → mem (code h st1) (top c - 4 * Z.of_nat (List.length (frame c err)) - 4 * (Z.of_nat i + 1)) = x) ∧
  (∀ a, top c - 4 * Z.of_nat (List.length (frame c err)) ≤ a < top c → mem (code h st1) a = mem (proc (entered h err c)) a).
Proof.
  intros Ht Hd Hst [Hcode Hkeep]. destruct (entered_pushed h err c ltac:(lia)) as [P1 _ _ _ P5].
  destruct (Hst _ eq_refl) as (E1 & E2 & E3). pose proof (depth_room h c) as Hroom.
  destruct (pushl_pushed l (proc (entered h err c)) _ P1) as [R1 _ _ R4 R5]; [lia|].
  assert (Hsp : regs st1 ESP = top c - depth h c) by (rewrite E3, R1; lia). destruct (Hcode st1 Hsp) as [K1 K2 K3].
  split_and!.
  - split; [done|rewrite E2|].
    + unfold entered. cbn [proc eflags]. destruct (pushl_pushed (frame c err) (base c) (top c)) as [_ _ F3 _ _].
      * unfold base, top. destruct (user c); [by rewrite set_reg_regs, decide_True|done].
      * lia.
      * rewrite F3. unfold base. by destruct (user c), (traps h).
    + intros a Ha. rewrite E1, R5 by lia. etransitivity; [apply P5; lia|by rewrite base_mem].
  - rewrite K1, Hsp. lia.
  - done.
  - intros i x Hi. pose proof (lookup_lt_Some _ _ _ Hi). rewrite K3 by (apply Hkeep; lia). rewrite E1. by apply R4.
  - intros a Ha. rewrite K3 by (apply Hkeep; lia). rewrite E1. apply R5. lia.
Qed.

Lemma depth_eq h c : depth h c - 4 * Z.of_nat (List.length (frame c None)) = match h with Spurious => 0 | Apit | KeyBoard => 40 | PageFault => 48 | SysCall => 12 end.
Proof. unfold depth. lia. Qed.

(** The stubs of the timer and the keyboard. *)
Lemma timer_stub h c :
  h = Apit ∨ h = KeyBoard →
  krun h (stub h) c =
  kexec h Iret (kexec h Popa (mkCore (pop ESP (code h (push after
    (let s := pushl (map (regs (proc c)) all_regs) (proc c) in push (regs s ESP) s)))) (cs c) (ss c))).
Proof. by intros [-> | ->]. Qed.

Lemma timer_back h c keep :
  h = Apit ∨ h = KeyBoard → 72 ≤ top c < 2 ^ 32 → handler_ok keep h c →
  ∃ st1, called_at h c st1 ∧
    krun h (stub h) (entered h None c) =
    mkCore (mkCpu (file (proc c)) (eflags (proc c)) (eip (proc c)) (mem (code h st1))) (cs c) (ss c).
Proof.
  intros Hh Ht Hok. pose proof (frame_room c) as Hroom.
  remember (entered h None c) as k0 eqn:Ek0. remember (top c - 4 * Z.of_nat (List.length (frame c None))) as E eqn:EE.
  assert (HE : regs (proc k0) ESP = E) by (rewrite Ek0, EE; apply entered_esp; lia).
  remember (map (regs (proc k0)) all_regs ++ [E - 32; after]) as l eqn:El. remember (pushl l (proc k0)) as st1 eqn:Est1.
  destruct (pushl_pushed (map (regs (proc k0)) all_regs) (proc k0) E HE) as [Q1 _ _ _ _]; [simpl; lia|].
  assert (Hst : push after (push (regs (pushl (map (regs (proc k0)) all_regs) (proc k0)) ESP) (pushl (map (regs (proc k0)) all_regs) (proc k0))) = st1).
  { rewrite Est1, El, pushl_app, Q1. by replace (E - 4 * Z.of_nat (List.length (map (regs (proc k0)) all_regs))) with (E - 32) by (simpl; lia). }
  assert (Hd : depth h c = 4 * Z.of_nat (List.length (frame c None) + List.length l))
    by (rewrite El, length_app; simpl; pose proof (depth_eq h c); destruct Hh as [-> | ->]; lia).
  destruct (call_handler h None c l st1 keep Ht Hd) as (Hc & S1 & S2 & S3 & S4); [|exact Hok|].
  { intros s ->. rewrite <-Ek0, Est1. split_and!; [done| |done]. destruct (pushl_pushed l (proc k0) E HE); [rewrite El, length_app; simpl; lia|done]. }
  rewrite <-Ek0, <-EE in *. exists st1. split; [exact Hc|].
  pose proof (depth_eq h c) as Hde. assert (Hde' : depth h c = top c - E + 40) by (destruct Hh as [-> | ->]; lia). clear Hde.
  destruct (pop_popped ESP (code h st1) _ S1) as [_ T2 T3 (T4 & _ & _)]; [lia|]. set (st3 := pop ESP (code h st1)) in *.
  assert (T2' : regs st3 ESP = E - 32).
  { rewrite T2. etransitivity; [|apply (S3 8%nat); by rewrite El]. f_equal. lia. }
  destruct (popa_restores h (proc k0) (mkCore st3 (cs k0) (ss k0)) E T2') as (s4 & U1 & U2 & U3 & U4 & _ & _); [lia| | |].
  - intros i x Hi. cbn [proc]. rewrite T4. apply S3. rewrite El. by apply lookup_app_l_Some.
  - intros r Hr. cbn [proc]. rewrite T3 by (by destruct Hr as [-> | ->]). rewrite S2 by (by destruct Hr as [-> | ->]).
    destruct (pushl_pushed l (proc k0) E HE) as [_ V2 _ _ _]; [rewrite El, length_app; simpl; lia|]. rewrite Est1. apply V2. by destruct Hr as [-> | ->].
  - rewrite (timer_stub h k0 Hh). cbv zeta. rewrite Hst. fold st3. rewrite U1. cbn [cs ss].
    rewrite (iret_after h None c); cbn [proc cs ss]; [by rewrite U4; cbn [proc]; rewrite T4|lia|by rewrite <-EE| | |by rewrite Ek0|by rewrite Ek0].
    + intros a Ha. rewrite <-EE in Ha. rewrite U4, <-Ek0. cbn [proc]. rewrite T4. by apply S4.
    + intros r Hr. rewrite U2, Ek0 by done. apply entered_same; [lia|done].
Qed.

Lemma set_reg_mem r x s : mem (set_reg r x s) = mem s.
Proof. reflexivity. Qed.

Lemma regs_mk s fl ip m r : regs (mkCpu (file s) fl ip m) r = regs s r.
Proof. reflexivity. Qed.

Lemma set_reg_flags r x s : eflags (set_reg r x s) = eflags s.
Proof. reflexivity. Qed.

Lemma set_reg_twice r x y s : set_reg r x (set_reg r y s) = set_reg r x s.
Proof. unfold set_reg. cbn [file mem eflags eip]. destruct (file s). by destruct r. Qed.

Lemma kexec_add h v r c : kexec h (Basic (AddImm v r)) c = mkCore (set_reg r (u32 (regs (proc c) r + v)) (proc c)) (cs c) (ss c).
Proof. reflexivity. Qed.

(** The stub of the page fault. *)
Lemma fault_stub c :
  krun PageFault (stub PageFault) c =
  kexec PageFault Iret (kexec PageFault (Basic (AddImm 4 ESP)) (kexec PageFault Popa (kexec PageFault (Basic (AddImm 8 ESP))
    (mkCore (code PageFault (push after
      (let s := pushl (map (regs (proc c)) all_regs) (proc c) in
       let s := set_reg EAX (regs s ESP) s in
       let s := push (regs s EAX) s in
       let s := set_reg EAX (regs s CR2) s in push (regs s EAX) s))) (cs c) (ss c))))).
Proof. reflexivity. Qed.

Lemma fault_pushes s E :
  regs s ESP = E → 48 ≤ E < 2 ^ 32 →
  push after (let s := pushl (map (regs s) all_regs) s in
              let s := set_reg EAX (regs s ESP) s in
              let s := push (regs s EAX) s in
              let s := set_reg EAX (regs s CR2) s in push (regs s EAX) s) =
  set_reg EAX (regs s CR2) (pushl (map (regs s) all_regs ++ [E - 32; regs s CR2; after]) s).
Proof.
  intros HE Hr. destruct (pushl_pushed (map (regs s) all_regs) s E HE) as [Q1 Q2 _ _ _]; [simpl; lia|].
  rewrite pushl_app. remember (pushl (map (regs s) all_regs) s) as p eqn:Ep. clear Ep. cbv zeta.
  assert (Q1' : regs p ESP = E - 32) by (rewrite Q1; simpl; lia). pose proof (Q2 CR2 ltac:(done)) as C.
  rewrite Q1'. rewrite (set_reg_regs EAX (E - 32) p EAX), decide_True by done. rewrite (push_other (E - 32) EAX (E - 32) p) by done.
  rewrite (set_reg_regs EAX (E - 32) _ CR2), decide_False, push_regs, C by done. rewrite set_reg_twice.
  rewrite (set_reg_regs EAX (regs s CR2) _ EAX), decide_True by done. by rewrite !push_other by done.
Qed.

Lemma fault_back e c keep :
  72 ≤ top c < 2 ^ 32 → handler_ok keep PageFault c →
  ∃ st1, called_at PageFault c st1 ∧ argument st1 1 = regs (proc c) CR2 ∧
    krun PageFault (stub PageFault) (entered PageFault (Some e) c) =
    mkCore (mkCpu (file (proc c)) (eflags (proc c)) (eip (proc c)) (mem (code PageFault st1))) (cs c) (ss c).
Proof.
  intros Ht Hok. pose proof (frame_room c) as Hroom.
  assert (Hlen : List.length (frame c (Some e)) = S (List.length (frame c None))) by (rewrite !frame_length; simpl; lia).
  remember (entered PageFault (Some e) c) as k0 eqn:Ek0.
  remember (top c - 4 * Z.of_nat (List.length (frame c (Some e)))) as E eqn:EE.
  assert (HE : regs (proc k0) ESP = E) by (rewrite Ek0, EE; apply entered_esp; lia).
  assert (HEr : 48 ≤ E < 2 ^ 32) by lia.
  remember (map (regs (proc k0)) all_regs ++ [E - 32; regs (proc k0) CR2; after]) as l eqn:El.
  remember (set_reg EAX (regs (proc k0) CR2) (pushl l (proc k0))) as st1 eqn:Est1.
  destruct (pushl_pushed l (proc k0) E HE) as [P1 P2 P3 P4 _]; [rewrite El, length_app; simpl; lia|].
  pose proof (depth_eq PageFault c) as Hde. cbn match in Hde.
  assert (Hll : List.length l = 11%nat) by (by rewrite El).
  destruct (call_handler PageFault (Some e) c l st1 keep Ht) as (Hc & S1 & S2 & S3 & S4); [lia| |exact Hok|].
  { intros s ->. rewrite <-Ek0, Est1, set_reg_mem, set_reg_flags, set_reg_regs, decide_False by done. by rewrite P3. }
  rewrite <-Ek0, <-EE in *. exists st1. split; [exact Hc|].
  assert (HdE : depth PageFault c = top c - E + 44) by lia.
  assert (Hcr : ∀ r, r = CR2 ∨ r = CR3 → regs (code PageFault st1) r = regs (proc k0) r).
  { intros r Hr. rewrite S2 by (by destruct Hr as [-> | ->]). rewrite Est1, set_reg_regs, decide_False by (by destruct Hr as [-> | ->]).
    apply P2. by destruct Hr as [-> | ->]. }
  remember (code PageFault st1) as st2 eqn:Est2. remember (set_reg ESP (E - 32) st2) as st3 eqn:Est3.
  assert (Em3 : mem st3 = mem st2) by (by rewrite Est3).
  destruct (popa_restores PageFault (proc k0) (mkCore st3 (cs k0) (ss k0)) E) as (s4 & U1 & U2 & U3 & U4 & _ & _); [by cbn [proc]; rewrite Est3, set_reg_regs|lia| | |].
  { intros i x Hi. cbn [proc]. rewrite Em3. apply S3. rewrite El. by apply lookup_app_l_Some. }
  { intros r Hr. cbn [proc]. rewrite Est3, set_reg_regs, decide_False by (by destruct Hr as [-> | ->]). by apply Hcr. }
  cbn [proc cs ss] in U1, U3, U4, U2. rewrite Em3 in U4.
  split.
  - unfold argument. destruct Hc as [H1 _ _]. rewrite H1, Est1. rewrite set_reg_mem.
    replace (top c - depth PageFault c + 4 * 1) with (E - 4 * (Z.of_nat 9 + 1)) by lia.
    rewrite (P4 9%nat (regs (proc k0) CR2)) by (by rewrite El). rewrite Ek0. apply entered_same; [lia|done].
  - rewrite fault_stub, (fault_pushes _ E HE HEr), <-El, <-Est1, <-Est2, (kexec_add _ 8). cbn [proc cs ss].
    rewrite S1, u32_id by lia. replace (top c - depth PageFault c + 4 + 8) with (E - 32) by lia. rewrite <-Est3, U1, kexec_add. cbn [proc cs ss].
    rewrite U3, u32_id by lia.
    rewrite (iret_after PageFault (Some e) c); cbn [proc cs ss].
    + by rewrite set_reg_mem, U4.
    + lia.
    + rewrite set_reg_regs, decide_True by done. lia.
    + intros a Ha. rewrite <-Ek0. rewrite set_reg_mem, U4. apply S4. lia.
    + intros r Hr. rewrite set_reg_regs, decide_False, U2, Ek0 by done. apply entered_same; [lia|done].
    + by rewrite Ek0.
    + by rewrite Ek0.
Qed.

(** The stub of a spurious interrupt. *)
Lemma spurious_back c :
  72 ≤ top c < 2 ^ 32 →
  krun Spurious (stub Spurious) (entered Spurious None c) =
  mkCore (mkCpu (file (proc c)) (eflags (proc c)) (eip (proc c)) (mem (proc (entered Spurious None c)))) (cs c) (ss c).
Proof.
  intros Ht. change (stub Spurious) with [Iret]. rewrite krun_cons. unfold krun, foldl.
  apply (iret_after Spurious None c); try done; [lia|apply entered_esp; lia|]. intros r Hr. apply entered_same; [lia|done].
Qed.

Lemma entered_eip h err c : eip (proc (entered h err c)) = label h.
Proof. reflexivity. Qed.

(** The processor finds the stub. *)
Lemma take_entered h asked err c :
  (∀ h h', label h = label h' → h = h') → table_ok (mem (proc c)) → (asked = true → traps h = true) →
  take (vector h) asked err c = Some (krun h (stub h) (entered h err c)).
Proof.
  intros Hl Ht Ha.
  assert (Hd : true && (negb asked || (Z.land (cs c) 3 <=? (if traps h then 3 else 0))) = true).
  { destruct asked; [|done]. rewrite Ha by done. change 3 with (Z.ones 2) at 1. rewrite Z.land_ones by lia.
    apply Z.leb_le. pose proof (Z.mod_pos_bound (cs c) (2 ^ 2) ltac:(lia)). lia. }
  assert (Hdel : deliver (vector h) asked err c = Some (entered h err c)).
  { unfold deliver. rewrite (Ht h). cbn [present dpl is_trap offset selector]. by rewrite Hd. }
  assert (Hat : handler_at (label h) = Some h).
  { unfold handler_at, List.find. destruct (bool_decide_reflect (label Spurious = label h)) as [E%Hl|N1]; [congruence|].
    destruct (bool_decide_reflect (label Apit = label h)) as [E%Hl|N2]; [congruence|].
    destruct (bool_decide_reflect (label KeyBoard = label h)) as [E%Hl|N3]; [congruence|].
    destruct (bool_decide_reflect (label PageFault = label h)) as [E%Hl|N4]; [congruence|].
    destruct (bool_decide_reflect (label SysCall = label h)) as [E%Hl|N5]; [congruence|]. exfalso. by destruct h. }
  unfold take. rewrite Hdel. cbn [mbind option_bind]. by rewrite entered_eip, Hat.
Qed.

(** ** The table after start-up *)

Context (Hrange : ∀ h, 0 ≤ label h < 2 ^ 32).

Definition gate_for (h : handler) : gate := mkGate (label h) kernelCS (traps h) (if traps h then 3 else 0) true.

(** What is set so far, the first word still being zero. *)
Record set_up (l : list handler) (m0 m : Z → Z) : Prop := {
  u_first : m idt = 0;
  u_entry : ∀ h, h ∈ l → entry idt m (vector h) = gate_for h;
  u_rest : ∀ a, ¬ idt ≤ a < idt + 2048 → m a = m0 a
}.

Lemma set_up_entry l h m0 m m' :
  set_up l m0 m → entry_set idt (vector h) (gate_for h) m m' → set_up (h :: l) m0 m'.
Proof.
  intros [H1 H2 H3] [E1 E2].
  assert (Hv : 1 ≤ vector h < 256) by (destruct h; simpl; lia). split.
  - rewrite E2 by lia. done.
  - intros h' Hh. destruct (decide (h' = h)) as [->|Hne]; [done|]. apply elem_of_cons in Hh as [|Hh]; [done|].
    rewrite <-(H2 h' Hh). assert (vector h' ≠ vector h) by (by destruct h, h'). unfold entry. by rewrite !E2 by lia.
  - intros a Ha. rewrite E2 by lia. by apply H3.
Qed.

Lemma wp_set_trap l h m0 m (Q : () → (Z → Z) → Prop) :
  traps h = true → set_up l m0 m → (∀ m', set_up (h :: l) m0 m' → Q () m') → wp (trap idt (vector h) (label h) 3) Q m.
Proof.
  intros Hh Hm HQ. apply wp_trap; [by destruct h|done|lia|]. intros m' Hm'. apply HQ. eapply set_up_entry; [done|].
  unfold gate_for. by rewrite Hh.
Qed.

Lemma wp_set_interrupt l h m0 m (Q : () → (Z → Z) → Prop) :
  traps h = false → set_up l m0 m → (∀ m', set_up (h :: l) m0 m' → Q () m') → wp (interrupt idt (vector h) (label h)) Q m.
Proof.
  intros Hh Hm HQ. apply wp_interrupt; [by destruct h|done| |].
  - exists 0. split; [lia|]. rewrite Z.mul_0_r, Z.add_0_r. apply (u_first _ _ _ Hm).
  - intros m' Hm'. apply HQ. eapply set_up_entry; [done|]. unfold gate_for. by rewrite Hh.
Qed.

Lemma wp_start_up cores m0 :
  (1 ≤ cores)%nat → m0 idt = 0 →
  wp (start_up cores) (λ _ m, table_ok m ∧ ∀ a, ¬ idt ≤ a < idt + 2048 → m a = m0 a) m0.
Proof.
  intros Hc H0. assert (Hm : set_up [] m0 m0) by (split; [done|by intros h ?%elem_of_nil|done]). unfold start_up.
  apply wp_bind, (wp_set_trap [] PageFault m0); [done|done|]. intros m1 H1. apply wp_bind, (wp_set_trap _ SysCall m0 _ _ eq_refl H1).
  intros m2 H2. apply wp_bind, (wp_set_interrupt _ Spurious m0 _ _ eq_refl H2). intros m3 H3.
  apply wp_bind, (wp_set_interrupt _ Apit m0 _ _ eq_refl H3). intros m4 H4. clear -H4 Hc Hrange.
  destruct cores as [|cores]; [lia|]. clear Hc. cbn [Nat.iter].
  assert (Hloop : ∀ n m, set_up [KeyBoard; Apit; Spurious; SysCall; PageFault] m0 m →
            wp (Nat.iter n (λ rest, KeyBoard_init;; rest) (mret ())) (λ _ m, table_ok m ∧ ∀ a, ¬ idt ≤ a < idt + 2048 → m a = m0 a) m).
  { induction n as [|n IH]; intros m Hm; cbn [Nat.iter].
    - apply wp_ret. split; [|apply (u_rest _ _ _ Hm)]. intros h. apply (u_entry _ _ _ Hm). destruct h; set_solver.
    - apply wp_bind, (wp_set_interrupt _ KeyBoard m0 _ _ eq_refl Hm). intros m' [U1 U2 U3]. apply IH. split; [done| |done].
      intros h Hh. apply U2. set_solver. }
  apply wp_bind, (wp_set_interrupt _ KeyBoard m0 _ _ eq_refl H4). intros m5 H5. by apply Hloop.
Qed.

(** The memory in which code runs: the table is as start-up leaves it. *)
Definition started (m : Z → Z) : Prop :=
  ∃ cores m0 m1, (1 ≤ cores)%nat ∧ m0 idt = 0 ∧ start_up cores m0 = Ok () m1 ∧ ∀ a, idt ≤ a < idt + 2048 → m a = m1 a.

Lemma started_table m : started m → table_ok m.
Proof.
  intros (cores & m0 & m1 & Hc & H0 & Hrun & Hm). pose proof (wp_start_up cores m0 Hc H0) as Hw. unfold wp in Hw. rewrite Hrun in Hw.
  destruct Hw as [Ht _]. intros h. rewrite <-(Ht h). assert (0 ≤ vector h < 256) by (by destruct h). unfold entry. by rewrite !Hm by lia.
Qed.

(** ** System calls *)

Lemma syscall_stub c :
  krun SysCall (stub SysCall) c =
  kexec SysCall Iret (kexec SysCall (Basic (AddImm 8 ESP))
    (mkCore (code SysCall (push after (let s := push (regs (proc c) ESP) (proc c) in push (regs s EAX) s))) (cs c) (ss c))).
Proof. reflexivity. Qed.

(** What [sysHandler] is given: the number, and the frame, whose first word
    is the place of the call and whose fourth the stack of its caller. *)
Record asked_at (c : core) (st1 : cpu) : Prop := {
  a_at : called_at SysCall c st1;
  a_number : argument st1 1 = regs (proc c) EAX;
  a_eip : mem st1 (argument st1 2) = eip (proc c);
  a_esp : mem st1 (argument st1 2 + 12) = regs (proc c) ESP
}.

Lemma syscall_call c keep :
  user c = true → 72 ≤ top c < 2 ^ 32 → handler_ok keep SysCall c →
  ∃ st1, asked_at c st1 ∧
    krun SysCall (stub SysCall) (entered SysCall None c) =
      kexec SysCall Iret (kexec SysCall (Basic (AddImm 8 ESP))
        (mkCore (code SysCall st1) kernelCS (ss (entered SysCall None c)))) ∧
    regs (code SysCall st1) ESP = top c - 28 ∧
    (∀ r, preserved r = true → regs (code SysCall st1) r = regs (proc c) r) ∧
    ∀ a, top c - 20 ≤ a < top c → mem (code SysCall st1) a = mem (proc (entered SysCall None c)) a.
Proof.
  intros Hu Ht Hok. assert (Hlen : List.length (frame c None) = 5%nat) by (by rewrite frame_length, Hu).
  pose proof (depth_eq SysCall c) as Hd. cbn match in Hd. rewrite Hlen in Hd.
  assert (Hf : ∀ i x, frame c None !! i = Some x → mem (proc (entered SysCall None c)) (top c - 4 * (Z.of_nat i + 1)) = x)
    by (destruct (entered_pushed SysCall None c ltac:(lia)) as [_ _ _ P4 _]; exact P4).
  remember (entered SysCall None c) as k0 eqn:Ek0. set (E := top c - 20).
  assert (HE : regs (proc k0) ESP = E) by (rewrite Ek0, entered_esp, Hlen by lia; unfold E; lia).
  remember [E; regs (proc k0) EAX; after] as l eqn:El. remember (pushl l (proc k0)) as st1 eqn:Est1.
  destruct (pushl_pushed l (proc k0) E HE) as [P1 P2 P3 P4 P5]; [rewrite El; simpl; lia|].
  destruct (call_handler SysCall None c l st1 keep Ht) as (Hc & S1 & S2 & _ & S4); [rewrite Hlen, El; simpl; lia| |exact Hok|].
  { intros s ->. rewrite <-Ek0, Est1. split_and!; [done|exact P3|done]. }
  rewrite Hlen, <-Ek0 in *. assert (Hesp : regs st1 ESP = E - 12) by (destruct Hc as [-> _ _]; unfold E; lia).
  assert (Ha : ∀ i x, l !! i = Some x → argument st1 (2 - Z.of_nat i) = x).
  { intros i x Hi. unfold argument. rewrite Hesp, <-(P4 i x Hi), Est1. f_equal. lia. }
  assert (Hw : ∀ a, E ≤ a → mem st1 a = mem (proc k0) a) by (intros a Hge; rewrite Est1; apply P5; rewrite El; simpl; lia).
  assert (Hfr : frame c None = [ss c; regs (proc c) ESP; eflags (proc c); cs c; eip (proc c)]) by (unfold frame; by rewrite Hu).
  assert (Ha2 : argument st1 2 = E) by (apply (Ha 0%nat); by rewrite El).
  exists st1. split_and!.
  - split; [exact Hc| | |].
    + change 1 with (2 - Z.of_nat 1). rewrite (Ha 1%nat (regs (proc k0) EAX)) by (by rewrite El). rewrite Ek0. apply entered_same; [lia|done].
    + rewrite Ha2, Hw by lia. rewrite <-(Hf 4%nat (eip (proc c))) by (by rewrite Hfr). f_equal; unfold E; lia.
    + rewrite Ha2, Hw by lia. rewrite <-(Hf 1%nat (regs (proc c) ESP)) by (by rewrite Hfr). f_equal; unfold E; lia.
  - rewrite syscall_stub. cbv zeta. rewrite push_regs, HE by done. rewrite Est1, El. by rewrite Ek0.
  - rewrite S1. lia.
  - intros r Hp. rewrite S2, Est1, P2, Ek0 by (done || by intros ->). apply entered_same; [lia|by intros ->].
  - intros a Hin. apply S4. lia.
Qed.

Lemma syscall_return c st2 :
  user c = true → 72 ≤ top c < 2 ^ 32 → regs st2 ESP = top c - 28 →
  (∀ a, top c - 20 ≤ a < top c → mem st2 a = mem (proc (entered SysCall None c)) a) →
  kexec SysCall Iret (kexec SysCall (Basic (AddImm 8 ESP)) (mkCore st2 kernelCS (ss (entered SysCall None c)))) =
  mkCore (mkCpu (file (set_reg ESP (regs (proc c) ESP) st2)) (eflags (proc c)) (eip (proc c)) (mem st2)) (cs c) (ss c).
Proof.
  intros Hu Ht HE Hm. assert (Hlen : List.length (frame c None) = 5%nat) by (by rewrite frame_length, Hu).
  destruct (entered_pushed SysCall None c ltac:(lia)) as [_ _ _ P4 _].
  rewrite kexec_add. cbn [proc cs ss]. rewrite HE, u32_id by lia. rewrite (iret_back SysCall c); cbn [proc cs ss]; [|lia| | |done|done].
  - by rewrite <-(set_reg_twice ESP (regs (proc c) ESP) (top c - 28 + 8) st2).
  - rewrite set_reg_regs, decide_True, Hlen by done. lia.
  - intros i x Hi. rewrite set_reg_mem, Hm; [by apply P4|]. apply lookup_lt_Some in Hi. lia.
Qed.

(** An [int $48] in user code. *)
Record returned_to (c : core) (st1 : cpu) (s' : cpu) : Prop := {
  r_regs : ∀ r, r = ESP ∨ preserved r = true → regs s' r = regs (proc c) r;
  r_result : regs s' EAX = regs (code SysCall st1) EAX;
  r_flags : eflags s' = eflags (proc c);
  r_eip : eip s' = eip (proc c);
  r_mem : mem s' = mem (code SysCall st1)
}.

Lemma syscall_back c keep :
  (∀ h h', label h = label h' → h = h') → started (mem (proc c)) → user c = true → 72 ≤ top c < 2 ^ 32 → handler_ok keep SysCall c →
  ∃ st1 s', asked_at c st1 ∧ take (vector SysCall) true None c = Some (mkCore s' (cs c) (ss c)) ∧ returned_to c st1 s'.
Proof.
  intros Hl Hs Hu Ht Hok. destruct (syscall_call c keep Hu Ht Hok) as (st1 & Ha & Hrun & H1 & H2 & H3).
  exists st1. eexists. split; [exact Ha|]. split.
  - rewrite take_entered; [|done|by apply started_table|done]. by rewrite Hrun, syscall_return.
  - split; try done.
    + intros r Hr. rewrite regs_mk, set_reg_regs. case_decide as Er; [by rewrite Er|]. destruct Hr as [Hr|Hr]; [done|by apply H2].
    + by rewrite regs_mk, set_reg_regs, decide_False.
Qed.

Lemma same_user c c' : cs c' = cs c → user c' = user c.
Proof. unfold user. by intros ->. Qed.

Lemma handler_ok_ext keep h c c' : top c' = top c → user c' = user c → handler_ok keep h c → handler_ok keep h c'.
Proof.
  intros Ht Hu. assert (Hd : depth h c' = depth h c) by (unfold depth; by rewrite !frame_length, Hu).
  unfold handler_ok. by rewrite Ht, Hd.
Qed.

Lemma user_top c : user c = true → top c = mem (proc c) (tss + 4).
Proof. intros Hu. unfold top. by rewrite Hu. Qed.

(** *** The two ways out of [fork] *)

Lemma fork_after_stub s cs0 ss0 :
  urun fork_after (mkCore s cs0 ss0) =
  Some (mkCore (exec (λ _ s, s) 0 Ret (pop EBX (pop ESI (pop EDI (pop EBP s))))) cs0 ss0).
Proof. reflexivity. Qed.

Lemma fork_after_runs s cs0 ss0 U :
  regs s ESP = U - 16 → 16 ≤ U < 2 ^ 32 - 4 →
  ∃ s', urun fork_after (mkCore s cs0 ss0) = Some (mkCore s' cs0 ss0) ∧ regs s' ESP = U + 4 ∧ eip s' = mem s U ∧
    regs s' EAX = regs s EAX ∧ regs s' EBX = mem s (U - 4) ∧ regs s' ESI = mem s (U - 8) ∧ regs s' EDI = mem s (U - 12) ∧
    regs s' EBP = mem s (U - 16) ∧ mem s' = mem s ∧ eflags s' = eflags s.
Proof.
  intros HE HU. destruct (pop_popped EBP s _ HE ltac:(lia)) as [A1 A2 A3 (A4 & A5 & _)]. remember (pop EBP s) as s1 eqn:E1.
  destruct (pop_popped EDI s1 _ (A1 ltac:(done)) ltac:(lia)) as [B1 B2 B3 (B4 & B5 & _)]. remember (pop EDI s1) as s2 eqn:E2.
  destruct (pop_popped ESI s2 _ (B1 ltac:(done)) ltac:(lia)) as [C1 C2 C3 (C4 & C5 & _)]. remember (pop ESI s2) as s3 eqn:E3.
  destruct (pop_popped EBX s3 _ (C1 ltac:(done)) ltac:(lia)) as [D1 D2 D3 (D4 & D5 & _)]. remember (pop EBX s3) as s4 eqn:E4.
  specialize (D1 ltac:(done)). replace (U - 16 + 4 + 4 + 4 + 4) with U in D1 by lia.
  exists (mkCpu (file (set_reg ESP (U + 4) s4)) (eflags s4) (mem s4 U) (mem s4)). split.
  - rewrite fork_after_stub, <-E1, <-E2, <-E3, <-E4.
    unfold exec. by rewrite D1, u32_id by lia.
  - rewrite !regs_mk, !set_reg_regs, decide_True, !decide_False by done. cbn [eip mem eflags]. assert (Hm : mem s4 = mem s) by congruence.
    rewrite Hm. split_and!; try done; rewrite ?D2, ?D3, ?C2, ?C3, ?B2, ?B3, ?A2, ?A3 by done; rewrite ?D4, ?C4, ?B4, ?A4; try done;
      try (f_equal; lia); congruence.
Qed.

Lemma switchToUser_stub h k :
  krun h switchToUser k =
  kexec h Iret (on (λ s, let a := λ i, mem s (u32 (regs s ESP + 4 * i)) in
                         pushl [userSS; a 2; eflags s; userCS; a 1] (set_reg ECX (a 1) (set_reg EDX (a 2) (set_reg EAX (a 3) s)))) k).
Proof. destruct k as [[[] ? ? ?] ? ?]. reflexivity. Qed.

Lemma switchToUser_runs h k :
  Z.land (cs k) 3 = 0 → 20 ≤ regs (proc k) ESP < 2 ^ 32 - 12 →
  ∃ s', krun h switchToUser k = mkCore s' userCS userSS ∧ eip s' = argument (proc k) 1 ∧ regs s' ESP = argument (proc k) 2 ∧
    regs s' EAX = argument (proc k) 3 ∧ eflags s' = eflags (proc k) ∧
    ∀ a, ¬ regs (proc k) ESP - 20 ≤ a < regs (proc k) ESP → mem s' a = mem (proc k) a.
Proof.
  intros Hcs HE. rewrite switchToUser_stub. destruct k as [s cs0 ss0]. cbn [proc cs] in *. unfold on. cbn [proc cs ss]. cbv zeta.
  rewrite !u32_id by lia. fold (argument s 1) (argument s 2) (argument s 3).
  remember (set_reg ECX (argument s 1) (set_reg EDX (argument s 2) (set_reg EAX (argument s 3) s))) as s1 eqn:E1.
  remember [userSS; argument s 2; eflags s; userCS; argument s 1] as l eqn:El. remember (pushl l s1) as s2 eqn:E2.
  assert (Hsp : regs s1 ESP = regs s ESP) by (by rewrite E1, !set_reg_regs).
  destruct (pushl_pushed l s1 _ Hsp) as [P1 P2 P3 P4 P5]; [rewrite El; cbn [List.length]; lia|]. rewrite <-E2 in *.
  assert (Hl : ∀ i x, l !! i = Some x → mem s2 (regs s ESP - 4 * (Z.of_nat i + 1)) = x) by done.
  assert (Hll : Z.of_nat (List.length l) = 5) by (by rewrite El). rewrite Hll in *.
  eexists. split.
  - unfold kexec. cbn [proc cs ss]. rewrite P1, !u32_id by lia.
    replace (regs s ESP - 4 * 5 + 4) with (regs s ESP - 4 * (Z.of_nat 3 + 1)) by lia.
    replace (regs s ESP - 4 * 5 + 8) with (regs s ESP - 4 * (Z.of_nat 2 + 1)) by lia.
    replace (regs s ESP - 4 * 5 + 12) with (regs s ESP - 4 * (Z.of_nat 1 + 1)) by lia.
    replace (regs s ESP - 4 * 5 + 16) with (regs s ESP - 4 * (Z.of_nat 0 + 1)) by lia.
    replace (regs s ESP - 4 * 5) with (regs s ESP - 4 * (Z.of_nat 4 + 1)) by lia.
    rewrite (Hl 3%nat userCS), (Hl 0%nat userSS), (Hl 1%nat (argument s 2)), (Hl 2%nat (eflags s)), (Hl 4%nat (argument s 1)) by (by rewrite El).
    rewrite decide_True by (rewrite Hcs; reflexivity). reflexivity.
  - split_and!; try done.
    + change (regs (set_reg ESP (argument s 2) s2) ESP = argument s 2). by rewrite set_reg_regs.
    + change (regs (set_reg ESP (argument s 2) s2) EAX = argument s 3). by rewrite set_reg_regs, decide_False, P2, E1, !set_reg_regs by done.
    + intros a Ha. cbn [mem]. rewrite P5 by lia. by rewrite E1.
Qed.

(** ** Properties *)

Context (Hlabel : ∀ h h', label h = label h' → h = h').

(** The vectors that the hardware raises, the page fault with an error code. *)
Definition raised (h : handler) (err : option Z) : Prop :=
  match h with PageFault => ∃ e, err = Some e | SysCall => False | _ => err = None end.

(** C19. Interrupts and page faults are transparent.  Whatever code is
    interrupted, user code or the kernel's, with interrupts on or off: the
    processor finds the stub of the vector in the table that start-up wrote,
    the handler is called on the kernel's stack, with interrupts off unless
    it is for a page fault, and then with the address that faulted; and the
    interrupted code goes on with all its registers and flags, its stack and
    segments, the memory being what the handler made of it. *)
Theorem interrupts_transparent h err c keep :
  raised h err → started (mem (proc c)) → 72 ≤ top c < 2 ^ 32 → handler_ok keep h c →
  ∃ m', take (vector h) false err c =
      Some (mkCore (mkCpu (file (proc c)) (eflags (proc c)) (eip (proc c)) m') (cs c) (ss c)) ∧
    match h with
    | Spurious => ∀ a, ¬ top c - depth h c ≤ a < top c → m' a = mem (proc c) a
    | _ => ∃ st1, called_at h c st1 ∧ m' = mem (code h st1) ∧ (h = PageFault → argument st1 1 = regs (proc c) CR2)
    end.
Proof.
  intros Hr Hs%started_table Ht Hok. rewrite take_entered by done. destruct h; simpl in Hr; try done.
  - subst err. rewrite spurious_back by done. eexists. split; [done|]. intros a Ha.
    destruct (entered_pushed Spurious None c ltac:(lia)) as [_ _ _ _ P5]. pose proof (depth_eq Spurious c) as Hd. cbn match in Hd.
    etransitivity; [apply P5; lia|]. by rewrite base_mem.
  - subst err. destruct (timer_back Apit c keep (or_introl eq_refl) Ht Hok) as (st1 & Hc & ->). eexists. split; [done|]. by exists st1.
  - subst err. destruct (timer_back KeyBoard c keep (or_intror eq_refl) Ht Hok) as (st1 & Hc & ->). eexists. split; [done|]. by exists st1.
  - destruct Hr as [e ->]. destruct (fault_back e c keep Ht Hok) as (st1 & Hc & Ha & ->). eexists. split; [done|]. by exists st1.
Qed.

(** C21. A system call is a call.  [sysHandler] is given the number of the
    call, and a frame from which it reads where the caller goes on and
    where its arguments are; and the function of sys.S returns to its
    caller what [sysHandler] returned, with the stack pointer past the
    return address and the registers that calls preserve, in the same mode
    and with the same flags. *)
Theorem system_calls_return n next c keep :
  started (mem (proc c)) → user c = true → 72 ≤ top c < 2 ^ 32 → handler_ok keep SysCall c →
  let U := regs (proc c) ESP in
  0 ≤ U < 2 ^ 32 - 4 → keep U → ¬ top c - 32 ≤ U < top c →
  ∃ st1 s', urun (sys_call n next) c = Some (mkCore s' (cs c) (ss c)) ∧
    (argument st1 1 = n ∧ mem st1 (argument st1 2) = next ∧ mem st1 (argument st1 2 + 12) = U ∧
     ∀ a, ¬ top c - 32 ≤ a < top c → mem st1 a = mem (proc c) a) ∧
    (regs s' EAX = regs (code SysCall st1) EAX ∧ regs s' ESP = U + 4 ∧ eip s' = mem (proc c) U ∧
     (∀ r, preserved r = true → regs s' r = regs (proc c) r) ∧ eflags s' = eflags (proc c) ∧ mem s' = mem (code SysCall st1)).
Proof.
  intros Hs Hu Ht Hok U HU Hk Hnot.
  set (c1 := mkCore (mkCpu (file (set_reg EAX n (proc c))) (eflags (proc c)) next (mem (proc c))) (cs c) (ss c)).
  assert (Hu1 : user c1 = true) by (rewrite <-Hu; by apply same_user).
  assert (Ht1 : top c1 = top c) by (by rewrite !user_top).
  destruct (syscall_back c1 keep) as (st1 & s1 & [[Ha1 _ Ha2] Hn Hip Hsp] & Htake & [R1 R2 R3 R4 R5]); try done; [by rewrite Ht1|by eapply handler_ok_ext|].
  assert (Hd : depth SysCall c1 = 32) by (unfold depth; by rewrite frame_length, Hu1). rewrite Hd, Ht1 in *.
  assert (HspU : regs s1 ESP = U) by (rewrite R1 by (by left); cbn [proc c1]; by rewrite regs_mk, set_reg_regs, decide_False).
  assert (Hret : mem (code SysCall st1) U = mem (proc c) U).
  { destruct Hok as [Hok _]. assert (Hdc : depth SysCall c = 32) by (unfold depth; by rewrite frame_length, Hu).
    destruct (Hok st1) as [_ _ Hm]; [by rewrite Ha1, Hdc|]. rewrite Hm by done. by apply Ha2. }
  exists st1, (mkCpu (file (set_reg ESP (U + 4) s1)) (eflags s1) (mem s1 U) (mem s1)). split_and!.
  - change (urun (sys_call n next) c) with (c2 ← take (vector SysCall) true None c1; urun [Do (Basic Ret)] c2). rewrite Htake.
    cbn [mbind option_bind urun uexec]. unfold kexec, on, exec. cbn [proc cs ss]. by rewrite HspU, u32_id by lia.
  - rewrite Hn. cbn [proc c1]. by rewrite regs_mk, set_reg_regs.
  - exact Hip.
  - rewrite Hsp. cbn [proc c1]. by rewrite regs_mk, set_reg_regs, decide_False.
  - exact Ha2.
  - rewrite regs_mk, set_reg_regs, decide_False by done. exact R2.
  - by rewrite regs_mk, set_reg_regs, decide_True.
  - cbn [eip]. by rewrite R5.
  - intros r Hp. rewrite regs_mk, set_reg_regs, decide_False by (by intros ->). rewrite R1 by (by right). cbn [proc c1].
    by rewrite regs_mk, set_reg_regs, decide_False by (by intros ->).
  - exact R3.
  - exact R5.
Qed.

(** The state in which [fork] returns [r] to the caller [c]. *)
Record fork_returned (c : core) (r : Z) (c' : core) : Prop := {
  f_result : regs (proc c') EAX = r;
  f_esp : regs (proc c') ESP = regs (proc c) ESP + 4;
  f_eip : eip (proc c') = mem (proc c) (regs (proc c) ESP);
  f_regs : ∀ x, x ∈ [EBX; ESI; EDI; EBP] → regs (proc c') x = regs (proc c) x;
  f_user : user c' = true
}.

(** The registers that [fork] puts on the user's stack. *)
Definition saved_regs (c : core) (m : Z → Z) : Prop :=
  let U := regs (proc c) ESP in
  m (U - 4) = regs (proc c) EBX ∧ m (U - 8) = regs (proc c) ESI ∧ m (U - 12) = regs (proc c) EDI ∧
  m (U - 16) = regs (proc c) EBP ∧ m U = mem (proc c) U.

Lemma fork_after_returned s cs0 ss0 c :
  16 ≤ regs (proc c) ESP < 2 ^ 32 - 4 → regs s ESP = regs (proc c) ESP - 16 → saved_regs c (mem s) → Z.land cs0 3 ≠ 0 →
  ∃ c', urun fork_after (mkCore s cs0 ss0) = Some c' ∧ fork_returned c (regs s EAX) c'.
Proof.
  intros HU HE (S1 & S2 & S3 & S4 & S5) Hcs.
  destruct (fork_after_runs s cs0 ss0 _ HE HU) as (s' & Hrun & H1 & H2 & H3 & H4 & H5 & H6 & H7 & _ & _).
  eexists. split; [exact Hrun|]. split; cbn [proc]; [done|done|by rewrite H2|set_solver by congruence|].
  unfold user. cbn [cs]. by destruct (Z.eqb_spec (Z.land cs0 3) 0).
Qed.

Lemma fork_stub next c :
  urun (fork next) c =
  (let s := pushl (map (regs (proc c)) [EBX; ESI; EDI; EBP]) (proc c) in
   c2 ← take (vector SysCall) true None (mkCore (mkCpu (file (set_reg EAX 2 s)) (eflags s) next (mem s)) (cs c) (ss c));
   urun fork_after c2).
Proof.
  change (urun (fork next) c) with
    (let s1 := push (regs (proc c) EBX) (proc c) in let s2 := push (regs s1 ESI) s1 in let s3 := push (regs s2 EDI) s2 in
     let s := push (regs s3 EBP) s3 in
     c2 ← take (vector SysCall) true None (mkCore (mkCpu (file (set_reg EAX 2 s)) (eflags s) next (mem s)) (cs c) (ss c));
     urun fork_after c2).
  cbv zeta. by rewrite !push_regs by done.
Qed.

(** C20. [fork] returns twice.  In the parent it returns the child's number.
    The place and the stack pointer that [sysHandler] finds in its frame
    are all that the child needs: from whatever state of the kernel,
    [switchToUser] with them and 0, in a copy of the memory, goes on behind
    the system call, and [fork] returns 0 to a caller with the same
    registers, at the same place. *)
Theorem fork_returns_twice next c keep :
  started (mem (proc c)) → user c = true → 72 ≤ top c < 2 ^ 32 → handler_ok keep SysCall c →
  let U := regs (proc c) ESP in
  16 ≤ U < 2 ^ 32 - 4 →
  (∀ a, U - 16 ≤ a < U + 4 → keep a ∧ ¬ top c - 32 ≤ a < top c ∧ ¬ idt ≤ a < idt + 2048 ∧ ¬ tss ≤ a < tss + 104) →
  ∃ st1 c',
    (argument st1 1 = 2 ∧ mem st1 (argument st1 2) = next ∧ mem st1 (argument st1 2 + 12) = U - 16) ∧
    (urun (fork next) c = Some c' ∧ fork_returned c (regs (code SysCall st1) EAX) c') ∧
    ∀ k, Z.land (cs k) 3 = 0 → 20 ≤ regs (proc k) ESP < 2 ^ 32 - 12 →
      argument (proc k) 1 = mem st1 (argument st1 2) → argument (proc k) 2 = mem st1 (argument st1 2 + 12) → argument (proc k) 3 = 0 →
      (∀ a, U - 16 ≤ a < U + 4 → mem (proc k) a = mem st1 a ∧ ¬ regs (proc k) ESP - 20 ≤ a < regs (proc k) ESP) →
      ∃ s k', krun SysCall switchToUser k = mkCore s userCS userSS ∧ eip s = next ∧
        urun fork_after (mkCore s userCS userSS) = Some k' ∧ fork_returned c 0 k'.
Proof.
  intros Hs Hu Ht Hok U HU Hap.
  set (l := map (regs (proc c)) [EBX; ESI; EDI; EBP]). set (s0 := pushl l (proc c)).
  destruct (pushl_pushed l (proc c) U eq_refl) as [P1 P2 P3 P4 P5]; [change (List.length l) with 4%nat; lia|]. fold s0 in P1, P2, P3, P4, P5.
  change (List.length l) with 4%nat in *.
  set (c1 := mkCore (mkCpu (file (set_reg EAX 2 s0)) (eflags s0) next (mem s0)) (cs c) (ss c)).
  assert (Hu1 : user c1 = true) by (rewrite <-Hu; by apply same_user).
  assert (Hout : ∀ a, (idt ≤ a < idt + 2048 ∨ tss ≤ a < tss + 104) → mem s0 a = mem (proc c) a).
  { intros a Ha. apply P5. intros Hin. destruct (Hap a) as (_ & _ & H1 & H2); [lia|]. destruct Ha; auto. }
  assert (Ht1 : top c1 = top c) by (rewrite !user_top by done; apply Hout; lia).
  assert (Hs1 : started (mem (proc c1))).
  { destruct Hs as (n & m0 & m1 & H1 & H2 & H3 & H4). exists n, m0, m1. split_and!; try done. intros a Ha. rewrite <-H4 by done. apply Hout. auto. }
  assert (Hsaved : saved_regs c (mem s0)).
  { unfold saved_regs. fold U. split_and!.
    - apply (P4 0%nat). done.
    - apply (P4 1%nat). done.
    - apply (P4 2%nat). done.
    - apply (P4 3%nat). done.
    - apply P5. lia. }
  destruct (syscall_back c1 keep) as (st1 & s1 & [[Ha1 _ Ha2] Hn Hip Hsp] & Htake & [R1 R2 R3 R4 R5]); try done; [by rewrite Ht1|by eapply handler_ok_ext|].
  assert (Hd : depth SysCall c1 = 32) by (unfold depth; by rewrite frame_length, Hu1). rewrite Hd, Ht1 in *.
  assert (Hm1 : ∀ a, U - 16 ≤ a < U + 4 → mem st1 a = mem s0 a) by (intros a Ha; apply Ha2; destruct (Hap a Ha); tauto).
  assert (Hsaved1 : saved_regs c (mem st1)) by (revert Hsaved; unfold saved_regs; fold U; by rewrite !Hm1 by lia).
  assert (Hesp1 : regs (proc c1) ESP = U - 16) by (cbn [proc c1]; rewrite regs_mk, set_reg_regs, decide_False by done; lia).
  assert (HspU : regs s1 ESP = U - 16) by (rewrite R1 by (by left); exact Hesp1).
  assert (Hcode : ∀ a, U - 16 ≤ a < U + 4 → mem (code SysCall st1) a = mem st1 a).
  { intros a Ha. destruct Hok as [Hok _]. assert (Hdc : depth SysCall c = 32) by (unfold depth; by rewrite frame_length, Hu).
    destruct (Hok st1) as [_ _ Hm]; [by rewrite Ha1, Hdc|]. apply Hm. by apply Hap. }
  destruct (fork_after_returned s1 (cs c) (ss c) c HU HspU) as (c' & Hafter & Hret).
  { rewrite R5. revert Hsaved1. unfold saved_regs. fold U. by rewrite !Hcode by lia. }
  { unfold user in Hu. by destruct (Z.eqb_spec (Z.land (cs c) 3) 0). }
  exists st1, c'. split_and!.
  - rewrite Hn. cbn [proc c1]. by rewrite regs_mk, set_reg_regs.
  - exact Hip.
  - by rewrite Hsp.
  - rewrite fork_stub. fold l s0. change (mkCore _ (cs c) (ss c)) with c1. by rewrite Htake.
  - by rewrite <-R2.
  - intros k Hk HkE A1 A2 A3 Hmk. destruct (switchToUser_runs SysCall k Hk HkE) as (s & Hrun & K1 & K2 & K3 & _ & K5).
    destruct (fork_after_returned s userCS userSS c HU) as (k' & Hafter' & Hret').
    + by rewrite K2, A2, Hsp.
    + assert (Hms : ∀ a, U - 16 ≤ a < U + 4 → mem s a = mem st1 a) by (intros a Ha; destruct (Hmk a Ha) as [<- ?]; by apply K5).
      revert Hsaved1. unfold saved_regs. fold U. by rewrite !Hms by lia.
    + done.
    + rewrite K3, A3 in Hret'. exists s, k'. split_and!; [done|by rewrite K1, A1|done|done].
Qed.
End traps.

(** ** Witnesses *)

(** A table at 4096, a task segment at 8192 with a stack below 32768, and
    user code with its stack below 2415919104. *)
Definition sample_label (h : handler) : Z :=
  match h with Spurious => 0x7c00 | Apit => 0x7c10 | KeyBoard => 0x7c20 | PageFault => 0x7c30 | SysCall => 0x7c40 end.
Definition sample_code (h : handler) (s : cpu) : cpu := set_reg EAX 21 (set_reg ESP (regs s ESP + 4) s).
Definition sample_first : Z → Z := λ a, if a =? 8196 then 32768 else if a =? 8200 then kernelSS else if a =? 2415919104 then 77 else 0.
Definition sample_mem : Z → Z := match start_up 4096 sample_label 2 sample_first with Ok _ m => m | _ => sample_first end.
Definition sample_core : core := mkCore (mkCpu (mkRegs 1 2 3 4 2415919104 6 7 8 9 10) 0x202 0x80000000 sample_mem) userCS userSS.

Lemma sample_range h : 0 ≤ sample_label h < 2 ^ 32.
Proof. by destruct h. Qed.

Lemma sample_label_inj h h' : sample_label h = sample_label h' → h = h'.
Proof. by destruct h, h'. Qed.

Lemma sample_start : start_up 4096 sample_label 2 sample_first = Ok () sample_mem ∧
  ∀ a, ¬ 4096 ≤ a < 6144 → sample_mem a = sample_first a.
Proof.
  pose proof (wp_start_up 4096 sample_label sample_range 2 sample_first ltac:(lia) eq_refl) as Hw. unfold wp in Hw.
  unfold sample_mem. destruct (start_up 4096 sample_label 2 sample_first) as [[] m|m| |] eqn:E; try done. by destruct Hw.
Qed.

Lemma sample_started : started 4096 sample_label sample_mem.
Proof. exists 2%nat, sample_first, sample_mem. split_and!; [lia|done|apply sample_start|done]. Qed.

Lemma sample_conventions h : handler_ok 8192 sample_code (λ _, True) h sample_core.
Proof.
  split; [|done]. intros st1 _. unfold sample_code. split.
  - by rewrite !set_reg_regs.
  - intros r Hr. by rewrite !set_reg_regs, !decide_False by (by intros ->).
  - done.
Qed.

Lemma sample_top : top 8192 sample_core = 32768.
Proof. unfold top. change (user sample_core) with true. cbn [proc sample_core mem]. by rewrite (proj2 sample_start) by lia. Qed.

Lemma interrupts_transparent_witness :
  ∃ m', take 4096 8192 sample_label sample_code 500 14 false (Some 6) sample_core =
    Some (mkCore (mkCpu (mkRegs 1 2 3 4 2415919104 6 7 8 9 10) 0x202 0x80000000 m') userCS userSS).
Proof.
  destruct (interrupts_transparent 4096 8192 sample_label sample_code 500 sample_range sample_label_inj PageFault (Some 6)
              sample_core (λ _, True)) as (m' & H & _).
  - by exists 6.
  - apply sample_started.
  - rewrite sample_top. lia.
  - apply sample_conventions.
  - exists m'. exact H.
Defined.

Lemma system_calls_return_witness :
  ∃ s', urun 4096 8192 sample_label sample_code 500 (sys_call 10 0x80000010) sample_core = Some (mkCore s' userCS userSS) ∧
    regs s' EAX = 21 ∧ eip s' = 77 ∧ regs s' ESP = 2415919108.
Proof.
  destruct (system_calls_return 4096 8192 sample_label sample_code 500 sample_range sample_label_inj 10 0x80000010 sample_core (λ _, True))
    as (st1 & s' & H & _ & H1 & H2 & H3 & _).
  - apply sample_started.
  - reflexivity.
  - rewrite sample_top. lia.
  - apply sample_conventions.
  - change (regs (proc sample_core) ESP) with 2415919104. lia.
  - exact I.
  - rewrite sample_top. change (regs (proc sample_core) ESP) with 2415919104. lia.
  - exists s'. split_and!; [exact H| |rewrite H3; apply (proj2 sample_start); change (regs (proc sample_core) ESP) with 2415919104; lia|exact H2].
    rewrite H1. unfold sample_code. by rewrite set_reg_regs.
Defined.

Lemma fork_returns_twice_witness :
  ∃ c', urun 4096 8192 sample_label sample_code 500 (fork 0x80000020) sample_core = Some c' ∧ regs (proc c') EAX = 21 ∧ regs (proc c') EBX = 4.
Proof.
  destruct (fork_returns_twice 4096 8192 sample_label sample_code 500 sample_range sample_label_inj 0x80000020 sample_core (λ _, True))
    as (st1 & c' & _ & (H & [H1 _ _ H2 _]) & _).
  - apply sample_started.
  - reflexivity.
  - rewrite sample_top. lia.
  - apply sample_conventions.
  - change (regs (proc sample_core) ESP) with 2415919104. lia.
  - change (regs (proc sample_core) ESP) with 2415919104. rewrite sample_top. intros a Ha. split_and!; [exact I|lia|lia|lia].
  - exists c'. split_and!; [exact H| |by rewrite H2; [|apply list_elem_of_here]].
    rewrite H1. unfold sample_code. by rewrite set_reg_regs.
Defined.

(** The gate of the page fault may be asked for, and then there is no error
    code: the stub takes one from the frame all the same, and returns to the
    selector of the code segment as if it were the place. *)
Lemma int_14_misreturns :
  (λ c, (eip (proc c), cs c)) <$> take 4096 8192 sample_label sample_code 500 14 true None sample_core = Some (userCS, 0x202).
Proof. vm_compute. reflexivity. Qed.
