(* ===== verification/Ide.v ===== *)
(** * The disk driver (kernel/ide.cc, kernel/ide.h)

    Reading a sector through the ports of an IDE controller by polling.
    The port instructions and the drive behind them are not part of the
    program: they are the parameters of the driver, with what the ATA
    standard says about them as laws.  A status read after a command is
    taken to be valid: the host is to wait 400 ns, and the accesses to the
    ports are slower than that.  The driver looks at bits that have no
    meaning while the drive is busy; over a drive that is kind to it there,
    it keeps the promise of a block device that [Ext2] is built on.  The
    lock around a read makes it one step; the counters of reads and writes
    are left aside. *)

From S2P Require Import Prelude.
From S2P Require Import BlockIO.

(** ** The driver *)

Record Ports (S : Type) := mkPorts {
  outb : Z → Z → M S ();
  inb : Z → M S Z;
  inl_ : Z → M S Z
}.
Arguments mkPorts {S}.
Arguments outb {S}.
Arguments inb {S}.
Arguments inl_ {S}.

Definition ERR : Z := 0x01.
Definition DRQ : Z := 0x08.
Definition DF : Z := 0x20.
Definition DRDY : Z := 0x40.
Definition BSY : Z := 0x80.

Section driver.
Context {S : Type} (P : Ports S) (drive : Z).
(** The fuel of the polling loops. *)
Context (polls : nat).

Definition controller : Z := Z.land (Z.shiftr drive 1) 1.
Definition channel : Z := Z.land drive 1.
Definition port : Z := if decide (controller = 0) then 0x1f0 else 0x170.

Definition getStatus : M S Z := inb P (port + 7).

(** [while (condition of the status) pause()]. *)
Definition poll (again : Z → bool) : M S () :=
  iter polls (λ _, st ← getStatus; mret (if again st then inl () else inr ())) ().

Definition waitForDrive : M S () :=
  status ← getStatus;
  assert (Z.land status (Z.lor ERR DF) = 0);;
  assert (Z.land status DRDY ≠ 0);;
  poll (λ st, bool_decide (Z.land st BSY ≠ 0)).

(** The words at the data port, as bytes. *)
Fixpoint read_words (n : nat) : M S (list Z) :=
  match n with
  | O => mret []
  | Datatypes.S n => w ← inl_ P port; b ← read_words n; mret (word w ++ b)
  end.

Definition read_block (sector : Z) : M S (list Z) :=
  waitForDrive;;
  outb P (port + 2) 1;;
  outb P (port + 3) (u8 (Z.shiftr sector 0));;
  outb P (port + 4) (u8 (Z.shiftr sector 8));;
  outb P (port + 5) (u8 (Z.shiftr sector 16));;
  outb P (port + 6) (u8 (Z.lor (Z.lor 0xE0 (Z.shiftl channel 4)) (Z.land (Z.shiftr sector 24) 0xf)));;
  outb P (port + 7) 0x20;;
  waitForDrive;;
  poll (λ st, bool_decide (Z.land st DRQ = 0));;
  read_words 128.

(** The device: its size is made up. *)
Definition Ide : BlockIO S := mkBlockIO 512 (2 ^ 32 - 1) read_block.
End driver.

(** ** What the drive does

    [A r b q s] holds in a state [s] where the registers hold [r] and the
    words [q] are to be handed over, now if [b] is zero; else the drive may
    be busy, for at most [b] more polls. *)

(** The sector that the registers select, for a drive on [channel]. *)
Definition lba (r : Z → Z) : Z := r 3 + 2 ^ 8 * r 4 + 2 ^ 16 * r 5 + 2 ^ 24 * (r 6 mod 16).

Definition sector_words (disk : Z → Z) (k : Z) : list Z :=
  map (λ i, le (slice disk (k * 512 + 4 * i) 4)) (seqZ 0 128).

(** The bits that [waitForDrive] tests first. *)
Definition healthy (st : Z) : Prop := Z.land st (Z.lor ERR DF) = 0 ∧ Z.land st DRDY ≠ 0.

(** A drive of [capacity] sectors, as the ATA standard has it.  While it is
    busy its registers are not to be written, and the other bits of the
    status mean nothing. *)
Record Drive {S} (P : Ports S) (drive : Z) (disk : Z → Z) (capacity : Z) (patience : nat)
    (A : (Z → Z) → nat → list Z → S → Prop) : Prop := {
  (** a drive that is not busy takes the byte written to a register *)
  dr_register : ∀ k v r s, 2 ≤ k ≤ 6 → 0 ≤ v < 256 → A r 0%nat [] s →
    wp (outb P (port drive + k) v) (λ _, A (upd r k v) 0%nat []) s;
  (** READ SECTORS, with one sector, in LBA mode, for the drive, and of a
      sector that it has *)
  dr_read : ∀ r s, A r 0%nat [] s → r 2 = 1 → r 6 / 16 = 14 + channel drive → lba r < capacity →
    wp (outb P (port drive + 7) 0x20)
       (λ _ s', ∃ b, (b <= patience)%nat ∧ A r b (sector_words disk (lba r)) s') s;
  (** the drive is busy for some polls, whatever the other bits; then it is
      ready, without an error, and asks for the transfer if it has data *)
  dr_status : ∀ r b q s, A r b q s →
    wp (inb P (port drive + 7))
       (λ st s', if decide (Z.land st BSY = 0) then healthy st ∧ (q = [] ∨ Z.land st DRQ ≠ 0) ∧ A r 0%nat q s'
                 else ∃ b', (b' < b)%nat ∧ A r b' q s') s;
  (** the words come out in order *)
  dr_data : ∀ r w q s, A r 0%nat (w :: q) s → wp (inl_ P (port drive)) (λ x s', x = w ∧ A r 0%nat q s') s
}.

(** A drive that shows no error and that it is ready while it is busy, too,
    which the standard leaves open and the driver takes for granted. *)
Definition calm {S} (P : Ports S) (drive : Z) (A : (Z → Z) → nat → list Z → S → Prop) : Prop :=
  ∀ r b q s, A r b q s → wp (inb P (port drive + 7)) (λ st _, healthy st) s.

Section spec.
Context {S : Type} (P : Ports S) (drive : Z) (disk : Z → Z) (capacity : Z) (patience : nat).
Context (A : (Z → Z) → nat → list Z → S → Prop) (HD : Drive P drive disk capacity patience A).
Context (Hbytes : ∀ i, 0 ≤ disk i < 256).

(** What stops the driver: a status without the bits that it wants, from a
    drive that is busy. *)
Definition refused (s : S) : Prop := ¬ calm P drive A ∧ ∃ r b q, A r b q s.

Lemma wpx_status r b q (Q : Z → S → Prop) s :
  A r b q s →
  (∀ st s', Z.land st BSY = 0 → healthy st → (q = [] ∨ Z.land st DRQ ≠ 0) → A r 0%nat q s' → Q st s') →
  (∀ st s' b', Z.land st BSY ≠ 0 → (calm P drive A → healthy st) → (b' < b)%nat → A r b' q s' → Q st s') →
  wpx (getStatus P drive) Q refused s.
Proof.
  intros HA H0 H1. unfold getStatus. pose proof (dr_status _ _ _ _ _ _ HD r b q s HA) as Hst. pose proof (λ Hc : calm P drive A, Hc r b q s HA) as Hc.
  unfold wp, wpx in *. destruct (inb P (port drive + 7) s) as [st s'| | |]; [|done..].
  case_decide; [by apply H0; destruct_and!|]. destruct Hst as (b' & ? & ?). by apply (H1 st s' b').
Qed.

(** A polling loop ends if it does not go on once the drive is not busy. *)
Lemma wpx_poll r b q again n (Q : () → S → Prop) s :
  A r b q s → (b < n)%nat →
  (∀ st, again st = true → Z.land st BSY ≠ 0 ∨ (b = 0%nat ∧ q ≠ [] ∧ Z.land st DRQ = 0)) →
  (∀ st s' b', again st = false → (b' <= b)%nat → A r b' q s' → (Z.land st BSY = 0 → b' = 0%nat) → Q () s') →
  wpx (poll P drive n again) Q refused s.
Proof.
  intros HA Hn Hag HQ. revert b s HA Hn Hag HQ. unfold poll. induction n as [|n IH]; intros b s HA Hn Hag HQ; [lia|].
  cbn [iter]. apply wpx_bind, wpx_bind. eapply wpx_status; [done|..].
  - intros st s' Hb _ Hdrq HA'. apply wpx_ret. destruct (again st) eqn:Est.
    + destruct (Hag st Est) as [?|(_ & Hq & Hd)]; [done|]. by destruct Hdrq.
    + apply wpx_ret. apply (HQ st s' 0%nat); [done|lia|done|done].
  - intros st s' b' Hb _ Hlt HA'. apply wpx_ret. destruct (again st) eqn:Est.
    + apply (IH b'); [done|lia| |].
      * intros st2 [?|(-> & ? & ?)]%Hag; [by left|lia].
      * intros st2 s2 b2 E2 Hle HA2 H2. apply (HQ st2 s2 b2); [done|lia|done|done].
    + apply wpx_ret. apply (HQ st s' b'); [done|lia|done|done].
Qed.

Lemma wpx_waitForDrive r b q n (Q : () → S → Prop) s :
  A r b q s → (b < n)%nat → (∀ s', A r 0%nat q s' → Q () s') → wpx (waitForDrive P drive n) Q refused s.
Proof.
  intros HA Hn HQ. unfold waitForDrive.
  assert (Hpoll : ∀ b' s', (b' <= b)%nat → A r b' q s' → wpx (poll P drive n (λ st, bool_decide (Z.land st BSY ≠ 0))) Q refused s').
  { intros b' s' Hle HA'. eapply wpx_poll; [exact HA'|lia|by intros st E%bool_decide_eq_true; left|].
    intros st s2 b2 E%bool_decide_eq_false _ HA2 H0. rewrite H0 in HA2 by (by destruct (decide (Z.land st BSY = 0))). by apply HQ. }
  apply wpx_bind. eapply wpx_status; [done|..].
  - intros st s' _ [H1 H2] _ HA'. apply wpx_bind, wp_wpx, wp_assert; [done|]. apply wpx_bind, wp_wpx, wp_assert; [done|].
    apply (Hpoll 0%nat); [lia|done].
  - intros st s' b' _ Hc Hlt HA'.
    assert (Hstop : ¬ healthy st → refused s') by (intros Hh; split; [by intros ?%Hc|by exists r, b', q]).
    apply wpx_bind. unfold assert, wpx. destruct (decide (Z.land st (Z.lor ERR DF) = 0)) as [H1|H1]; [|apply Hstop; by intros [??]].
    apply wpx_bind. unfold assert, wpx. destruct (decide (Z.land st DRDY ≠ 0)) as [H2|H2]; [|apply Hstop; by intros [??]].
    apply (Hpoll b'); [lia|done].
Qed.

Lemma wp_read_words r q (Q : list Z → S → Prop) s :
  A r 0%nat q s → (∀ s', A r 0%nat [] s' → Q (concat (map word q)) s') → wp (read_words P drive (List.length q)) Q s.
Proof.
  revert Q s. induction q as [|w q IH]; intros Q s HA HQ; simpl.
  - apply wp_ret. by apply HQ.
  - apply wp_bind. eapply wp_mono; [by eapply (dr_data _ _ _ _ _ _ HD)|]. intros x s' [-> HA'].
    apply wp_bind, IH; [done|]. intros s2 HA2. apply wp_ret. by apply HQ.
Qed.

Lemma words_slice off n :
  concat (map word (map (λ i, le (slice disk (off + 4 * i) 4)) (seqZ 0 (Z.of_nat n)))) = slice disk off (4 * n).
Proof.
  induction n as [|n IH]; [done|].
  replace (Z.of_nat (Datatypes.S n)) with (Z.of_nat n + 1) by lia.
  rewrite seqZ_app, !map_app, concat_app, IH by lia.
  replace (4 * Datatypes.S n)%nat with (4 * n + 4)%nat by lia. rewrite slice_app. f_equal.
  change (seqZ (0 + Z.of_nat n) 1) with [0 + Z.of_nat n]. cbn [map concat]. rewrite app_nil_r.
  cbn [slice]. rewrite word_le by auto.
  replace (off + 4 * (0 + Z.of_nat n)) with (off + Z.of_nat (4 * n)) by lia. done.
Qed.

(** The registers of a sector number. *)
Lemma select_drive k :
  let v := u8 (Z.lor (Z.lor 0xE0 (Z.shiftl (channel drive) 4)) (Z.land (Z.shiftr k 24) 0xf)) in
  v / 16 = 14 + channel drive ∧ v mod 16 = Z.land (Z.shiftr k 24) 0xf.
Proof.
  assert (Hc : channel drive = 0 ∨ channel drive = 1).
  { unfold channel. pose proof (Z.land_ones drive 1 ltac:(lia)) as E. change (Z.ones 1) with 1 in E.
    rewrite E. pose proof (Z.mod_pos_bound drive (2 ^ 1) ltac:(lia)). lia. }
  assert (Hh : Z.land (Z.shiftr k 24) 0xf ∈ seqZ 0 16).
  { apply elem_of_seqZ. change 0xf with (Z.ones 4). rewrite Z.land_ones by lia.
    pose proof (Z.mod_pos_bound (Z.shiftr k 24) (2 ^ 4) ltac:(lia)). lia. }
  revert Hh. generalize (Z.land (Z.shiftr k 24) 0xf). intros h Hh.
  assert (Hall : ∀ c, c = 0 ∨ c = 1 → Forall (λ h, u8 (Z.lor (Z.lor 0xE0 (Z.shiftl c 4)) h) / 16 = 14 + c ∧
      u8 (Z.lor (Z.lor 0xE0 (Z.shiftl c 4)) h) mod 16 = h) (seqZ 0 16)).
  { intros c [-> | ->]; apply (bool_decide_unpack _); vm_compute; exact I. }
  specialize (Hall _ Hc). rewrite Forall_forall in Hall. by apply Hall.
Qed.

Lemma lba_sector r k :
  0 ≤ k < 2 ^ 28 → r 3 = u8 (Z.shiftr k 0) → r 4 = u8 (Z.shiftr k 8) → r 5 = u8 (Z.shiftr k 16) →
  r 6 mod 16 = Z.land (Z.shiftr k 24) 0xf → lba r = k.
Proof.
  intros Hk E3 E4 E5 E6. unfold lba. rewrite E3, E4, E5, E6. unfold u8. rewrite !Z.shiftr_div_pow2 by lia.
  change 0xf with (Z.ones 4). rewrite Z.land_ones by lia.
  assert (0 ≤ k / 2 ^ 24 < 16) by (split; [apply Z.div_pos|apply Z.div_lt_upper_bound]; lia).
  rewrite (Z.mod_small (k / 2 ^ 24)) by lia. pose proof (le_word k ltac:(lia)) as Hw. unfold word in Hw. cbn [le] in Hw.
  rewrite (Z.mod_small (k / 2 ^ 24)) in Hw by lia. change (k / 2 ^ 0) with (k / 1). rewrite Z.div_1_r.
  change (2 ^ 8) with 256 in *. change (2 ^ 16) with 65536 in *. change (2 ^ 24) with 16777216 in *. lia.
Qed.

(** Between two reads the drive is idle. *)
Definition idle (s : S) : Prop := ∃ r b, (b <= patience)%nat ∧ A r b [] s.

Lemma wpx_read_block k (Q : list Z → S → Prop) s :
  0 ≤ k < Z.min capacity (2 ^ 28) → idle s → (∀ s', idle s' → Q (slice disk (k * 512) 512) s') →
  wpx (read_block P drive (Datatypes.S patience) k) Q refused s.
Proof.
  intros Hk (r & b & Hb & HA) HQ. unfold read_block. destruct (select_drive k) as [H6 H6'].
  set (v6 := u8 (Z.lor (Z.lor _ _) _)) in *.
  assert (Hu8 : ∀ z, 0 ≤ u8 z < 256) by (intros; apply Z.mod_pos_bound; lia).
  apply wpx_bind. eapply wpx_waitForDrive; [exact HA|lia|]. intros s1 HA1.
  do 5 (apply wpx_bind, wp_wpx; eapply wp_mono; [eapply (dr_register _ _ _ _ _ _ HD); [lia|lia || apply Hu8|eassumption]|];
        intros [] ? ?).
  match goal with H : A ?r0 0%nat [] _ |- _ => set (regs := r0) in * end.
  assert (El : lba regs = k) by (apply lba_sector; [lia|reflexivity..|exact H6']).
  apply wpx_bind, wp_wpx. eapply wp_mono; [eapply (dr_read _ _ _ _ _ _ HD); [eassumption|reflexivity|exact H6|rewrite El; lia]|].
  intros [] s2 (b2 & Hb2 & HA2). rewrite El in HA2.
  assert (Hq : sector_words disk k ≠ []).
  { intros Hq. apply (f_equal (@List.length Z)) in Hq. unfold sector_words in Hq. by rewrite length_map, length_seqZ in Hq. }
  apply wpx_bind. eapply wpx_waitForDrive; [exact HA2|lia|]. intros s3 HA3.
  apply wpx_bind. eapply wpx_poll; [exact HA3|lia| |].
  - intros st E%bool_decide_eq_true. by right.
  - intros st s4 b4 _ Hle HA4 _. assert (b4 = 0%nat) as -> by lia.
    replace 128%nat with (List.length (sector_words disk k)) by (unfold sector_words; by rewrite length_map, length_seqZ).
    apply wp_wpx. eapply wp_read_words; [exact HA4|]. intros s5 HA5. unfold sector_words.
    pose proof (words_slice (k * 512) 128) as Hw. change (Z.of_nat 128) with 128 in Hw. rewrite Hw. apply HQ. eexists _, 0%nat. split; [lia|exact HA5].
Qed.

(** Over a calm drive that is as large as the driver says. *)
Lemma calm_content :
  calm P drive A → 2 ^ 23 ≤ capacity → Content (Ide P drive (Datatypes.S patience)) idle disk.
Proof.
  intros Hcalm Hcap. split; simpl; [lia|lia|]. intros k s Hk Hlt HI.
  assert (H : wpx (read_block P drive (Datatypes.S patience) k) (λ b s', b = slice disk (k * 512) 512 ∧ idle s') refused s).
  { apply wpx_read_block; [lia|done|]. intros s' HI'. by split. }
  unfold wp, wpx in *. destruct (read_block P drive _ k s) as [b s'|s'| |]; [by destruct H as [-> ?]|by destruct H|done|done].
Qed.
End spec.

(** ** Property *)

(** C13. Over any drive that does what the ATA standard says, reading a
    sector that the drive has selects that sector, polls to the end, and
    returns its 512 bytes in order, whatever the registers held before; it
    never hangs or mixes sectors up, but it may panic, and that only if the
    drive shows an error bit or no DRDY while it is busy, where the standard
    gives these bits no meaning.  Over a drive that never does so, and that
    is as large as the driver claims (2^23 sectors, whatever its size), the
    driver is a block device with the contents of the drive. *)
Theorem ide_is_block_device {S} (P : Ports S) drive disk capacity patience A :
  Drive P drive disk capacity patience A → (∀ i, 0 ≤ disk i < 256) →
  (∀ k s, 0 ≤ k < Z.min capacity (2 ^ 28) → idle patience A s →
     wpx (read_block P drive (Datatypes.S patience) k)
         (λ b s', b = slice disk (k * 512) 512 ∧ idle patience A s')
         (λ s', ¬ calm P drive A ∧ ∃ r b q, A r b q s') s) ∧
  (calm P drive A → 2 ^ 23 ≤ capacity → Content (Ide P drive (Datatypes.S patience)) (idle patience A) disk).
Proof.
  intros HD Hbytes. split; [|by eapply calm_content]. intros k s Hk HI.
  apply (wpx_read_block P drive disk capacity patience A HD Hbytes); [done|done|]. intros s' HI'. by split.
Qed.

(** ** Witness *)

Module SampleDrive.
(** A drive that is busy for two polls after every command, and shows
    [other] besides then. *)
Record ata := mkAta { regs : Z → Z; busy : nat; words : list Z }.

Definition counting (i : Z) : Z := i mod 251.

Definition ports_showing (other : Z) (contents : Z → Z) (drive : Z) : Ports ata := mkPorts
  (λ p v s,
     if decide (p = port drive + 7) then
       if decide (v = 0x20) then Ok () (mkAta (regs s) 2 (sector_words contents (lba (regs s))))
       else Ok () s
     else Ok () (mkAta (upd (regs s) (p - port drive) v) (busy s) (words s)))
  (λ p s,
     match busy s with
     | Datatypes.S b => Ok (Z.lor other BSY) (mkAta (regs s) b (words s))
     | O => Ok (if decide (words s = []) then DRDY else Z.lor DRDY DRQ) s
     end)
  (λ p s,
     match words s with
     | w :: q => Ok w (mkAta (regs s) (busy s) q)
     | [] => Ok 0 s
     end).
Abbreviation ports := (ports_showing DRDY).

Definition shows (r : Z → Z) (b : nat) (q : list Z) (s : ata) : Prop := s = mkAta r b q.

Lemma sample_drive other contents drive capacity :
  other ∈ [0; DRDY] → Drive (ports_showing other contents drive) drive contents capacity 2 shows.
Proof.
  intros Ho. assert (Hb : Z.land (Z.lor other BSY) BSY ≠ 0) by (by apply elem_of_cons in Ho as [-> |Ho%list_elem_of_singleton]; [|subst]; vm_compute).
  split.
  - intros k v r s Hk Hv ->. unfold wp. simpl. rewrite decide_False by lia. unfold shows. do 2 f_equal. lia.
  - intros r s -> _ _ _. unfold wp. simpl. rewrite decide_True by lia. by exists 2%nat.
  - intros r b q s ->. unfold wp. simpl. destruct b as [|b].
    + destruct (decide (q = [])) as [->|Hq]; rewrite (decide_True (P := Z.land _ BSY = 0)) by done.
      * split_and!; [done|by left|done].
      * split_and!; [done|by right|done].
    + rewrite decide_False by done. exists b. split; [lia|done].
  - intros r w q s ->. by split.
Qed.

Lemma sample_calm contents drive : calm (ports contents drive) drive shows.
Proof. intros r b q s ->. unfold wp. simpl. destruct b; [by destruct q|done]. Qed.
End SampleDrive.

(** The drive that shows nothing but that it is busy stops the driver,
    which has just given it a command. *)
Example busy_drive_panics :
  match read_block (SampleDrive.ports_showing 0 SampleDrive.counting 1) 1 3 5 (SampleDrive.mkAta (λ _, 77) 0 []) with
  | Panicked _ => True
  | _ => False
  end.
Proof. vm_compute. exact I. Qed.

(** A drive that reports an error of the command, as one does for a sector
    that it has not got: the driver waits for the data for ever. *)
Inductive answer := Waits | Works | Fails.

Definition missing_sector (drive : Z) : Ports answer := mkPorts
  (λ p v s, if decide (p = port drive + 7) then Ok () Works else Ok () s)
  (λ p s, match s with
          | Waits => Ok DRDY Waits
          | Works => Ok (Z.lor DRDY BSY) Fails
          | Fails => Ok (Z.lor DRDY ERR) Fails
          end)
  (λ p s, Ok 0 s).

Lemma missing_sector_hangs polls : read_block (missing_sector 1) 1 (Datatypes.S polls) (2 ^ 27) Waits = OutOfFuel.
Proof.
  assert (H : ∀ k, poll (missing_sector 1) 1 k (λ st, bool_decide (Z.land st DRQ = 0)) Fails = OutOfFuel).
  { induction k as [|k IH]; [done|]. exact IH. }
  assert (H1 : waitForDrive (missing_sector 1) 1 (Datatypes.S polls) Waits = Ok () Waits) by reflexivity.
  assert (H2 : waitForDrive (missing_sector 1) 1 (Datatypes.S polls) Works = Ok () Fails) by reflexivity.
  unfold read_block, mbind, M_bind. rewrite H1.
  assert (Hw : ∀ k v, k ≠ 7 → outb (missing_sector 1) (port 1 + k) v Waits = Ok () Waits).
  { intros k v Hk. cbn [outb missing_sector]. by rewrite decide_False by lia. }
  rewrite !Hw by done. change (outb (missing_sector 1) (port 1 + 7) 0x20 Waits) with (Ok () Works). cbv beta iota.
  rewrite H2. cbv beta iota. by rewrite H.
Qed.

Lemma ide_is_block_device_witness :
  match read_block (SampleDrive.ports SampleDrive.counting 1) 1 3 5 (SampleDrive.mkAta (λ _, 77) 1 []) with
  | Ok b _ => take 3 b = [50; 51; 52]
  | _ => False
  end ∧
  Content (Ide (SampleDrive.ports SampleDrive.counting 1) 1 3) (idle 2 SampleDrive.shows) SampleDrive.counting.
Proof.
  split; [vm_compute; reflexivity|].
  apply (ide_is_block_device (SampleDrive.ports SampleDrive.counting 1) 1 SampleDrive.counting (2 ^ 23) 2 SampleDrive.shows);
    [apply SampleDrive.sample_drive; right; left|
     intros i; unfold SampleDrive.counting; pose proof (Z.mod_pos_bound i 251); lia|apply SampleDrive.sample_calm|lia].
Defined.
