(* ===== verification/Locks.v ===== *)
(** * Locks (kernel/atomic.h)

    [InterruptSafeLock] among any number of cores, each of which can be
    interrupted, between any two instructions and while interrupts are
    enabled, by a handler that takes the same lock.  The source asks "Is
    this correct?"; it is.  A [SpinLock] in the same place is not: the
    handler may wait for the code that it interrupts.  [ISL], which leaves
    the old flag to its caller, is with its users, in [SemaphoreImpl]. *)

From S2P Require Import Prelude.

(** ** [InterruptSafeLock]

    Where a piece of code is in [lock] and [unlock], with the local
    variable [wasDisabled]. *)
Inductive pc :=
| Out
| Lock_test                 (** [Interrupts::disable]: reading the flags *)
| Lock_cli (w : bool)       (** and [cli] unless they were off *)
| Lock_exchange (w : bool)  (** [taken.exchange(true)] *)
| Lock_was (w : bool)       (** [was = wasDisabled] *)
| Lock_restore (w : bool)   (** [Interrupts::restore], and round again *)
| Inside
| Unlock_was                (** [wasDisabled = was] *)
| Unlock_set (w : bool)     (** [taken.set(false)] *)
| Unlock_restore (w : bool).

(** A core: whether interrupts are enabled, and the code it is in, the one
    that runs first and those that are interrupted after it.  Each comes
    with the flag at its latest call of [lock], which the code does not
    see. *)
Record core := mkCore { iflag : bool; frames : list (pc * bool) }.

Record machine := mkMachine { taken : bool; was : bool; cores : list core }.

(** One instruction of [lock] or [unlock]: the flag, the lock, the field
    [was] and the place after it. *)
Definition advance (p : pc) (flag taken was : bool) : option (bool * bool * bool * pc) :=
  match p with
  | Lock_test => Some (flag, taken, was, Lock_cli (negb flag))
  | Lock_cli w => Some (if w then flag else false, taken, was, Lock_exchange w)
  | Lock_exchange w => Some (flag, true, was, if taken then Lock_restore w else Lock_was w)
  | Lock_was w => Some (flag, taken, w, Inside)
  | Lock_restore w => Some (if w then flag else true, taken, was, Lock_test)
  | Unlock_was => Some (flag, taken, was, Unlock_set was)
  | Unlock_set w => Some (flag, false, was, Unlock_restore w)
  | Unlock_restore w => Some (if w then flag else true, taken, was, Out)
  | Out | Inside => None
  end.

Inductive action :=
| Call              (** [lock()] *)
| Leave             (** [unlock()] *)
| Advance           (** the next instruction of either *)
| Flags (b : bool)  (** code outside turns interrupts on or off *)
| Interrupt         (** a handler begins, with interrupts off *)
| Iret.             (** a handler outside ends *)

(** What an action makes of a core, the lock and [was]. *)
Definition act (a : action) (k : core) (taken was : bool) : option (core * bool * bool) :=
  match a, frames k with
  | Call, (Out, _) :: fs => Some (mkCore (iflag k) ((Lock_test, iflag k) :: fs), taken, was)
  | Leave, (Inside, e) :: fs => Some (mkCore (iflag k) ((Unlock_was, e) :: fs), taken, was)
  | Advance, (p, e) :: fs =>
      match advance p (iflag k) taken was with
      | Some (flag, taken, was, p) => Some (mkCore flag ((p, e) :: fs), taken, was)
      | None => None
      end
  | Flags b, (Out, e) :: fs => Some (mkCore b ((Out, e) :: fs), taken, was)
  | Interrupt, fs => if iflag k then Some (mkCore false ((Out, false) :: fs), taken, was) else None
  | Iret, (Out, _) :: (f :: fs) => Some (mkCore true (f :: fs), taken, was)
  | _, _ => None
  end.

Definition exec (c : nat) (a : action) (m : machine) : option machine :=
  k ← cores m !! c;
  '(k, t, w) ← act a k (taken m) (was m);
  Some (mkMachine t w (<[c := k]> (cores m))).

(** Any number of cores outside the lock. *)
Definition start (flags : list bool) : machine :=
  mkMachine false false (map (λ b, mkCore b [(Out, b)]) flags).

Inductive reachable : machine → Prop :=
| reach_start flags : reachable (start flags)
| reach_step c a m m' : reachable m → exec c a m = Some m' → reachable m'.

(** ** The invariant *)

(** Between the exchange that takes the lock and the store that gives it
    back. *)
Definition holds (p : pc) : bool :=
  match p with Lock_was _ | Inside | Unlock_was | Unlock_set _ => true | _ => false end.

(** The flag, at a place whose call of [lock] found it to be [e]. *)
Definition frame_ok (flag : bool) (f : pc * bool) : Prop :=
  let '(p, e) := f in
  match p with
  | Out => True
  | Lock_test => flag = e
  | Lock_cli w => flag = e ∧ w = negb e
  | Lock_exchange w | Lock_was w | Lock_restore w | Unlock_set w | Unlock_restore w => flag = false ∧ w = negb e
  | Inside | Unlock_was => flag = false
  end.

(** Code is interrupted only where interrupts are enabled. *)
Definition core_ok (k : core) : Prop :=
  match frames k with f :: fs => frame_ok (iflag k) f ∧ Forall (frame_ok true) fs | [] => False end.

Definition holding (k : core) : bool := match frames k with (p, _) :: _ => holds p | [] => false end.

(** [was] is for the code inside. *)
Definition was_ok (w : bool) (k : core) : Prop :=
  match frames k with (Inside, e) :: _ | (Unlock_was, e) :: _ => w = negb e | _ => True end.

Record inv (m : machine) : Prop := {
  inv_cores : ∀ c k, cores m !! c = Some k → core_ok k ∧ was_ok (was m) k;
  inv_free : taken m = false → ∀ c k, cores m !! c = Some k → holding k = false;
  inv_taken : taken m = true → ∃ c k, cores m !! c = Some k ∧ holding k = true;
  inv_one : ∀ c k c' k', cores m !! c = Some k → holding k = true → cores m !! c' = Some k' → holding k' = true → c' = c
}.

Lemma lock_inv_start flags : inv (start flags).
Proof.
  assert (H : ∀ c k, cores (start flags) !! c = Some k → ∃ b, k = mkCore b [(Out, b)]).
  { intros c k. simpl. rewrite list_lookup_fmap. destruct (flags !! c) as [b|]; [intros [= <-]; by exists b|done]. }
  split.
  - intros c k [b ->]%H. by repeat constructor.
  - by intros _ c k [b ->]%H.
  - done.
  - by intros c k c' k' [b ->]%H.
Qed.

(** What an action does, given the invariant of its core: the core keeps it;
    the lock changes hands exactly with [taken]; [was] changes only in the
    hands of the holder. *)
Lemma act_ok a k t w k' t' w' :
  act a k t w = Some (k', t', w') → core_ok k → was_ok w k → (holding k = true → t = true) →
  core_ok k' ∧ was_ok w' k' ∧
  ((holding k' = holding k ∧ t' = t) ∨ (t = false ∧ holding k' = true ∧ t' = true) ∨ (holding k = true ∧ holding k' = false ∧ t' = false)) ∧
  (w' = w ∨ holding k = true).
Proof.
  unfold act, core_ok, was_ok, holding. destruct k as [flag [|[p e] fs]]; simpl; [by destruct a; try destruct flag|].
  intros Ha [Hf Hfs] Hw Ht. destruct a.
  - destruct p; try done. injection Ha as <- <- <-. simpl. naive_solver.
  - destruct p; try done. injection Ha as <- <- <-. simpl. naive_solver.
  - destruct p as [| |w0|w0|w0|w0| | |w0|w0]; simpl in *; try done; try (destruct t); try (destruct w0); try (destruct e);
      injection Ha as <- <- <-; simpl in *; naive_solver.
  - destruct p; try done. injection Ha as <- <- <-. simpl. naive_solver.
  - destruct flag; [|done]. injection Ha as <- <- <-. simpl. split_and!; [done|by constructor|done| |by left].
    left. split; [|done]. destruct p; naive_solver.
  - destruct p; try done. destruct fs as [|[p2 e2] fs]; [done|]. injection Ha as <- <- <-. simpl.
    apply Forall_cons in Hfs as [Hf2 Hfs]. split_and!; [done|done| | |by left].
    + destruct p2; naive_solver.
    + left. split; [|done]. destruct p2; naive_solver.
Qed.

Lemma inv_step c a m m' : inv m → exec c a m = Some m' → inv m'.
Proof.
  intros [Hcores Hfree Htaken Hone] He. unfold exec in He.
  destruct (cores m !! c) as [k|] eqn:Ek; [|done]. simpl in He.
  destruct (act a k (taken m) (was m)) as [[[k' t'] w']|] eqn:Ea; [|done]. injection He as <-.
  destruct (Hcores _ _ Ek) as [Hk Hw].
  destruct (act_ok _ _ _ _ _ _ _ Ea Hk Hw) as (Hk' & Hw' & Hhand & Hwas).
  { intros Hh. destruct (taken m) eqn:Et; [done|]. by rewrite (Hfree eq_refl _ _ Ek) in Hh. }
  assert (Hat : ∀ d x, <[c := k']> (cores m) !! d = Some x → (d = c ∧ x = k') ∨ (d ≠ c ∧ cores m !! d = Some x)).
  { intros d x [(-> & -> & _)|(? & ?)]%list_lookup_insert_Some; [by left|by right]. }
  assert (Hself : <[c := k']> (cores m) !! c = Some k') by (apply list_lookup_insert_eq; by eapply lookup_lt_Some).
  split; simpl.
  - intros d x [[-> ->]|[Hd Ed]]%Hat; [done|]. destruct (Hcores _ _ Ed) as [Hx Hwx]. split; [done|].
    destruct Hwas as [->|Hh]; [done|]. unfold was_ok. destruct (frames x) as [|[p e] fs] eqn:Ef; [done|].
    assert (Hx0 : holding x = false).
    { destruct (holding x) eqn:Hhx; [|done]. by destruct Hd; eapply (Hone c k d x). }
    unfold holding in Hx0. rewrite Ef in Hx0. by destruct p.
  - intros -> d x [[-> ->]|[Hd Ed]]%Hat.
    + destruct Hhand as [[-> Ht]|[(_ & _ & ?)|(_ & ? & _)]]; [|done|done]. by eapply Hfree.
    + destruct Hhand as [[_ Ht]|[(_ & _ & ?)|(Hh & _ & _)]]; [by eapply Hfree|done|].
      destruct (holding x) eqn:Hhx; [|done]. by destruct Hd; eapply (Hone c k d x).
  - intros ->. destruct Hhand as [[Hsame Ht]|[(_ & ? & _)|(_ & _ & ?)]]; [|by exists c, k'|done].
    destruct Htaken as (d & x & Ed & Hx); [done|]. destruct (decide (d = c)) as [->|Hd].
    + exists c, k'. rewrite Ek in Ed. injection Ed as ->. by rewrite Hsame.
    + exists d, x. by rewrite list_lookup_insert_ne.
  - intros d1 x1 d2 x2 [[-> ->]|[Hd1 E1]]%Hat H1 [[-> ->]|[Hd2 E2]]%Hat H2; [done| | |by eapply Hone].
    + destruct Hhand as [[Hsame Ht]|[(Ht & _ & _)|(_ & Hno & _)]]; [|by rewrite (Hfree Ht _ _ E2) in H2|congruence].
      rewrite Hsame in H1. by eapply (Hone c k).
    + destruct Hhand as [[Hsame Ht]|[(Ht & _ & _)|(_ & Hno & _)]]; [|by rewrite (Hfree Ht _ _ E1) in H1|congruence].
      rewrite Hsame in H2. symmetry. by eapply (Hone c k).
Qed.

Lemma lock_reachable_inv m : reachable m → inv m.
Proof. induction 1; [apply lock_inv_start|by eapply inv_step]. Qed.

(** The code at depth [i] of core [c] has the lock. *)
Definition in_section (m : machine) (c i : nat) : Prop :=
  ∃ k p e, cores m !! c = Some k ∧ frames k !! i = Some (p, e) ∧ holds p = true.

Lemma section_top m c i : inv m → in_section m c i → i = 0%nat ∧ ∃ k, cores m !! c = Some k ∧ holding k = true ∧ iflag k = false.
Proof.
  intros Hinv (k & p & e & Ek & Ef & Hp). destruct (inv_cores _ Hinv _ _ Ek) as [Hk _]. unfold core_ok in Hk.
  destruct (frames k) as [|[p0 e0] fs] eqn:Efs; [done|]. destruct Hk as [H0 Hfs]. destruct i as [|i].
  - injection Ef as -> ->. split; [done|]. exists k. unfold holding. rewrite Efs. split_and!; [done|done|].
    destruct p; naive_solver.
  - simpl in Ef. rewrite Forall_lookup in Hfs. specialize (Hfs _ _ Ef). destruct p; naive_solver.
Qed.

(** C15. However the cores and the interrupts interleave: at most one piece
    of code has the lock; it runs with interrupts off on its core, so it is
    never interrupted, nor waited for by a handler above it; when the lock
    is taken its holder can take its next step; and [unlock] leaves the
    interrupt flag as the call of [lock] found it. *)
Theorem interrupt_safe_lock_correct m :
  reachable m →
  (∀ c i c' i', in_section m c i → in_section m c' i' → c = c' ∧ i = i') ∧
  (∀ c i, in_section m c i → i = 0%nat ∧ ∃ k, cores m !! c = Some k ∧ iflag k = false) ∧
  (taken m = true ↔ ∃ c, in_section m c 0) ∧
  (taken m = true → ∃ c m', exec c Advance m = Some m' ∨ exec c Leave m = Some m') ∧
  (∀ c k w e fs m', cores m !! c = Some k → frames k = (Unlock_restore w, e) :: fs → exec c Advance m = Some m' →
     cores m' !! c = Some (mkCore e ((Out, e) :: fs))).
Proof.
  intros Hinv%lock_reachable_inv.
  assert (Hsec : ∀ c k, cores m !! c = Some k → holding k = true → in_section m c 0 ∧
            ∃ m', exec c Advance m = Some m' ∨ exec c Leave m = Some m').
  { intros c k Ek Hk. unfold in_section, exec. rewrite Ek. unfold holding in Hk. simpl.
    destruct (frames k) as [|[p e] fs] eqn:Ef; [done|]. split; [exists k, p, e; by rewrite Ef|].
    unfold act. rewrite ?Ef. destruct p; try done; simpl; eauto. }
  split_and!.
  - intros c i c' i' H H'. destruct (section_top _ _ _ Hinv H) as (-> & k & Ek & Hk & _).
    destruct (section_top _ _ _ Hinv H') as (-> & k' & Ek' & Hk' & _). split; [|done].
    symmetry. by eapply (inv_one _ Hinv c k c' k').
  - intros c i H. destruct (section_top _ _ _ Hinv H) as (-> & k & Ek & _ & Hf). split; [done|by exists k].
  - split.
    + intros Ht. destruct (inv_taken _ Hinv Ht) as (c & k & Ek & Hk). exists c. by destruct (Hsec c k).
    + intros [c H]. destruct (section_top _ _ _ Hinv H) as (_ & k & Ek & Hk & _).
      destruct (taken m) eqn:Et; [done|]. by rewrite (inv_free _ Hinv Et _ _ Ek) in Hk.
  - intros Ht. destruct (inv_taken _ Hinv Ht) as (c & k & Ek & Hk). exists c. by destruct (Hsec c k).
  - intros c k w e fs m' Ek Ef He. destruct (inv_cores _ Hinv _ _ Ek) as [Hk _]. unfold core_ok in Hk. rewrite Ef in Hk.
    destruct Hk as [[Hflag Hw] _]. unfold exec in He. rewrite Ek in He. simpl in He. unfold act in He. rewrite Ef in He.
    simpl in He. injection He as <-. simpl. rewrite list_lookup_insert_eq by (by eapply lookup_lt_Some).
    rewrite Hflag, Hw. by destruct e.
Qed.

(** ** [SpinLock] *)

Module Spin.
Inductive spc := Away | Exchange | Within | Release.

(** The code of one core, the running one first, and the lock. *)
Record spin := mkSpin { s_taken : bool; s_frames : list spc }.

Definition advance (s : spin) : spin :=
  match s_frames s with
  | Exchange :: fs => mkSpin true ((if s_taken s then Exchange else Within) :: fs)
  | Release :: fs => mkSpin false (Away :: fs)
  | _ => s
  end.
Definition call (s : spin) : spin :=
  match s_frames s with Away :: fs => mkSpin (s_taken s) (Exchange :: fs) | _ => s end.
Definition interrupt (s : spin) : spin := mkSpin (s_taken s) (Away :: s_frames s).
End Spin.

(** A handler that takes a spin lock which the interrupted code has never
    gets any further. *)
Example spin_lock_and_handler n :
  let s := Spin.call (Spin.interrupt (Spin.advance (Spin.call (Spin.mkSpin false [Spin.Away])))) in
  Nat.iter n Spin.advance s = s ∧ Spin.s_frames s = [Spin.Exchange; Spin.Within].
Proof. split; [|done]. induction n as [|n IH]; [done|]. simpl. simpl in IH. by rewrite IH. Qed.

(** ** Witness *)

Definition sample_actions : list (nat * action) :=
  [(0%nat, Call); (0%nat, Advance); (1%nat, Interrupt); (0%nat, Interrupt); (0%nat, Call); (0%nat, Advance); (0%nat, Advance);
   (0%nat, Advance); (0%nat, Advance); (1%nat, Call); (1%nat, Advance); (1%nat, Advance); (1%nat, Advance); (0%nat, Leave);
   (0%nat, Advance); (0%nat, Advance); (0%nat, Advance); (0%nat, Iret); (0%nat, Advance)].

Fixpoint play (l : list (nat * action)) (m : machine) : option machine :=
  match l with [] => Some m | (c, a) :: l => m ← exec c a m; play l m end.

Lemma play_reachable l m m' : reachable m → play l m = Some m' → reachable m'.
Proof.
  revert m. induction l as [|[c a] l IH]; simpl; intros m Hm E; [by injection E as <-|].
  destruct (exec c a m) as [m1|] eqn:E1; [|done]. by eapply IH; [eapply reach_step|].
Qed.

(** Core 0 is in [lock] when it is interrupted by a handler that takes and
    gives back the lock, while core 1 spins. *)
Definition sample_machine : machine :=
  mkMachine false true [mkCore false [(Lock_exchange false, true)]; mkCore false [(Lock_restore true, false); (Out, true)]].

Lemma interrupt_safe_lock_correct_witness :
  play sample_actions (start [true; true]) = Some sample_machine ∧
  (∀ c i c' i', in_section sample_machine c i → in_section sample_machine c' i' → c = c' ∧ i = i') ∧
  (∀ c i, in_section sample_machine c i → i = 0%nat ∧ ∃ k, cores sample_machine !! c = Some k ∧ iflag k = false) ∧
  (taken sample_machine = true ↔ ∃ c, in_section sample_machine c 0) ∧
  (taken sample_machine = true → ∃ c m', exec c Advance sample_machine = Some m' ∨ exec c Leave sample_machine = Some m') ∧
  (∀ c k w e fs m', cores sample_machine !! c = Some k → frames k = (Unlock_restore w, e) :: fs →
     exec c Advance sample_machine = Some m' → cores m' !! c = Some (mkCore e ((Out, e) :: fs))).
Proof.
  split; [vm_compute; reflexivity|]. apply (interrupt_safe_lock_correct sample_machine).
  apply (play_reachable sample_actions (start [true; true])); [constructor|vm_compute; reflexivity].
Defined.
