(* ===== verification/Console.v ===== *)
(** * Debugging output (kernel/debug.cc, debug.h, u8250.cc)

    What [Debug::printf] of any cores and interrupt handlers puts on the
    serial line, character by character, under the lock of [Locks]; what
    the other functions of [Debug] print through it; and the driver of the
    serial port, which waits until the port can take a character. *)

From S2P Require Import Prelude.
From S2P Require Import Libk.
From S2P Require Import Snprintf.
From S2P Require Import Locks.
From S2P Require Import Ide.

(** ** The serial port *)

Section uart.
Context {S : Type} (P : Ports S) (polls : nat).

(** [while (!(inb(0x3F8+5) & mask));] *)
Definition await (mask : Z) : M S () :=
  iter polls (λ _, st ← inb P (0x3F8 + 5); mret (if decide (Z.land st mask = 0) then inl () else inr ())) ().

Definition put (c : Z) : M S () := await 0x20;; outb P 0x3F8 c.

Definition get_ : M S Z := await 0x01;; x ← inb P 0x3F8; mret (u8 x).
End uart.

(** What the data sheet of the port promises of [put]: the status says that
    the holding register is empty after [busy] more readings of it, and a
    character written then goes out. *)
Record uart_laws {S} (P : Ports S) (busy : S → nat) (sent : S → list Z) : Prop := {
  u_status : ∀ s, wp (inb P (0x3F8 + 5)) (λ st s', sent s' = sent s ∧ busy s' = pred (busy s) ∧ (Z.land st 0x20 = 0 ↔ (0 < busy s)%nat)) s;
  u_data : ∀ s c, busy s = 0%nat → wp (outb P 0x3F8 c) (λ _ s', sent s' = sent s ++ [c]) s
}.

(** [put] sends its character, once. *)
Lemma put_sends {S} (P : Ports S) busy sent polls c s :
  uart_laws P busy sent → (busy s < polls)%nat → wp (put P polls c) (λ _ s', sent s' = sent s ++ [c]) s.
Proof.
  intros [Hst Hd]. revert s. induction polls as [|polls IH]; intros s Hb; [lia|]. unfold put, await in *. cbn [iter].
  apply wp_bind, wp_bind, wp_bind. eapply wp_mono; [apply Hst|]. intros st s' (Es & Eb & Hz). apply wp_ret.
  destruct (decide (Z.land st 32 = 0)) as [H0|H0].
  - pose proof (proj1 Hz H0) as Hpos. rewrite <-Es. apply wp_bind_inv. apply IH. lia.
  - apply wp_ret. rewrite <-Es. apply Hd. destruct (busy s); [done|]. exfalso. apply H0, Hz. lia.
Qed.

(** ** What [Debug] prints

    The functions as lists of what they ask of the console: the characters
    of a message, the lock's release by force, and the end. *)

Inductive request := Say (msg : list Z) | Force | Halt.

(** The characters that [K::vsnprintf] puts, at a limit of 1000; none stand
    for a format on which it is undefined. *)
Definition text (deref : Z → list Z) (fmt args : list Z) : list Z :=
  match vsnprintf (λ c w, w ++ [c]) deref 1000 fmt args [] with Ok _ f => sink f | _ => [] end.

Section debug.
Context (deref : Z → list Z).
(** Whether [init] has been called; the number of the core. *)
Context (sink_ : bool) (me : Z).

Definition newline : list Z := [chr "010"].

Definition printf (fmt args : list Z) : list request := if sink_ then [Say (text deref fmt args)] else [].

Definition shutdown (checks : Z) : list request :=
  (if decide (checks > 0) then printf (cstring (lit "*** passed %d checkes" ++ newline)) [checks] else []) ++
  printf (cstring (lit "core %d requested shutdown" ++ newline)) [me] ++ [Halt].

Definition panic (fmt args : list Z) : list request :=
  [Force] ++ printf fmt args ++ printf (cstring (lit "| processor %d halting" ++ newline)) [me] ++ [Halt].

(** [what] and the pointers to file names are numbers here. *)
Definition debug (debugAll flag : bool) (what : Z) (fmt args : list Z) : list request :=
  if debugAll || flag then
    printf (cstring (lit "[%s] ")) [what] ++ printf fmt args ++ printf (cstring newline) []
  else [].

Definition missing (file line : Z) : list request :=
  panic (cstring (lit "*** Missing code at %s:%d" ++ newline)) [file; line].

(** [check] counts; [assert] does not. *)
Definition check (checks : Z) (invariant : bool) (invariant_text file line : Z) : Z * list request :=
  (u32 (checks + 1),
   if invariant then [] else panic (cstring (lit "*** Check [%s] failed at %s:%d" ++ newline)) [invariant_text; file; line]).

Definition assert_ (invariant : bool) (invariant_text file line : Z) : list request :=
  if invariant then [] else panic (cstring (lit "*** Assertion [%s] failed at %s:%d" ++ newline)) [invariant_text; file; line].
End debug.

(** ** The console *)

(** A call of [vprintf]: the characters put and those left. *)
Record call := mkCall { done_ : list Z; left_ : list Z }.

(** The lock with its cores; for each piece of code on a core, the call it
    is in; the messages of all calls so far; what has been put. *)
Record console := mkConsole { lock : machine; calls : list (list (option call)); said : list (list Z); out : list Z }.

Inductive event :=
| Print (msg : list Z)  (** [vprintf] is called: [lock.lock()] *)
| Char                  (** [sink->put] *)
| Return                (** [lock.unlock()] *)
| Unlock                (** that of [vpanic] *)
| Else (a : action).    (** the instructions of the lock, and what happens around *)

Definition cexec (c : nat) (e : event) (d : console) : option console :=
  k ← cores (lock d) !! c;
  st ← calls d !! c;
  let step a st' sd :=
    m ← exec c a (lock d);
    Some (mkConsole m (<[c := st']> (calls d)) sd (out d)) in
  match e, st with
  | Print msg, _ :: st => step Call (Some (mkCall [] msg) :: st) (said d ++ [msg])
  | Char, Some (mkCall p (x :: l)) :: st =>
      match frames k with
      | (Inside, _) :: _ => Some (mkConsole (lock d) (<[c := Some (mkCall (p ++ [x]) l) :: st]> (calls d)) (said d) (out d ++ [x]))
      | _ => None
      end
  | Return, Some (mkCall p []) :: st => step Leave (None :: st) (said d)
  | Unlock, _ =>
      match frames k with
      | (Out, f) :: fs => Some (mkConsole (mkMachine (taken (lock d)) (was (lock d)) (<[c := mkCore (iflag k) ((Unlock_was, f) :: fs)]> (cores (lock d))))
                                          (calls d) (said d) (out d))
      | _ => None
      end
  | Else Interrupt, _ => step Interrupt (None :: st) (said d)
  | Else Iret, _ :: st => step Iret st (said d)
  | Else Advance, _ => step Advance st (said d)
  | Else (Flags b), _ => step (Flags b) st (said d)
  | _, _ => None
  end.

Definition quiet_start (flags : list bool) : console := mkConsole (start flags) (map (λ _, [None]) flags) [] [].

(** The runs in which nobody panics. *)
Inductive calm : console → Prop :=
| calm_start flags : calm (quiet_start flags)
| calm_step c e d d' : calm d → e ≠ Unlock → cexec c e d = Some d' → calm d'.

(** *** Its invariant *)

Definition slot_ok (f : pc * bool) (x : option call) : Prop :=
  match f.1, x with
  | (Out | Unlock_was | Unlock_set _ | Unlock_restore _), None => True
  | Inside, Some _ => True
  | (Lock_test | Lock_cli _ | Lock_exchange _ | Lock_was _ | Lock_restore _), Some (mkCall [] _) => True
  | _, _ => False
  end.

Definition slot_done (x : option call) : list Z := match x with Some y => done_ y | None => [] end.
Definition message (y : call) : list Z := done_ y ++ left_ y.

(** The messages of the calls under way, and what they have put. *)
Definition unfinished (cs : list (list (option call))) : list (list Z) := concat (map (omap (fmap message)) cs).
Definition partial (cs : list (list (option call))) : list Z := concat (map (λ st, concat (map slot_done st)) cs).

Record cinv (d : console) (whole : list (list Z)) : Prop := {
  c_lock : inv (lock d);
  c_slots : Forall2 (λ k st, Forall2 slot_ok (frames k) st) (cores (lock d)) (calls d);
  c_said : said d ≡ₚ whole ++ unfinished (calls d);
  c_out : out d = concat whole ++ partial (calls d)
}.

Lemma lookup_parts {A} (l : list A) i x : l !! i = Some x → ∃ l1 l2, l = l1 ++ x :: l2 ∧ ∀ y, <[i := y]> l = l1 ++ y :: l2.
Proof.
  intros Hi. exists (take i l), (drop (S i) l). split; [symmetry; by apply take_drop_middle|].
  intros y. apply insert_take_drop. by eapply lookup_lt_Some.
Qed.

Lemma unfinished_app l1 l2 : unfinished (l1 ++ l2) = unfinished l1 ++ unfinished l2.
Proof. unfold unfinished. by rewrite map_app, concat_app. Qed.
Lemma partial_app l1 l2 : partial (l1 ++ l2) = partial l1 ++ partial l2.
Proof. unfold partial. by rewrite map_app, concat_app. Qed.
Lemma unfinished_cons st l : unfinished (st :: l) = omap (fmap message) st ++ unfinished l.
Proof. done. Qed.
Lemma partial_cons st l : partial (st :: l) = concat (map slot_done st) ++ partial l.
Proof. done. Qed.

Definition putting (st : list (option call)) : list Z := concat (map slot_done st).

Lemma slots_out fs st : Forall2 slot_ok fs st → Forall (λ f, f.1 ≠ Inside) fs → putting st = [].
Proof.
  intros H Hf. induction H as [|[p e] x fs st Hx _ IH]; [done|]. apply Forall_cons in Hf as [Hp Hf]. unfold putting in *. simpl.
  rewrite IH by done. destruct x as [[[|z l] r]|]; [done| |done]. exfalso. destruct p; simpl in *; done.
Qed.

Definition inside (k : core) : bool := match frames k with (Inside, _) :: _ => true | _ => false end.

Lemma frames_out k : core_ok k → inside k = false → Forall (λ f, f.1 ≠ Inside) (frames k).
Proof.
  unfold core_ok, inside. destruct (frames k) as [|[p e] fs]; [done|]. intros [_ Hfs] Hp. constructor; [by destruct p|].
  eapply Forall_impl; [exact Hfs|]. intros [q e'] Hq. by destruct q.
Qed.

Lemma partial_none cs : (∀ i st, cs !! i = Some st → putting st = []) → partial cs = [].
Proof.
  induction cs as [|s cs IH]; intros H; [done|]. rewrite partial_cons, IH; [|intros i st Hi; by apply (H (S i))].
  change (putting s ++ [] = []). by rewrite (H 0%nat).
Qed.

(** Only one call can have put something that is not yet a whole message. *)
Lemma partial_alone cs c st :
  cs !! c = Some st → (∀ i st', cs !! i = Some st' → i ≠ c → putting st' = []) → partial cs = putting st.
Proof.
  revert c. induction cs as [|s cs IH]; intros [|c] Hc Ho; simplify_eq/=; rewrite partial_cons.
  - rewrite partial_none; [apply app_nil_r|]. intros i st' Hi. by apply (Ho (S i)).
  - change (putting s ++ partial cs = putting st). rewrite (Ho 0%nat s) by done. apply (IH c); [done|].
    intros i st' Hi Hne. apply (Ho (S i)); [done|congruence].
Qed.

Section step.
Context (c : nat) (d : console) (k : core) (whole : list (list Z)).
Context (Hd : cinv d whole) (Hk : cores (lock d) !! c = Some k).

(** The calls of the core, and those of the others. *)
Lemma calls_of st : calls d !! c = Some st → Forall2 slot_ok (frames k) st.
Proof using Hd Hk. intros E. destruct (Forall2_lookup_lr _ _ _ _ _ _ (c_slots _ _ Hd) Hk E); by constructor. Qed.

Lemma others_silent f fs st' : frames k = (Inside, f) :: fs → ∀ i st, <[c := st']> (calls d) !! i = Some st → i ≠ c → putting st = [].
Proof using Hd Hk.
  intros Ef i st Hi Hne. rewrite list_lookup_insert_ne in Hi by done.
  destruct (Forall2_lookup_r _ _ _ _ _ (c_slots _ _ Hd) Hi) as (k' & Hk' & Hs).
  eapply slots_out; [exact Hs|]. apply frames_out; [by eapply (inv_cores _ (c_lock _ _ Hd))|].
  destruct (inside k') eqn:Hh; [|done]. destruct Hne. eapply (inv_one _ (c_lock _ _ Hd) c k i k'); try done; unfold holding.
  - by rewrite Ef.
  - unfold inside in Hh. destruct (frames k') as [|[[] ?] ?]; done.
Qed.

Lemma partial_mine f fs st' : frames k = (Inside, f) :: fs → (c < List.length (calls d))%nat → partial (<[c := st']> (calls d)) = putting st'.
Proof using Hd Hk. intros Ef Hlt. eapply partial_alone; [by apply list_lookup_insert_eq|]. by eapply others_silent. Qed.

Lemma below_silent f fs x st : frames k = (Inside, f) :: fs → calls d !! c = Some (x :: st) → putting st = [].
Proof using Hd Hk.
  intros Ef Est. pose proof (calls_of _ Est) as Hs. rewrite Ef in Hs. apply Forall2_cons in Hs as [_ Hs].
  eapply slots_out; [exact Hs|]. destruct (inv_cores _ (c_lock _ _ Hd) _ _ Hk) as [Hok _]. unfold core_ok in Hok. rewrite Ef in Hok.
  destruct Hok as [_ Hok]. eapply Forall_impl; [exact Hok|]. intros [q e'] Hq. by destruct q.
Qed.

(** What an instruction of the lock does to the pieces of code. *)
Lemma exec_cores a m : exec c a (lock d) = Some m → ∃ k' t w, act a k (taken (lock d)) (was (lock d)) = Some (k', t, w) ∧ cores m = <[c := k']> (cores (lock d)).
Proof using Hk.
  unfold exec. rewrite Hk. simpl. destruct (act a k (taken (lock d)) (was (lock d))) as [[[k' t] w]|]; [|done].
  intros [= <-]. by exists k', t, w.
Qed.

(** A step in which no character is put and no message ends. *)
Lemma cinv_step a m k' t w st st' sd :
  exec c a (lock d) = Some m → act a k (taken (lock d)) (was (lock d)) = Some (k', t, w) → calls d !! c = Some st →
  Forall2 slot_ok (frames k') st' → putting st' = putting st →
  sd ++ omap (fmap message) st ≡ₚ said d ++ omap (fmap message) st' →
  cinv (mkConsole m (<[c := st']> (calls d)) sd (out d)) whole.
Proof using Hd Hk.
  intros He Ha Hst Hs Hput Hsaid. destruct (exec_cores a m He) as (k2 & t2 & w2 & Ea & Em). rewrite Ha in Ea. injection Ea as <- <- <-.
  pose proof Hd as [H1 H2 H3 H4]. destruct (lookup_parts _ _ _ Hst) as (l1 & l2 & E & E'). split; simpl.
  - by eapply inv_step.
  - rewrite Em. by apply Forall2_insert.
  - rewrite E'. rewrite E in H3. rewrite unfinished_app, unfinished_cons in *.
    apply (Permutation_app_inv_r (omap (fmap message) st)). rewrite Hsaid, H3. solve_Permutation.
  - rewrite E'. rewrite E in H4. rewrite H4, !partial_app, !partial_cons. by unfold putting in Hput; rewrite Hput.
Qed.
End step.

(** Every event keeps the messages whole. *)
Lemma cinv_cexec c e d d' whole : cinv d whole → e ≠ Unlock → cexec c e d = Some d' → ∃ whole', cinv d' whole'.
Proof.
  intros Hd Hne E. unfold cexec in E. destruct (cores (lock d) !! c) as [k|] eqn:Hk; [|done]. cbn [mbind option_bind] in E.
  destruct (calls d !! c) as [st|] eqn:Hst; [|done]. cbn [mbind option_bind] in E.
  pose proof (calls_of c d k whole Hd Hk st Hst) as Hs.
  assert (Hstep : ∀ a st' sd, (m ← exec c a (lock d); Some (mkConsole m (<[c := st']> (calls d)) sd (out d))) = Some d' →
    (∀ k' t w, act a k (taken (lock d)) (was (lock d)) = Some (k', t, w) →
       Forall2 slot_ok (frames k') st' ∧ putting st' = putting st ∧ sd ++ omap (fmap message) st ≡ₚ said d ++ omap (fmap message) st') →
    ∃ whole', cinv d' whole').
  { intros a st' sd He Hsl. destruct (exec c a (lock d)) as [m|] eqn:Em; [|done]. injection He as <-.
    destruct (exec_cores c d k Hk a m Em) as (k' & t & w & Ea & _). destruct (Hsl _ _ _ Ea) as (H1 & H2 & H3). exists whole. eapply cinv_step; eauto. }
  destruct k as [fl fs]. cbn [frames] in *. destruct e as [msg| | | |a]; [| | |done|].
  - destruct st as [|x st]; [done|]. apply (Hstep _ _ _ E). intros k' t w Ha. unfold act in Ha. cbn [frames] in Ha.
    destruct fs as [|[[] f] fs]; try done. injection Ha as <- _ _. apply Forall2_cons in Hs as [Hx Hs]. destruct x; [done|].
    split_and!; [by constructor|done|]. simpl. by rewrite <-app_assoc.
  - destruct st as [|[[p [|x l]]|] st]; try done. destruct fs as [|[[] f] fs]; try done. injection E as <-. exists whole.
    pose proof Hd as [H1 H2 H3 H4]. destruct (lookup_parts _ _ _ Hst) as (l1 & l2 & Ec & Ec'). split; simpl.
    + done.
    + apply Forall2_cons in Hs as [_ Hs]. rewrite <-(list_insert_id (cores (lock d)) c _ Hk). apply Forall2_insert; [done|by constructor].
    + rewrite Ec'. rewrite Ec in H3. rewrite unfinished_app, unfinished_cons in *. cbn [omap list_omap fmap option_fmap option_map] in *.
      unfold message in *. cbn [done_ left_] in *. by rewrite <-app_assoc.
    + assert (Hlt : (c < List.length (calls d))%nat) by (by eapply lookup_lt_Some).
      rewrite H4. rewrite <-(list_insert_id (calls d) c _ Hst) at 1. rewrite !(partial_mine c d _ whole Hd Hk f fs) by done.
      unfold putting. simpl. change (concat (map slot_done st)) with (putting st). rewrite (below_silent c d _ whole Hd Hk f fs _ st) by done.
      by rewrite !app_nil_r, app_assoc.
  - destruct st as [|[[p [|x l]]|] st]; try done. destruct (exec c Leave (lock d)) as [m|] eqn:Em; [|done]. cbn [mbind option_bind] in E.
    injection E as <-. destruct (exec_cores c d _ Hk _ _ Em) as (k' & t & w & Ea & Ecm). pose proof Ea as Ea'. unfold act in Ea. cbn [frames] in Ea.
    destruct fs as [|[[] f] fs]; try done. injection Ea as <- <- <-. exists (whole ++ [p]). apply Forall2_cons in Hs as [_ Hs].
    pose proof Hd as [H1 H2 H3 H4]. destruct (lookup_parts _ _ _ Hst) as (l1 & l2 & Ec & Ec'). split; simpl.
    + by eapply inv_step.
    + rewrite Ecm. apply Forall2_insert; [done|by constructor].
    + rewrite Ec'. rewrite Ec in H3. rewrite unfinished_app, unfinished_cons in *. cbn [omap list_omap fmap option_fmap option_map] in *.
      unfold message in H3. cbn [done_ left_] in H3. rewrite app_nil_r in H3. rewrite H3. solve_Permutation.
    + assert (Hlt : (c < List.length (calls d))%nat) by (by eapply lookup_lt_Some).
      rewrite H4. rewrite <-(list_insert_id (calls d) c _ Hst) at 1. rewrite !(partial_mine c d _ whole Hd Hk f fs) by done.
      unfold putting. simpl. change (concat (map slot_done st)) with (putting st). rewrite (below_silent c d _ whole Hd Hk f fs _ st) by done.
      rewrite concat_app. simpl. by rewrite !app_nil_r.
  - destruct st as [|x st].
    { apply Forall2_nil_inv_r in Hs. subst fs. by destruct (proj1 (inv_cores _ (c_lock _ _ Hd) _ _ Hk)). }
    destruct a; try done.
    + apply (Hstep _ _ _ E). intros k' t w Ha. unfold act in Ha. cbn [frames iflag] in Ha.
      destruct fs as [|[q f] fs]; [done|]. destruct (advance q fl (taken (lock d)) (was (lock d))) as [[[[fl' t'] w'] q']|] eqn:Eq; [|done].
      injection Ha as <- _ _. split_and!; [|done|done]. apply Forall2_cons in Hs as [Hx Hs]. constructor; [|done].
      destruct q; simpl in Eq; try done; injection Eq as _ _ _ <-; try done.
      all: try destruct (taken (lock d)); by destruct x as [[[|? ?] ?]|].
    + apply (Hstep _ _ _ E). intros k' t w Ha. unfold act in Ha. cbn [frames] in Ha.
      destruct fs as [|[[] f] fs]; try done. injection Ha as <- _ _. by split_and!.
    + apply (Hstep _ _ _ E). intros k' t w Ha. unfold act in Ha. cbn [frames iflag] in Ha. destruct fl; [|by destruct fs as [|[[] ?] ?]].
      assert (k' = mkCore false ((Out, false) :: fs)) as -> by (destruct fs as [|[[] ?] ?]; by injection Ha as <- _ _).
      split_and!; [by constructor|done|done].
    + apply (Hstep _ _ _ E). intros k' t w Ha. unfold act in Ha. cbn [frames] in Ha.
      destruct fs as [|[[] f] [|f' fs]]; try done. injection Ha as <- _ _. apply Forall2_cons in Hs as [Hx Hs]. destruct x; [done|].
      by split_and!.
Qed.

Lemma cinv_start flags : cinv (quiet_start flags) [].
Proof.
  split; simpl.
  - apply lock_inv_start.
  - induction flags as [|b flags IH]; simpl; repeat constructor; done.
  - induction flags as [|b flags IH]; [done|]. unfold unfinished in *. simpl. done.
  - induction flags as [|b flags IH]; [done|]. unfold partial in *. simpl. done.
Qed.

Lemma calm_inv d : calm d → ∃ whole, cinv d whole.
Proof. induction 1 as [flags|c e d d' _ [whole Hd] Hne E]; [exists []; apply cinv_start|by eapply cinv_cexec]. Qed.

(** ** Properties *)

(** C16. Messages come out whole.  However the cores that print and their
    interrupt handlers interleave, as long as nobody panics: what is on the
    line is whole messages one after the other and then a beginning of the
    message of the one call that is inside the lock; and the messages of all
    calls so far are those that are out and those of the calls under way, so
    that none is lost or comes twice. *)
Theorem messages_whole d :
  calm d →
  ∃ whole part, out d = concat whole ++ part ∧ said d ≡ₚ whole ++ unfinished (calls d) ∧
    (part = [] ∨ ∃ c k f fs y st, cores (lock d) !! c = Some k ∧ frames k = (Inside, f) :: fs ∧
       calls d !! c = Some (Some y :: st) ∧ part = done_ y).
Proof.
  intros [whole Hd]%calm_inv. exists whole, (partial (calls d)). pose proof Hd as [H1 H2 H3 H4]. split_and!; [done|done|].
  destruct (decide (Exists (λ k, inside k = true) (cores (lock d)))) as [He|He].
  - apply Exists_exists in He as (k & [c Hk]%list_elem_of_lookup_1 & Hi). right.
    unfold inside in Hi. destruct (frames k) as [|[[] f] fs] eqn:Ef; try done.
    destruct (Forall2_lookup_l _ _ _ _ _ H2 Hk) as (st & Hst & Hs). rewrite Ef in Hs.
    destruct st as [|[y|] st]; [by apply Forall2_cons_nil_inv in Hs|..]; apply Forall2_cons in Hs as [Hx Hs]; [|done].
    exists c, k, f, fs, y, st. split_and!; [done|done|done|].
    assert (Hlt : (c < List.length (calls d))%nat) by (by eapply lookup_lt_Some).
    rewrite <-(list_insert_id (calls d) c _ Hst), (partial_mine c d _ whole Hd Hk f fs) by done.
    change (done_ y ++ putting st = done_ y). rewrite (below_silent c d _ whole Hd Hk f fs _ st) by done. apply app_nil_r.
  - left. apply partial_none. intros i st Hi. destruct (Forall2_lookup_r _ _ _ _ _ H2 Hi) as (k & Hk & Hs).
    eapply slots_out; [exact Hs|]. apply frames_out; [by eapply (inv_cores _ H1)|].
    destruct (inside k) eqn:E; [|done]. destruct He. apply Exists_exists. exists k. split; [|done]. by eapply list_elem_of_lookup_2.
Qed.

(** ** Witnesses *)

Fixpoint play (es : list (nat * event)) (d : console) : console :=
  match es with [] => d | (c, e) :: es => play es (default d (cexec c e d)) end.

Lemma play_calm es d : calm d → forallb (λ e, match e.2 with Unlock => false | _ => true end) es = true → calm (play es d).
Proof.
  revert d. induction es as [|[c e] es IH]; intros d Hd; [done|]. simpl. intros [He Hes]%andb_true_iff. apply IH; [|done].
  destruct (cexec c e d) as [d'|] eqn:E; [|done]. eapply calm_step; [exact Hd| |exact E]. by intros ->.
Qed.

Definition times (m : nat) (e : nat * event) : list (nat * event) := replicate m e.

(** Core 0 prints, core 1 waits for it; core 0 has put one character of its
    second message. *)
Definition sample_events : list (nat * event) :=
  [(0, Print (lit "ab")); (1, Print (lit "xyz"))]%nat ++ times 4 (0, Else Advance)%nat ++ times 5 (1, Else Advance)%nat ++
  times 2 (0, Char)%nat ++ [(0, Return)]%nat ++ times 3 (0, Else Advance)%nat ++ [(0, Print (lit "cd"))]%nat ++
  times 4 (0, Else Advance)%nat ++ [(0, Char)]%nat.
Definition sample_console : console := play sample_events (quiet_start [true; true]).

Lemma messages_whole_witness :
  out sample_console = lit "abc" ∧
  ∃ whole part, out sample_console = concat whole ++ part ∧ said sample_console ≡ₚ whole ++ unfinished (calls sample_console) ∧
    (part = [] ∨ ∃ c k f fs y st, cores (lock sample_console) !! c = Some k ∧ frames k = (Inside, f) :: fs ∧
       calls sample_console !! c = Some (Some y :: st) ∧ part = done_ y).
Proof.
  split; [vm_compute; reflexivity|]. apply (messages_whole sample_console). apply play_calm; [constructor|vm_compute; reflexivity].
Defined.

(** A core that panics prints into the message of another. *)
Example panic_splits :
  out (play (sample_events ++ [(1, Else (Flags true))]%nat) (quiet_start [true; true])) = lit "abc" ∧
  out (play ([(0, Print (lit "ab"))]%nat ++ times 4 (0, Else Advance)%nat ++ [(0, Char); (1, Unlock)]%nat ++ times 3 (1, Else Advance)%nat ++
             [(1, Print (lit "*"))]%nat ++ times 4 (1, Else Advance)%nat ++ [(1, Char); (0, Char)]%nat) (quiet_start [true; true])) = lit "a*b".
Proof. split; vm_compute; reflexivity. Qed.
