(* ===== verification/Keyboard.v ===== *)
(** * The keyboard (kernel/keyboard.cc, and the calls 18 to 20 of
    kernel/sys.cc)

    The interrupt handler collects the letters of a line in a buffer of
    fifty bytes, and the end of the line sets a flag; the shell polls the
    flag, reads the buffer where it is and clears both. *)

From S2P Require Import Prelude.
From S2P Require Import Libk.

(** [buf], [bufSize], [done], and what has been shown of the letters. *)
Record terminal := mkTerminal { buf : list Z; bufSize : Z; done : bool; screen : list Z }.

Definition scanCodeToLetter (code : Z) : Z :=
  if decide (code = 0x1e) then chr "a" else if decide (code = 0x30) then chr "b" else
  if decide (code = 0x2e) then chr "c" else if decide (code = 0x20) then chr "d" else
  if decide (code = 0x12) then chr "e" else if decide (code = 0x21) then chr "f" else
  if decide (code = 0x22) then chr "g" else if decide (code = 0x23) then chr "h" else
  if decide (code = 0x17) then chr "i" else if decide (code = 0x24) then chr "j" else
  if decide (code = 0x25) then chr "k" else if decide (code = 0x26) then chr "l" else
  if decide (code = 0x32) then chr "m" else if decide (code = 0x31) then chr "n" else
  if decide (code = 0x18) then chr "o" else if decide (code = 0x19) then chr "p" else
  if decide (code = 0x10) then chr "q" else if decide (code = 0x13) then chr "r" else
  if decide (code = 0x1f) then chr "s" else if decide (code = 0x14) then chr "t" else
  if decide (code = 0x16) then chr "u" else if decide (code = 0x2f) then chr "v" else
  if decide (code = 0x11) then chr "w" else if decide (code = 0x2d) then chr "x" else
  if decide (code = 0x15) then chr "y" else if decide (code = 0x2c) then chr "z" else
  if decide (code = 0x1c) then 10 else if decide (code = 0x39) then chr " " else
  if decide (code = 0x35) then chr "/" else if decide (code = 0x34) then chr "." else
  if decide (code = 0x2b) then chr "|" else 0.

(** [buf[i] = c]. *)
Definition set_buf (i c : Z) : M terminal () :=
  t ← get;
  require (0 ≤ i < Z.of_nat (List.length (buf t)));;
  modify (λ t, mkTerminal (<[Z.to_nat i := c]> (buf t)) (bufSize t) (done t) (screen t)).
Definition set_bufSize (n : Z) : M terminal () := modify (λ t, mkTerminal (buf t) n (done t) (screen t)).
Definition set_done (d : bool) : M terminal () := modify (λ t, mkTerminal (buf t) (bufSize t) d (screen t)).
Definition show (c : Z) : M terminal () := modify (λ t, mkTerminal (buf t) (bufSize t) (done t) (screen t ++ [c])).

(** [KeyBoard::init], which also sets the vector ([Traps.KeyBoard_init]). *)
Definition init : M terminal () := set_done false.

Definition keyBoardHandler (valueFromPort : Z) : M terminal () :=
  let letter := scanCodeToLetter valueFromPort in
  if decide (letter ≠ 0) then
    show letter;;
    t ← get;
    if decide (letter ≠ 10) then
      set_buf (bufSize t) letter;;
      set_bufSize (u32 (bufSize t + 1))
    else
      set_buf (bufSize t) 0;;
      set_done true
  else mret ().

(** The system calls: 18 gives the address of the buffer, here what is in
    it. *)
Definition getCommand : M terminal (list Z) := gets buf.
Definition is_done : M terminal bool := gets done.
Definition setDone : M terminal () :=
  n ← gets bufSize;
  for_range 0 (Z.to_nat n) (λ i, set_buf i 0);;
  set_bufSize 0;;
  set_done false.

(** ** What they do *)

(** The buffer while the letters [w] of a line have been typed over the
    fifty bytes [B] that were there before. *)
Definition line_in (B w : list Z) (t : terminal) : Prop :=
  List.length B = 50%nat ∧ buf t = w ++ drop (List.length w) B ∧ bufSize t = Z.of_nat (List.length w).

(** The same at the end of the line, with a zero behind the letters. *)
Definition line_done (B w : list Z) : list Z := w ++ 0 :: drop (S (List.length w)) B.
(** And when the shell has cleared it. *)
Definition line_cleared (B w : list Z) : list Z := replicate (List.length w) 0 ++ 0 :: drop (S (List.length w)) B.

Lemma insert_at_end {A} (l k : list A) i x y : i = List.length l → <[i := y]> (l ++ x :: k) = l ++ y :: k.
Proof. intros ->. rewrite insert_app_r_alt by done. by rewrite Nat.sub_diag. Qed.

Lemma wp_set_buf i c t (Q : () → terminal → Prop) :
  0 ≤ i < Z.of_nat (List.length (buf t)) →
  Q () (mkTerminal (<[Z.to_nat i := c]> (buf t)) (bufSize t) (done t) (screen t)) → wp (set_buf i c) Q t.
Proof. intros Hi HQ. unfold set_buf. by apply wp_bind, wp_get, wp_bind, wp_require; [|apply wp_modify]. Qed.

(** A letter goes to the end of the line. *)
Lemma wp_letter code B w t (Q : () → terminal → Prop) :
  scanCodeToLetter code ≠ 0 → scanCodeToLetter code ≠ 10 → line_in B w t → (List.length w < 50)%nat →
  (∀ t', line_in B (w ++ [scanCodeToLetter code]) t' → done t' = done t → Q () t') → wp (keyBoardHandler code) Q t.
Proof.
  intros H0 H10 (HB & Hb & Hs) Hw HQ. unfold keyBoardHandler. set (c := scanCodeToLetter code) in *.
  rewrite decide_True by done. apply wp_bind, wp_modify, wp_bind, wp_get. rewrite decide_True by done.
  destruct (lookup_lt_is_Some_2 B (List.length w)) as [x Ex]; [lia|].
  apply wp_bind, wp_set_buf; cbn [buf bufSize done screen]; [rewrite Hb, length_app, length_drop; lia|].
  apply wp_modify, HQ; [|done]. cbn [buf bufSize done screen]. split_and!; cbn [buf bufSize]; [done|..].
  - rewrite Hs, Nat2Z.id, Hb, length_app, (drop_S _ _ _ Ex), (insert_at_end w), <-app_assoc by done.
    cbn [app List.length]. by rewrite Nat.add_1_r.
  - rewrite Hs, u32_small, length_app by lia. simpl. lia.
Qed.

(** A code without a letter is ignored. *)
Lemma wp_no_letter code t (Q : () → terminal → Prop) : scanCodeToLetter code = 0 → Q () t → wp (keyBoardHandler code) Q t.
Proof. intros H0 HQ. unfold keyBoardHandler. rewrite decide_False by tauto. by apply wp_ret. Qed.

(** The end of the line leaves it there, with a zero behind it. *)
Lemma wp_newline code B w t (Q : () → terminal → Prop) :
  scanCodeToLetter code = 10 → line_in B w t → (List.length w < 50)%nat →
  (∀ t', buf t' = line_done B w → bufSize t' = Z.of_nat (List.length w) → done t' = true → Q () t') →
  wp (keyBoardHandler code) Q t.
Proof.
  intros H10 (HB & Hb & Hs) Hw HQ. unfold keyBoardHandler. rewrite H10. cbn [decide].
  rewrite decide_True by done. apply wp_bind, wp_modify, wp_bind, wp_get. rewrite decide_False by tauto.
  destruct (lookup_lt_is_Some_2 B (List.length w)) as [x Ex]; [lia|].
  apply wp_bind, wp_set_buf; cbn [buf bufSize done screen]; [rewrite Hb, length_app, length_drop; lia|].
  apply wp_modify, HQ; cbn [buf bufSize]; [|done..].
  by rewrite Hs, Nat2Z.id, Hb, (drop_S _ _ _ Ex), (insert_at_end w) by done.
Qed.

(** [setDone] empties the line. *)
Lemma wp_setDone B w t (Q : () → terminal → Prop) :
  buf t = line_done B w → bufSize t = Z.of_nat (List.length w) →
  (∀ t', buf t' = line_cleared B w → bufSize t' = 0 → done t' = false → Q () t') → wp setDone Q t.
Proof.
  intros Hb Hs HQ. unfold line_done in Hb. set (r := 0 :: drop (S (List.length w)) B) in *. unfold setDone. apply wp_bind, wp_gets, wp_bind.
  eapply (wp_for (λ i t', ∃ k, i = Z.of_nat k ∧ (k <= List.length w)%nat ∧
            buf t' = replicate k 0 ++ drop k w ++ r)).
  - exists 0%nat. split_and!; [done|lia|by rewrite Hb].
  - intros i t' Hi (k & -> & Hk & Eb). apply wp_set_buf.
    { rewrite Eb, !length_app, length_drop, !length_replicate. lia. }
    exists (S k). rewrite Hs, Nat2Z.id in Hi. split_and!; [lia|lia|]. cbn [buf]. rewrite Eb, Nat2Z.id.
    destruct (lookup_lt_is_Some_2 w k) as [x Ex]; [lia|]. rewrite (drop_S _ _ _ Ex). cbn [app].
    rewrite (insert_at_end (replicate k 0)) by (by rewrite length_replicate). by rewrite replicate_S_end, <-app_assoc.
  - rewrite Hs, Nat2Z.id. intros t' (k & Ek & _ & Eb). assert (k = List.length w) as -> by lia.
    apply wp_bind, wp_modify, wp_modify, HQ; cbn [buf bufSize]; [|done..]. by rewrite Eb, drop_all.
Qed.

(** ** The keys of a character *)

Definition keys : list (Z * Z) :=
  [(0x1e, chr "a"); (0x30, chr "b"); (0x2e, chr "c"); (0x20, chr "d"); (0x12, chr "e"); (0x21, chr "f"); (0x22, chr "g");
   (0x23, chr "h"); (0x17, chr "i"); (0x24, chr "j"); (0x25, chr "k"); (0x26, chr "l"); (0x32, chr "m"); (0x31, chr "n");
   (0x18, chr "o"); (0x19, chr "p"); (0x10, chr "q"); (0x13, chr "r"); (0x1f, chr "s"); (0x14, chr "t"); (0x16, chr "u");
   (0x2f, chr "v"); (0x11, chr "w"); (0x2d, chr "x"); (0x15, chr "y"); (0x2c, chr "z"); (0x1c, 10); (0x39, chr " ");
   (0x35, chr "/"); (0x34, chr "."); (0x2b, chr "|")].

(** Every character of the table has one key, and the other codes have no
    character. *)
Lemma scanCodeToLetter_keys code c : c ≠ 0 → scanCodeToLetter code = c ↔ (code, c) ∈ keys.
Proof.
  intros Hc. unfold scanCodeToLetter, keys. split.
  - intros E. repeat (destruct (decide (code = _)) as [->|]; [subst c; repeat (first [apply list_elem_of_here|apply list_elem_of_further])|]). congruence.
  - intros H. repeat (apply elem_of_cons in H as [[= -> ->]|H]; [done|]). by apply elem_of_nil in H.
Qed.

Lemma keys_unique code code' c : (code, c) ∈ keys → (code', c) ∈ keys → code = code'.
Proof.
  intros H H'. assert (Hall : Forall (λ p, Forall (λ q, p.2 = q.2 → p.1 = q.1) keys) keys)
    by (apply (bool_decide_unpack _); vm_compute; exact I).
  rewrite Forall_forall in Hall. specialize (Hall _ H). rewrite Forall_forall in Hall. by apply (Hall _ H').
Qed.
