(* ===== verification/Sys.v ===== *)
(** * Processes and system calls (kernel/sys.cc, kernel/process.h)

    A process has private memory (which [VmmProps] shows the page tables to
    provide), ten descriptors for files, ten for children and ten for
    semaphores.  The objects behind the descriptors are shared: forking
    copies the pointers, not the objects.  A [Shared] pointer is the number
    of its object; what its reference count does is left aside.

    A call that would block ends with [Blocks]: the thread goes on with the
    result once what it waits for has happened. *)

From S2P Require Import Prelude.
From S2P Require Import Libk.
From S2P Require Import BlockIO.
From S2P Require Import Ext2.
From S2P Require Import Elf.
From S2P Require Semaphore.
From S2P Require Keyboard Console.

(** ** State *)

Record FileDescriptor := mkFD { node : option Node; offset : Z; valid : bool }.

(** A PCB, the code of its future, and the memory of its thread. *)
Record PCB := mkPCB {
  fd : list (option nat);
  cp : list (option nat);
  sp : list (option nat);
  future : option Z;
  mem : memory
}.

(** A thread about to run: its process and where it enters user mode. *)
Record entry_ := mkEntry_ { e_process : nat; e_eip : Z; e_esp : Z; e_eax : Z }.

Record sys := mkSys {
  procs : gmap nat PCB;
  fds : gmap nat FileDescriptor;
  sems : gmap nat Semaphore.sem;
  current_ : nat;                  (** the process that makes the call *)
  ready : list entry_;             (** threads given to [schedule] *)
  fs_current : option Node;
  cwd : list Z;                    (** 100 characters *)
  console : list Z;                (** what the calls have printed *)
  keyboard : Keyboard.terminal
}.

Inductive reply :=
| Ret (z : Z)
| Blocks
| Stops                            (** the thread does not come back *)
| ToUser (eip esp : Z).            (** [switchToUser] *)

Section sys.
(** The mounted file system, with the device it is on. *)
Context (ide : BlockIO sys) (fs : Ext2) (root : Node).
(** [kConfig]. *)
Context (ioAPIC localAPIC : Z).
(** The longest string that is scanned for its end. *)
Context (max_string : nat).
(** Where [new] puts the argument strings of [execl], and what it finds in
    the buffers of [ELF::load]. *)
Context (heap_address : nat → Z) (junk1 junk2 : Z → Z).
(** The number of the core, [Debug::checks], and the address of the
    keyboard's buffer. *)
Context (me checks keyboard_buf : Z).

(** ** Access to the state *)

Definition upd_procs (f : gmap nat PCB → gmap nat PCB) : M sys () :=
  modify (λ s, mkSys (f (procs s)) (fds s) (sems s) (current_ s) (ready s) (fs_current s) (cwd s) (console s) (keyboard s)).
Definition upd_fds (f : gmap nat FileDescriptor → gmap nat FileDescriptor) : M sys () :=
  modify (λ s, mkSys (procs s) (f (fds s)) (sems s) (current_ s) (ready s) (fs_current s) (cwd s) (console s) (keyboard s)).
Definition upd_sems (f : gmap nat Semaphore.sem → gmap nat Semaphore.sem) : M sys () :=
  modify (λ s, mkSys (procs s) (fds s) (f (sems s)) (current_ s) (ready s) (fs_current s) (cwd s) (console s) (keyboard s)).
Definition schedule (e : entry_) : M sys () :=
  modify (λ s, mkSys (procs s) (fds s) (sems s) (current_ s) (ready s ++ [e]) (fs_current s) (cwd s) (console s) (keyboard s)).
Definition set_current (n : option Node) : M sys () :=
  modify (λ s, mkSys (procs s) (fds s) (sems s) (current_ s) (ready s) n (cwd s) (console s) (keyboard s)).
Definition set_cwd (c : list Z) : M sys () :=
  modify (λ s, mkSys (procs s) (fds s) (sems s) (current_ s) (ready s) (fs_current s) c (console s) (keyboard s)).
(** [Debug::printf] of characters. *)
Definition print (cs : list Z) : M sys () :=
  modify (λ s, mkSys (procs s) (fds s) (sems s) (current_ s) (ready s) (fs_current s) (cwd s) (console s ++ cs) (keyboard s)).

(** Following a pointer to an object. *)
Definition deref {A} (m : gmap nat A) (p : option nat) : M sys A :=
  match p with
  | Some i => match m !! i with Some x => mret x | None => fault end
  | None => fault
  end.

Definition cur_process : M sys PCB := s ← get; deref (procs s) (Some (current_ s)).
Definition put_process (p : PCB) : M sys () := s ← get; upd_procs (insert (current_ s) p).

(** [a[i]] and [a[i] = x] of an array of ten pointers. *)
Definition slot (a : list (option nat)) (i : Z) : M sys (option nat) :=
  if decide (0 ≤ i) then match a !! Z.to_nat i with Some p => mret p | None => fault end else fault.
Definition set_slot (a : list (option nat)) (i : Z) (p : option nat) : M sys (list (option nat)) :=
  require (0 ≤ i < Z.of_nat (List.length a));;
  mret (<[Z.to_nat i := p]> a).

Definition set_fd (p : PCB) (a : list (option nat)) : PCB := mkPCB a (cp p) (sp p) (future p) (mem p).
Definition set_cp (p : PCB) (a : list (option nat)) : PCB := mkPCB (fd p) a (sp p) (future p) (mem p).
Definition set_sp (p : PCB) (a : list (option nat)) : PCB := mkPCB (fd p) (cp p) a (future p) (mem p).
Definition set_future (p : PCB) (v : option Z) : PCB := mkPCB (fd p) (cp p) (sp p) v (mem p).
Definition set_mem (p : PCB) (m : memory) : PCB := mkPCB (fd p) (cp p) (sp p) (future p) m.

(** *** User memory

    Bytes of the user half that are not registers of an APIC; the kernel's
    own memory and the registers are outside the model, and an access to
    them counts as undefined. *)
Definition in_apic (a : Z) : Prop := (localAPIC ≤ a < localAPIC + 4096) ∨ (ioAPIC ≤ a < ioAPIC + 4096).
#[local] Instance in_apic_dec a : Decision (in_apic a).
Proof. unfold in_apic. apply _. Defined.

Abbreviation user_range := (Elf.user_range ioAPIC localAPIC).

Definition load8 (a : Z) : M sys Z :=
  require (user_range a 1);;
  p ← cur_process;
  mret (mem p a).

Definition load32 (a : Z) : M sys Z :=
  require (user_range a 4);;
  p ← cur_process;
  mret (le (slice (mem p) a 4)).

Definition store (a : Z) (b : list Z) : M sys () :=
  require (user_range a (Z.of_nat (List.length b)));;
  p ← cur_process;
  put_process (set_mem p (blit (mem p) a b)).

(** The characters of a string in user memory, without the zero. *)
Definition user_string (a : Z) : M sys (list Z) :=
  iter max_string (λ acc, c ← load8 (a + Z.of_nat (List.length acc));
                          mret (if decide (c = 0) then inr acc else inl (acc ++ [c]))) [].

(** ** Processes *)

(** [PCB()]: the console on descriptors 0, 1 and 2. *)
Definition new_process (pid f0 f1 f2 : nat) : M sys () :=
  upd_fds (λ m, <[f0 := mkFD None 0 true]> (<[f1 := mkFD None 0 true]> (<[f2 := mkFD None 0 true]> m)));;
  upd_procs (insert pid
    (mkPCB ([Some f0; Some f1; Some f2] ++ replicate 7 None) (replicate 10 None) (replicate 10 None) None (λ _, 0))).

(** [makeThread], as far as processes go: a fresh PCB. *)
Definition makeThread : M sys nat :=
  s ← get;
  let pid := fresh (dom (procs s)) in
  let f0 := fresh (dom (fds s)) in
  let f1 := fresh ({[f0]} ∪ dom (fds s)) in
  let f2 := fresh ({[f0]} ∪ ({[f1]} ∪ dom (fds s))) in
  new_process pid f0 f1 f2;;
  mret pid.

(** The first null pointer from [i] on; [List.length] if there is none. *)
Fixpoint first_free (a : list (option nat)) : nat :=
  match a with Some _ :: a => S (first_free a) | _ => 0 end.

Definition fork (user_eip user_esp : Z) : M sys reply :=
  p ← cur_process;
  pid ← makeThread;
  let index := 20 + Z.of_nat (first_free (cp p)) in
  if decide (index = 30) then mret (Ret (-1)) else
  a ← set_slot (cp p) (index - 20) (Some pid);
  put_process (set_cp p a);;
  s ← get;
  child ← deref (procs s) (Some pid);
  upd_procs (insert pid (mkPCB (fd p) (cp child) (sp p) (future child) (mem p)));;
  schedule (mkEntry_ pid user_eip user_esp 0);;
  mret (Ret index).

Definition close (fd_ : Z) : M sys reply :=
  if decide (fd_ > 30) then mret (Ret (-1)) else
  p ← cur_process;
  (if decide (fd_ < 10) then a ← set_slot (fd p) fd_ None; put_process (set_fd p a)
   else if decide (fd_ < 20) then a ← set_slot (sp p) (fd_ - 10) None; put_process (set_sp p a)
   else a ← set_slot (cp p) (fd_ - 20) None; put_process (set_cp p a));;
  mret (Ret 0).

Definition exit (rc : Z) : M sys reply :=
  p ← cur_process;
  assert (future p = None);;
  put_process (set_future p (Some (u32 rc)));;
  mret Stops.

(** [wait]: the message when there is no child goes to the console. *)
Definition wait (id status : Z) : M sys reply :=
  p ← cur_process;
  c ← slot (cp p) (id - 20);
  match c with
  | None => print (lit "no child!" ++ [10]);; mret (Ret (-1))
  | Some _ =>
      s ← get;
      child ← deref (procs s) c;
      match future child with
      | None => mret Blocks
      | Some v =>
          store status (word v);;
          p ← cur_process;
          a ← set_slot (cp p) (id - 20) None;
          put_process (set_cp p a);;
          mret (Ret 0)
      end
  end.

(** ** Semaphores *)

Definition sem (initial : Z) : M sys reply :=
  p ← cur_process;
  let i := first_free (sp p) in
  if decide (i = List.length (sp p)) then mret (Ret (-1)) else
  s ← get;
  let l := fresh (dom (sems s)) in
  upd_sems (insert l (Semaphore.make initial));;
  a ← set_slot (sp p) (Z.of_nat i) (Some l);
  put_process (set_sp p a);;
  mret (Ret (10 + Z.of_nat i)).

(** Waking a thread that waits, if one does, lets its [down] return. *)
Definition up (id : Z) : M sys reply :=
  if decide (id < 10 ∨ id > 19) then mret (Ret (-1)) else
  p ← cur_process;
  l ← slot (sp p) (id - 10);
  s ← get;
  q ← deref (sems s) l;
  upd_sems (λ m, <[default 0%nat l := (Semaphore.up q).1]> m);;
  mret (Ret 0).

Definition down (id : Z) : M sys reply :=
  if decide (id < 10 ∨ id > 19) then mret (Ret (-1)) else
  p ← cur_process;
  l ← slot (sp p) (id - 10);
  s ← get;
  q ← deref (sems s) l;
  let '(q', blocks) := Semaphore.down (current_ s) q in
  upd_sems (λ m, <[default 0%nat l := q']> m);;
  mret (if blocks : bool then Blocks else Ret 0).

(** ** Files *)

Definition open (fn : Z) : M sys reply :=
  p ← cur_process;
  let i := first_free (fd p) in
  if decide (i = List.length (fd p)) then mret (Ret (-1)) else
  name ← user_string fn;
  s ← get;
  n ← find ide fs (fs_current s) (cstring name);
  match n with
  | None => mret (Ret (-1))
  | Some n =>
      s ← get;
      let f := fresh (dom (fds s)) in
      upd_fds (insert f (mkFD (Some n) 0 false));;
      a ← set_slot (fd p) (Z.of_nat i) (Some f);
      put_process (set_fd p a);;
      mret (Ret (Z.of_nat i))
  end.

Definition bad_pointer (a : Z) : Prop := a < 0x80000000 ∨ in_apic a.
#[local] Instance bad_pointer_dec a : Decision (bad_pointer a).
Proof. unfold bad_pointer. apply _. Defined.

Definition the_node (d : FileDescriptor) : M sys Node :=
  match node d with Some n => mret n | None => fault end.

Definition read (fd_ buf nbyte : Z) : M sys reply :=
  if decide (bad_pointer buf) then mret (Ret (-1)) else
  p ← cur_process;
  refused ←
    (if decide (fd_ < 3 ∨ fd_ > 9) then
       if decide (fd_ < 3 ∧ fd_ >= 0) then
         l ← slot (fd p) fd_;
         s ← get;
         d ← deref (fds s) l;
         mret (valid d)
       else mret true
     else mret false);
  if refused : bool then mret (Ret (-1)) else
  l ← slot (fd p) fd_;
  match l with
  | None => mret (Ret (-1))
  | Some i =>
      s ← get;
      marker ← deref (fds s) l;
      n ← the_node marker;
      let size := NodeData.size_low (data n) in
      let nbyte := if decide (u32 (offset marker + nbyte) > size) then u32 (size - offset marker) else nbyte in
      r ← read_all (node_io ide n) (offset marker) nbyte;
      let ret := u32 r.1 in
      store buf r.2;;
      upd_fds (insert i (mkFD (node marker) (u32 (offset marker + ret)) (valid marker)));;
      mret (Ret (i32 ret))
  end.

(** [inr] ends the loop. *)
Definition write_body (buf nbyte : Z) (i : Z) : M sys (Z + reply) :=
  if decide (i < nbyte) then
    if decide (bad_pointer (u32 (buf + i))) then mret (inr (Ret (i32 i))) else
    c ← load8 (u32 (buf + i));
    print [c];;
    mret (inl (u32 (i + 1)))
  else mret (inr (Ret (i32 nbyte))).

Definition write (fd_ buf nbyte : Z) : M sys reply :=
  if decide (bad_pointer buf ∨ ¬ (fd_ = 0 ∨ fd_ = 1 ∨ fd_ = 2)) then mret (Ret (-1)) else
  p ← cur_process;
  l ← slot (fd p) fd_;
  match l with
  | None => mret (Ret (-1))
  | Some _ =>
      s ← get;
      d ← deref (fds s) l;
      if valid d then iter (S (Z.to_nat nbyte)) (write_body buf nbyte) 0 else mret (Ret (-1))
  end.

Definition len (fd_ : Z) : M sys reply :=
  p ← cur_process;
  l ← slot (fd p) fd_;
  match l with
  | None => mret (Ret (-1))
  | Some _ =>
      s ← get;
      marker ← deref (fds s) l;
      if decide (fd_ ≤ 2 ∧ valid marker = true) then mret (Ret 0) else
      n ← the_node marker;
      mret (Ret (i32 (NodeData.size_low (data n))))
  end.

Definition seek (fd_ off : Z) : M sys reply :=
  if decide (fd_ > 9) then mret (Ret (-1)) else
  p ← cur_process;
  l ← slot (fd p) fd_;
  s ← get;
  refused ←
    (if decide (fd_ < 3) then
       match l with
       | None => mret true
       | Some _ => d ← deref (fds s) l; mret (bool_decide (node d = None))
       end
     else mret false);
  if refused : bool then mret (Ret (-1)) else
  d ← deref (fds s) l;
  upd_fds (insert (default 0%nat l) (mkFD (node d) off (valid d)));;
  mret (Ret (i32 off)).

(** ** Directories *)

Definition the_current : M sys Node := s ← get; match fs_current s with Some n => mret n | None => fault end.

Definition ls (buffer : Z) : M sys reply :=
  n ← the_current;
  len ← get_length_of_dir_entries ide n;
  dir_entries ← get_dir_entries ide n;
  (** the array has [len + 1] bytes *)
  require (Z.of_nat (List.length dir_entries) ≤ u32 (len + 1));;
  b ← copy_part dir_entries 0 len;
  store buffer b;;
  mret (Ret 0).

Definition getDirEntriesLength (fd_ : Z) : M sys reply :=
  if decide (fd_ < 0 ∨ fd_ > 9) then mret (Ret (-1)) else
  p ← cur_process;
  l ← slot (fd p) fd_;
  match l with
  | None => mret (Ret (-1))
  | Some _ =>
      s ← get;
      d ← deref (fds s) l;
      match node d with
      | None => mret (Ret (-1))
      | Some n =>
          if NodeData.is_dir (data n) then
            r ← get_length_of_dir_entries ide n;
            mret (Ret (i32 r))
          else mret (Ret (-1))
      end
  end.

(** [cwd[i]] and [cwd[i] = c]. *)
Definition cwd_at (i : Z) : M sys Z := s ← get; char_at (cwd s) i.
Definition cwd_put (i c : Z) : M sys () :=
  s ← get;
  require (0 ≤ i < Z.of_nat (List.length (cwd s)));;
  set_cwd (<[Z.to_nat i := c]> (cwd s)).

(** [for (; i < 100; i++) cwd[i] = 0]. *)
Definition cwd_clear (from : Z) : M sys () := for_range from (Z.to_nat (100 - from)) (λ i, cwd_put i 0).

(** The last slash of [cwd]. *)
Definition last_slash_body (st : Z * Z) : M sys ((Z * Z) + Z) :=
  let '(i, last) := st in
  c ← cwd_at i;
  mret (if decide (c ≠ 0) then inl (i + 1, if decide (c = chr "/") then i else last) else inr last).

(** The end of [cwd]. *)
Definition cwd_end_body (i : Z) : M sys (Z + Z) :=
  c ← cwd_at i;
  mret (if decide (c ≠ 0) then inl (i + 1) else inr i).

(** Copying the path to the end of [cwd]. *)
Definition append_body (path : Z) (st : Z * Z) : M sys ((Z * Z) + Z) :=
  let '(i, j) := st in
  c ← load8 (path + j);
  if decide (c ≠ 0) then cwd_put i c;; mret (inl (i + 1, j + 1)) else mret (inr i).

Definition find_current (path : list Z) : M sys () :=
  s ← get;
  n ← find ide fs (fs_current s) (cstring path);
  set_current n.

Definition changeDir (path : Z) : M sys reply :=
  c0 ← load8 path;
  if decide (c0 = chr "/") then
    set_current (Some root);;
    cwd_put 0 (chr "/");;
    cwd_clear 1;;
    mret (Ret 0)
  else
  c1 ← (if decide (c0 = chr ".") then load8 (path + 1) else mret 0);
  if decide (c0 = chr "." ∧ c1 = chr ".") then
    find_current (lit "..");;
    lastBackSlash ← iter 101 last_slash_body (0, 0);
    (if decide (lastBackSlash = 0) then cwd_put 0 (chr "/") else mret ());;
    cwd_clear (lastBackSlash + 1);;
    mret (Ret 0)
  else if decide (c0 = chr ".") then mret (Ret 0)
  else
    i ← iter 101 cwd_end_body 0;
    c ← load8 (path + (i - 1));
    (if decide (c ≠ chr "/") then cwd_put i (chr "/") else mret ());;
    i ← iter 101 (append_body path) (i, 0);
    cwd_put i 0;;
    s ← get;
    find_current (take (Z.to_nat i) (cwd s));;
    mret (Ret 0).

Definition pwd : M sys reply :=
  s ← get;
  e ← iter 101 cwd_end_body 0;
  print (take (Z.to_nat e) (cwd s) ++ [10]);;
  mret (Ret 0).

(** ** Running a program *)

(** The length of a string with its zero, rounded up to words. *)
Definition round4 (n : Z) : Z := (n + 3) / 4 * 4.

(** A kernel copy of an argument: its address and its bytes, the string,
    its zero and what follows it in memory. *)
Definition copy_argument (i : nat) (a : Z) : M sys (Z * list Z) :=
  cur ← user_string a;
  require (user_range a (round4 (Z.of_nat (List.length cur) + 1)));;
  p ← cur_process;
  mret (heap_address i, slice (mem p) a (Z.to_nat (round4 (Z.of_nat (List.length cur) + 1)))).

(** [argv[i]] for the words at [a] up to a null. *)
Definition copy_arguments_body (a : Z) (acc : list (Z * list Z)) : M sys (list (Z * list Z) + list (Z * list Z)) :=
  w ← load32 (a + 4 * Z.of_nat (List.length acc));
  if decide (w = 0) then mret (inr acc) else
  x ← copy_argument (List.length acc) w;
  mret (inl (acc ++ [x])).

(** The strings on the stack, downwards from [userEsp]. *)
Fixpoint push_strings (argv : list (Z * list Z)) (userEsp : Z) : M sys Z :=
  match argv with
  | [] => mret userEsp
  | (_, b) :: argv => store userEsp b;; push_strings argv (u32 (userEsp - Z.of_nat (List.length b)))
  end.

(** The pointers, the last one first. *)
Fixpoint push_pointers (argv : list (Z * list Z)) (userEsp : Z) : M sys Z :=
  match argv with
  | [] => mret userEsp
  | (p, _) :: argv =>
      userEsp ← push_pointers argv userEsp;
      store userEsp (word p);;
      mret (u32 (userEsp - 4))
  end.

Definition execl (path : list Z) (argv : list (Z * list Z)) : M sys reply :=
  p ← cur_process;
  put_process (mkPCB (fd p) (replicate 10 None) (replicate 10 None) (future p) (λ _, 0));;
  userEsp ← push_strings argv 0xefffe000;
  store userEsp (word 0);;
  userEsp ← push_pointers argv (u32 (userEsp - 4));
  store userEsp (word (u32 (userEsp + 4)));;
  let userEsp := u32 (userEsp - 4) in
  store userEsp (word (Z.of_nat (List.length argv)));;
  n ← find ide fs (Some root) (cstring path);
  match n with
  | None => print (lit "*** node is nullptr " ++ path ++ [10]);; panic
  | Some n =>
      eip ← load store (node_io ide n) junk1 junk2;
      mret (ToUser eip userEsp)
  end.

(** Case 9 of [sysHandler]: the copies of the path and the arguments. *)
Definition sys_execl (esp : Z) : M sys reply :=
  a ← load32 (esp + 4);
  path ← user_string a;
  argv ← iter max_string (copy_arguments_body (esp + 8)) [];
  execl path argv.

(** ** The machine and the keyboard *)

(** The messages among what [Debug] asks of the console. *)
Definition messages (l : list Console.request) : list Z :=
  flat_map (λ r, match r with Console.Say m => m | _ => [] end) l.

(** [Debug::shutdown] does not return. *)
Definition shutdown : M sys reply :=
  print (messages (Console.shutdown (λ _, []) true me checks));;
  mret Stops.

(** The buffer, its length and the flag of keyboard.cc. *)
Definition with_keyboard {A} (m : M Keyboard.terminal A) : M sys A :=
  λ s,
  let put t := mkSys (procs s) (fds s) (sems s) (current_ s) (ready s) (fs_current s) (cwd s) (console s) t in
  match m (keyboard s) with
  | Ok a t => Ok a (put t)
  | Panicked t => Panicked (put t)
  | Faulted => Faulted
  | OutOfFuel => OutOfFuel
  end.

(** The address of the buffer, which is the kernel's. *)
Definition getCommand : M sys reply := mret (Ret (i32 keyboard_buf)).
Definition is_done : M sys reply := d ← with_keyboard Keyboard.is_done; mret (Ret (if d : bool then 1 else 0)).
Definition setDone : M sys reply := with_keyboard Keyboard.setDone;; mret (Ret 0).

(** ** [sysHandler] *)

(** The panic of an unknown number. *)
Definition not_implemented : M sys reply :=
  print (messages (Console.panic (λ _, []) true me (cstring (lit "*** NOT IMPLEMENTED" ++ [10])) []));;
  panic.

Definition sysHandler (eax user_eip esp : Z) : M sys reply :=
  let arg i := load32 (esp + 4 * i) in
  match eax with
  | 0 => rc ← arg 1; exit rc
  | 1 => a ← arg 1; b ← arg 2; c ← arg 3; write (i32 a) b c
  | 2 => fork user_eip esp
  | 3 => a ← arg 1; sem a
  | 4 => a ← arg 1; up (i32 a)
  | 5 => a ← arg 1; down (i32 a)
  | 6 => a ← arg 1; close a
  | 7 => shutdown
  | 8 => a ← arg 1; b ← arg 2; wait (i32 a) b
  | 9 => sys_execl esp
  | 10 => a ← arg 1; open a
  | 11 => a ← arg 1; len (i32 a)
  | 12 => a ← arg 1; b ← arg 2; c ← arg 3; read (i32 a) b c
  | 13 => a ← arg 1; b ← arg 2; seek a b
  | 14 => a ← arg 1; ls a
  | 15 => a ← arg 1; getDirEntriesLength (i32 a)
  | 16 => a ← arg 1; changeDir a
  | 17 => pwd
  | 18 => getCommand
  | 19 => is_done
  | 20 => setDone
  | _ => not_implemented
  end.
End sys.
