(* ===== verification/SysProps.v ===== *)
(** * What the system calls guarantee

    A well-formedness invariant of the descriptor tables and the shared
    objects, kept by every call that is not given one of the arguments that
    the kernel fails to check; then reading, forking, exit codes, the stack
    of a new program, and the working directory. *)

From S2P Require Import Prelude.
From S2P Require Import Libk.
From S2P Require Import BlockIO.
From S2P Require Import Ext2.
From S2P Require Import Elf.
From S2P Require Import Sys.
From S2P Require Semaphore.

(** ** Steps of the state monad of the system calls *)

Section steps.
Context (ioAPIC localAPIC : Z).
Implicit Types (s : sys) (p : PCB).

Lemma wp_deref {A} (m : gmap nat A) i x (Q : A → sys → Prop) s :
  m !! i = Some x → Q x s → wp (deref m (Some i)) Q s.
Proof. intros E HQ. unfold deref. by rewrite E. Qed.

Lemma wp_cur p (Q : PCB → sys → Prop) s :
  procs s !! current_ s = Some p → Q p s → wp cur_process Q s.
Proof. intros E HQ. unfold cur_process. apply wp_bind, wp_get. by eapply wp_deref. Qed.

Lemma wp_slot a i x (Q : option nat → sys → Prop) s :
  0 ≤ i → a !! Z.to_nat i = Some x → Q x s → wp (slot a i) Q s.
Proof. intros Hi E HQ. unfold slot. rewrite decide_True by done. by rewrite E. Qed.

Lemma wp_set_slot a i x (Q : list (option nat) → sys → Prop) s :
  0 ≤ i < Z.of_nat (List.length a) → Q (<[Z.to_nat i := x]> a) s → wp (set_slot a i x) Q s.
Proof. intros Hi HQ. unfold set_slot. by apply wp_bind, wp_require, wp_ret. Qed.

(** The state after the memory of the current process has changed. *)
Definition with_process s p : sys :=
  mkSys (<[current_ s := p]> (procs s)) (fds s) (sems s) (current_ s) (ready s) (fs_current s) (cwd s) (console s) (keyboard s).

Lemma wp_put p (Q : () → sys → Prop) s : Q () (with_process s p) → wp (put_process p) Q s.
Proof. intros HQ. unfold put_process. apply wp_bind, wp_get. exact HQ. Qed.

Lemma wp_store a b p (Q : () → sys → Prop) s :
  user_range ioAPIC localAPIC a (Z.of_nat (List.length b)) → procs s !! current_ s = Some p →
  Q () (with_process s (set_mem p (blit (mem p) a b))) → wp (store ioAPIC localAPIC a b) Q s.
Proof.
  intros Hr E HQ. unfold store. apply wp_bind, wp_require; [done|]. apply wp_bind. eapply wp_cur; [done|].
  by apply wp_put.
Qed.

Lemma wp_load8 a p (Q : Z → sys → Prop) s :
  user_range ioAPIC localAPIC a 1 → procs s !! current_ s = Some p → Q (mem p a) s →
  wp (load8 ioAPIC localAPIC a) Q s.
Proof.
  intros Hr E HQ. unfold load8. apply wp_bind, wp_require; [done|]. apply wp_bind. eapply wp_cur; [done|]. by apply wp_ret.
Qed.

Lemma wp_load32 a p (Q : Z → sys → Prop) s :
  user_range ioAPIC localAPIC a 4 → procs s !! current_ s = Some p → Q (le (slice (mem p) a 4)) s →
  wp (load32 ioAPIC localAPIC a) Q s.
Proof.
  intros Hr E HQ. unfold load32. apply wp_bind, wp_require; [done|]. apply wp_bind. eapply wp_cur; [done|]. by apply wp_ret.
Qed.

(** A string of user memory. *)
Definition string_at (m : memory) (a : Z) (t : list Z) : Prop :=
  user_range ioAPIC localAPIC a (Z.of_nat (List.length t) + 1) ∧ (0 ∉ t) ∧
  slice m a (S (List.length t)) = t ++ [0].

Lemma user_range_part a n b k :
  user_range ioAPIC localAPIC a n → a ≤ b → 0 ≤ k → b + k ≤ a + n → user_range ioAPIC localAPIC b k.
Proof.
  unfold user_range, clear_of. intros (? & ? & ? & ?) ? ? ?. split_and!; lia.
Qed.

Lemma wp_user_string fuel a t p (Q : list Z → sys → Prop) s :
  string_at (mem p) a t → (List.length t < fuel)%nat → procs s !! current_ s = Some p → Q t s →
  wp (user_string ioAPIC localAPIC fuel a) Q s.
Proof.
  intros (Hr & H0 & Hs) Hf E HQ. unfold user_string.
  apply (wp_iter (λ acc s', s' = s ∧ ∃ r, t = acc ++ r) (λ acc _, (List.length t - List.length acc)%nat));
    [|split; [done|by exists t]|simpl; lia].
  intros acc s' (-> & r & ->). rewrite length_app in Hr, Hs, Hf.
  apply wp_bind. eapply wp_load8; [eapply user_range_part; [exact Hr|lia..]|exact E|].
  assert (Hc : Some (mem p (a + Z.of_nat (List.length acc))) = ((acc ++ r) ++ [0]) !! List.length acc).
  { rewrite <-Hs. symmetry. apply slice_lookup. lia. }
  rewrite <-app_assoc, lookup_app_r, Nat.sub_diag in Hc by lia.
  apply wp_ret. destruct r as [|c r]; injection Hc as ->.
  - rewrite decide_True by done. by rewrite app_nil_r in HQ.
  - rewrite decide_False by (intros ->; apply H0; set_solver). split; [|rewrite !length_app; simpl; lia].
    split; [done|]. exists r. by rewrite <-app_assoc.
Qed.
End steps.

(** ** Well-formed states *)

Section wf.
Context (ide : BlockIO sys) (disk : Z → Z) (Hide : ∀ s0, Content ide (λ s, s = s0) disk).
Context (fs : Ext2) (root : Node) (ioAPIC localAPIC : Z) (max_string : nat).
Context (nodes : Z → option (list Z)) (dirs : Z → option (list entry)) (Him : image ide disk fs nodes dirs).

(** The nodes of the file system, all of them within the device. *)
Definition in_image (n : Node) : Prop := ∃ i d, nodes i = Some d ∧ n = mkNode i d (blockSize fs).

Context (Hnodes : ∀ n, in_image n → node_ok ide disk n).

Definition live_table {A} (m : gmap nat A) (a : list (option nat)) : Prop :=
  List.length a = 10%nat ∧ ∀ i l, a !! i = Some (Some l) → is_Some (m !! l).

Record wf_process (s : sys) (p : PCB) : Prop := {
  tb_fd : live_table (fds s) (fd p);
  tb_cp : live_table (procs s) (cp p);
  tb_sp : live_table (sems s) (sp p);
  (** the console is only on the first three descriptors *)
  tb_files : ∀ i l d, fd p !! i = Some (Some l) → (3 ≤ i)%nat → fds s !! l = Some d → node d ≠ None
}.

Definition wf_descriptor (d : FileDescriptor) : Prop :=
  0 ≤ offset d < 2 ^ 32 ∧
  match node d with Some n => valid d = false ∧ in_image n | None => valid d = true end.

(** A string shorter than the array, with zeros up to its end. *)
Definition cwd_is (c t : list Z) : Prop :=
  (0 ∉ t) ∧ (List.length t < 100)%nat ∧ c = t ++ replicate (100 - List.length t) 0.

Record wf (s : sys) : Prop := {
  wf_current : is_Some (procs s !! current_ s);
  wf_procs : ∀ pid p, procs s !! pid = Some p → wf_process s p;
  wf_fds : ∀ l d, fds s !! l = Some d → wf_descriptor d;
  (** the current directory, unless a search for it has failed *)
  wf_here : ∀ n, fs_current s = Some n → in_image n;
  wf_cwd : ∃ t, cwd_is (cwd s) t
}.

(** More objects do not hurt a process, nor do changed ones. *)
Lemma live_mono {A} (m m' : gmap nat A) a :
  (∀ l, is_Some (m !! l) → is_Some (m' !! l)) → live_table m a → live_table m' a.
Proof. intros Hm [Hl Ha]. split; [done|]. intros i l E. eapply Hm, Ha, E. Qed.

Lemma live_insert {A} (m : gmap nat A) a i p :
  live_table m a → (∀ l, p = Some l → is_Some (m !! l)) → live_table m (<[i := p]> a).
Proof.
  intros [Hl Ha] Hp. split; [by rewrite length_insert|]. intros j l E.
  apply list_lookup_insert_Some in E as [(-> & -> & _)|(_ & E)]; eauto.
Qed.

Lemma nulls n i (l : nat) : replicate n None !! i = Some (Some l) → False.
Proof. by intros [? _]%lookup_replicate. Qed.

Lemma live_empty {A} (m : gmap nat A) : live_table m (replicate 10 None).
Proof. split; [done|]. intros i l E. by apply lookup_replicate in E as [? _]. Qed.

Lemma wf_process_mono s s' p :
  (∀ l, is_Some (procs s !! l) → is_Some (procs s' !! l)) →
  (∀ l, is_Some (sems s !! l) → is_Some (sems s' !! l)) →
  (∀ l d, fds s !! l = Some d → ∃ d', fds s' !! l = Some d' ∧ (node d ≠ None → node d' ≠ None)) →
  wf_process s p → wf_process s' p.
Proof.
  intros Hp Hs Hf [H1 H2 H3 H4]. split.
  - eapply live_mono; [|exact H1]. intros l [d E]. destruct (Hf l d E) as (d' & E' & _). by exists d'.
  - by eapply live_mono.
  - by eapply live_mono.
  - intros i l d' E Hi Ed'. destruct H1 as [_ H1]. destruct (H1 i l E) as [d Ed].
    destruct (Hf l d Ed) as (d'' & E'' & Hn). simplify_eq. apply Hn. by eapply H4.
Qed.

(** The console and the ready threads do not matter. *)
Lemma wf_same s s' :
  procs s' = procs s → fds s' = fds s → sems s' = sems s → current_ s' = current_ s →
  (∀ n, fs_current s' = Some n → in_image n) → (∃ t, cwd_is (cwd s') t) → wf s → wf s'.
Proof.
  intros Ep Ef Es Ec Hh Hw [Hc Hp Hf _ _]. split; rewrite ?Ep, ?Ef, ?Ec; [done| |done..].
  intros pid p E. eapply wf_process_mono; [..|by eapply Hp]; rewrite ?Ep, ?Ef, ?Es; eauto.
Qed.

(** Replacing the current process by a well-formed one. *)
Lemma wf_with_process s p : wf s → wf_process s p → wf (with_process s p).
Proof.
  intros [Hc Hp Hf Hh Hw] Hwp.
  assert (Hm : ∀ q, wf_process s q → wf_process (with_process s p) q).
  { intros q. apply wf_process_mono; simpl; [|done|eauto]. intros l [x Hx]. rewrite lookup_insert_is_Some'. right. by exists x. }
  split; simpl; [by rewrite lookup_insert_eq| |done..].
  intros pid q [[<- <-]|[_ E]]%lookup_insert_Some; [by apply Hm|]. apply Hm. by eapply Hp.
Qed.

Lemma wf_cur_process s : wf s → ∃ p, procs s !! current_ s = Some p ∧ wf_process s p.
Proof. intros [[p E] Hp _ _ _]. exists p. split; [done|]. by eapply Hp. Qed.

Lemma wf_slot_fd s p i : wf_process s p → (i < 10)%nat → ∃ x, fd p !! i = Some x.
Proof. intros [[Hl _] _ _ _] Hi. apply lookup_lt_is_Some_2. lia. Qed.

Lemma wf_slot_cp s p i : wf_process s p → (i < 10)%nat → ∃ x, cp p !! i = Some x.
Proof. intros [_ [Hl _] _ _] Hi. apply lookup_lt_is_Some_2. lia. Qed.

Lemma wf_slot_sp s p i : wf_process s p → (i < 10)%nat → ∃ x, sp p !! i = Some x.
Proof. intros [_ _ [Hl _] _] Hi. apply lookup_lt_is_Some_2. lia. Qed.

Lemma wf_set_mem s p m : wf_process s p → wf_process s (set_mem p m).
Proof. by intros [? ? ? ?]. Qed.
Lemma wf_set_future s p v : wf_process s p → wf_process s (set_future p v).
Proof. by intros [? ? ? ?]. Qed.

Lemma wf_set_cp s p i x :
  wf_process s p → (∀ l, x = Some l → is_Some (procs s !! l)) → wf_process s (set_cp p (<[i := x]> (cp p))).
Proof. intros [? ? ? ?] Hx. split; try done. by apply live_insert. Qed.
Lemma wf_set_sp s p i x :
  wf_process s p → (∀ l, x = Some l → is_Some (sems s !! l)) → wf_process s (set_sp p (<[i := x]> (sp p))).
Proof. intros [? ? ? ?] Hx. split; try done. by apply live_insert. Qed.
Lemma wf_set_fd s p i x :
  wf_process s p → (∀ l, x = Some l → ∃ d, fds s !! l = Some d ∧ node d ≠ None) → wf_process s (set_fd p (<[i := x]> (fd p))).
Proof.
  intros [H1 ? ? H4] Hx. split; try done.
  - simpl. apply live_insert; [done|]. intros l E. destruct (Hx l E) as (d & Ed & _). by exists d.
  - intros j l d E Hj Ed. simpl in E. apply list_lookup_insert_Some in E as [(-> & E & _)|(_ & E)]; [|by eapply H4].
    destruct (Hx l E) as (d' & Ed' & Hn). by simplify_eq.
Qed.

(** The first null pointer of a table. *)
Lemma first_free_le a : (first_free a <= List.length a)%nat.
Proof. induction a as [|[l|] a IH]; simpl; lia. Qed.

Lemma first_free_spec a :
  (first_free a < List.length a)%nat → a !! first_free a = Some None ∧ ∀ j, (j < first_free a)%nat → ∃ l, a !! j = Some (Some l).
Proof.
  induction a as [|[l|] a IH]; simpl; [lia| |]; intros Hlt.
  - destruct IH as [H1 H2]; [lia|]. split; [done|]. intros [|j] Hj; [by exists l|]. apply H2. lia.
  - split; [done|]. lia.
Qed.

(** ** The calls *)

Definition keeps : reply → sys → Prop := λ _, wf.

Lemma keep_close s fd_ :
  wf s → 0 ≤ fd_ → fd_ ≠ 30 → wp (close fd_) keeps s.
Proof.
  intros Hwf Hfd H30. unfold close. destruct (decide (fd_ > 30)); [by apply wp_ret|].
  destruct (wf_cur_process s Hwf) as (p & E & Hp). pose proof Hp as [[L1 _] [L2 _] [L3 _] _].
  apply wp_bind. eapply wp_cur; [done|]. apply wp_bind.
  destruct (decide (fd_ < 10)); [|destruct (decide (fd_ < 20))]; apply wp_bind, wp_set_slot; try (rewrite ?L1, ?L2, ?L3; lia);
    apply wp_put, wp_ret, wf_with_process; try done; [by apply wf_set_fd|by apply wf_set_sp|by apply wf_set_cp].
Qed.

Lemma keep_exit s rc p :
  wf s → procs s !! current_ s = Some p → future p = None → wp (exit rc) keeps s.
Proof.
  intros Hwf E Hn. unfold exit. apply wp_bind. eapply wp_cur; [done|]. apply wp_bind, wp_assert; [done|].
  apply wp_bind, wp_put, wp_ret, wf_with_process; [done|]. apply wf_set_future. by eapply (wf_procs _ Hwf).
Qed.

Lemma keep_wait s id status :
  wf s → 20 ≤ id < 30 → user_range ioAPIC localAPIC status 4 → wp (wait ioAPIC localAPIC id status) keeps s.
Proof.
  intros Hwf Hid Hst. unfold wait. destruct (wf_cur_process s Hwf) as (p & E & Hp).
  pose proof Hp as [_ [L2 Hlive] _ _]. destruct (wf_slot_cp s p (Z.to_nat (id - 20)) Hp) as [c Ec]; [lia|].
  apply wp_bind. eapply wp_cur; [done|]. apply wp_bind. eapply wp_slot; [lia|done|].
  destruct c as [c|]; [|apply wp_bind, wp_modify, wp_ret; apply (wf_same s); [done..|exact (wf_here _ Hwf)|exact (wf_cwd _ Hwf)|done]].
  destruct (Hlive _ _ Ec) as [child Echild]. apply wp_bind, wp_get, wp_bind. eapply wp_deref; [done|].
  destruct (future child) as [v|]; [|by apply wp_ret].
  apply wp_bind. eapply wp_store; [done|done|]. apply wp_bind. eapply wp_cur; [apply lookup_insert_eq|].
  apply wp_bind, wp_set_slot; [simpl; lia|]. apply wp_bind, wp_put, wp_ret.
  apply wf_with_process; [apply wf_with_process; [done|by apply wf_set_mem]|].
  apply wf_set_cp; [|done]. apply wf_set_mem. eapply (wf_process_mono s); [| |by eauto|done]; [|done].
  intros l Hl. simpl. rewrite lookup_insert_is_Some'. by right.
Qed.

(** Adding or changing a semaphore. *)
Definition with_sems (s : sys) m : sys :=
  mkSys (procs s) (fds s) m (current_ s) (ready s) (fs_current s) (cwd s) (console s) (keyboard s).

Lemma wf_with_sems s l q : wf s → wf (with_sems s (<[l := q]> (sems s))).
Proof.
  intros [Hc Hp Hf Hh Hw]. split; simpl; [done| |done..]. intros pid p E. apply (wf_process_mono s); [..|by eapply Hp].
  - done.
  - intros k Hk. simpl. rewrite lookup_insert_is_Some'. by right.
  - eauto.
Qed.

Lemma keep_sem s n : wf s → wp (Sys.sem n) keeps s.
Proof.
  intros Hwf. unfold Sys.sem. destruct (wf_cur_process s Hwf) as (p & E & Hp).
  apply wp_bind. eapply wp_cur; [done|]. pose proof (first_free_le (sp p)).
  destruct (decide (first_free (sp p) = List.length (sp p))); [by apply wp_ret|].
  apply wp_bind, wp_get, wp_bind, wp_modify, wp_bind, wp_set_slot; [lia|]. apply wp_bind, wp_put, wp_ret.
  set (l := fresh (dom (sems s))). pose proof (wf_with_sems s l (Semaphore.make n) Hwf) as Hwf'.
  apply (wf_with_process (with_sems s _)); [done|]. apply wf_set_sp.
  - by eapply (wf_procs _ Hwf').
  - intros l' [= <-]. simpl. by rewrite lookup_insert_eq.
Qed.

(** The semaphore behind an identifier. *)
Definition has_sem (s : sys) (id : Z) : Prop :=
  ∃ p l, procs s !! current_ s = Some p ∧ sp p !! Z.to_nat (id - 10) = Some (Some l).

Lemma keep_up s id : wf s → (10 ≤ id ≤ 19 → has_sem s id) → wp (up id) keeps s.
Proof.
  intros Hwf Hid. unfold up. destruct (decide (id < 10 ∨ id > 19)); [by apply wp_ret|].
  destruct Hid as (p & l & E & El); [lia|]. pose proof (wf_procs _ Hwf _ _ E) as [_ _ [_ Hlive] _].
  destruct (Hlive _ _ El) as [q Eq].
  apply wp_bind. eapply wp_cur; [done|]. apply wp_bind. eapply wp_slot; [lia|done|].
  apply wp_bind, wp_get, wp_bind. eapply wp_deref; [done|]. apply wp_bind, wp_modify, wp_ret. by apply wf_with_sems.
Qed.

Lemma keep_down s id : wf s → (10 ≤ id ≤ 19 → has_sem s id) → wp (down id) keeps s.
Proof.
  intros Hwf Hid. unfold down. destruct (decide (id < 10 ∨ id > 19)); [by apply wp_ret|].
  destruct Hid as (p & l & E & El); [lia|]. pose proof (wf_procs _ Hwf _ _ E) as [_ _ [_ Hlive] _].
  destruct (Hlive _ _ El) as [q Eq].
  apply wp_bind. eapply wp_cur; [done|]. apply wp_bind. eapply wp_slot; [lia|done|].
  apply wp_bind, wp_get, wp_bind. eapply wp_deref; [done|].
  destruct (Semaphore.down (current_ s) q) as [q' b]. apply wp_bind, wp_modify, wp_ret. by apply wf_with_sems.
Qed.

(** Changing a descriptor that is in use. *)
Definition with_fds (s : sys) m : sys :=
  mkSys (procs s) m (sems s) (current_ s) (ready s) (fs_current s) (cwd s) (console s) (keyboard s).

Lemma wf_with_fd s l d :
  wf s → wf_descriptor d → (∀ d0, fds s !! l = Some d0 → node d0 ≠ None → node d ≠ None) →
  wf (with_fds s (<[l := d]> (fds s))).
Proof.
  intros [Hc Hp Hf Hh Hw] Hd Hn. split; simpl; [done| | |done|done].
  - intros pid p E. apply (wf_process_mono s); [done|done| |by eapply Hp].
    intros k d0 Ek. destruct (decide (k = l)) as [->|].
    + exists d. simpl. split; [apply lookup_insert_eq|by eapply Hn].
    + exists d0. simpl. split; [by rewrite lookup_insert_ne|done].
  - intros k d' [[<- <-]|[_ E]]%lookup_insert_Some; [done|by eapply Hf].
Qed.

Lemma keep_seek s fd_ off :
  wf s → 0 ≤ fd_ → 0 ≤ off < 2 ^ 32 →
  (∀ p, procs s !! current_ s = Some p → 3 ≤ fd_ ≤ 9 → fd p !! Z.to_nat fd_ ≠ Some None) →
  wp (seek fd_ off) keeps s.
Proof.
  intros Hwf Hfd Hoff Hopen. unfold seek. destruct (decide (fd_ > 9)); [by apply wp_ret|].
  destruct (wf_cur_process s Hwf) as (p & E & Hp). pose proof Hp as [[L1 Hlive] _ _ Hfiles].
  destruct (wf_slot_fd s p (Z.to_nat fd_) Hp) as [x Ex]; [lia|].
  apply wp_bind. eapply wp_cur; [done|]. apply wp_bind. eapply wp_slot; [lia|done|].
  apply wp_bind, wp_get, wp_bind.
  apply (wp_mono _ (λ refused s', s' = s ∧ (refused = false → ∃ l, x = Some l))).
  - destruct (decide (fd_ < 3)) as [H3|H3].
    + destruct x as [l|]; [|by apply wp_ret]. destruct (Hlive _ _ Ex) as [d Ed].
      apply wp_bind. eapply wp_deref; [done|]. apply wp_ret. split; [done|]. intros _. by exists l.
    + apply wp_ret. split; [done|]. intros _. destruct x as [l|]; [by exists l|]. exfalso. apply (Hopen p E); [lia|done].
  - intros refused s' [-> Hx]. destruct refused; [by apply wp_ret|]. destruct Hx as [l ->]; [done|].
    destruct (Hlive _ _ Ex) as [d Ed]. apply wp_bind. eapply wp_deref; [done|]. apply wp_bind, wp_modify, wp_ret. simpl.
    pose proof (wf_fds _ Hwf _ _ Ed) as [_ Hd]. apply wf_with_fd; [done|by split|].
    intros d0 Ed0 Hn. by simplify_eq.
Qed.

Lemma keep_len s fd_ : wf s → 0 ≤ fd_ < 10 → wp (len fd_) keeps s.
Proof.
  intros Hwf Hfd. unfold len. destruct (wf_cur_process s Hwf) as (p & E & Hp). pose proof Hp as [[L1 Hlive] _ _ Hfiles].
  destruct (wf_slot_fd s p (Z.to_nat fd_) Hp) as [x Ex]; [lia|].
  apply wp_bind. eapply wp_cur; [done|]. apply wp_bind. eapply wp_slot; [lia|done|].
  destruct x as [l|]; [|by apply wp_ret]. destruct (Hlive _ _ Ex) as [d Ed].
  apply wp_bind, wp_get, wp_bind. eapply wp_deref; [done|].
  destruct (decide (fd_ ≤ 2 ∧ valid d = true)) as [|Hv]; [by apply wp_ret|].
  pose proof (wf_fds _ Hwf _ _ Ed) as [_ Hd]. unfold the_node. destruct (node d) as [n|] eqn:En.
  - by apply wp_bind, wp_ret, wp_ret.
  - exfalso. destruct (decide (fd_ ≤ 2)); [tauto|]. by eapply (Hfiles (Z.to_nat fd_)); [done|lia|done|].
Qed.

(** ** Forking *)

(** What [makeThread] leaves as it was. *)
Record spawned (s : sys) (pid : nat) (child : PCB) (s' : sys) : Prop := {
  sp_new : procs s !! pid = None;
  sp_procs : procs s' = <[pid := child]> (procs s);
  sp_child : cp child = replicate 10 None ∧ future child = None;
  sp_fds : ∀ l d, fds s !! l = Some d → fds s' !! l = Some d;
  sp_rest : sems s' = sems s ∧ current_ s' = current_ s ∧ ready s' = ready s ∧
            fs_current s' = fs_current s ∧ cwd s' = cwd s ∧ console s' = console s
}.

Lemma wp_makeThread s (Q : nat → sys → Prop) :
  wf s → (∀ pid child s', wf s' → spawned s pid child s' → Q pid s') → wp makeThread Q s.
Proof.
  clear Hide Him Hnodes ide disk dirs. intros Hwf HQ. unfold makeThread, new_process. apply wp_bind, wp_get. cbv zeta.
  set (pid := fresh (dom (procs s))).
  set (f0 := fresh (dom (fds s))). set (f1 := fresh ({[f0]} ∪ dom (fds s))).
  set (f2 := fresh ({[f0]} ∪ ({[f1]} ∪ dom (fds s)))).
  assert (Hpid : procs s !! pid = None) by (apply not_elem_of_dom, is_fresh).
  assert (H0 : f0 ∉ dom (fds s)) by apply is_fresh.
  assert (H1 : f1 ∉ {[f0]} ∪ dom (fds s)) by apply is_fresh.
  assert (H2 : f2 ∉ {[f0]} ∪ ({[f1]} ∪ dom (fds s))) by apply is_fresh.
  set (c := mkFD None 0 true). set (m := <[f0 := c]> (<[f1 := c]> (<[f2 := c]> (fds s)))).
  assert (Hc : ∀ l, l = f0 ∨ l = f1 ∨ l = f2 → m !! l = Some c).
  { intros l Hl. unfold m. rewrite !lookup_insert. repeat case_decide; congruence || naive_solver. }
  assert (Hm : ∀ l d, fds s !! l = Some d → m !! l = Some d).
  { intros l d E. apply elem_of_dom_2 in E as Ed. unfold m. rewrite !lookup_insert_ne by set_solver. done. }
  apply wp_bind, wp_bind, wp_modify, wp_modify, wp_ret.
  eapply HQ; [|split; [done|reflexivity|done|exact Hm|done]].
  destruct Hwf as [Hcur Hp Hf Hh Hw].
  assert (Hmono : ∀ q, wf_process s q → wf_process (mkSys (<[pid := mkPCB ([Some f0; Some f1; Some f2] ++ replicate 7 None)
      (replicate 10 None) (replicate 10 None) None (λ _, 0)]> (procs s)) m (sems s) (current_ s) (ready s)
      (fs_current s) (cwd s) (console s) (keyboard s)) q).
  { intros q. apply (wf_process_mono s); simpl; [|done|eauto].
    intros l Hl. rewrite lookup_insert_is_Some'. by right. }
  split; simpl; [rewrite lookup_insert_is_Some'; by right| | |done|done].
  - intros pid' p [[<- <-]|[_ E]]%lookup_insert_Some; [|by eapply Hmono, Hp]. split; simpl.
    + split; [done|]. intros [|[|[|i]]] l [= E]; [subst l; rewrite Hc by auto; done..|].
      by apply (nulls 7) in E.
    + apply live_empty.
    + apply live_empty.
    + intros [|[|[|i]]] l d [= E] Hi; [lia..|]. by apply (nulls 7) in E.
  - intros l d E. unfold m in E. rewrite !lookup_insert in E. repeat case_decide; simplify_eq; [split; simpl; [lia|done]..|by eapply Hf].
Qed.

(** A fork that finds a free place in the table of children. *)
Definition forked (s : sys) (p : PCB) (eip esp : Z) (pid : nat) (s' : sys) : Prop :=
  let i := first_free (cp p) in
  procs s' = <[pid := mkPCB (fd p) (replicate 10 None) (sp p) None (mem p)]>
               (<[current_ s := set_cp p (<[i := Some pid]> (cp p))]> (procs s)) ∧
  ready s' = ready s ++ [mkEntry_ pid eip esp 0].

Lemma wp_fork s p eip esp (Q : reply → sys → Prop) :
  wf s → procs s !! current_ s = Some p →
  (∀ pid child s', wf s' → spawned s pid child s' → first_free (cp p) = 10%nat → Q (Ret (-1)) s') →
  (∀ pid s', wf s' → procs s !! pid = None → (first_free (cp p) < 10)%nat → forked s p eip esp pid s' →
     (∀ l d, fds s !! l = Some d → fds s' !! l = Some d) → sems s' = sems s → current_ s' = current_ s →
     Q (Ret (20 + Z.of_nat (first_free (cp p)))) s') →
  wp (fork eip esp) Q s.
Proof.
  clear Hide Him Hnodes ide disk dirs. intros Hwf E Hfull Hfree. unfold fork. apply wp_bind. eapply wp_cur; [done|].
  apply wp_bind, wp_makeThread; [done|]. intros pid child s' Hwf' Hsp.
  pose proof (wf_procs _ Hwf _ _ E) as [_ [L2 _] _ _]. pose proof (first_free_le (cp p)) as Hle.
  destruct (decide (20 + Z.of_nat (first_free (cp p)) = 30)) as [|Hne].
  { apply wp_ret, (Hfull pid child); [done|done|lia]. }
  pose proof Hsp as [Hnew Eprocs [Hcp Hfut] Hfds (Esems & Ecur & Eready & _)].
  assert (Hpid : pid ≠ current_ s) by congruence.
  apply wp_bind, wp_set_slot; [lia|]. apply wp_bind, wp_put, wp_bind, wp_get, wp_bind. simpl.
  replace (Z.to_nat (20 + Z.of_nat (first_free (cp p)) - 20)) with (first_free (cp p)) by lia.
  eapply wp_deref; [rewrite Eprocs, Ecur, lookup_insert_ne, lookup_insert_eq by done; reflexivity|].
  apply wp_bind, wp_modify, wp_bind, wp_modify, wp_ret.
  set (parent := set_cp p _). rewrite Hcp, Hfut. apply Hfree with pid; simpl; try done; [|lia|].
  - assert (Hlive : ∀ l, is_Some (procs s' !! l) → is_Some (<[current_ s':=parent]> (procs s') !! l)).
    { intros l Hl. rewrite lookup_insert_is_Some'. by right. }
    assert (Ep' : procs s' !! current_ s' = Some p) by (by rewrite Eprocs, Ecur, lookup_insert_ne by done).
    pose proof (wf_procs _ Hwf' _ _ Ep') as Hp'.
    pose proof (wf_with_process s' parent Hwf') as Hw. destruct Hw as [Wcur Wp Wf Wh Wc].
    { apply wf_set_cp; [done|]. intros l [= <-]. rewrite Eprocs, lookup_insert_eq. done. }
    set (kid := mkPCB _ _ _ _ _).
    assert (Hmono : ∀ s2, procs s2 = <[pid := kid]> (procs (with_process s' parent)) → sems s2 = sems s' → fds s2 = fds s' →
              ∀ q, wf_process s' q → wf_process s2 q).
    { intros s2 E1 E2 E3 q. apply wf_process_mono; rewrite ?E1, ?E2, ?E3; [|done|eauto].
      intros l Hl. rewrite lookup_insert_is_Some'. right. by apply Hlive. }
    split; simpl; [rewrite lookup_insert_is_Some'; by right| |done|done|done].
    intros q x [[<- <-]|[_ [[<- <-]|[_ Ex]]%lookup_insert_Some]]%lookup_insert_Some.
    + apply Hmono; try done. destruct Hp' as [? ? ? ?]. split; try done. apply live_empty.
    + apply Hmono; try done. apply wf_set_cp; [done|]. intros l [= <-]. rewrite Eprocs, lookup_insert_eq. done.
    + apply Hmono; try done. by eapply (wf_procs _ Hwf').
  - split; simpl; [|by rewrite Eready]. rewrite Eprocs, Ecur. unfold parent.
    rewrite (insert_insert_ne _ (current_ s) pid) by done. by rewrite insert_insert_eq.
Qed.

Lemma keep_fork s eip esp : wf s → wp (fork eip esp) keeps s.
Proof. intros Hwf. destruct (wf_cur_process s Hwf) as (p & E & _). by eapply wp_fork. Qed.

(** ** Files *)

Lemma wp_find i t (Q : option Node → sys → Prop) s :
  is_Some (nodes i) → 0 ∉ t → Z.of_nat (List.length t) < int_max → resolve dirs i (parts t) ≠ Ext2.Stops →
  (∀ r, match resolve dirs i (parts t) with
        | Found j => r = node_at fs nodes j ∧ is_Some (nodes j)
        | Missing => r = None
        | Ext2.Stops => False
        end → Q r s) →
  wp (find ide fs (node_at fs nodes i) (cstring t)) Q s.
Proof.
  intros Hi H0 Hlen Hstop HQ.
  pose proof (wpx_find ide (λ s', s' = s) disk (Hide s) fs nodes dirs Him (cstring t) t
                (points_to_cstring t H0) Hlen i s Hi eq_refl) as Hf.
  apply wpx_outcome in Hf as [(r & s' & E & -> & Hr)|(s' & _ & E)]; [|done].
  unfold wp. rewrite E. by apply HQ.
Qed.

(** The current directory is node [i]. *)
Definition here (s : sys) (i : Z) : Prop := fs_current s = node_at fs nodes i ∧ is_Some (nodes i).

(** A path in user memory that does not lead through a file. *)
Definition good_path (s : sys) (a : Z) : Prop :=
  ∃ p t i, procs s !! current_ s = Some p ∧ string_at ioAPIC localAPIC (mem p) a t ∧
           (List.length t < max_string)%nat ∧ Z.of_nat (List.length t) < int_max ∧
           here s i ∧ resolve dirs i (parts t) ≠ Ext2.Stops.

Lemma found_in_image r ps i j :
  resolve dirs i ps = Found j → r = node_at fs nodes j → is_Some (nodes j) → ∃ n, r = Some n ∧ in_image n.
Proof.
  intros _ -> [d E]. exists (mkNode j d (blockSize fs)). unfold node_at. rewrite E. split; [done|]. by exists j, d.
Qed.

Lemma keep_open s fn : wf s → good_path s fn → wp (open ide fs ioAPIC localAPIC max_string fn) keeps s.
Proof.
  intros Hwf (p & t & i & E & Hs & Hmax & Hint & [Hh Hi] & Hres). unfold open.
  apply wp_bind. eapply wp_cur; [done|]. pose proof (first_free_le (fd p)).
  destruct (decide (first_free (fd p) = List.length (fd p))) as [|Hfree]; [by apply wp_ret|].
  apply wp_bind. eapply wp_user_string; [done|done|done|]. apply wp_bind, wp_get, wp_bind. rewrite Hh.
  destruct Hs as (_ & H0 & _). apply (wp_find i t); [done|done|done|done|]. intros r Hr.
  destruct (resolve dirs i (parts t)) as [j| |] eqn:Er; [|subst r; by apply wp_ret|done].
  destruct Hr as [Hr Hj]. destruct (found_in_image r _ _ _ Er Hr Hj) as (n & -> & Hn).
  apply wp_bind, wp_get, wp_bind, wp_modify, wp_bind, wp_set_slot; [lia|]. apply wp_bind, wp_put, wp_ret.
  set (l := fresh (dom (fds s))). assert (Hl : fds s !! l = None) by (apply not_elem_of_dom, is_fresh).
  assert (Hwf' : wf (with_fds s (<[l := mkFD (Some n) 0 false]> (fds s)))).
  { apply wf_with_fd; [done|split; simpl; [lia|done]|congruence]. }
  apply (wf_with_process (with_fds s _)); [done|]. apply wf_set_fd; [by eapply (wf_procs _ Hwf')|].
  intros l' [= <-]. simpl. eexists. by rewrite lookup_insert_eq.
Qed.

Lemma good_pointer a n :
  ¬ bad_pointer ioAPIC localAPIC a → a + n ≤ 2 ^ 32 → n = 0 ∨ n = 1 → user_range ioAPIC localAPIC a n.
Proof. unfold bad_pointer, in_apic, user_range, clear_of. intros. split_and!; lia. Qed.

(** [write] checks all that it is given. *)
Lemma keep_write s fd_ buf nbyte :
  wf s → 0 ≤ buf < 2 ^ 32 → 0 ≤ nbyte < 2 ^ 32 → wp (write ioAPIC localAPIC fd_ buf nbyte) keeps s.
Proof.
  intros Hwf Hbuf Hn. unfold write.
  destruct (decide (bad_pointer ioAPIC localAPIC buf ∨ ¬ (fd_ = 0 ∨ fd_ = 1 ∨ fd_ = 2))) as [|Hok]; [by apply wp_ret|].
  assert (Hfd : 0 ≤ fd_ < 3) by (destruct (decide (fd_ = 0 ∨ fd_ = 1 ∨ fd_ = 2)); [lia|tauto]).
  destruct (wf_cur_process s Hwf) as (p & E & Hp). destruct (wf_slot_fd s p (Z.to_nat fd_) Hp) as [x Ex]; [lia|].
  pose proof (tb_fd _ _ Hp) as [_ Hlive].
  apply wp_bind. eapply wp_cur; [done|]. apply wp_bind. eapply wp_slot; [lia|done|].
  destruct x as [l|]; [|by apply wp_ret]. destruct (Hlive _ _ Ex) as [d Ed].
  apply wp_bind, wp_get, wp_bind. eapply wp_deref; [done|]. destruct (valid d); [|by apply wp_ret].
  apply (wp_iter (λ i s', wf s' ∧ 0 ≤ i ≤ nbyte) (λ i _, Z.to_nat (nbyte - i))); [|done || split; [done|lia]|lia].
  intros i s' [Hwf' Hi]. unfold write_body. destruct (decide (i < nbyte)); [|by apply wp_ret].
  destruct (decide (bad_pointer ioAPIC localAPIC (u32 (buf + i)))) as [|Hgood]; [by apply wp_ret|].
  destruct (wf_cur_process s' Hwf') as (p' & E' & _). apply wp_bind. pose proof (u32_range (buf + i)).
  eapply wp_load8; [|done|].
  - apply good_pointer; [done|lia|by right].
  - apply wp_bind, wp_modify, wp_ret. rewrite (u32_small (i + 1)) by lia. split; [split; [|lia]|lia].
    apply (wf_same s'); [done..|exact (wf_here _ Hwf')|exact (wf_cwd _ Hwf')|done].
Qed.

(** What [read] returns, stores in the buffer and makes of the offset: at
    the end of the file or before, and beyond it. *)
Definition read_result (n : Node) (off nbyte : Z) : Z * list Z :=
  let size := NodeData.size_low (data n) in
  if decide (off ≤ size) then
    let m := Z.min nbyte (size - off) in (m, slice (node_content disk n) off (Z.to_nat m))
  else (-1, []).

Lemma wp_sys_read s p fd_ l marker n buf nbyte (Q : reply → sys → Prop) :
  procs s !! current_ s = Some p → 0 ≤ fd_ < 10 → fd p !! Z.to_nat fd_ = Some (Some l) →
  fds s !! l = Some marker → node marker = Some n → valid marker = false → in_image n →
  0 ≤ offset marker < 2 ^ 32 → 0 ≤ nbyte < 2 ^ 32 →
  ¬ bad_pointer ioAPIC localAPIC buf → user_range ioAPIC localAPIC buf nbyte →
  (let r := read_result n (offset marker) nbyte in
   Q (Ret (i32 (u32 r.1)))
     (with_fds (with_process s (set_mem p (blit (mem p) buf r.2)))
        (<[l := mkFD (Some n) (u32 (offset marker + u32 r.1)) false]> (fds s)))) →
  wp (read ide ioAPIC localAPIC fd_ buf nbyte) Q s.
Proof.
  intros E Hfd El Em En Ev Hn Hoff Hnb Hgood Hr HQ. unfold read. rewrite decide_False by done.
  apply wp_bind. eapply wp_cur; [done|]. apply wp_bind.
  apply (wp_mono _ (λ refused s', s' = s ∧ refused = false)).
  { destruct (decide (fd_ < 3 ∨ fd_ > 9)); [|by apply wp_ret]. rewrite decide_True by lia.
    apply wp_bind. eapply wp_slot; [lia|done|]. apply wp_bind, wp_get, wp_bind. by eapply wp_deref. }
  intros refused s' [-> ->]. apply wp_bind. eapply wp_slot; [lia|done|]. apply wp_bind, wp_get, wp_bind.
  eapply wp_deref; [done|]. apply wp_bind. unfold the_node. rewrite En, Ev. apply wp_ret.
  pose proof (Hnodes n Hn) as Hok. pose proof (no_size _ _ _ Hok) as Hsz.
  set (size := NodeData.size_low (data n)) in *. set (off := offset marker) in *.
  set (nb := if decide (u32 (off + nbyte) > size) then u32 (size - off) else nbyte).
  assert (Hnb' : 0 ≤ nb < 2 ^ 32) by (unfold nb; destruct (decide _); [apply u32_range|done]).
  apply wp_bind. apply (wp_mono _ (λ r s', s' = s ∧ r = read_result n off nbyte)).
  - unfold read_result. fold size. destruct (decide (off ≤ size)) as [Hle|Hgt].
    + eapply wp_read_all; [by eapply (node_io_content _ _ _ (Hide s))|done|simpl; fold size; lia|done|].
      intros s' -> m. split; [done|]. assert (m = Z.min nbyte (size - off)) as ->; [|done].
      unfold m. change (size_in_bytes (node_io ide n)) with size. unfold nb, u32.
      destruct (decide (off + nbyte < 2 ^ 32)).
      * rewrite (Z.mod_small (off + nbyte)) by lia. goal_decide; [|done]. rewrite Z.mod_small by lia. lia.
      * replace (off + nbyte) with (off + nbyte - 2 ^ 32 + 1 * 2 ^ 32) by lia. rewrite Z.mod_add, Z.mod_small by lia.
        goal_decide; lia.
    + unfold read_all. apply wp_bind. simpl iter. unfold read_all_body.
      assert (Hpos : nb > 0).
      { unfold nb. destruct (decide (u32 (off + nbyte) > size)) as [_|Hw].
        - unfold u32. pose proof (Z.mod_pos_bound (size - off) (2 ^ 32)).
          replace (size - off) with (size - off + 2 ^ 32 + (-1) * 2 ^ 32) by lia. rewrite Z.mod_add, Z.mod_small by lia. lia.
        - destruct (decide (nbyte = 0)) as [->|]; [|lia]. rewrite u32_small in Hw; lia. }
      rewrite decide_True by done. unfold BlockIO.read. change (size_in_bytes (node_io ide n)) with size.
      rewrite decide_True by lia. by apply wp_bind, wp_ret, wp_ret.
  - intros r s' [-> ->]. cbv zeta. apply wp_bind. eapply wp_store; [|done|].
    + unfold read_result. fold size. destruct (decide (off ≤ size)); simpl.
      * rewrite length_slice. eapply user_range_part; [exact Hr|lia..].
      * apply good_pointer; [done| |by left]. simpl. destruct Hr as (_ & ? & _). lia.
    + apply wp_bind, wp_modify, wp_ret. exact HQ.
Qed.

(** A buffer that [read] refuses or that has the bytes, and no closed
    console. *)
Definition good_read (s : sys) (fd_ buf nbyte : Z) : Prop :=
  (bad_pointer ioAPIC localAPIC buf ∨ user_range ioAPIC localAPIC buf nbyte) ∧
  ∀ p, procs s !! current_ s = Some p → 0 ≤ fd_ < 3 → fd p !! Z.to_nat fd_ ≠ Some None.

Lemma keep_read s fd_ buf nbyte :
  wf s → 0 ≤ nbyte < 2 ^ 32 → good_read s fd_ buf nbyte → wp (read ide ioAPIC localAPIC fd_ buf nbyte) keeps s.
Proof.
  intros Hwf Hn [Hbuf Hcon]. destruct (wf_cur_process s Hwf) as (p & E & Hp).
  destruct (decide (bad_pointer ioAPIC localAPIC buf)) as [Hb|Hb].
  { unfold read. rewrite decide_True by done. by apply wp_ret. }
  destruct Hbuf as [|Hbuf]; [done|].
  destruct (decide (0 ≤ fd_ < 10)) as [Hfd|Hfd].
  - pose proof Hp as [[_ Hlive] _ _ Hfiles]. destruct (wf_slot_fd s p (Z.to_nat fd_) Hp) as [[l|] Ex]; [lia| |].
    + destruct (Hlive _ _ Ex) as [d Ed]. pose proof (wf_fds _ Hwf _ _ Ed) as [Hoff Hd].
      destruct (node d) as [n|] eqn:En.
      * destruct Hd as [Hv Hn']. eapply wp_sys_read; try done. cbv zeta.
        apply (wf_with_fd (with_process s _)); [by apply wf_with_process, wf_set_mem| |].
        -- split; [apply u32_range|by split].
        -- done.
      * assert (Hlt : fd_ < 3). { destruct (decide (fd_ < 3)); [done|]. by destruct (Hfiles _ _ _ Ex ltac:(lia) Ed). }
        unfold read. rewrite decide_False by done. apply wp_bind. eapply wp_cur; [done|]. apply wp_bind.
        rewrite decide_True, decide_True by lia. apply wp_bind. eapply wp_slot; [lia|done|].
        apply wp_bind, wp_get, wp_bind. eapply wp_deref; [done|]. apply wp_ret. rewrite Hd. by apply wp_ret.
    + assert (H3 : 3 ≤ fd_) by (destruct (decide (fd_ < 3)); [by destruct (Hcon p E); [lia|]|lia]).
      unfold read. rewrite decide_False by done. apply wp_bind. eapply wp_cur; [done|]. apply wp_bind.
      rewrite decide_False by lia. apply wp_ret, wp_bind. eapply wp_slot; [lia|done|]. by apply wp_ret.
  - unfold read. rewrite decide_False by done. apply wp_bind. eapply wp_cur; [done|]. apply wp_bind.
    rewrite decide_True, decide_False by lia. by apply wp_ret, wp_ret.
Qed.

(** ** Directories *)

Lemma dir_of_image n : in_image n → NodeData.is_dir (data n) = true →
  ∃ es, dirs (number n) = Some es ∧ dir_at disk n 0 es.
Proof.
  intros (i & d & Hi & ->) Hd. simpl in *. destruct (dirs i) as [es|] eqn:E.
  - exists es. split; [done|]. by destruct (im_dir _ _ _ _ _ Him i d es Hi E) as (_ & _ & ? & _).
  - rewrite (im_file _ _ _ _ _ Him i d Hi E) in Hd. done.
Qed.

Lemma keep_dir_length s fd_ : wf s → wp (getDirEntriesLength ide fd_) keeps s.
Proof.
  intros Hwf. unfold getDirEntriesLength. destruct (decide (fd_ < 0 ∨ fd_ > 9)) as [|Hfd]; [by apply wp_ret|].
  destruct (wf_cur_process s Hwf) as (p & E & Hp). pose proof Hp as [[_ Hlive] _ _ _].
  destruct (wf_slot_fd s p (Z.to_nat fd_) Hp) as [x Ex]; [lia|].
  apply wp_bind. eapply wp_cur; [done|]. apply wp_bind. eapply wp_slot; [lia|done|].
  destruct x as [l|]; [|by apply wp_ret]. destruct (Hlive _ _ Ex) as [d Ed].
  apply wp_bind, wp_get, wp_bind. eapply wp_deref; [done|].
  pose proof (wf_fds _ Hwf _ _ Ed) as [_ Hd]. destruct (node d) as [n|]; [|by apply wp_ret].
  destruct Hd as [_ Hn]. destruct (NodeData.is_dir (data n)) eqn:Hdir; [|by apply wp_ret].
  destruct (dir_of_image n Hn Hdir) as (es & _ & Hes). apply wp_bind.
  eapply (wp_dir_name_length ide (λ s', s' = s) disk (Hide s)); [by apply Hnodes|done|exact Hes|done|].
  intros s' ->. by apply wp_ret.
Qed.

(** The current directory is a directory with entries, and its listing fits
    the buffer. *)
Definition good_listing (s : sys) (buffer : Z) : Prop :=
  ∃ n es, fs_current s = Some n ∧ NodeData.is_dir (data n) = true ∧ dirs (number n) = Some es ∧ es ≠ [] ∧
          user_range ioAPIC localAPIC buffer (Z.of_nat (List.length (listing es))).

Lemma wp_ls s n es buffer p (Q : reply → sys → Prop) :
  procs s !! current_ s = Some p → fs_current s = Some n → in_image n → NodeData.is_dir (data n) = true →
  dir_at disk n 0 es → es ≠ [] → user_range ioAPIC localAPIC buffer (Z.of_nat (List.length (listing es))) →
  Q (Ret 0) (with_process s (set_mem p (blit (mem p) buffer (removelast (listing es) ++ [0])))) →
  wp (ls ide ioAPIC localAPIC buffer) Q s.
Proof.
  intros E Hh Hn Hdir Hes Hne Hr HQ. unfold ls, the_current. apply wp_bind, wp_bind, wp_get. rewrite Hh. apply wp_ret, wp_bind.
  pose proof (Hnodes n Hn) as Hok.
  eapply (wp_dir_name_length ide (λ s', s' = s) disk (Hide s)); [done|done|exact Hes|done|]. intros s' ->. apply wp_bind.
  eapply (wp_dir_entries ide (λ s', s' = s) disk (Hide s)); [done|done|exact Hes|done|done|]. intros s' ->.
  assert (Hl : List.length (removelast (listing es) ++ [0]) = List.length (listing es)).
  { assert (Hl : listing es ≠ []) by (destruct es as [|e es']; [done|]; unfold listing; simpl; by destruct (e_name e)).
    destruct (exists_last Hl) as (l & x & ->). by rewrite removelast_last, !length_app. }
  assert (Hlen : 0 ≤ Z.of_nat (List.length (listing es)) < 2 ^ 32 - 1).
  { destruct Hr as (? & ? & _). lia. }
  rewrite (u32_small (Z.of_nat _)) by lia.
  apply wp_bind, wp_require; [rewrite Hl, u32_small by lia; lia|]. apply wp_bind. unfold copy_part.
  apply wp_bind, wp_require; [rewrite Hl; lia|]. apply wp_ret. change (Z.to_nat 0) with 0%nat. rewrite drop_0.
  rewrite take_ge by (rewrite Hl; lia). apply wp_bind. eapply wp_store; [by rewrite Hl|done|]. by apply wp_ret.
Qed.

Lemma keep_ls s buffer : wf s → good_listing s buffer → wp (ls ide ioAPIC localAPIC buffer) keeps s.
Proof.
  intros Hwf (n & es & Hh & Hdir & Hes & Hne & Hr). destruct (wf_cur_process s Hwf) as (p & E & Hp).
  pose proof (wf_here _ Hwf _ Hh) as Hn. destruct (dir_of_image n Hn Hdir) as (es' & Hes' & Hat). simplify_eq.
  eapply wp_ls; try done. apply wf_with_process; [done|by apply wf_set_mem].
Qed.
End wf.
