(* ===== verification/SysCwd.v ===== *)
(** * The working directory (changeDir and pwd of kernel/sys.cc)

    The array of 100 characters [cwd] and the current directory, and what
    the four forms of [changeDir] make of them. *)

From S2P Require Import Prelude.
From S2P Require Import Libk.
From S2P Require Import BlockIO.
From S2P Require Import Ext2.
From S2P Require Import Elf.
From S2P Require Import Sys.
From S2P Require Import SysProps.

(** The position of the last slash of a string, zero if there is none. *)
Fixpoint last_slash_from (k last : Z) (t : list Z) : Z :=
  match t with
  | [] => last
  | c :: t => last_slash_from (k + 1) (if decide (c = chr "/") then k else last) t
  end.
Definition last_slash : list Z → Z := last_slash_from 0 0.

(** The working directory after [..]. *)
Definition parent_dir (t : list Z) : list Z :=
  if decide (last_slash t = 0) then [chr "/"] else take (Z.to_nat (last_slash t + 1)) t.

Lemma last_slash_from_snoc t k last c :
  last_slash_from k last (t ++ [c]) =
    if decide (c = chr "/") then k + Z.of_nat (List.length t) else last_slash_from k last t.
Proof.
  revert k last. induction t as [|x t IH]; intros k last; cbn [app last_slash_from List.length].
  - destruct (decide _); [lia|done].
  - rewrite IH. destruct (decide (c = _)); [lia|done].
Qed.

Lemma last_slash_range t : 0 ≤ last_slash t ∧ (last_slash t = 0 ∨ last_slash t < Z.of_nat (List.length t)).
Proof.
  unfold last_slash. induction t as [|c t IH] using rev_ind; [simpl; lia|].
  rewrite last_slash_from_snoc, length_app. simpl. destruct (decide _); lia.
Qed.

(** ** The array *)

Lemma cwd_is_length c t : cwd_is c t → List.length c = 100%nat.
Proof. intros (_ & Hl & ->). rewrite length_app, length_replicate. lia. Qed.

Lemma cwd_is_zero c t : cwd_is c t → c !! List.length t = Some 0.
Proof.
  intros (_ & Hl & ->). rewrite lookup_app_r, Nat.sub_diag by lia. apply lookup_replicate. split; [done|lia].
Qed.

Lemma cwd_is_at c t i x : cwd_is c t → t !! i = Some x → c !! i = Some x ∧ x ≠ 0.
Proof.
  intros (H0 & _ & ->) E. split; [by apply lookup_app_l_Some|]. intros ->. apply H0. by eapply list_elem_of_lookup_2.
Qed.

Section cwd.
Context (ioAPIC localAPIC : Z).
Implicit Types (s : sys).

Definition with_cwd s c : sys :=
  mkSys (procs s) (fds s) (sems s) (current_ s) (ready s) (fs_current s) c (console s) (keyboard s).
Definition with_here s n : sys :=
  mkSys (procs s) (fds s) (sems s) (current_ s) (ready s) n (cwd s) (console s) (keyboard s).

Lemma wp_cwd_at i c (Q : Z → sys → Prop) s :
  0 ≤ i → cwd s !! Z.to_nat i = Some c → Q c s → wp (cwd_at i) Q s.
Proof. intros Hi E HQ. unfold cwd_at. apply wp_bind, wp_get. by eapply wp_char_at. Qed.

Lemma wp_cwd_put i c (Q : () → sys → Prop) s :
  0 ≤ i < Z.of_nat (List.length (cwd s)) → Q () (with_cwd s (<[Z.to_nat i := c]> (cwd s))) → wp (cwd_put i c) Q s.
Proof. intros Hi HQ. unfold cwd_put. by apply wp_bind, wp_get, wp_bind, wp_require. Qed.

Lemma with_cwd_twice s c c' : with_cwd (with_cwd s c) c' = with_cwd s c'.
Proof. done. Qed.

(** Zeros from a place up to the end. *)
Lemma wp_cwd_clear from (Q : () → sys → Prop) s :
  List.length (cwd s) = 100%nat → 0 ≤ from ≤ 100 →
  Q () (with_cwd s (take (Z.to_nat from) (cwd s) ++ replicate (Z.to_nat (100 - from)) 0)) → wp (cwd_clear from) Q s.
Proof.
  unfold cwd_clear. remember (Z.to_nat (100 - from)) as n eqn:En. revert from s En.
  induction n as [|n IH]; intros from s En Hl Hf HQ; simpl.
  - apply wp_ret. rewrite take_ge, app_nil_r in HQ by lia. by destruct s.
  - apply wp_bind, wp_cwd_put; [lia|]. apply IH; [lia|simpl; by rewrite length_insert|lia|].
    rewrite with_cwd_twice. simpl. replace (Z.to_nat (from + 1)) with (S (Z.to_nat from)) by lia.
    erewrite take_S_r by (apply list_lookup_insert_eq; lia).
    rewrite take_insert_ge by lia. by rewrite <-app_assoc.
Qed.

Lemma wp_cwd_end t (Q : Z → sys → Prop) s :
  cwd_is (cwd s) t → Q (Z.of_nat (List.length t)) s → wp (iter 101 cwd_end_body 0) Q s.
Proof.
  intros Hc HQ. pose proof Hc as (_ & Hl & _).
  apply (wp_iter (λ i s', s' = s ∧ 0 ≤ i ≤ Z.of_nat (List.length t)) (λ i _, Z.to_nat (100 - i)));
    [|split; [done|lia]|lia].
  intros i s' [-> Hi]. unfold cwd_end_body. apply wp_bind. destruct (decide (i = Z.of_nat (List.length t))) as [->|Hne].
  - eapply wp_cwd_at; [lia|rewrite Nat2Z.id; by apply cwd_is_zero|]. apply wp_ret. by rewrite decide_False by tauto.
  - destruct (lookup_lt_is_Some_2 t (Z.to_nat i)) as [c E]; [lia|]. destruct (cwd_is_at _ _ _ _ Hc E) as [Ec H0].
    eapply wp_cwd_at; [lia|exact Ec|]. apply wp_ret. rewrite decide_True by done. split; [split; [done|lia]|lia].
Qed.

Lemma wp_last_slash t (Q : Z → sys → Prop) s :
  cwd_is (cwd s) t → Q (last_slash t) s → wp (iter 101 last_slash_body (0, 0)) Q s.
Proof.
  intros Hc HQ. pose proof Hc as (_ & Hl & _).
  apply (wp_iter (λ '(i, l) s', s' = s ∧ 0 ≤ i ≤ Z.of_nat (List.length t) ∧ l = last_slash (take (Z.to_nat i) t))
                 (λ '(i, _) _, Z.to_nat (100 - i))); [|split_and!; done || lia|lia].
  intros [i l] s' (-> & Hi & ->). unfold last_slash_body. apply wp_bind.
  destruct (decide (i = Z.of_nat (List.length t))) as [->|Hne].
  - eapply wp_cwd_at; [lia|rewrite Nat2Z.id; by apply cwd_is_zero|]. apply wp_ret. rewrite decide_False by tauto.
    by rewrite take_ge by lia.
  - destruct (lookup_lt_is_Some_2 t (Z.to_nat i)) as [c E]; [lia|]. destruct (cwd_is_at _ _ _ _ Hc E) as [Ec H0].
    eapply wp_cwd_at; [lia|exact Ec|]. apply wp_ret. rewrite decide_True by done.
    split; [split_and!; [done|lia|lia|]|lia].
    replace (Z.to_nat (i + 1)) with (S (Z.to_nat i)) by lia. erewrite take_S_r by exact E. unfold last_slash.
    rewrite last_slash_from_snoc, length_take. destruct (decide (c = _)); [lia|done].
Qed.

(** The path goes to the end of the array, on top of what was put there. *)
Lemma wp_append path q t p (Q : Z → sys → Prop) s c0 :
  string_at ioAPIC localAPIC (mem p) path q → procs s !! current_ s = Some p →
  (List.length t + List.length q < 100)%nat → List.length c0 = (100 - List.length t)%nat → cwd s = t ++ c0 →
  Q (Z.of_nat (List.length t + List.length q)) (with_cwd s (t ++ q ++ drop (List.length q) c0)) →
  wp (iter 101 (append_body ioAPIC localAPIC path) (Z.of_nat (List.length t), 0)) Q s.
Proof.
  intros (Hr & H0 & Hs) E Hlen Hc0 Ecwd HQ.
  apply (wp_iter (λ '(i, j) s', 0 ≤ j ≤ Z.of_nat (List.length q) ∧ i = Z.of_nat (List.length t) + j ∧
                    s' = with_cwd s (t ++ take (Z.to_nat j) q ++ drop (Z.to_nat j) c0))
                 (λ '(i, _) _, Z.to_nat (100 - i))); [| |lia].
  - intros [i j] s' (Hj & -> & ->). unfold append_body. apply wp_bind.
    assert (Hc : Some (mem p (path + j)) = (q ++ [0]) !! Z.to_nat j).
    { rewrite <-Hs, slice_lookup, Z2Nat.id by lia. done. }
    eapply wp_load8; [eapply user_range_part; [exact Hr|lia..]|done|].
    destruct (decide (j = Z.of_nat (List.length q))) as [->|Hne].
    + rewrite Nat2Z.id, lookup_app_r, Nat.sub_diag in Hc by lia. injection Hc as ->. rewrite decide_False by tauto.
      apply wp_ret. rewrite Nat2Z.id, take_ge, <-Nat2Z.inj_add by lia. exact HQ.
    + destruct (lookup_lt_is_Some_2 q (Z.to_nat j)) as [c Ec]; [lia|].
      rewrite (lookup_app_l_Some _ _ _ _ Ec) in Hc. injection Hc as ->.
      rewrite decide_True by (intros ->; apply H0; by eapply list_elem_of_lookup_2).
      apply wp_bind, wp_cwd_put; [simpl; rewrite !length_app, length_take, length_drop; lia|]. apply wp_ret.
      split; [|lia]. split_and!; [lia|lia|lia|]. rewrite with_cwd_twice. simpl. f_equal.
      replace (Z.to_nat (Z.of_nat (List.length t) + j)) with (List.length t + Z.to_nat j)%nat by lia.
      rewrite insert_app_r. f_equal. replace (Z.to_nat (j + 1)) with (S (Z.to_nat j)) by lia.
      erewrite take_S_r by exact Ec. destruct (lookup_lt_is_Some_2 c0 (Z.to_nat j)) as [y Ey]; [lia|].
      rewrite (drop_S c0 y) by done. rewrite <-app_assoc.
      replace (Z.to_nat j) with (List.length (take (Z.to_nat j) q) + 0)%nat at 1 by (rewrite length_take; lia).
      rewrite insert_app_r. done.
  - split_and!; [lia|lia|lia|]. change (Z.to_nat 0) with 0%nat. rewrite take_0, drop_0. simpl. rewrite <-Ecwd. by destruct s.
Qed.
End cwd.

(** ** Changing the directory *)

(** Where the current directory comes from. *)
Inductive target := Root | Same | Search (path : list Z).

(** The working directory and the current directory that [changeDir] makes
    of the working directory [t] and the path [q]. *)
Definition cd_result (t q : list Z) : list Z * target :=
  let c i := default 0 (q !! i) in
  if decide (c 0%nat = chr "/") then ([chr "/"], Root)
  else if decide (c 0%nat = chr "." ∧ c 1%nat = chr ".") then (parent_dir t, Search (lit ".."))
  else if decide (c 0%nat = chr ".") then (t, Same)
  else (t ++ q, Search (t ++ q)).

Section changeDir.
Context (ide : BlockIO sys) (disk : Z → Z) (Hide : ∀ s0, Content ide (λ s, s = s0) disk).
Context (fs : Ext2) (root : Node) (ioAPIC localAPIC : Z).
Context (nodes : Z → option (list Z)) (dirs : Z → option (list entry)) (Him : image ide disk fs nodes dirs).

(** The node that a search from node [i] leads to, if it does not stop the
    machine. *)
Definition searched (i : Z) (tg : target) : option Node :=
  match tg with
  | Root => Some root
  | Same => node_at fs nodes i
  | Search w => match resolve dirs i (parts w) with Found j => node_at fs nodes j | _ => None end
  end.

Definition does_not_stop (i : Z) (tg : target) : Prop :=
  match tg with Search w => resolve dirs i (parts w) ≠ Ext2.Stops | _ => True end.

Lemma wp_find_current i w (Q : () → sys → Prop) s :
  here fs nodes s i → 0 ∉ w → Z.of_nat (List.length w) < int_max → does_not_stop i (Search w) →
  Q () (with_here s (searched i (Search w))) → wp (find_current ide fs w) Q s.
Proof.
  intros [Hh Hi] H0 Hl Hs HQ. unfold find_current. apply wp_bind, wp_get, wp_bind. rewrite Hh.
  eapply (wp_find ide disk Hide fs nodes dirs Him i w); [done|done|done|done|]. intros r Hr. apply wp_modify.
  simpl in HQ. destruct (resolve dirs i (parts w)) as [j| |]; [destruct Hr as [-> _]|subst r|]; done.
Qed.

(** The characters of the path that [changeDir] looks at. *)
Lemma string_char p path q k :
  string_at ioAPIC localAPIC (mem p) path q → (k <= List.length q)%nat →
  user_range ioAPIC localAPIC (path + Z.of_nat k) 1 ∧ mem p (path + Z.of_nat k) = default 0 (q !! k).
Proof.
  intros (Hr & _ & Hs) Hk. split; [eapply user_range_part; [exact Hr|lia..]|].
  assert (Hc : Some (mem p (path + Z.of_nat k)) = (q ++ [0]) !! k) by (rewrite <-Hs, slice_lookup by lia; done).
  destruct (decide (k = List.length q)) as [->|].
  - rewrite lookup_app_r, Nat.sub_diag in Hc by lia. injection Hc as ->. by rewrite lookup_ge_None_2 by lia.
  - rewrite lookup_app_l in Hc by lia. by rewrite <-Hc.
Qed.

(** What the path needs: the end of the working directory has room for it,
    and the kernel's look at [path[i-1]] is harmless. *)
Definition roomy (t q : list Z) (path : Z) : Prop :=
  cd_result t q = (t ++ q, Search (t ++ q)) →
  (List.length t + List.length q < 100)%nat ∧
  user_range ioAPIC localAPIC (path + (Z.of_nat (List.length t) - 1)) 1.

Lemma cwd_is_cleared c t k :
  cwd_is c t → (k <= List.length t)%nat → cwd_is (take k c ++ replicate (100 - k) 0) (take k t).
Proof.
  intros (H0 & Hl & ->) Hk. split_and!.
  - intros Hin. apply H0. apply list_elem_of_lookup in Hin as [i Hi].
    apply lookup_take_Some in Hi as [Hi _]. by eapply list_elem_of_lookup_2.
  - rewrite length_take. lia.
  - rewrite take_app_le, length_take by lia. do 2 f_equal. lia.
Qed.

Section run.
Context (s : sys) (p : PCB) (path : Z) (q t : list Z) (i : Z).
Context (E : procs s !! current_ s = Some p) (Hs : string_at ioAPIC localAPIC (mem p) path q).
Context (Hc : cwd_is (cwd s) t) (Hh : here fs nodes s i).

Lemma wp_cd_up (Q : reply → sys → Prop) :
  does_not_stop i (Search (lit "..")) →
  (∀ c, cwd_is c (parent_dir t) → Q (Ret 0) (with_here (with_cwd s c) (searched i (Search (lit ".."))))) →
  wp (find_current ide fs (lit "..");;
      lastBackSlash ← iter 101 last_slash_body (0, 0);
      (if decide (lastBackSlash = 0) then cwd_put 0 (chr "/") else mret ());;
      cwd_clear (lastBackSlash + 1);;
      mret (Ret 0)) Q s.
Proof.
  intros Hstop HQ. pose proof Hc as (H0 & Hl & Ec). pose proof (cwd_is_length _ _ Hc) as H100.
  apply wp_bind. eapply (wp_find_current i); [done|by vm_compute; set_solver|done|done|].
  apply wp_bind. eapply wp_last_slash; [exact Hc|]. pose proof (last_slash_range t) as [Hs0 Hs1].
  apply wp_bind. unfold parent_dir in HQ. destruct (decide (last_slash t = 0)) as [E0|Hne].
  - rewrite E0. apply wp_cwd_put; [simpl; lia|]. apply wp_bind, wp_cwd_clear; [simpl; by rewrite length_insert|lia|].
    apply wp_ret. simpl. apply HQ. split_and!; [by vm_compute; set_solver|simpl; lia|].
    destruct (cwd s) as [|x c]; [done|]. done.
  - apply wp_ret, wp_bind, wp_cwd_clear; [done|lia|]. apply wp_ret. simpl.
    apply HQ. replace (Z.to_nat (100 - (last_slash t + 1))) with (100 - Z.to_nat (last_slash t + 1))%nat by lia.
    apply cwd_is_cleared; [done|lia].
Qed.

Lemma wp_cd_append (Q : reply → sys → Prop) :
  (List.length t + List.length q < 100)%nat →
  user_range ioAPIC localAPIC (path + (Z.of_nat (List.length t) - 1)) 1 →
  does_not_stop i (Search (t ++ q)) →
  (∀ c, cwd_is c (t ++ q) → Q (Ret 0) (with_here (with_cwd s c) (searched i (Search (t ++ q))))) →
  wp (i ← iter 101 cwd_end_body 0;
      c ← load8 ioAPIC localAPIC (path + (i - 1));
      (if decide (c ≠ chr "/") then cwd_put i (chr "/") else mret ());;
      i ← iter 101 (append_body ioAPIC localAPIC path) (i, 0);
      cwd_put i 0;;
      s ← get;
      find_current ide fs (take (Z.to_nat i) (cwd s));;
      mret (Ret 0)) Q s.
Proof.
  intros Hlen Hr Hstop HQ. pose proof Hc as (H0 & Hl & Ec). pose proof (cwd_is_length _ _ Hc) as H100.
  apply wp_bind. eapply wp_cwd_end; [done|]. apply wp_bind. eapply wp_load8; [done|done|]. apply wp_bind.
  set (rest := replicate (100 - List.length t) 0) in *.
  assert (Hrest : List.length rest = (100 - List.length t)%nat) by apply length_replicate.
  apply (wp_mono _ (λ _ s', ∃ x, s' = with_cwd s (t ++ <[0%nat := x]> rest))).
  { destruct (decide _) as [|Hx].
    - apply wp_cwd_put; [lia|]. exists (chr "/"). rewrite Ec, Nat2Z.id.
      replace (List.length t) with (List.length t + 0)%nat by lia. by rewrite insert_app_r.
    - apply wp_ret. exists 0. rewrite list_insert_id by (apply lookup_replicate; lia). rewrite <-Ec. by destruct s. }
  intros [] s' [x ->]. apply wp_bind.
  eapply (wp_append ioAPIC localAPIC path q t p _ _ (<[0%nat := x]> rest)); [done|done|done|by rewrite length_insert|done|].
  rewrite with_cwd_twice. apply wp_bind.
  set (c1 := drop (List.length q) (<[0%nat := x]> rest)).
  assert (Hc1 : List.length c1 = (100 - List.length t - List.length q)%nat).
  { unfold c1. rewrite length_drop, length_insert. lia. }
  apply wp_cwd_put; [simpl; rewrite !length_app; lia|]. apply wp_bind, wp_get, wp_bind. rewrite with_cwd_twice. simpl.
  rewrite Nat2Z.id, <-length_app, app_assoc.
  assert (Hput : <[List.length (t ++ q) := 0]> ((t ++ q) ++ c1) = (t ++ q) ++ <[0%nat := 0]> c1).
  { rewrite <-(Nat.add_0_r (List.length (t ++ q))) at 1. apply insert_app_r. }
  rewrite Hput.
  rewrite take_app_le, take_ge by lia.
  pose proof Hs as (_ & H0q & _). assert (H0tq : 0 ∉ t ++ q) by set_solver.
  eapply (wp_find_current i); [done|done|rewrite length_app; unfold int_max; lia|done|].
  apply wp_ret, HQ. split_and!; [done|rewrite length_app; lia|].
  apply (f_equal (app (t ++ q))).
  apply list_eq. intros k. destruct (decide (k < List.length c1)%nat) as [Hk|Hk].
  2: { rewrite !lookup_ge_None_2; rewrite ?length_insert, ?length_replicate, ?length_app; done || lia. }
  rewrite (proj2 (lookup_replicate (100 - _) 0 0 k)) by (rewrite length_app; split; [done|lia]).
  destruct k as [|k]; [rewrite list_lookup_insert_eq by lia; done|].
  rewrite list_lookup_insert_ne by done. unfold c1. rewrite lookup_drop, list_lookup_insert_ne by lia.
  apply lookup_replicate. split; [done|lia].
Qed.

Lemma wp_changeDir (Q : reply → sys → Prop) :
  roomy t q path → does_not_stop i (cd_result t q).2 →
  (∀ c, cwd_is c (cd_result t q).1 → Q (Ret 0) (with_here (with_cwd s c) (searched i (cd_result t q).2))) →
  wp (changeDir ide fs root ioAPIC localAPIC path) Q s.
Proof.
  intros Hroom Hstop HQ. pose proof Hc as (H0 & Hl & Ec). pose proof (cwd_is_length _ _ Hc) as H100.
  destruct (string_char p path q 0 Hs) as [Hr0 E0]; [lia|]. rewrite Z.add_0_r in Hr0, E0.
  unfold changeDir. apply wp_bind. eapply wp_load8; [exact Hr0|done|]. rewrite E0.
  unfold roomy, cd_result in *. set (c0 := default 0 (q !! 0%nat)) in *. set (c1 := default 0 (q !! 1%nat)) in *.
  destruct (decide (c0 = chr "/")) as [Hc0|Hc0].
  { apply wp_bind, wp_modify, wp_bind, wp_cwd_put; [simpl; lia|].
    apply wp_bind, wp_cwd_clear; [simpl; by rewrite length_insert|lia|]. apply wp_ret. simpl.
    apply HQ. split_and!; [by vm_compute; set_solver|simpl; lia|]. by destruct (cwd s). }
  apply wp_bind. apply (wp_mono _ (λ c s', s' = s ∧ (c0 = chr "." → c = c1))).
  { destruct (decide (c0 = chr ".")) as [Hdot|]; [|by apply wp_ret].
    destruct (string_char p path q 1 Hs) as [Hr1 E1]; [destruct q; [done|simpl; lia]|].
    eapply wp_load8; [done|done|done]. }
  intros c s' [-> Hcc].
  destruct (decide (c0 = chr "." ∧ c = chr ".")) as [[Hd Hd1]|Hd].
  { rewrite decide_True in HQ, Hstop by (split; [done|by rewrite <-Hcc]). by apply wp_cd_up. }
  rewrite (decide_False (P := c0 = chr "." ∧ c1 = chr ".")) in HQ, Hstop, Hroom
    by (intros [? ?]; apply Hd; split; [done|by rewrite Hcc]).
  destruct (decide (c0 = chr ".")).
  - apply wp_ret. destruct Hh as [Hh' _]. specialize (HQ (cwd s) Hc). simpl in HQ. rewrite <-Hh' in HQ.
    by destruct s.
  - destruct Hroom as [? ?]; [done|]. by apply wp_cd_append.
Qed.
End run.
End changeDir.
