(* ===== verification/SysCalls.v ===== *)
(** * The promises of the system calls

    Every call that is not given one of the arguments the kernel fails to
    check keeps the processes well formed; then what forking, waiting,
    reading and changing the directory do. *)

From S2P Require Import Prelude.
From S2P Require Import Libk.
From S2P Require Import BlockIO.
From S2P Require Import Ext2.
From S2P Require Import Elf.
From S2P Require Import Sys.
From S2P Require Import SysProps.
From S2P Require Import SysCwd.
From S2P Require Semaphore.

(** The same machine when another process runs. *)
Definition switch_to (pid : nat) (s : sys) : sys :=
  mkSys (procs s) (fds s) (sems s) pid (ready s) (fs_current s) (cwd s) (console s) (keyboard s).

(** The [i]-th word on the user's stack. *)
Definition argument (p : PCB) (esp i : Z) : Z := le (slice (mem p) (esp + 4 * i) 4).

(** What has been stored is what is there. *)
Lemma slice_blit m a b : slice (blit m a b) a (List.length b) = b.
Proof.
  apply list_eq. intros k. destruct (decide (k < List.length b)%nat) as [Hk|Hk].
  - rewrite slice_lookup by lia. rewrite blit_in by lia. f_equal. lia.
  - rewrite !lookup_ge_None_2; rewrite ?length_slice; done || lia.
Qed.

Lemma stored_word m a v : 0 ≤ v < 2 ^ 32 → le (slice (blit m a (word v)) a 4) = v.
Proof. intros Hv. change 4%nat with (List.length (word v)). rewrite slice_blit. by apply le_word. Qed.

Section calls.
Context (ide : BlockIO sys) (disk : Z → Z) (Hide : ∀ s0, Content ide (λ s, s = s0) disk).
Context (fs : Ext2) (root : Node) (ioAPIC localAPIC : Z) (max_string : nat).
Context (nodes : Z → option (list Z)) (dirs : Z → option (list entry)) (Him : image ide disk fs nodes dirs).
Context (Hnodes : ∀ n, in_image fs nodes n → node_ok ide disk n) (Hroot : in_image fs nodes root).

Lemma node_at_in_image j n : node_at fs nodes j = Some n → in_image fs nodes n.
Proof. unfold node_at. destruct (nodes j) as [d|] eqn:Ej; [|done]. intros [= <-]. by exists j, d. Qed.

(** The directory can be changed to the path. *)
Definition good_cd (s : sys) (path : Z) : Prop :=
  ∃ p q t i, procs s !! current_ s = Some p ∧ string_at ioAPIC localAPIC (mem p) path q ∧ cwd_is (cwd s) t ∧
             here fs nodes s i ∧ roomy ioAPIC localAPIC t q path ∧ does_not_stop dirs i (cd_result t q).2.

Lemma keep_changeDir s path :
  wf fs nodes s → good_cd s path → wp (changeDir ide fs root ioAPIC localAPIC path) (keeps fs nodes) s.
Proof.
  intros Hwf (p & q & t & i & E & Hs & Hc & Hh & Hroom & Hstop).
  eapply (wp_changeDir ide disk Hide fs root ioAPIC localAPIC nodes dirs Him s p path q t i); try done.
  intros c Hc'. apply (wf_same fs nodes s); try done; simpl; [|by eexists].
  intros n. destruct (cd_result t q).2 as [| |w]; simpl; [by intros [= <-]|by apply node_at_in_image|].
  destruct (resolve dirs i (parts w)); [by apply node_at_in_image|done..].
Qed.

Lemma keep_pwd s : wf fs nodes s → wp pwd (keeps fs nodes) s.
Proof.
  intros Hwf. unfold pwd. apply wp_bind, wp_get, wp_bind. destruct (wf_cwd _ _ _ Hwf) as [t Ht].
  eapply wp_cwd_end; [exact Ht|]. apply wp_bind, wp_modify, wp_ret.
  apply (wf_same fs nodes s); try done; [apply (wf_here _ _ _ Hwf)|by exists t].
Qed.

(** *** Running a program *)

(** A store keeps the state well formed. *)
Lemma keep_store a b (Q : () → sys → Prop) s :
  wf fs nodes s → user_range ioAPIC localAPIC a (Z.of_nat (List.length b)) → (∀ s', wf fs nodes s' → Q () s') →
  wp (store ioAPIC localAPIC a b) Q s.
Proof.
  intros Hwf Hr HQ. destruct (wf_cur_process _ _ s Hwf) as (p & E & Hp). eapply wp_store; [done|done|].
  apply HQ, wf_with_process; [done|by apply wf_set_mem].
Qed.

Definition bytes_of (argv : list (Z * list Z)) : Z := Z.of_nat (List.length (concat (map snd argv))).

Lemma keep_push_strings argv e (Q : Z → sys → Prop) s :
  wf fs nodes s → e < 2 ^ 32 → user_range ioAPIC localAPIC (e - bytes_of argv) (2 * bytes_of argv) →
  (∀ s', wf fs nodes s' → Q (e - bytes_of argv) s') → wp (push_strings ioAPIC localAPIC argv e) Q s.
Proof.
  revert e s. induction argv as [|[a b] argv IH]; intros e s Hwf He Hr HQ; cbn [push_strings].
  - apply wp_ret. replace e with (e - bytes_of []) by (unfold bytes_of; simpl; lia). by apply HQ.
  - assert (Hb : bytes_of ((a, b) :: argv) = Z.of_nat (List.length b) + bytes_of argv).
    { unfold bytes_of. cbn [map concat snd]. rewrite length_app. lia. }
    rewrite Hb in Hr, HQ. assert (0 ≤ bytes_of argv) by (unfold bytes_of; lia).
    pose proof Hr as (Hlo & Hhi & _). apply wp_bind, keep_store; [done|eapply user_range_part; [exact Hr|lia..]|].
    intros s1 Hwf1. rewrite u32_small by lia. apply IH; [done|lia|eapply user_range_part; [exact Hr|lia..]|].
    intros s2 Hwf2. replace (e - _ - bytes_of argv) with (e - (Z.of_nat (List.length b) + bytes_of argv)) by lia. by apply HQ.
Qed.

Lemma keep_push_pointers argv e (Q : Z → sys → Prop) s :
  let n := Z.of_nat (List.length argv) in
  wf fs nodes s → user_range ioAPIC localAPIC (e - 4 * n) (4 * n + 4) →
  (∀ s', wf fs nodes s' → Q (e - 4 * n) s') → wp (push_pointers ioAPIC localAPIC argv e) Q s.
Proof.
  cbv zeta. revert e s Q. induction argv as [|[a b] argv IH]; intros e s Q Hwf Hr HQ; cbn [push_pointers].
  - apply wp_ret. replace e with (e - 4 * Z.of_nat (List.length (@nil (Z * list Z)))) by (simpl; lia). by apply HQ.
  - rewrite length_cons in Hr, HQ. pose proof Hr as (Hlo & Hhi & _).
    apply wp_bind, IH; [done|eapply user_range_part; [exact Hr|lia..]|]. intros s1 Hwf1.
    apply wp_bind, keep_store; [done|eapply user_range_part; [exact Hr|simpl; lia..]|]. intros s2 Hwf2.
    apply wp_ret. rewrite u32_small by lia.
    replace (e - 4 * Z.of_nat (List.length argv) - 4) with (e - 4 * Z.of_nat (S (List.length argv))) by lia. by apply HQ.
Qed.

(** The memory of the process that runs. *)
Definition memory_now (s : sys) : memory := match procs s !! current_ s with Some p => mem p | None => λ _, 0 end.

(** An executable found from the root, whose segments go to user memory. *)
Definition good_program (path : list Z) : Prop :=
  ∃ j n, resolve dirs (number root) (parts path) = Found j ∧ node_at fs nodes j = Some n ∧
    executable (node_io ide n) (node_content disk n) ∧ segments_fit (user_range ioAPIC localAPIC) (node_content disk n).

(** Room on the new stack, for the strings, whose first goes above the top
    and the others below, the pointers, and three words. *)
Definition stack_room (argv : list (Z * list Z)) : Prop :=
  let n := Z.of_nat (List.length argv) in
  user_range ioAPIC localAPIC (0xefffe000 - bytes_of argv - 4 * n - 8) (2 * bytes_of argv + 4 * n + 12).

Lemma keep_execl junk1 junk2 s path argv :
  (∀ a, 0 ≤ disk a < 256) → wf fs nodes s → 0 ∉ path → Z.of_nat (List.length path) < int_max → good_program path → stack_room argv →
  wp (execl ide fs root ioAPIC localAPIC junk1 junk2 path argv) (keeps fs nodes) s.
Proof.
  intros Hdisk Hwf H0 Hlen (j & n & Hres & En & Hex & Hfit) Hroom. unfold execl.
  destruct Hroot as (i & d & Ei & Eroot). assert (Er : Some root = node_at fs nodes i) by (unfold node_at; by rewrite Ei, Eroot).
  assert (Hi : is_Some (nodes i)) by (by exists d). rewrite Eroot in Hres. cbn [number] in Hres.
  destruct (wf_cur_process _ _ s Hwf) as (p & E & Hp). unfold stack_room in Hroom. cbv zeta in Hroom.
  set (k := Z.of_nat (List.length argv)) in *. assert (0 ≤ bytes_of argv) by (unfold bytes_of; lia). assert (0 ≤ k) by lia.
  pose proof Hroom as (Hlo & Hhi & _). assert (Hsub : ∀ b m, 0xefffe000 - bytes_of argv - 4 * k - 8 ≤ b → 0 ≤ m →
    b + m ≤ 0xefffe000 + bytes_of argv + 4 → user_range ioAPIC localAPIC b m).
  { intros b m ? ? ?. eapply user_range_part; [exact Hroom|lia..]. }
  apply wp_bind. eapply wp_cur; [done|]. apply wp_bind, wp_put, wp_bind, keep_push_strings; [|lia|apply Hsub; lia|].
  { apply wf_with_process; [done|]. destruct Hp as [L1 L2 L3 L4]. split; [exact L1|apply live_empty..|exact L4]. }
  intros s1 Hwf1. apply wp_bind, keep_store; [done|apply Hsub; simpl; lia|]. intros s2 Hwf2. rewrite u32_small by lia.
  apply wp_bind, keep_push_pointers; [done|fold k; apply Hsub; lia|]. fold k. intros s3 Hwf3.
  apply wp_bind, keep_store; [done|apply Hsub; simpl; lia|]. intros s4 Hwf4. rewrite (u32_small (_ - 4)) by lia.
  apply wp_bind, keep_store; [done|apply Hsub; simpl; lia|]. intros s5 Hwf5.
  apply wp_bind. rewrite Er. eapply (wp_find ide disk Hide fs nodes dirs Him); [done|done|done|by rewrite Hres|].
  intros r Hr. rewrite Hres, En in Hr. destruct Hr as [-> _]. apply wp_bind.
  eapply (wp_load _ memory_now (user_range ioAPIC localAPIC) (wf fs nodes) _ (node_io ide n) (node_content disk n) _ _ junk1 junk2
            (λ _ _, True)); [done|done|done|done|done|].
  intros s6 Hwf6 _. by apply wp_ret.
  Unshelve.
  - intros a b Q s6 Hwf6 Hr HQ. destruct (wf_cur_process _ _ s6 Hwf6) as (p6 & E6 & Hp6). eapply wp_store; [done|done|].
    apply HQ; [by apply wf_with_process, wf_set_mem|]. unfold memory_now. simpl. by rewrite lookup_insert_eq, E6.
  - intros a. apply Hdisk.
  - intros m. apply node_io_content; [|by apply Hnodes, (node_at_in_image j)].
    destruct (Hide s) as [Hb Hsz _]. split; [done|done|]. intros k' s6 Hk Hlt [Hwf6 Em].
    eapply wp_mono; [by apply (co_read _ _ _ (Hide s6))|]. by intros b s7 [-> ->].
Qed.

(** The word at [esp + 8 + 4 k]. *)
Definition pointer_at (p : PCB) (esp : Z) (k : nat) : Z := le (slice (mem p) (esp + 8 + 4 * Z.of_nat k) 4).

(** The strings of [execl] in the caller's memory, with what is copied
    behind them up to a full word, and the null pointer at the end. *)
Definition good_strings (p : PCB) (esp : Z) (ts : list (list Z)) : Prop :=
  user_range ioAPIC localAPIC (esp + 8) (4 * Z.of_nat (List.length ts) + 4) ∧ (List.length ts < max_string)%nat ∧
  pointer_at p esp (List.length ts) = 0 ∧
  ∀ k t, ts !! k = Some t → pointer_at p esp k ≠ 0 ∧ (List.length t < max_string)%nat ∧ string_at ioAPIC localAPIC (mem p) (pointer_at p esp k) t ∧
    user_range ioAPIC localAPIC (pointer_at p esp k) (round4 (Z.of_nat (List.length t) + 1)).

(** The copies that the kernel makes of them. *)
Definition copied (heap_address : nat → Z) (p : PCB) (esp : Z) (ts : list (list Z)) : list (Z * list Z) :=
  imap (λ k t, (heap_address k, slice (mem p) (pointer_at p esp k) (Z.to_nat (round4 (Z.of_nat (List.length t) + 1))))) ts.

Lemma wp_copy_arguments heap_address p esp ts (Q : list (Z * list Z) → sys → Prop) s :
  procs s !! current_ s = Some p → good_strings p esp ts → Q (copied heap_address p esp ts) s →
  wp (iter max_string (copy_arguments_body ioAPIC localAPIC max_string heap_address (esp + 8)) []) Q s.
Proof.
  intros E (Hr & Hmax & Hend & Hts) HQ.
  assert (Hlen : ∀ k, List.length (copied heap_address p esp (take k ts)) = Nat.min k (List.length ts)).
  { intros k. unfold copied. by rewrite length_imap, length_take. }
  apply (wp_iter (λ acc s', s' = s ∧ ∃ k, (k <= List.length ts)%nat ∧ acc = copied heap_address p esp (take k ts))
                 (λ acc _, (List.length ts - List.length acc)%nat));
    [|split; [done|by exists 0%nat; split; [lia|]]|simpl; lia].
  intros acc s' (-> & k & Hk & ->). unfold copy_arguments_body. rewrite Hlen, Nat.min_l by lia.
  apply wp_bind. eapply wp_load32; [eapply user_range_part; [exact Hr|lia..]|exact E|]. fold (pointer_at p esp k).
  destruct (decide (k = List.length ts)) as [->|Hne].
  - rewrite Hend, decide_True by done. apply wp_ret. by rewrite firstn_all.
  - destruct (lookup_lt_is_Some_2 ts k) as [t Et]; [lia|]. destruct (Hts k t Et) as (H0 & Htmax & Hst & Hrt).
    rewrite decide_False by done. unfold copy_argument. apply wp_bind, wp_bind. eapply wp_user_string; [exact Hst|exact Htmax|exact E|].
    apply wp_bind, wp_require; [done|]. apply wp_bind. eapply wp_cur; [exact E|]. apply wp_ret, wp_ret.
    assert (Es : copied heap_address p esp (take k ts) ++
      [(heap_address k, slice (mem p) (pointer_at p esp k) (Z.to_nat (round4 (Z.of_nat (List.length t) + 1))))] =
      copied heap_address p esp (take (S k) ts)).
    { unfold copied. rewrite (take_S_r _ _ _ Et), imap_app. simpl. by rewrite length_take, Nat.add_0_r, Nat.min_l by lia. }
    rewrite Es, !Hlen. split; [|lia]. split; [done|]. exists (S k). split; [lia|done].
Qed.

(** What [execl] relies on. *)
Definition good_execl (heap_address : nat → Z) (s : sys) (p : PCB) (esp : Z) : Prop :=
  ∃ path ts, string_at ioAPIC localAPIC (mem p) (argument p esp 1) path ∧ (List.length path < max_string)%nat ∧
    Z.of_nat (List.length path) < int_max ∧ good_program path ∧ good_strings p esp ts ∧
    stack_room (copied heap_address p esp ts).

Context (heap_address : nat → Z) (junk1 junk2 : Z → Z) (me checks keyboard_buf : Z).

(** The arguments that the kernel relies on without a check: the first exit
    of the process, open semaphores, the descriptors that exist, pointers
    into user memory, paths through directories only, a program that is
    there and fits, strings that fit on its stack, and a line of the
    keyboard within its buffer.  There is one case for each number of a
    system call. *)
Inductive guarded (s : sys) (p : PCB) (esp : Z) : Z → Prop :=
| g_exit : future p = None → guarded s p esp 0
| g_write : guarded s p esp 1
| g_fork : guarded s p esp 2
| g_sem : guarded s p esp 3
| g_up : (10 ≤ i32 (argument p esp 1) ≤ 19 → has_sem s (i32 (argument p esp 1))) → guarded s p esp 4
| g_down : (10 ≤ i32 (argument p esp 1) ≤ 19 → has_sem s (i32 (argument p esp 1))) → guarded s p esp 5
| g_close : argument p esp 1 ≠ 30 → guarded s p esp 6
| g_shutdown : guarded s p esp 7
| g_wait : 20 ≤ i32 (argument p esp 1) < 30 → user_range ioAPIC localAPIC (argument p esp 2) 4 → guarded s p esp 8
| g_execl : good_execl heap_address s p esp → guarded s p esp 9
| g_open : good_path fs ioAPIC localAPIC max_string nodes dirs s (argument p esp 1) → guarded s p esp 10
| g_len : 0 ≤ i32 (argument p esp 1) < 10 → guarded s p esp 11
| g_read : good_read ioAPIC localAPIC s (i32 (argument p esp 1)) (argument p esp 2) (argument p esp 3) → guarded s p esp 12
| g_seek : (3 ≤ argument p esp 1 ≤ 9 → fd p !! Z.to_nat (argument p esp 1) ≠ Some None) → guarded s p esp 13
| g_ls : good_listing ioAPIC localAPIC dirs s (argument p esp 1) → guarded s p esp 14
| g_dir_length : guarded s p esp 15
| g_cd : good_cd s (argument p esp 1) → guarded s p esp 16
| g_pwd : guarded s p esp 17
| g_getCommand : guarded s p esp 18
| g_done : guarded s p esp 19
| g_setDone : Keyboard.bufSize (keyboard s) ≤ Z.of_nat (List.length (Keyboard.buf (keyboard s))) → guarded s p esp 20.

Lemma wp_argument s p esp i (Q : Z → sys → Prop) :
  procs s !! current_ s = Some p → user_range ioAPIC localAPIC esp 16 → (i = 1 ∨ i = 2 ∨ i = 3) →
  Q (argument p esp i) s → wp (load32 ioAPIC localAPIC (esp + 4 * i)) Q s.
Proof. intros E Hr Hi HQ. eapply wp_load32; [eapply user_range_part; [exact Hr|lia..]|done|done]. Qed.

Lemma argument_range p esp i : (∀ a, 0 ≤ mem p a < 256) → 0 ≤ argument p esp i < 2 ^ 32.
Proof. intros Hb. apply (le_range (slice (mem p) (esp + 4 * i) 4)). by apply slice_bytes. Qed.

(** The changes of the keyboard's state leave the rest. *)
Lemma keep_keyboard {A} (m : M Keyboard.terminal A) (Q : A → sys → Prop) s :
  wf fs nodes s → wp m (λ a _, ∀ s', wf fs nodes s' → Q a s') (keyboard s) → wp (with_keyboard m) Q s.
Proof.
  intros Hwf Hm. unfold wp, with_keyboard in *. destruct (m (keyboard s)) as [a t|t| |]; try done.
  apply Hm, (wf_same fs nodes s); try done; [apply (wf_here _ _ _ Hwf)|apply (wf_cwd _ _ _ Hwf)].
Qed.

Lemma keep_print cs s : wf fs nodes s → wp (print cs) (λ _, wf fs nodes) s.
Proof. intros Hwf. apply wp_modify, (wf_same fs nodes s); try done; [apply (wf_here _ _ _ Hwf)|apply (wf_cwd _ _ _ Hwf)]. Qed.

Lemma keep_setDone s :
  wf fs nodes s → Keyboard.bufSize (keyboard s) ≤ Z.of_nat (List.length (Keyboard.buf (keyboard s))) → wp setDone (keeps fs nodes) s.
Proof.
  intros Hwf Hn. unfold setDone. apply wp_bind, keep_keyboard; [done|]. set (t := keyboard s) in *. unfold Keyboard.setDone.
  apply wp_bind, wp_gets, wp_bind.
  apply (wp_for (λ _ t', List.length (Keyboard.buf t') = List.length (Keyboard.buf t))); [done| |].
  - intros i t' Hi Hl. apply Keyboard.wp_set_buf; [lia|]. simpl. by rewrite length_insert.
  - intros t' _. apply wp_bind, wp_modify, wp_modify. intros s' Hwf'. by apply wp_ret.
Qed.

Lemma keep_sys_execl s p esp :
  (∀ a, 0 ≤ disk a < 256) → wf fs nodes s → procs s !! current_ s = Some p → user_range ioAPIC localAPIC esp 16 →
  good_execl heap_address s p esp →
  wp (sys_execl ide fs root ioAPIC localAPIC max_string heap_address junk1 junk2 esp) (keeps fs nodes) s.
Proof.
  intros Hdisk Hwf E Hr (path & ts & Hs & Hmax & Hint & Hprog & Hts & Hroom). unfold sys_execl.
  apply wp_bind. eapply wp_load32; [eapply user_range_part; [exact Hr|lia..]|exact E|].
  apply wp_bind. eapply wp_user_string; [exact Hs|exact Hmax|exact E|].
  apply wp_bind. eapply wp_copy_arguments; [exact E|exact Hts|]. destruct Hs as (_ & H0 & _). by apply keep_execl.
Qed.

(** C3. Every system call, by its number, that is made through [sysHandler]
    with arguments that the kernel checks, or on which it relies
    ([guarded]), comes to its end, returning, blocking, stopping or
    entering a new program, without a failed assertion or an undefined
    access, and keeps the processes well formed: ten places in each table,
    every pointer in them to an object that exists, the console on the
    first three descriptors only and every other descriptor on a node of
    the file system, and a working directory that ends within its array. *)
Theorem calls_keep_wf s p eax eip esp :
  (∀ a, 0 ≤ disk a < 256) → wf fs nodes s → procs s !! current_ s = Some p → (∀ a, 0 ≤ mem p a < 256) →
  user_range ioAPIC localAPIC esp 16 → guarded s p esp eax →
  wp (sysHandler ide fs root ioAPIC localAPIC max_string heap_address junk1 junk2 me checks keyboard_buf eax eip esp)
     (λ _, wf fs nodes) s.
Proof.
  intros Hdisk Hwf E Hbytes Hr HG.
  assert (Ha : ∀ i Q, (i = 1 ∨ i = 2 ∨ i = 3) → Q (argument p esp i) s → wp (load32 ioAPIC localAPIC (esp + 4 * i)) Q s).
  { intros. by eapply wp_argument. }
  assert (Hw : ∀ i, 0 ≤ argument p esp i < 2 ^ 32) by (intros; by apply argument_range).
  destruct HG; unfold sysHandler; repeat (apply wp_bind, Ha; [by auto|]).
  - by eapply keep_exit.
  - by eapply keep_write.
  - by eapply keep_fork.
  - by eapply keep_sem.
  - by eapply keep_up.
  - by eapply keep_down.
  - eapply keep_close; [done|by apply Hw|done].
  - apply wp_bind. eapply wp_mono; [by apply keep_print|]. intros [] s' Hwf'. by apply wp_ret.
  - by eapply keep_wait.
  - by eapply keep_sys_execl.
  - by eapply keep_open.
  - by eapply keep_len.
  - by eapply keep_read.
  - eapply keep_seek; [done|by apply Hw|by apply Hw|]. intros p' E' Ho. simplify_eq. auto.
  - by eapply keep_ls.
  - by eapply keep_dir_length.
  - by eapply keep_changeDir.
  - by eapply keep_pwd.
  - by apply wp_ret.
  - apply wp_bind, keep_keyboard; [done|]. apply wp_gets. intros s' Hwf'. by apply wp_ret.
  - by apply keep_setDone.
Qed.

(** C26. A fork finds the first free place in the parent's table of children,
    puts a new process there and returns the place; the child runs from the
    same point with 0 for a result, has a copy of the parent's memory and
    its very files and semaphores, and neither children nor an exit code;
    no other process changes.  When the table is full the parent gets -1
    and keeps its state, though a process that nobody knows has been
    made. *)
Theorem fork_duplicates s p eip esp :
  wf fs nodes s → procs s !! current_ s = Some p →
  let i := first_free (cp p) in
  wp (fork eip esp) (λ r s', ∃ pid, procs s !! pid = None ∧
     if decide (i = 10%nat) then
       r = Ret (-1) ∧ ready s' = ready s ∧ (∃ leaked, procs s' = <[pid := leaked]> (procs s))
     else
       r = Ret (20 + Z.of_nat i) ∧ cp p !! i = Some None ∧
       ready s' = ready s ++ [mkEntry_ pid eip esp 0] ∧
       procs s' !! pid = Some (mkPCB (fd p) (replicate 10 None) (sp p) None (mem p)) ∧
       procs s' !! current_ s = Some (set_cp p (<[i := Some pid]> (cp p))) ∧
       (∀ q, q ≠ pid → q ≠ current_ s → procs s' !! q = procs s !! q) ∧
       sems s' = sems s ∧ ∀ l d, fds s !! l = Some d → fds s' !! l = Some d) s.
Proof.
  intros Hwf E i. pose proof (wf_procs _ _ _ Hwf _ _ E) as [_ [Hl _] _ _].
  eapply (wp_fork fs nodes); [done|done| |].
  - intros pid child s' _ [Hnew Eprocs _ _ (_ & _ & Er & _)] Hi. exists pid. split; [done|].
    rewrite decide_True by done. split_and!; [done|done|by exists child].
  - intros pid s' _ Hnew Hi [Eprocs Er] Hfds Es Ec. exists pid. split; [done|]. rewrite decide_False by (unfold i; lia).
    destruct (first_free_spec (cp p)) as [Hfree _]; [lia|]. rewrite Eprocs.
    assert (pid ≠ current_ s) by congruence. split_and!; try done.
    + by rewrite lookup_insert_eq.
    + by rewrite lookup_insert_ne, lookup_insert_eq.
    + intros q Hq1 Hq2. by rewrite !lookup_insert_ne.
Qed.

(** C28. A read from a file returns as many bytes as were asked for or are
    left and stores exactly those bytes of the file; it moves the offset by
    as much, in the object that all holders of the descriptor share.  At an
    offset beyond the end it returns -1, stores nothing and moves the offset
    back by one. *)
Theorem read_returns s p fd_ l n off buf nbyte :
  wf fs nodes s → procs s !! current_ s = Some p → 0 ≤ fd_ < 10 → fd p !! Z.to_nat fd_ = Some (Some l) →
  fds s !! l = Some (mkFD (Some n) off false) → 0 ≤ nbyte < 2 ^ 31 →
  ¬ bad_pointer ioAPIC localAPIC buf → user_range ioAPIC localAPIC buf nbyte →
  let size := NodeData.size_low (data n) in
  let m := Z.min nbyte (size - off) in
  wp (read ide ioAPIC localAPIC fd_ buf nbyte)
     (λ r s', (off ≤ size → r = Ret m ∧ procs s' = <[current_ s :=
                 set_mem p (blit (mem p) buf (slice (node_content disk n) off (Z.to_nat m)))]> (procs s)) ∧
              (size < off → r = Ret (-1) ∧ procs s' = <[current_ s := set_mem p (blit (mem p) buf [])]> (procs s)) ∧
              fds s' = <[l := mkFD (Some n) (if decide (off ≤ size) then off + m else off - 1) false]> (fds s) ∧
              sems s' = sems s ∧ ready s' = ready s ∧ console s' = console s) s.
Proof.
  intros Hwf E Hfd El Ed Hnb Hgood Hr size m. pose proof (wf_fds _ _ _ Hwf _ _ Ed) as [Hoff [_ Hn]]. simpl in Hoff, Hn.
  pose proof (no_size _ _ _ (Hnodes n Hn)) as Hsz. fold size in Hsz.
  eapply (wp_sys_read ide disk Hide fs ioAPIC localAPIC nodes Hnodes); try done; [lia|]. cbv zeta. simpl offset.
  unfold read_result. fold size. destruct (decide (off ≤ size)) as [Hle|Hgt]; simpl.
  - fold m. assert (Hm : 0 ≤ m < 2 ^ 31 ∧ m ≤ size - off) by lia. rewrite !(u32_small m), u32_small, i32_small by (unfold int_min, int_max; lia).
    split_and!; [done|lia|done|done|done|done].
  - change (u32 (-1)) with (2 ^ 32 - 1). unfold u32.
    replace (off + (2 ^ 32 - 1)) with (off - 1 + 1 * 2 ^ 32) by lia. rewrite Z.mod_add, Z.mod_small by lia.
    split_and!; [lia|done|done|done|done|done].
Qed.

(** C27. What a process exits with reaches its parent: before that the parent
    waits, and nothing changes; after it [wait] returns 0 and the word at
    the status is the exit code, all other memory as it was; the child is
    then forgotten, and a second [wait] returns -1. *)
Theorem wait_collects s c child q p id status rc :
  procs s !! c = Some child → future child = None → procs s !! q = Some p → c ≠ q →
  List.length (cp p) = 10%nat → 20 ≤ id < 30 → cp p !! Z.to_nat (id - 20) = Some (Some c) →
  user_range ioAPIC localAPIC status 4 →
  wp (wait ioAPIC localAPIC id status) (λ r s', r = Blocks ∧ s' = switch_to q s) (switch_to q s) ∧
  wp (exit rc) (λ r s1, r = Stops ∧
     wp (wait ioAPIC localAPIC id status) (λ r s2, r = Ret 0 ∧
        (∃ p2, procs s2 !! q = Some p2 ∧ le (slice (mem p2) status 4) = u32 rc ∧
               ∀ a, ¬ (status ≤ a < status + 4) → mem p2 a = mem p a) ∧
        wp (wait ioAPIC localAPIC id status) (λ r _, r = Ret (-1)) s2)
       (switch_to q s1))
    (switch_to c s).
Proof.
  intros Ec Hfut Eq Hne Hl Hid El Hst. split.
  - unfold wait. apply wp_bind. eapply wp_cur; [exact Eq|]. apply wp_bind. eapply wp_slot; [lia|exact El|].
    apply wp_bind, wp_get, wp_bind. eapply wp_deref; [exact Ec|]. rewrite Hfut. by apply wp_ret.
  - unfold exit. apply wp_bind. eapply wp_cur; [exact Ec|]. apply wp_bind, wp_assert; [done|].
    apply wp_bind, wp_put, wp_ret. split; [done|]. pose proof (u32_range rc) as Hv. set (v := u32 rc) in *.
    unfold wait at 1. apply wp_bind. eapply wp_cur; [simpl; by rewrite lookup_insert_ne|].
    apply wp_bind. eapply wp_slot; [lia|exact El|]. apply wp_bind, wp_get, wp_bind.
    eapply wp_deref; [apply lookup_insert_eq|]. simpl. apply wp_bind. eapply wp_store; [done|simpl; by rewrite lookup_insert_ne|].
    apply wp_bind. eapply wp_cur; [apply lookup_insert_eq|]. apply wp_bind, wp_set_slot; [simpl; lia|].
    apply wp_bind, wp_put, wp_ret. split; [done|]. split.
    + eexists. split; [apply lookup_insert_eq|]. simpl. split.
      * exact (stored_word (mem p) status v Hv).
      * intros a Ha. by apply blit_out.
    + unfold wait. apply wp_bind. eapply wp_cur; [apply lookup_insert_eq|].
      apply wp_bind. eapply wp_slot; [lia|apply list_lookup_insert_eq; simpl; lia|]. by apply wp_bind, wp_modify, wp_ret.
Qed.

(** The four forms of [changeDir]: the root, the parent, the same
    directory, and one below, whose name is put right after the working
    directory, with no slash between them, the whole of which is then
    looked for below the current directory.  Nothing else changes; if the
    search fails there is no current directory any more. *)
Theorem changeDir_moves s p path q t i :
  procs s !! current_ s = Some p → string_at ioAPIC localAPIC (mem p) path q → cwd_is (cwd s) t → here fs nodes s i →
  roomy ioAPIC localAPIC t q path → does_not_stop dirs i (cd_result t q).2 →
  wp (changeDir ide fs root ioAPIC localAPIC path)
     (λ r s', r = Ret 0 ∧ cwd_is (cwd s') (cd_result t q).1 ∧
              fs_current s' = searched fs root nodes dirs i (cd_result t q).2 ∧
              procs s' = procs s ∧ fds s' = fds s ∧ sems s' = sems s ∧ console s' = console s) s.
Proof.
  intros E Hs Hc Hh Hroom Hstop.
  eapply (wp_changeDir ide disk Hide fs root ioAPIC localAPIC nodes dirs Him s p path q t i); done.
Qed.
End calls.

(** ** Witnesses *)

(** The disk of [Ext2.Sample]; process 0, which makes the call, has opened
    the file and made a semaphore and a child.  Its stack is at
    [0x80001000], with the words 3, [0x80002000] and 4 above the return
    address, and the string "f" is at [0x80003000]. *)
Module Sample.
Definition geo : Ext2 := mkExt2 1024 16 16 128 1 [3] 16.
Definition device : BlockIO sys := Ext2.Sample.device.
Definition file : Node := mkNode 5 Ext2.Sample.file_data 1024.

Definition user_memory : memory :=
  Ext2.Sample.byte_in [(0x80001004, 4, 3); (0x80001008, 4, 0x80002000); (0x8000100c, 4, 4); (0x80003000, 1, 102)].

Definition process : PCB :=
  mkPCB ([Some 0; Some 1; Some 2; Some 3] ++ replicate 6 None)%nat (Some 1%nat :: replicate 9 None)
        (Some 0%nat :: replicate 9 None) None user_memory.
Definition child : PCB :=
  mkPCB ([Some 0; Some 1; Some 2] ++ replicate 7 None)%nat (replicate 10 None) (replicate 10 None) None (λ _, 0).
Definition console_fd : FileDescriptor := mkFD None 0 true.

Definition state : sys :=
  mkSys {[ 0%nat := process; 1%nat := child ]}
        {[ 0%nat := console_fd; 1%nat := console_fd; 2%nat := console_fd; 3%nat := mkFD (Some file) 1 false ]}
        {[ 0%nat := Semaphore.make 1 ]} 0 [] (Some Ext2.Sample.root) (cstring (lit "/") ++ replicate 98 0) []
        (Keyboard.mkTerminal (lit "ls" ++ replicate 48 0) 2 true (lit "ls")).

Lemma sys_image_ok : image device Ext2.Sample.disk geo Ext2.Sample.nodes Ext2.Sample.dirs.
Proof. unfold geo. rewrite <-Ext2.Sample.geometry_eq. apply Ext2.Sample.image_ok. Qed.

Lemma sys_device_ok s0 : Content device (λ s, s = s0) Ext2.Sample.disk.
Proof. apply Ext2.Sample.device_ok. Qed.

Lemma file_ok : node_ok device Ext2.Sample.disk file.
Proof.
  assert (Hsize : NodeData.size_low Ext2.Sample.file_data = 5) by (vm_compute; reflexivity).
  split; simpl; rewrite ?Hsize; [lia|lia| |lia].
  intros k Hk Hlt. assert (k = 0) as -> by lia. vm_compute. repeat split; discriminate || reflexivity.
Qed.

Lemma nodes_ok n : in_image geo Ext2.Sample.nodes n → node_ok device Ext2.Sample.disk n.
Proof.
  intros (i & d & E & ->). unfold Ext2.Sample.nodes in E.
  destruct (decide (i = 2)) as [->|]; [injection E as <-; apply Ext2.Sample.root_ok|].
  destruct (decide (i = 5)) as [->|]; [injection E as <-; apply file_ok|done].
Qed.

Lemma root_in : in_image geo Ext2.Sample.nodes Ext2.Sample.root.
Proof. by exists 2, Ext2.Sample.root_data. Qed.
Lemma file_in : in_image geo Ext2.Sample.nodes file.
Proof. by exists 5, Ext2.Sample.file_data. Qed.

Lemma byte_in_byte l a : 0 ≤ Ext2.Sample.byte_in l a < 256.
Proof. induction l as [|[[o n] v] l IH]; simpl; [lia|]. destruct (decide _); [apply Z.mod_pos_bound; lia|done]. Qed.

Lemma slot_cons {A} (a : list A) i x y : (x :: a) !! i = Some y → (i = 0%nat ∧ y = x) ∨ ∃ j, i = S j ∧ a !! j = Some y.
Proof. destruct i as [|i]; simpl; [intros [= ->]; by left|intros; right; by exists i]. Qed.

Lemma state_fds l d :
  fds state !! l = Some d → (l < 3)%nat ∧ d = console_fd ∨ l = 3%nat ∧ d = mkFD (Some file) 1 false.
Proof.
  unfold state, fds. intros Hd. do 3 (apply lookup_insert_Some in Hd as [[<- <-]|[_ Hd]]; [left; split; [lia|done]|]).
  apply lookup_singleton_Some in Hd as [<- <-]. by right.
Qed.

Lemma state_wf : wf geo Ext2.Sample.nodes state.
Proof.
  assert (Hfd : ∀ l, is_Some (fds state !! l) ↔ (l < 4)%nat).
  { intros [|[|[|[|l]]]]; split; intros H; try lia; try by eexists.
    destruct H as [d Hd]. apply state_fds in Hd. lia. }
  split.
  - by exists process.
  - intros pid p Hp.
    assert (p = process ∨ p = child) as Hp'.
    { unfold state, procs in Hp. apply lookup_insert_Some in Hp as [[_ <-]|[_ Hp]]; [by left|].
      apply lookup_singleton_Some in Hp as [_ <-]. by right. }
    destruct Hp' as [-> | ->]; split; (split; [done|]) || idtac.
    + intros i l Hi. apply Hfd.
      repeat (apply slot_cons in Hi as [[_ [= ->]]|(? & -> & Hi)]; [lia|]); by apply (nulls 6) in Hi.
    + intros i l Hi. apply slot_cons in Hi as [[_ [= ->]]|(? & -> & Hi)]; [by exists child|by apply (nulls 9) in Hi].
    + intros i l Hi. apply slot_cons in Hi as [[_ [= ->]]|(? & -> & Hi)]; [by eexists|by apply (nulls 9) in Hi].
    + intros i l d Hi H3 Hd. do 3 (destruct i as [|i]; [lia|]). simpl in Hi.
      apply slot_cons in Hi as [[_ [= ->]]|(? & -> & Hi)]; [|by apply (nulls 6) in Hi]. by injection Hd as <-.
    + intros i l Hi. apply Hfd.
      repeat (apply slot_cons in Hi as [[_ [= ->]]|(? & -> & Hi)]; [lia|]); by apply (nulls 7) in Hi.
    + intros i l Hi. by apply (nulls 10) in Hi.
    + intros i l Hi. by apply (nulls 10) in Hi.
    + intros i l d Hi H3 Hd. do 3 (destruct i as [|i]; [lia|]). by apply (nulls 7) in Hi.
  - intros l d [[_ ->]|[_ ->]]%state_fds; [by split|]. split; [simpl; lia|]. split; [done|apply file_in].
  - intros n [= <-]. apply root_in.
  - exists (lit "/"). split_and!; [by vm_compute; set_solver|simpl; lia|reflexivity].
Qed.
End Sample.

(** The reply of a call, and what it leaves at an address of the caller's
    memory. *)
Definition answer (m : M sys reply) (s : sys) (a : Z) (n : nat) : option (reply * list Z) :=
  match m s with
  | Ok r s' => (λ p, (r, slice (mem p) a n)) <$> procs s' !! current_ s'
  | _ => None
  end.

Abbreviation io_apic := 0xfec00000.
Abbreviation local_apic := 0xfee00000.

Lemma good_read_sample : good_read io_apic local_apic Sample.state 3 0x80002000 4.
Proof.
  split.
  - right. apply (bool_decide_unpack _). vm_compute. exact I.
  - intros p [= <-] Hfd. assert (3 ≤ 3) by lia. lia.
Qed.

Lemma calls_keep_wf_witness :
  answer (sysHandler Sample.device Sample.geo Ext2.Sample.root io_apic local_apic 100 (λ _, 0) (λ _, 0) (λ _, 0) 0 0 0 12 0 0x80001000)
         Sample.state 0x80002000 4 = Some (Ret 4, lit "ello") ∧
  wp (sysHandler Sample.device Sample.geo Ext2.Sample.root io_apic local_apic 100 (λ _, 0) (λ _, 0) (λ _, 0) 0 0 0 12 0 0x80001000)
     (λ _, wf Sample.geo Ext2.Sample.nodes) Sample.state.
Proof.
  split; [vm_compute; reflexivity|].
  apply (calls_keep_wf Sample.device Ext2.Sample.disk Sample.sys_device_ok Sample.geo Ext2.Sample.root io_apic local_apic 100
           Ext2.Sample.nodes Ext2.Sample.dirs Sample.sys_image_ok Sample.nodes_ok Sample.root_in _ _ _ _ _ _ Sample.state Sample.process).
  - intros a. apply Sample.byte_in_byte.
  - apply Sample.state_wf.
  - reflexivity.
  - intros a. apply Sample.byte_in_byte.
  - apply (bool_decide_unpack _). vm_compute. exact I.
  - apply g_read. assert (Ha : argument Sample.process 0x80001000 1 = 3 ∧ argument Sample.process 0x80001000 2 = 0x80002000 ∧
      argument Sample.process 0x80001000 3 = 4) by (vm_compute; done).
    destruct Ha as (-> & -> & ->). apply good_read_sample.
Defined.

Lemma fork_duplicates_witness :
  answer (fork 7 8) Sample.state 0 0 = Some (Ret 21, []) ∧
  wp (fork 7 8) (λ r s', ∃ pid, procs Sample.state !! pid = None ∧
     if decide (first_free (cp Sample.process) = 10%nat) then
       r = Ret (-1) ∧ ready s' = ready Sample.state ∧ (∃ leaked, procs s' = <[pid := leaked]> (procs Sample.state))
     else
       r = Ret (20 + Z.of_nat (first_free (cp Sample.process))) ∧ cp Sample.process !! first_free (cp Sample.process) = Some None ∧
       ready s' = ready Sample.state ++ [mkEntry_ pid 7 8 0] ∧
       procs s' !! pid = Some (mkPCB (fd Sample.process) (replicate 10 None) (sp Sample.process) None (mem Sample.process)) ∧
       procs s' !! current_ Sample.state =
         Some (set_cp Sample.process (<[first_free (cp Sample.process) := Some pid]> (cp Sample.process))) ∧
       (∀ q, q ≠ pid → q ≠ current_ Sample.state → procs s' !! q = procs Sample.state !! q) ∧
       sems s' = sems Sample.state ∧ ∀ l d, fds Sample.state !! l = Some d → fds s' !! l = Some d) Sample.state.
Proof.
  split; [vm_compute; reflexivity|].
  apply (fork_duplicates Sample.geo Ext2.Sample.nodes Sample.state Sample.process 7 8); [apply Sample.state_wf|reflexivity].
Defined.

Lemma read_returns_witness :
  wp (read Sample.device io_apic local_apic 3 0x80002000 100)
     (λ r s', (1 ≤ 5 → r = Ret 4 ∧ procs s' = <[0%nat :=
                 set_mem Sample.process (blit Sample.user_memory 0x80002000 (lit "ello"))]> (procs Sample.state)) ∧
              (5 < 1 → r = Ret (-1) ∧ procs s' = <[0%nat :=
                 set_mem Sample.process (blit Sample.user_memory 0x80002000 [])]> (procs Sample.state)) ∧
              fds s' = <[3%nat := mkFD (Some Sample.file) 5 false]> (fds Sample.state) ∧
              sems s' = sems Sample.state ∧ ready s' = ready Sample.state ∧ console s' = console Sample.state) Sample.state.
Proof.
  apply (read_returns Sample.device Ext2.Sample.disk Sample.sys_device_ok Sample.geo io_apic local_apic Ext2.Sample.nodes
           Sample.nodes_ok Sample.state Sample.process 3 3 Sample.file 1 0x80002000 100); try reflexivity; try lia.
  - apply Sample.state_wf.
  - apply (bool_decide_unpack _). vm_compute. exact I.
  - apply (bool_decide_unpack _). vm_compute. exact I.
Defined.

Lemma wait_collects_witness :
  wp (wait io_apic local_apic 20 0x80002000) (λ r s', r = Blocks ∧ s' = switch_to 0 Sample.state) (switch_to 0 Sample.state) ∧
  wp (exit (-1)) (λ r s1, r = Stops ∧
     wp (wait io_apic local_apic 20 0x80002000) (λ r s2, r = Ret 0 ∧
        (∃ p2, procs s2 !! 0%nat = Some p2 ∧ le (slice (mem p2) 0x80002000 4) = u32 (-1) ∧
               ∀ a, ¬ (0x80002000 ≤ a < 0x80002000 + 4) → mem p2 a = mem Sample.process a) ∧
        wp (wait io_apic local_apic 20 0x80002000) (λ r _, r = Ret (-1)) s2)
       (switch_to 0 s1))
    (switch_to 1 Sample.state).
Proof.
  apply (wait_collects io_apic local_apic Sample.state 1 Sample.child 0 Sample.process 20 0x80002000 (-1));
    [reflexivity|reflexivity|reflexivity|done|reflexivity|lia|reflexivity|].
  apply (bool_decide_unpack _). vm_compute. exact I.
Defined.

(** Going to "f" twice: the second time the kernel looks for "/ff". *)
Lemma changeDir_moves_witness :
  cd_result (lit "/f") (lit "f") = (lit "/ff", Search (lit "/ff")) ∧
  wp (changeDir Sample.device Sample.geo Ext2.Sample.root io_apic local_apic 0x80003000)
     (λ r s', r = Ret 0 ∧ cwd_is (cwd s') (cd_result (lit "/") (lit "f")).1 ∧
              fs_current s' = searched Sample.geo Ext2.Sample.root Ext2.Sample.nodes Ext2.Sample.dirs 2
                                       (cd_result (lit "/") (lit "f")).2 ∧
              procs s' = procs Sample.state ∧ fds s' = fds Sample.state ∧ sems s' = sems Sample.state ∧
              console s' = console Sample.state) Sample.state.
Proof.
  split; [vm_compute; reflexivity|].
  apply (changeDir_moves Sample.device Ext2.Sample.disk Sample.sys_device_ok Sample.geo Ext2.Sample.root io_apic local_apic
           Ext2.Sample.nodes Ext2.Sample.dirs Sample.sys_image_ok Sample.state Sample.process 0x80003000 (lit "f") (lit "/") 2).
  - reflexivity.
  - split_and!; [apply (bool_decide_unpack _); vm_compute; exact I|by vm_compute; set_solver|vm_compute; reflexivity].
  - split_and!; [by vm_compute; set_solver|simpl; lia|reflexivity].
  - split; [reflexivity|by eexists].
  - intros _. split; [simpl; lia|]. apply (bool_decide_unpack _). vm_compute. exact I.
  - vm_compute. discriminate.
Defined.
