(* ===== verification/Boot.v ===== *)
(** * From the disk to the first program (kernel/kernel.cc)

    [kernelMain] puts the layers together: it mounts the file system over
    the driver of drive 1, finds the shell, loads it and builds the stack
    with which it is entered in user mode.  The state is that of the drive
    and the user half of memory as the running address space shows it; what
    would be stored elsewhere, in the kernel's memory or the registers of an
    APIC, is a fault. *)

From S2P Require Import Prelude.
From S2P Require Import Libk.
From S2P Require Import BlockIO.
From S2P Require Import Ext2.
From S2P Require Import Elf.
From S2P Require Import Ide.
From S2P Require Sys SysProps SysCalls Semaphore Keyboard.

Section lift.
Context {X : Type}.

(** The driver does not touch memory. *)
Definition on_drive {A} (m : M X A) : M (X * memory) A := λ s,
  match m s.1 with
  | Ok a x => Ok a (x, s.2)
  | Panicked x => Panicked (x, s.2)
  | Faulted => Faulted
  | OutOfFuel => OutOfFuel
  end.

Definition drive_io (io : BlockIO X) : BlockIO (X * memory) :=
  mkBlockIO (block_size io) (size_in_bytes io) (λ k, on_drive (BlockIO.read_block io k)).

Lemma drive_io_content io I content m :
  Content io I content → Content (drive_io io) (λ s, I s.1 ∧ s.2 = m) content.
Proof.
  intros [Hb Hs Hr]. split; [done|done|]. intros k [x m'] Hk Hlt [HI Em]. simpl in *. subst m'.
  specialize (Hr k x Hk Hlt HI). unfold wp, on_drive in *. cbn [BlockIO.read_block drive_io fst snd]. destruct (BlockIO.read_block io k x); [|done..]. by destruct Hr.
Qed.
End lift.

Section boot.
Context {X : Type} (P : Ports X) (polls : nat) (ioAPIC localAPIC : Z) (junk1 junk2 : Z → Z).

Definition d : BlockIO (X * memory) := drive_io (Ide P 1 polls).

(** [getFile] and [getDir]; what they print is left out. *)
Definition getFile (fs : Ext2) (node : option Node) (name : list Z) : M (X * memory) (option Node) :=
  find d fs node (cstring name).

(** [p[0] = v]. *)
Definition store (p v : Z) : M (X * memory) () := put_memory ioAPIC localAPIC p (word v).

(** [kernelMain] up to [switchToUser]: the entry point and the stack
    pointer that it is given. *)
Definition kernelMain : M (X * memory) (Z * Z) :=
  r ← mount d;
  let '(fs, root) := r : Ext2 * Node in
  sbin ← getFile fs (Some root) (lit "sbin");
  shell ← getFile fs sbin (lit "shell");
  match shell with
  | None => fault
  | Some shell =>
      e ← load (put_memory ioAPIC localAPIC) (node_io d shell) junk1 junk2;
      let userEsp := 0xefffe000 in
      store userEsp 0;;
      let userEsp := userEsp - 4 in
      let pointer := userEsp in
      put_memory ioAPIC localAPIC userEsp (lit "init");;
      let userEsp := userEsp - 4 in
      store userEsp 0;;
      let userEsp := userEsp - 4 in
      store userEsp pointer;;
      let userEsp := userEsp - 4 in
      store userEsp (userEsp + 4);;
      let userEsp := userEsp - 4 in
      store userEsp 1;;
      mret (e, userEsp)
  end.
End boot.

(** ** What the shell finds *)

(** The bytes of the first stack. *)
Definition on_stack (a : Z) : Prop := 0xefffdfec ≤ a < 0xefffe004.

(** From the stack pointer up: one argument, the address of the vector,
    the vector of one pointer and a null, and the name. *)
Definition first_stack : list Z :=
  word 1 ++ word 0xefffdff4 ++ word 0xefffdffc ++ word 0 ++ lit "init" ++ word 0.

Definition build (m : memory) : memory :=
  blit (blit (blit (blit (blit (blit m 0xefffe000 (word 0)) 0xefffdffc (lit "init")) 0xefffdff8 (word 0))
    0xefffdff4 (word 0xefffdffc)) 0xefffdff0 (word 0xefffdff4)) 0xefffdfec (word 1).

Lemma build_stack m : slice (build m) 0xefffdfec 24 = first_stack.
Proof. by vm_compute. Qed.

Lemma build_other m a : ¬ on_stack a → build m a = m a.
Proof.
  intros Ha. unfold on_stack in Ha. unfold build.
  rewrite !blit_out; [done|..]; cbn [word List.length]; change (List.length (lit "init")) with 4%nat; lia.
Qed.

Lemma wpx_total {S A} (m : M S A) (Q : A → S → Prop) R s : wpx m Q R s → (∀ s', ¬ R s') → wp m Q s.
Proof. unfold wp, wpx. destruct (m s); intros H HR; [done|by eapply HR|done|done]. Qed.

Section theorem.
Context {X : Type} (P : Ports X) (capacity : Z) (patience : nat) (A : (Z → Z) → nat → list Z → X → Prop) (disk : Z → Z).
Context (ioAPIC localAPIC : Z).
Context (nodes : Z → option (list Z)) (dirs : Z → option (list entry)).

Abbreviation dev := (d P (Datatypes.S patience)).
Abbreviation fs := (geometry disk).

(** The node found under the name in a directory. *)
Lemma wp_getFile i name j I s (Q : option Node → X * memory → Prop) :
  Content dev I disk → image dev disk fs nodes dirs → is_Some (nodes i) → I s →
  (0 ∉ name) → Z.of_nat (List.length name) < int_max → resolve dirs i (parts name) = Found j →
  (∀ s', I s' → is_Some (nodes j) → Q (node_at fs nodes j) s') →
  wp (getFile P (Datatypes.S patience) fs (node_at fs nodes i) name) Q s.
Proof.
  intros Hd Him Hi HI H0 Hlen Hr HQ. unfold getFile. eapply wpx_total.
  - eapply wpx_mono; [eapply (wpx_find dev I disk Hd fs nodes dirs Him); [by apply points_to_cstring|done|done|done]|].
    intros r s' [HI' H]. rewrite Hr in H. destruct H as [-> Hj]. by apply HQ.
  - intros s'. by rewrite Hr.
Qed.

(** A disk with a shell: the part of the file system that leads to it, and
    an executable whose segments lie in the user half and do not overlap. *)
Record bootable (i j : Z) (shell : Node) : Prop := {
  bo_mount : mountable dev disk;
  bo_image : image dev disk fs nodes dirs;
  bo_root : is_Some (nodes 2);
  bo_sbin : resolve dirs 2 (parts (lit "sbin")) = Found i;
  bo_shell : resolve dirs i (parts (lit "shell")) = Found j;
  bo_node : node_at fs nodes j = Some shell;
  bo_blocks : node_ok dev disk shell;
  bo_executable : executable (node_io dev shell) (node_content disk shell);
  bo_user : in_user_half ioAPIC localAPIC (node_content disk shell);
  bo_disjoint : ∀ k k' a, loadable (node_content disk shell) k → loadable (node_content disk shell) k' →
    covers (node_content disk shell) k a → covers (node_content disk shell) k' a → k = k'
}.

Context (HD : Drive P 1 disk capacity patience A) (Hcalm : calm P 1 A) (Hcap : 2 ^ 23 ≤ capacity).
Context (Hbytes : ∀ i, 0 ≤ disk i < 256).

Lemma dev_content m : Content dev (λ s, idle patience A s.1 ∧ s.2 = m) disk.
Proof.
  apply drive_io_content. by eapply calm_content.
Qed.

(** The loading of the shell. *)
Lemma wp_load_shell i j shell junk1 junk2 x m (Q : Z → X * memory → Prop) :
  bootable i j shell → idle patience A x →
  (∀ x' m', idle patience A x' → loaded_memory (node_content disk shell) m m' →
     Q (ElfHeader.entry (header (node_content disk shell))) (x', m')) →
  wp (load (put_memory ioAPIC localAPIC) (node_io dev shell) junk1 junk2) Q (x, m).
Proof.
  intros Hboot HI HQ. eapply (wp_load_disjoint _ snd (λ a n, n = 0 ∨ user_range ioAPIC localAPIC a n) (λ s, idle patience A s.1)).
  - intros a b Q' s HI' Hr HQ'. apply wp_put_memory; [exact Hr|]. by apply HQ'.
  - intros o. apply Hbytes.
  - intros m0. apply node_io_content; [apply dev_content|apply (bo_blocks _ _ _ Hboot)].
  - apply (bo_executable _ _ _ Hboot).
  - apply (bo_user _ _ _ Hboot).
  - apply (bo_disjoint _ _ _ Hboot).
  - exact HI.
  - intros [x' m']. apply HQ.
Qed.
End theorem.

(** A part of the user half. *)
Lemma user_part ioAPIC localAPIC a n b k :
  user_range ioAPIC localAPIC a n → a ≤ b → 0 ≤ k → b + k ≤ a + n → user_range ioAPIC localAPIC b k.
Proof. unfold user_range, clear_of. intros (? & ? & ? & ?) ? ? ?. split_and!; lia. Qed.

(** ** Property *)

(** C22. From any disk that holds an ext2 file system with an executable
    /sbin/shell, whose segments lie apart in the user half of memory and
    clear of the APICs, behind a drive that does what the ATA standard says,
    shows that it is ready while it is busy, too, and has the size that the
    driver claims: the kernel mounts the file system, finds the shell, loads
    it and enters it without a failed assertion, a fault or an access
    outside the user half: at its entry point, with the stack of a program
    that is called with one argument, its segments where their headers say,
    and the rest of the user half as it was. *)
Theorem boot_enters_shell {X} (P : Ports X) capacity patience A disk ioAPIC localAPIC nodes dirs i j shell junk1 junk2 x m :
  Drive P 1 disk capacity patience A → calm P 1 A → 2 ^ 23 ≤ capacity → (∀ i, 0 ≤ disk i < 256) →
  bootable P patience disk ioAPIC localAPIC nodes dirs i j shell → user_range ioAPIC localAPIC 0xefffdfec 24 → idle patience A x →
  let content := node_content disk shell in
  wp (kernelMain P (Datatypes.S patience) ioAPIC localAPIC junk1 junk2)
     (λ r s', r = (ElfHeader.entry (header content), 0xefffdfec) ∧
        slice s'.2 0xefffdfec 24 = first_stack ∧
        (∀ k a, loadable content k → covers content k a → ¬ on_stack a →
           s'.2 a = content (ProgramHeader.offset (segment content k) + (a - ProgramHeader.vaddr (segment content k)))) ∧
        (∀ a, ¬ on_stack a → (∀ k, loadable content k → ¬ covers content k a) → s'.2 a = m a)) (x, m).
Proof.
  intros HD Hcalm Hcap Hbytes Hboot Hstack HI content. unfold kernelMain.
  pose proof (dev_content P capacity patience A disk HD Hcalm Hcap Hbytes m) as Hdev.
  destruct (bo_root _ _ _ _ _ _ _ _ _ _ Hboot) as [root Eroot]. pose proof (bo_image _ _ _ _ _ _ _ _ _ _ Hboot) as Him.
  assert (Enode : ∀ r, nodes 2 = Some r → Some (mkNode 2 r (blockSize (geometry disk))) = node_at (geometry disk) nodes 2).
  { intros r E. unfold node_at. by rewrite E. }
  apply wp_bind. eapply wp_mono; [by apply (mount_reads _ _ _ Hdev nodes dirs root _ (bo_mount _ _ _ _ _ _ _ _ _ _ Hboot) Him Eroot)|].
  intros r s1 [HI1 ->]. rewrite (Enode _ Eroot).
  apply wp_bind. eapply wp_getFile; [exact Hdev|exact Him|by eexists|exact HI1| |done|apply (bo_sbin _ _ _ _ _ _ _ _ _ _ Hboot)|].
  { apply (bool_decide_unpack _); vm_compute; exact I. }
  intros s2 HI2 Hi. apply wp_bind. eapply wp_getFile; [exact Hdev|exact Him|done|exact HI2| |done|apply (bo_shell _ _ _ _ _ _ _ _ _ _ Hboot)|].
  { apply (bool_decide_unpack _); vm_compute; exact I. }
  intros [x3 m3] [HI3 Em] _. cbn [fst snd] in HI3, Em. subst m3.
  rewrite (bo_node _ _ _ _ _ _ _ _ _ _ Hboot). apply wp_bind.
  eapply wp_load_shell; [exact HD|exact Hcalm|exact Hcap|exact Hbytes|exact Hboot|exact HI3|]. intros x4 m4 HI4 [H1 H2].
  do 6 (apply wp_bind, wp_put_memory; [right; eapply user_part; [exact Hstack|simpl; lia..]|]).
  apply wp_ret. cbn [fst snd].
  change (blit _ _ (word 1)) with (build m4). split_and!; [done|apply build_stack| |].
  - intros k a Hk Hc Ha. rewrite build_other by done. by apply H1.
  - intros a Ha Hc. rewrite build_other by done. by apply H2.
Qed.

(** ** A disk with a shell *)

Module Sample.
Definition entry_fields (o inode size : Z) (name : list Z) : list (Z * Z * Z) :=
  [(o, 4, inode); (o + 4, 2, size); (o + 6, 1, Z.of_nat (List.length name)); (o + 8, Z.of_nat (List.length name), le name)].
Definition node_fields (o mode size block : Z) : list (Z * Z * Z) :=
  [(o, 2, mode); (o + 4, 4, size); (o + 28, 4, 2); (o + 40, 4, block)].

(** The super block, one group, three nodes, two directories, and the
    executable: its header and two program headers, of which the second is
    loaded. *)
Definition fields : list (Z * Z * Z) := Eval vm_compute in
  [(1024, 4, 16); (1028, 4, 16); (1056, 4, 16); (1064, 4, 16); (1112, 2, 128); (2056, 4, 3)] ++
  node_fields 3200 0x4000 1024 8 ++ node_fields 3584 0x4000 1024 9 ++ node_fields 3712 0x8000 200 10 ++
  entry_fields 8192 2 12 (lit ".") ++ entry_fields 8204 2 12 (lit "..") ++ entry_fields 8216 5 1000 (lit "sbin") ++
  entry_fields 9216 5 12 (lit ".") ++ entry_fields 9228 2 12 (lit "..") ++ entry_fields 9240 6 1000 (lit "shell") ++
  map (λ f, (10240 + f.1.1, f.1.2, f.2))
    [(0, 4, 0x464c457f); (24, 4, 0x80000010); (28, 4, 52); (42, 2, 32); (44, 2, 2);
     (52, 4, 4); (84, 4, 1); (88, 4, 128); (92, 4, 0x80000000); (100, 4, 5); (128, 4, 0x6c6c6568); (132, 1, 111)].

Definition disk : Z → Z := Ext2.Sample.byte_in fields.

Definition data_of (o : Z) : list Z := slice disk o 128.
Definition nodes (i : Z) : option (list Z) :=
  if decide (i = 2) then Some (data_of 3200) else if decide (i = 5) then Some (data_of 3584) else
  if decide (i = 6) then Some (data_of 3712) else None.
Definition root_entries : list entry := [mkEntry 2 12 (lit "."); mkEntry 2 12 (lit ".."); mkEntry 5 1000 (lit "sbin")].
Definition sbin_entries : list entry := [mkEntry 5 12 (lit "."); mkEntry 2 12 (lit ".."); mkEntry 6 1000 (lit "shell")].
Definition dirs (i : Z) : option (list entry) :=
  if decide (i = 2) then Some root_entries else if decide (i = 5) then Some sbin_entries else None.
Definition shell : Node := mkNode 6 (data_of 3712) 1024.

Lemma boot_loadable k : loadable (node_content disk shell) k → k = 1.
Proof.
  intros [Hi Ht]. assert (Hn : ElfHeader.phnum (header (node_content disk shell)) = 2) by (by vm_compute).
  rewrite Hn in Hi. destruct (decide (k = 0)) as [->|]; [|lia].
  assert (H4 : ProgramHeader.type (segment (node_content disk shell) 0) = 4) by (by vm_compute). lia.
Qed.

(** Any device of this size. *)
Section device.
Context {X : Type} (dev : BlockIO X) (Hdev : size_in_bytes dev = 2 ^ 32 - 1).

Lemma boot_geometry : geometry disk = mkExt2 1024 16 16 128 1 [3] 16.
Proof. by vm_compute. Qed.

Lemma node_in_one_block i o size :
  NodeData.size_low (data_of o) = size → 0 < size ≤ 1024 → NodeData.n_sectors (data_of o) = 2 →
  0 ≤ NodeData.direct (data_of o) 0 < 16 → node_ok dev disk (mkNode i (data_of o) 1024).
Proof.
  intros Es Hs En Hd. split; cbn [node_bs data number]; rewrite ?Es; [lia|lia| |lia].
  intros k Hk Hlt. assert (k = 0) as -> by lia. rewrite En. unfold node_block. cbn [node_bs data].
  rewrite decide_True by lia. change (2 / (1024 / 512)) with 1. rewrite Hdev. split_and!; [lia|by vm_compute|exact (proj1 Hd)|]. revert Hd. generalize (NodeData.direct (data_of o) 0). intros. lia.
Qed.

Lemma boot_nodes_ok : node_ok dev disk (mkNode 2 (data_of 3200) 1024) ∧ node_ok dev disk (mkNode 5 (data_of 3584) 1024) ∧ node_ok dev disk shell.
Proof.
  split_and!; (eapply node_in_one_block; [by vm_compute|lia|by vm_compute|apply (bool_decide_unpack _); vm_compute; exact I]).
Qed.

Lemma boot_image : image dev disk (geometry disk) nodes dirs.
Proof.
  destruct boot_nodes_ok as (H2 & H5 & _). rewrite boot_geometry. split.
  - simpl. lia.
  - intros i d. unfold nodes. repeat case_decide; subst; try done;
      intros [= <-]; (split; [simpl; lia|]); (split; [by vm_compute|]); exists 3; rewrite Hdev;
      vm_compute; repeat split; discriminate || reflexivity.
  - intros i d. unfold nodes, dirs. repeat case_decide; subst; try done. intros [= <-] _. by vm_compute.
  - intros i d es. unfold nodes at 1, dirs. repeat case_decide; subst; try done; intros [= <-] [= <-].
    + split; [by vm_compute|]. split; [exact H2|]. split.
      * cbn [dir_at root_entries]. repeat split; apply (bool_decide_unpack _); vm_compute; exact I.
      * intros e [->|[->|[->|[]%elem_of_nil]%elem_of_cons]%elem_of_cons]%elem_of_cons; right; vm_compute; by eexists.
    + split; [by vm_compute|]. split; [exact H5|]. split.
      * cbn [dir_at sbin_entries]. repeat split; apply (bool_decide_unpack _); vm_compute; exact I.
      * intros e [->|[->|[->|[]%elem_of_nil]%elem_of_cons]%elem_of_cons]%elem_of_cons; right; vm_compute; by eexists.
Qed.

Lemma boot_executable : executable (node_io dev shell) (node_content disk shell).
Proof.
  split; try (apply (bool_decide_unpack _); vm_compute; exact I).
  intros k Hk Ht. pose proof (boot_loadable k (conj Hk Ht)) as ->. apply (bool_decide_unpack _); vm_compute; exact I.
Qed.
End device.

Lemma boot_disk_bytes i : 0 ≤ disk i < 256.
Proof.
  unfold disk. generalize fields. induction l as [|[[o n] v] l IH]; simpl; [lia|].
  destruct (decide _); [apply Z.mod_pos_bound; lia|done].
Qed.

Lemma boot_bootable : bootable (SampleDrive.ports disk 1) 2 disk 0xfec00000 0xfee00000 nodes dirs 5 6 shell.
Proof.
  split.
  - vm_compute. repeat split; discriminate || reflexivity.
  - by apply boot_image.
  - by vm_compute; eexists.
  - by vm_compute.
  - by vm_compute.
  - unfold node_at. rewrite boot_geometry. reflexivity.
  - by apply boot_nodes_ok.
  - apply boot_executable.
  - intros k ->%boot_loadable. right. apply (bool_decide_unpack _); vm_compute; exact I.
  - intros k k' a Hk%boot_loadable Hk'%boot_loadable _ _. by subst.
Qed.
End Sample.

Definition sample_drive_state : SampleDrive.ata := SampleDrive.mkAta (λ _, 0) 0 [].

Lemma boot_enters_shell_witness :
  wp (kernelMain (SampleDrive.ports Sample.disk 1) 3 0xfec00000 0xfee00000 (λ _, 0) (λ _, 0))
     (λ r s', r = (0x80000010, 0xefffdfec) ∧ slice s'.2 0xefffdfec 24 = first_stack ∧ s'.2 0x80000001 = chr "e") (sample_drive_state, λ _, 0).
Proof.
  eapply wp_mono.
  - apply (boot_enters_shell (SampleDrive.ports Sample.disk 1) (2 ^ 23) 2 SampleDrive.shows Sample.disk 0xfec00000 0xfee00000
             Sample.nodes Sample.dirs 5 6 Sample.shell);
      [apply SampleDrive.sample_drive; right; left|apply SampleDrive.sample_calm|lia|apply Sample.boot_disk_bytes|apply Sample.boot_bootable| |].
    { apply (bool_decide_unpack _); vm_compute; exact I. }
    exists (λ _, 0), 0%nat. split; [lia|done].
  - intros r s' (-> & Es & Hload & _). split_and!; [by vm_compute|done|].
    rewrite (Hload 1 0x80000001); [by vm_compute|split; [|by vm_compute]|split|unfold on_stack; lia];
      apply (bool_decide_unpack _); vm_compute; exact I.
Defined.

(** ** Another program *)

(** A process asks for [execl("/sbin/shell", "shell")] with this disk: the
    strings are at [0x80003000] and [0x80004000], the arguments of the call
    above [0x80001000]. *)
Module Execl.
Definition device : BlockIO Sys.sys := mkBlockIO 512 (2 ^ 32 - 1) (λ k, mret (slice Sample.disk (k * 512) 512)).
Definition geo : Ext2 := mkExt2 1024 16 16 128 1 [3] 16.
Definition root : Node := mkNode 2 (Sample.data_of 3200) 1024.
Definition caller : memory :=
  Ext2.Sample.byte_in [(0x80001004, 4, 0x80003000); (0x80001008, 4, 0x80004000);
                       (0x80003000, 11, le (lit "/sbin/shell")); (0x80004000, 5, le (lit "shell"))].
Definition process : Sys.PCB :=
  Sys.mkPCB ([Some 0; Some 1; Some 2] ++ replicate 7 None)%nat (replicate 10 None) (replicate 10 None) None caller.
Definition state : Sys.sys :=
  let c := Sys.mkFD None 0 true in
  Sys.mkSys {[ 0%nat := process ]} {[ 0%nat := c; 1%nat := c; 2%nat := c ]} ∅ 0 [] (Some root)
            (cstring (lit "/") ++ replicate 98 0) [] (Keyboard.mkTerminal (replicate 50 0) 0 false []).

(** The guard of [SysCalls.calls_keep_wf] holds. *)
Lemma execl_guarded :
  SysCalls.guarded device Sample.disk geo root 0xfec00000 0xfee00000 100 Sample.nodes Sample.dirs (λ _, 0x100000)
    state process 0x80001000 9.
Proof.
  apply SysCalls.g_execl. exists (lit "/sbin/shell"), [lit "shell"].
  assert (E1 : SysCalls.argument process 0x80001000 1 = 0x80003000) by (by vm_compute).
  assert (E2 : SysCalls.pointer_at process 0x80001000 0 = 0x80004000) by (by vm_compute).
  rewrite E1. split_and!; try done.
  - split_and!; [apply (bool_decide_unpack _); vm_compute; exact I|by vm_compute; set_solver|by vm_compute].
  - simpl. lia.
  - exists 6, Sample.shell. split_and!; [by vm_compute|reflexivity|by apply Sample.boot_executable|].
    intros k ->%Sample.boot_loadable. apply (bool_decide_unpack _); vm_compute; exact I.
  - split_and!; [apply (bool_decide_unpack _); vm_compute; exact I|simpl; lia|by vm_compute|].
    intros [|k] t [= <-]. rewrite E2. split_and!; [lia|simpl; lia|..|apply (bool_decide_unpack _); vm_compute; exact I].
    split_and!; [apply (bool_decide_unpack _); vm_compute; exact I|by vm_compute; set_solver|by vm_compute].
  - apply (bool_decide_unpack _); vm_compute; exact I.
Qed.

(** It enters the shell, whose stack begins below the string. *)
Example execl_enters_shell :
  match Sys.sysHandler device geo root 0xfec00000 0xfee00000 100 (λ _, 0x100000) (λ _, 0) (λ _, 0) 0 0 0 9 0 0x80001000 state with
  | Ok r _ => r = Sys.ToUser 0x80000010 0xefffdfec
  | _ => False
  end.
Proof. by vm_compute. Qed.
End Execl.
