(* ===== verification/Startup.v ===== *)
(** * Starting the processors (kernel/init.cc, kernel/smp.h, kernel/smp.cc)

    [kernelInit] on every core of the machine at once.  The first sets the
    kernel up and starts the others, one after the other; each then sets
    itself up and counts itself; the last starts [kernelMain].  What the
    components do to set themselves up is the subject of their files: here
    it is an event in a log. *)

From S2P Require Import Prelude.
From S2P Require Import Semaphore.

(** ** The machine *)

Inductive event :=
| ConfigInit | HeapInit | DebugInit | CrtInit | PhysMemInit | VmmGlobalInit | SysInit | ThreadsInit
| SmpInit (isFirst : bool) | IdtInit | PitCalibrate
| VmmPerCoreInit | PitInit | KeyBoardInit | Ltr (selector : Z) | Sti.

#[export] Instance event_eq_dec : EqDecision event.
Proof. solve_decision. Defined.

(** What the first core does before it counts itself; [SetDone] is
    [smpInitDone = true]. *)
Inductive task := Do (e : event) | SetDone.

#[export] Instance task_eq_dec : EqDecision task.
Proof. solve_decision. Defined.

Definition first_tasks : list task :=
  map Do [DebugInit; ConfigInit; HeapInit; DebugInit; CrtInit; PhysMemInit; VmmGlobalInit; SysInit; ThreadsInit; SmpInit true] ++
  SetDone :: map Do [IdtInit; PitCalibrate].

(** Where a core is. *)
Inductive pc :=
| Off
| Entry                 (** on [tempStack]: [call pickKernelStack] *)
| Test                  (** [if (!smpInitDone)] *)
| First (l : list task)
| Count_first           (** [SMP::running.fetch_add(1)] *)
| Next (id : Z)         (** [id < kConfig.totalProcs] *)
| Ipi_init (id : Z)     (** [SMP::ipi(id, 0x4500)] *)
| Ipi_start (id : Z)    (** [SMP::ipi(id, 0x4600 | ...)] *)
| Await (id : Z)        (** [while (SMP::running <= id)] *)
| Count_other           (** [SMP::running.fetch_add(1)] *)
| Smp_other             (** [SMP::init(false)] *)
| Vmm_core | Pit_core | Key_core | Tss_core | Sti_core
| Arrive                (** [howManyAreHere.add_fetch(1)] *)
| Order (myOrder : Z)   (** [if (myOrder == kConfig.totalProcs)] *)
| Stopped.              (** [stop()] *)

Record core := mkCore { at_ : pc; stack : option nat }.

Record machine := mkMachine {
  smpInitDone : bool;
  running : Z;
  howManyAreHere : Z;
  mains : nat;               (** how often the thread of [kernelMain] was created *)
  log : list (nat * event);
  cores : list core
}.

(** What a write of the interrupt command registers makes of a core. *)
Inductive command := InitCore (c : nat) | StartCore (c : nat) (address : Z).

Section startup.
(** [kConfig.totalProcs], the address [resetEIP], the identity of a core in
    its local APIC, and what the APIC makes of its command registers. *)
Context (totalProcs : nat) (resetEIP : Z) (id_register : nat → Z) (apic : Z → Z → option command).

Definition me (c : nat) : Z := Z.shiftr (id_register c) 24.

Definition pickKernelStack (done : bool) (c : nat) : nat := if done then Z.to_nat (me c) else 0%nat.

(** ** Steps *)

Definition set_core (c : nat) (k : core) (m : machine) : machine :=
  mkMachine (smpInitDone m) (running m) (howManyAreHere m) (mains m) (log m) (<[c := k]> (cores m)).
Definition note (c : nat) (e : event) (m : machine) : machine :=
  mkMachine (smpInitDone m) (running m) (howManyAreHere m) (mains m) (log m ++ [(c, e)]) (cores m).
Definition set_done (m : machine) : machine :=
  mkMachine true (running m) (howManyAreHere m) (mains m) (log m) (cores m).
Definition count_running (m : machine) : machine :=
  mkMachine (smpInitDone m) (u32 (running m + 1)) (howManyAreHere m) (mains m) (log m) (cores m).
Definition count_here (m : machine) : machine :=
  mkMachine (smpInitDone m) (running m) (u32 (howManyAreHere m + 1)) (mains m) (log m) (cores m).
Definition spawn_main (m : machine) : machine :=
  mkMachine (smpInitDone m) (running m) (howManyAreHere m) (S (mains m)) (log m) (cores m).

(** A core that is not running waits for the command to start, and begins
    at its address; elsewhere than at [resetEIP] there is nothing for it. *)
Definition deliver (x : option command) (m : machine) : option machine :=
  match x with
  | Some (InitCore c) => match cores m !! c with Some k => Some (set_core c (mkCore Off None) m) | None => Some m end
  | Some (StartCore c address) =>
      match cores m !! c with
      | Some (mkCore Off _) => if decide (address = resetEIP) then Some (set_core c (mkCore Entry None) m) else None
      | _ => Some m
      end
  | None => Some m
  end.

(** [SMP::ipi] *)
Definition ipi (id num : Z) (m : machine) : option machine := deliver (apic (u32 (Z.shiftl id 24)) num) m.

Definition exec (c : nat) (m : machine) : option machine :=
  k ← cores m !! c;
  let go p m := Some (set_core c (mkCore p (stack k)) m) in
  match at_ k with
  | Off | Stopped => None
  | Entry => Some (set_core c (mkCore Test (Some (pickKernelStack (smpInitDone m) c))) m)
  | Test => go (if smpInitDone m then Count_other else First first_tasks) m
  | First [] => go Count_first m
  | First (Do e :: l) => go (First l) (note c e m)
  | First (SetDone :: l) => go (First l) (set_done m)
  | Count_first => go (Next 1) (count_running m)
  | Next id => go (if decide (id < Z.of_nat totalProcs) then Ipi_init id else Vmm_core) m
  | Ipi_init id => m ← ipi id 0x4500 m; go (Ipi_start id) m
  | Ipi_start id => m ← ipi id (Z.lor 0x4600 (Z.shiftr resetEIP 12)) m; go (Await id) m
  | Await id => go (if decide (running m <= id) then Await id else Next (u32 (id + 1))) m
  | Count_other => go Smp_other (count_running m)
  | Smp_other => go Vmm_core (note c (SmpInit false) m)
  | Vmm_core => go Pit_core (note c VmmPerCoreInit m)
  | Pit_core => go Key_core (note c PitInit m)
  | Key_core => go Tss_core (note c KeyBoardInit m)
  | Tss_core => go Sti_core (note c (Ltr (40 + me c * 8)) m)
  | Sti_core => go Arrive (note c Sti m)
  | Arrive => go (Order (u32 (howManyAreHere m + 1))) (count_here m)
  | Order myOrder => go Stopped (if decide (myOrder = Z.of_nat totalProcs) then spawn_main m else m)
  end.

(** The firmware runs the first core only. *)
Definition power_on : machine := mkMachine false 0 0 0 [] (mkCore Entry None :: replicate (totalProcs - 1) (mkCore Off None)).

Definition step (m m' : machine) : Prop := ∃ c, exec c m = Some m'.

(** ** What each core has done *)

Definition events (l : list task) : list event := omap (λ t, match t with Do e => Some e | SetDone => None end) l.

(** What is done once, by the first core, and what each core does. *)
Definition once : list event := events first_tasks.
Definition per_core (c : nat) : list event := [VmmPerCoreInit; PitInit; KeyBoardInit; Ltr (40 + me c * 8); Sti].

Definition local (p : pc) : nat :=
  match p with Pit_core => 1 | Key_core => 2 | Tss_core => 3 | Sti_core => 4 | Arrive | Order _ | Stopped => 5 | _ => 0 end.

Definition before (c : nat) (p : pc) : list event :=
  if decide (c = 0%nat) then
    match p with
    | Off | Entry | Test => []
    | First l => take (List.length once - List.length (events l)) once
    | _ => once
    end
  else match p with Off | Entry | Test | Count_other | Smp_other => [] | _ => [SmpInit false] end.

Definition logged (c : nat) (p : pc) : list event := before c p ++ take (local p) (per_core c).

Definition of_core (c : nat) (l : list (nat * event)) : list event := map snd (filter (λ e, e.1 = c) l).

(** ** The invariant *)

Definition counted (k : core) : Z :=
  match at_ k with Off | Entry | Test | First _ | Count_first | Count_other => 0 | _ => 1 end.
Definition arrived (k : core) : Z := match at_ k with Order _ | Stopped => 1 | _ => 0 end.
Definition last_one (k : core) : Z := match at_ k with Order n => if decide (n = Z.of_nat totalProcs) then 1 else 0 | _ => 0 end.

(** How many cores the first has started, itself included, and how many it
    has seen count themselves. *)
Definition launched (p : pc) : Z :=
  match p with
  | Off | Entry | Test | First _ | Count_first => 1
  | Next id | Ipi_init id | Ipi_start id => id
  | Await id => id + 1
  | _ => Z.of_nat totalProcs
  end.
Definition settled (p : pc) : Z :=
  match p with
  | Off | Entry | Test | First _ | Count_first => 1
  | Next id | Ipi_init id | Ipi_start id | Await id => id
  | _ => Z.of_nat totalProcs
  end.

Definition early (p : pc) : bool := match p with Entry | Test | First _ => true | _ => false end.
Definition common (p : pc) : bool :=
  match p with Vmm_core | Pit_core | Key_core | Tss_core | Sti_core | Arrive | Order _ | Stopped => true | _ => false end.

Definition first_ok (p : pc) : Prop :=
  match p with
  | Entry | Test | Count_first => True
  | First l => l `suffix_of` first_tasks
  | Next id => 1 <= id <= Z.of_nat totalProcs
  | Ipi_init id | Ipi_start id | Await id => 1 <= id < Z.of_nat totalProcs
  | _ => common p = true
  end.

Definition other_ok (p : pc) : Prop :=
  match p with Off | Entry | Test | Count_other | Smp_other => True | _ => common p = true end.

Definition done_at (p : pc) : bool :=
  match p with Entry | Test => false | First l => negb (bool_decide (SetDone ∈ l)) | _ => true end.

Record counters (m : machine) : Prop := {
  v_length : List.length (cores m) = totalProcs;
  v_stack : ∀ c k s, cores m !! c = Some k → stack k = Some s → s = c;
  v_running : running m = zsum counted (cores m);
  v_here : howManyAreHere m = zsum arrived (cores m);
  v_mains : Z.of_nat (mains m) + zsum last_one (cores m) = if decide (howManyAreHere m = Z.of_nat totalProcs) then 1 else 0;
  v_order : ∀ c n k, cores m !! c = Some k → at_ k = Order n → n <= howManyAreHere m;
  v_log : ∀ c k, cores m !! c = Some k → of_core c (log m) = logged c (at_ k)
}.

(** The others, of which [c] is one and the first is at [p]. *)
Definition other_core (p : pc) (c : nat) (k : core) : Prop :=
  other_ok (at_ k) ∧ (at_ k = Off ↔ launched p <= Z.of_nat c) ∧ (Z.of_nat c < settled p → counted k = 1) ∧
  (at_ k = Off → k = mkCore Off None).

Record inv (m : machine) : Prop := {
  v_counters : counters m;
  v_first : ∃ k, cores m !! 0%nat = Some k ∧ first_ok (at_ k) ∧ smpInitDone m = done_at (at_ k) ∧
    (∀ c k', cores m !! S c = Some k' → other_core (at_ k) (S c) k') ∧
    (if early (at_ k) then log m = map (pair 0%nat) (logged 0 (at_ k)) else map (pair 0%nat) once `prefix_of` log m)
}.

Context (Hprocs : (1 <= totalProcs <= 16)%nat) (Hme : ∀ c, (c < totalProcs)%nat → me c = Z.of_nat c).

Lemma of_core_app c l l' : of_core c (l ++ l') = of_core c l ++ of_core c l'.
Proof. unfold of_core. by rewrite filter_app, map_app. Qed.

Lemma of_core_own c es : of_core c (map (pair c) es) = es.
Proof.
  unfold of_core. induction es as [|e es IH]; [done|]. simpl. rewrite filter_cons_True by done. simpl. by rewrite IH.
Qed.

Lemma of_core_other c d es : d ≠ c → of_core c (map (pair d) es) = [].
Proof. intros Hne. unfold of_core. induction es as [|e es IH]; [done|]. simpl. by rewrite filter_cons_False. Qed.

Lemma zsum_room (f : core → Z) l c k :
  (∀ x, f x ≤ 1) → l !! c = Some k → f k = 0 → zsum f l < Z.of_nat (List.length l).
Proof.
  intros Hf Hk H0. pose proof (zsum_gap f (λ _, 1) l c k ltac:(auto) Hk) as Hg. rewrite zsum_one, H0 in Hg. lia.
Qed.

Lemma counted_range k : 0 ≤ counted k ≤ 1.
Proof. unfold counted. destruct (at_ k); lia. Qed.
Lemma arrived_range k : 0 ≤ arrived k ≤ 1.
Proof. unfold arrived. destruct (at_ k); lia. Qed.

(** Only the first so many cores count: so many at most have been counted. *)
Lemma zsum_few (f : core → Z) l (n : nat) :
  (∀ x, f x ≤ 1) → (∀ c k, l !! c = Some k → (n <= c)%nat → f k = 0) → zsum f l ≤ Z.of_nat n.
Proof.
  intros Hf. revert n. induction l as [|x l IH]; intros n Hn; simpl; [lia|]. destruct n as [|n].
  - pose proof (Hn 0%nat x eq_refl ltac:(lia)). pose proof (IH 0%nat (λ c k Hk _, Hn (S c) k Hk ltac:(lia))). lia.
  - pose proof (Hf x). pose proof (IH n (λ c k Hk Hle, Hn (S c) k Hk ltac:(lia))). lia.
Qed.

Lemma zsum_many (f : core → Z) l (n : nat) :
  (∀ x, 0 ≤ f x) → (n <= List.length l)%nat → (∀ c k, l !! c = Some k → (c < n)%nat → 1 ≤ f k) → Z.of_nat n ≤ zsum f l.
Proof.
  intros Hf. revert n. induction l as [|x l IH]; intros n Hlen Hn; simpl in *; [lia|]. destruct n as [|n].
  - pose proof (Hf x). pose proof (zsum_nonneg f l ltac:(auto)). lia.
  - pose proof (Hn 0%nat x eq_refl ltac:(lia)). pose proof (IH n ltac:(lia) (λ c k Hk Hlt, Hn (S c) k Hk ltac:(lia))). lia.
Qed.

(** A core moves: the counters, the log and the stack follow. *)
Record moves (c : nat) (k k' : core) (m m' : machine) : Prop := {
  mv_cores : cores m' = <[c := k']> (cores m);
  mv_stack : ∀ s, stack k' = Some s → s = c;
  mv_running : running m' = running m + counted k' - counted k;
  mv_here : howManyAreHere m' = howManyAreHere m + arrived k' - arrived k;
  mv_mains : Z.of_nat (mains m') + last_one k' =
    Z.of_nat (mains m) + last_one k + (if decide (arrived k < arrived k' ∧ howManyAreHere m' = Z.of_nat totalProcs) then 1 else 0);
  mv_arrive : arrived k ≤ arrived k';
  mv_order : ∀ n, at_ k' = Order n → n <= howManyAreHere m';
  mv_log : ∃ es, log m' = log m ++ map (pair c) es ∧ logged c (at_ k') = logged c (at_ k) ++ es
}.

Lemma here_full m : counters m → howManyAreHere m = Z.of_nat totalProcs → ∀ c k, cores m !! c = Some k → arrived k = 1.
Proof.
  intros Hv He c k Hk. pose proof (arrived_range k). destruct (decide (arrived k = 0)) as [E|]; [exfalso|lia].
  pose proof (zsum_room arrived _ c k ltac:(intros; apply arrived_range) Hk E) as Hz.
  rewrite <-(v_here _ Hv), (v_length _ Hv) in Hz. lia.
Qed.

Lemma counters_moves c k k' m m' : counters m → cores m !! c = Some k → moves c k k' m m' → counters m'.
Proof.
  intros Hv Hk [Hc Hst Hr Hh Hm Ha Ho (es & Hl & Hlog)]. split; rewrite Hc.
  - rewrite length_insert. apply (v_length _ Hv).
  - intros d x s [(<- & <- & _)|(_ & Hd)]%list_lookup_insert_Some; [apply Hst|by eapply (v_stack _ Hv)].
  - rewrite (zsum_insert _ _ _ _ _ Hk), Hr, (v_running _ Hv). lia.
  - rewrite (zsum_insert _ _ _ _ _ Hk), Hh, (v_here _ Hv). lia.
  - rewrite (zsum_insert _ _ _ _ _ Hk). pose proof (v_mains _ Hv) as Hvm.
    pose proof (arrived_range k). pose proof (arrived_range k').
    destruct (decide (arrived k < arrived k' ∧ howManyAreHere m' = Z.of_nat totalProcs)) as [[Hlt Hn]|Hn].
    + rewrite (decide_True _ _ Hn). rewrite decide_False in Hvm by lia. lia.
    + destruct (decide (arrived k < arrived k')) as [Hlt|Hge].
      * rewrite decide_False by tauto. rewrite decide_False in Hvm; [lia|]. intros He.
        pose proof (here_full m Hv He c k Hk). lia.
      * assert (howManyAreHere m' = howManyAreHere m) as -> by lia. lia.
  - intros d n x [(<- & <- & _)|(_ & Hd)]%list_lookup_insert_Some E; [by apply Ho|].
    pose proof (v_order _ Hv d n x Hd E). lia.
  - intros d x [(<- & <- & _)|(Hne & Hd)]%list_lookup_insert_Some; rewrite Hl, of_core_app.
    + by rewrite of_core_own, Hlog, (v_log _ Hv c k Hk).
    + by rewrite of_core_other, app_nil_r, (v_log _ Hv d x Hd).
Qed.

(** A step of another core. *)
Lemma inv_other c k k' m m' :
  inv m → cores m !! S c = Some k → moves (S c) k k' m m' → at_ k ≠ Off → other_ok (at_ k') → at_ k' ≠ Off →
  counted k ≤ counted k' → smpInitDone m' = smpInitDone m → inv m'.
Proof.
  intros [Hv Hfirst] Hk Hmv Hoff Hok Hoff' Hcnt Hdone. split; [by eapply counters_moves|].
  destruct Hfirst as (k0 & Hk0 & Hf0 & Hd0 & Hoth & Hlog). exists k0. rewrite (mv_cores _ _ _ _ _ Hmv). split_and!.
  - by rewrite list_lookup_insert_ne.
  - done.
  - by rewrite Hdone.
  - intros d x [(Ed & <- & _)|(Hne & Hd)]%list_lookup_insert_Some; [|by apply Hoth]. injection Ed as <-.
    destruct (Hoth c k Hk) as (_ & Hiff & Hset & _). split_and!; [done|split; [done|intros Hle; by apply Hiff in Hle]| |done].
    intros Hs. specialize (Hset Hs). pose proof (counted_range k'). lia.
  - destruct (mv_log _ _ _ _ _ Hmv) as (es & Hl & _). destruct (early (at_ k0)) eqn:He.
    + destruct (Hoth c k Hk) as (_ & Hiff & _). destruct Hoff. apply Hiff. destruct (at_ k0); try done; simpl; lia.
    + rewrite Hl. by apply prefix_app_r.
Qed.

(** A step of the first core that starts no other. *)
Lemma inv_first k k' m m' :
  inv m → cores m !! 0%nat = Some k → moves 0 k k' m m' → first_ok (at_ k') → smpInitDone m' = done_at (at_ k') →
  launched (at_ k') = launched (at_ k) →
  (∀ c x, cores m !! S c = Some x → Z.of_nat (S c) < settled (at_ k') → counted x = 1) →
  (early (at_ k) = true ∨ early (at_ k') = false) →
  (early (at_ k) = true → early (at_ k') = false → logged 0 (at_ k') = once) →
  inv m'.
Proof.
  intros [Hv Hfirst] Hk Hmv Hok Hdone Hla Hset He1 He2. split; [by eapply counters_moves|].
  destruct Hfirst as (k0 & Hk0 & Hf0 & Hd0 & Hoth & Hlog). rewrite Hk in Hk0. injection Hk0 as <-.
  exists k'. rewrite (mv_cores _ _ _ _ _ Hmv). split_and!; [|done|done| |].
  - apply list_lookup_insert_eq. by eapply lookup_lt_Some.
  - intros d x [(Ed & _)|(Hne & Hd)]%list_lookup_insert_Some; [done|]. destruct (Hoth d x Hd) as (? & ? & ? & ?).
    split_and!; [done|by rewrite Hla|by apply Hset|done].
  - destruct (mv_log _ _ _ _ _ Hmv) as (es & Hl & Hlo). rewrite Hl.
    destruct (early (at_ k)) eqn:Ek; [|destruct He1 as [|Ek']; [done|]; rewrite Ek'; by apply prefix_app_r].
    rewrite Hlog, <-map_app, <-Hlo. destruct (early (at_ k')) eqn:Ek'; [done|]. by rewrite He2.
Qed.

(** ** Every step keeps it *)

(** The steps that all cores take at the end. *)
Lemma common_moves c k m m' :
  counters m → cores m !! c = Some k → common (at_ k) = true → exec c m = Some m' →
  ∃ k', moves c k k' m m' ∧ common (at_ k') = true ∧ smpInitDone m' = smpInitDone m.
Proof.
  intros Hv Hk Hc He. unfold exec in He. rewrite Hk in He. simpl in He.
  assert (Hst : ∀ s, stack k = Some s → s = c) by (intros s Hs; by eapply (v_stack _ Hv)).
  assert (Hplain : ∀ p e, common p = true → arrived (mkCore p (stack k)) = arrived k →
            last_one (mkCore p (stack k)) = last_one k → counted k = 1 → (∀ n, p ≠ Order n) →
            logged c p = logged c (at_ k) ++ [e] →
            moves c k (mkCore p (stack k)) m (set_core c (mkCore p (stack k)) (note c e m))).
  { intros p e Hp Ha Hl Hcn Ho Hlog. split; simpl; try done.
    - assert (counted (mkCore p (stack k)) = 1) by (unfold counted; simpl; by destruct p). lia.
    - rewrite Ha. lia.
    - rewrite Ha, Hl, decide_False by lia. lia.
    - lia.
    - intros n E. by destruct (Ho n).
    - by exists [e]. }
  assert (Hlg : ∀ p, common p = true → before c p = before c Vmm_core).
  { intros p Hp. unfold before. by destruct p. }
  destruct k as [p st]. simpl in *. destruct p; try done; injection He as <-.
  - eexists; split; [apply Hplain; try done|done]. unfold logged. by rewrite !Hlg, app_nil_r.
  - eexists; split; [apply Hplain; try done|done]. unfold logged. by rewrite !Hlg, <-app_assoc.
  - eexists; split; [apply Hplain; try done|done]. unfold logged. by rewrite !Hlg, <-app_assoc.
  - eexists; split; [apply Hplain; try done|done]. unfold logged. by rewrite !Hlg, <-app_assoc.
  - eexists; split; [apply Hplain; try done|done]. unfold logged. by rewrite !Hlg, <-app_assoc.
  - pose proof (zsum_room arrived _ c _ ltac:(intros; apply arrived_range) Hk eq_refl) as Hroom.
    rewrite <-(v_here _ Hv), (v_length _ Hv) in Hroom.
    pose proof (zsum_nonneg arrived (cores m) ltac:(intros; apply arrived_range)) as Hnn. rewrite <-(v_here _ Hv) in Hnn.
    assert (Hu : u32 (howManyAreHere m + 1) = howManyAreHere m + 1) by (apply Z.mod_small; lia).
    exists (mkCore (Order (howManyAreHere m + 1)) st). rewrite Hu. split; [|done]. split; simpl; try done.
    + unfold counted. simpl. lia.
    + unfold arrived. simpl. lia.
    + unfold last_one, arrived. simpl. repeat case_decide; lia.
    + intros n [= <-]. lia.
    + exists []. rewrite !app_nil_r. split; [done|]. unfold logged. by rewrite !Hlg.
  - pose proof (v_order _ Hv c _ _ Hk eq_refl) as Ho.
    exists (mkCore Stopped st). split; [|split; [done|by case_decide]]. split; simpl; try done.
    + by case_decide.
    + case_decide; simpl; unfold counted; simpl; lia.
    + case_decide; simpl; unfold arrived; simpl; lia.
    + unfold last_one, arrived. simpl. repeat case_decide; simpl; lia.
    + exists []. rewrite !app_nil_r. split; [by case_decide|]. unfold logged. by rewrite !Hlg.
Qed.

(** A move that touches neither the counters nor, but for [es], the log. *)
Lemma moves_plain c k k' m m' es :
  (∀ s, stack k' = Some s → s = c) → cores m' = <[c := k']> (cores m) →
  running m' = running m → howManyAreHere m' = howManyAreHere m → mains m' = mains m → log m' = log m ++ map (pair c) es →
  counted k' = counted k → arrived k = 0 → arrived k' = 0 → logged c (at_ k') = logged c (at_ k) ++ es → moves c k k' m m'.
Proof.
  intros Hs Hc Hr Hh Hm Hl Hcn Ha Ha' Hlog. unfold arrived in Ha, Ha'.
  split; try done; rewrite ?Hr, ?Hh, ?Hm.
  - lia.
  - unfold arrived. destruct (at_ k), (at_ k'); lia.
  - unfold last_one, arrived. rewrite decide_False by (destruct (at_ k), (at_ k'); lia). destruct (at_ k), (at_ k'); lia.
  - unfold arrived. destruct (at_ k), (at_ k'); lia.
  - intros n E. by rewrite E in Ha'.
  - by exists es.
Qed.

(** A core that counts itself is one more. *)
Lemma running_room m c k : counters m → cores m !! c = Some k → counted k = 0 → u32 (running m + 1) = running m + 1.
Proof using Hprocs.
  intros Hv Hk H0. pose proof (zsum_room counted _ c k ltac:(intros; apply counted_range) Hk H0) as Hroom.
  pose proof (zsum_nonneg counted (cores m) ltac:(intros; apply counted_range)) as Hnn.
  rewrite <-(v_running _ Hv), (v_length _ Hv) in *. apply Z.mod_small. lia.
Qed.

Lemma moves_count c k k' m p :
  counters m → cores m !! c = Some k → counted k = 0 → k' = mkCore p (stack k) → counted k' = 1 →
  arrived k = 0 → arrived k' = 0 → logged c p = logged c (at_ k) →
  moves c k k' m (set_core c k' (count_running m)).
Proof using Hprocs.
  intros Hv Hk H0 -> H1 Ha Ha' Hlog. unfold arrived in Ha, Ha'. simpl in *. split; simpl.
  - done.
  - intros s Hs. by eapply (v_stack _ Hv).
  - rewrite (running_room m c k Hv Hk H0). lia.
  - unfold arrived. simpl. destruct (at_ k), p; lia.
  - unfold last_one, arrived. simpl. rewrite decide_False by (destruct (at_ k), p; lia). destruct (at_ k), p; lia.
  - unfold arrived. simpl. destruct (at_ k), p; lia.
  - intros n ->. done.
  - exists []. by rewrite !app_nil_r.
Qed.

Lemma other_on m c k : inv m → cores m !! S c = Some k → at_ k ≠ Off → smpInitDone m = true.
Proof.
  intros [Hv (k0 & Hk0 & Hf0 & Hd0 & Hoth & _)] Hk Hoff. destruct (Hoth c k Hk) as (_ & Hiff & _ & _).
  rewrite Hd0. destruct (at_ k0); try done; destruct Hoff; apply Hiff; simpl; lia.
Qed.

Lemma other_step c m m' : inv m → exec (S c) m = Some m' → inv m'.
Proof using Hprocs Hme.
  intros Hinv He. pose proof (v_counters _ Hinv) as Hv. destruct (cores m !! S c) as [k|] eqn:Hk; [|by unfold exec in He; rewrite Hk in He].
  assert (Hok : other_ok (at_ k)) by (destruct (v_first _ Hinv) as (k0 & _ & _ & _ & Hoth & _); apply (Hoth c k Hk)).
  assert (Hlt : (S c < totalProcs)%nat) by (rewrite <-(v_length _ Hv); by eapply lookup_lt_Some).
  assert (Hst : ∀ s, stack k = Some s → s = S c) by (intros s Hs; by eapply (v_stack _ Hv)).
  destruct (common (at_ k)) eqn:Hc.
  - destruct (common_moves _ _ _ _ Hv Hk Hc He) as (k' & Hmv & Hc' & Hd). 
    apply (inv_other c k k' m m'); try done; unfold counted; by destruct (at_ k), (at_ k').
  - assert (Hoff : at_ k ≠ Off) by (intros E; unfold exec in He; rewrite Hk in He; simpl in He; by rewrite E in He).
    pose proof (other_on m c k Hinv Hk Hoff) as Hdone.
    unfold exec in He. rewrite Hk in He. simpl in He. destruct k as [p st]. simpl in *.
    destruct p; try done; injection He as <-.
    + apply (inv_other c (mkCore Entry st) (mkCore Test (Some (pickKernelStack (smpInitDone m) (S c)))) m); try done.
      apply (moves_plain _ _ _ _ _ []); try done; [|by rewrite app_nil_r].
      intros s [= <-]. unfold pickKernelStack. rewrite Hdone, Hme by done. lia.
    + rewrite Hdone. apply (inv_other c (mkCore Test st) (mkCore Count_other st) m); try done.
      apply (moves_plain _ _ _ _ _ []); try done. by rewrite app_nil_r.
    + apply (inv_other c (mkCore Count_other st) (mkCore Smp_other st) m); try done. by eapply moves_count.
    + apply (inv_other c (mkCore Smp_other st) (mkCore Vmm_core st) m); try done.
      by apply (moves_plain _ _ _ _ _ [SmpInit false]).
Qed.

Lemma first_event e l :
  (Do e :: l) `suffix_of` first_tasks → logged 0 (First l) = logged 0 (First (Do e :: l)) ++ [e].
Proof.
  intros [pre E]. unfold logged, before. rewrite !decide_True by done. cbn [local]. rewrite !take_0, !app_nil_r.
  assert (Ho : once = events pre ++ e :: events l) by (unfold once; rewrite E; unfold events; by rewrite omap_app).
  change (events (Do e :: l)) with (e :: events l). rewrite Ho, length_app, !length_cons.
  replace (List.length (events pre) + S (List.length (events l)) - List.length (events l))%nat with (List.length (events pre) + 1)%nat by lia.
  replace (List.length (events pre) + S (List.length (events l)) - S (List.length (events l)))%nat with (List.length (events pre)) by lia.
  by rewrite take_app_add, take_app_length.
Qed.

(** [smpInitDone] is set once. *)
Lemma set_done_once l : (SetDone :: l) `suffix_of` first_tasks → SetDone ∉ l.
Proof.
  intros [pre E] Hin. apply (f_equal (λ x, List.length (filter (λ t, t = SetDone) x))) in E.
  rewrite filter_app, filter_cons_True, length_app in E by done. simpl in E.
  assert (Hl : (1 <= List.length (filter (λ t, t = SetDone) l))%nat).
  { destruct (filter (λ t, t = SetDone) l) as [|t f] eqn:Ef; [|simpl; lia].
    assert (Hf : SetDone ∈ filter (λ t, t = SetDone) l) by (by apply list_elem_of_filter). rewrite Ef in Hf. by apply not_elem_of_nil in Hf. }
  lia.
Qed.

Context (Hinit : ∀ id, 0 <= id < 16 → apic (u32 (Z.shiftl id 24)) 0x4500 = Some (InitCore (Z.to_nat id))).
Context (Hstart : ∀ id v, 0 <= id < 16 → 0 <= v < 256 →
  apic (u32 (Z.shiftl id 24)) (Z.lor 0x4600 v) = Some (StartCore (Z.to_nat id) (Z.shiftl v 12))).
Context (Heip : 0 <= resetEIP < 2 ^ 20 ∧ resetEIP mod 4096 = 0).

(** Starting a core that is off. *)
Lemma first_launch m st id x :
  inv m → cores m !! 0%nat = Some (mkCore (Ipi_start id) st) → ipi id (Z.lor 0x4600 (Z.shiftr resetEIP 12)) m = Some x →
  inv (set_core 0 (mkCore (Await id) st) x).
Proof using Hprocs Hstart Heip.
  intros Hinv Hk Hx. pose proof (v_counters _ Hinv) as Hv.
  destruct (v_first _ Hinv) as (k0 & Hk0 & Hf0 & Hd0 & Hoth & Hlog). rewrite Hk in Hk0. injection Hk0 as <-. simpl in *.
  assert (Hid : ∃ c, id = Z.of_nat (S c)) by (exists (Z.to_nat (id - 1)); lia). destruct Hid as [c ->].
  unfold ipi in Hx. destruct Heip as [Hlow Hpage].
  assert (Hvec : 0 <= Z.shiftr resetEIP 12 < 256).
  { rewrite Z.shiftr_div_pow2 by lia. split; [apply Z.div_pos; lia|apply Z.div_lt_upper_bound; lia]. }
  rewrite Hstart in Hx by lia.
  rewrite Nat2Z.id in Hx. destruct (lookup_lt_is_Some_2 (cores m) (S c)) as [k Hc]; [rewrite (v_length _ Hv); lia|].
  destruct (Hoth c k Hc) as (_ & Hiff & _ & Hwas). assert (Hoff : at_ k = Off) by (apply Hiff; simpl; lia).
  rewrite (Hwas Hoff) in Hc. simpl in Hx. rewrite Hc in Hx.
  assert (Ha : Z.shiftl (Z.shiftr resetEIP 12) 12 = resetEIP).
  { rewrite Z.shiftl_mul_pow2, Z.shiftr_div_pow2 by lia. pose proof (Z.div_mod resetEIP 4096 ltac:(lia)). change (2 ^ 12) with 4096. lia. }
  rewrite Ha, decide_True in Hx by done. injection Hx as <-.
  assert (Hv1 : counters (set_core (S c) (mkCore Entry None) m)).
  { apply (counters_moves _ _ (mkCore Entry None) _ _ Hv Hc), (moves_plain _ _ _ _ _ []); try done. by rewrite app_nil_r. }
  assert (Hk1 : cores (set_core (S c) (mkCore Entry None) m) !! 0%nat = Some (mkCore (Ipi_start (Z.of_nat (S c))) st))
    by (simpl; by rewrite list_lookup_insert_ne).
  split.
  - apply (counters_moves _ _ (mkCore (Await (Z.of_nat (S c))) st) _ _ Hv1 Hk1), (moves_plain _ _ _ _ _ []); try done; [|by rewrite app_nil_r].
    intros s Hs. by eapply (v_stack _ Hv1 0%nat).
  - exists (mkCore (Await (Z.of_nat (S c))) st). simpl. split_and!.
    + apply list_lookup_insert_eq. rewrite length_insert. by eapply lookup_lt_Some.
    + lia.
    + lia.
    + done.
    + intros d x [(Ed & _)|(_ & [(Ed & <- & _)|(Hne & Hd)]%list_lookup_insert_Some)]%list_lookup_insert_Some; [done| |].
      * injection Ed as <-. split_and!; simpl; [done|split; [done|lia]|lia|done].
      * destruct (Hoth d x Hd) as (H1 & H2 & H3 & H4). split_and!; simpl in *; [done| |done|done].
        rewrite H2. split; lia.
    + by simpl in Hlog.
Qed.

Ltac plain := try done; rewrite ?app_nil_r; try done; try (by left); try (by right); try (simpl; lia).

Lemma first_step m m' : inv m → exec 0 m = Some m' → inv m'.
Proof using Hprocs Hme Hinit Hstart Heip.
  intros Hinv He. pose proof (v_counters _ Hinv) as Hv.
  destruct (v_first _ Hinv) as (k & Hk & Hok & Hdone & Hoth & Hlog).
  assert (Hst : ∀ s, stack k = Some s → s = 0%nat) by (intros s Hs; by eapply (v_stack _ Hv)).
  assert (Hset : ∀ c x p, cores m !! S c = Some x → settled p = settled (at_ k) → Z.of_nat (S c) < settled p → counted x = 1).
  { intros c x p Hx E Hlt. destruct (Hoth c x Hx) as (_ & _ & H & _). apply H. by rewrite <-E. }
  assert (Hrange : ∀ c x, cores m !! S c = Some x → (S c < totalProcs)%nat) by (intros c x Hx; rewrite <-(v_length _ Hv); by eapply lookup_lt_Some).
  destruct (common (at_ k)) eqn:Hc.
  - destruct (common_moves _ _ _ _ Hv Hk Hc He) as (k' & Hmv & Hc' & Hd).
    apply (inv_first k k' m m'); try done.
    + by destruct (at_ k').
    + rewrite Hd, Hdone. by destruct (at_ k), (at_ k').
    + by destruct (at_ k), (at_ k').
    + intros c x Hx. apply (Hset c x _ Hx). by destruct (at_ k), (at_ k').
    + right. by destruct (at_ k').
    + by destruct (at_ k).
  - unfold exec in He. rewrite Hk in He. simpl in He. destruct k as [p st]. simpl in *.
    assert (Hplain : ∀ p' e1 e2 m1, cores m1 = cores m → log m1 = log m ++ map (pair 0%nat) e2 →
      running m1 = running m → howManyAreHere m1 = howManyAreHere m → mains m1 = mains m →
      smpInitDone m1 = done_at p' → first_ok p' → launched p' = launched p → settled p' = settled p → 
      counted (mkCore p' st) = counted (mkCore p st) → arrived (mkCore p' st) = 0 → arrived (mkCore p st) = 0 →
      logged 0 p' = logged 0 p ++ e2 → e1 = e2 → (early p = true ∨ early p' = false) →
      (early p = true → early p' = false → logged 0 p' = once) →
      inv (set_core 0 (mkCore p' st) m1)).
    { intros p' e1 e2 m1 H1 H2 H3 H4 H5 H6 H7 H8 H9 H10 H11 H12 H13 _ H14 H15.
      apply (inv_first (mkCore p st) (mkCore p' st) m); try done.
      - apply (moves_plain _ _ _ _ _ e2); try done. simpl. by rewrite H1.
      - intros c x Hx. by apply Hset. }
    destruct p as [| | |[|[e|] l]| |id|id|id|id| | | | | | | | | |]; try done; try injection He as <-.
    + (* Entry *) apply (inv_first (mkCore Entry st) (mkCore Test (Some (pickKernelStack (smpInitDone m) 0))) m); try done.
      * apply (moves_plain _ _ _ _ _ []); try done; [|by rewrite app_nil_r]. intros s [= <-]. by rewrite Hdone.
      * intros c x Hx. by apply Hset.
      * by left.
    + (* Test *) rewrite Hdone. apply (Hplain _ [] []); plain. by exists [].
    + (* First [] *) apply (Hplain _ [] []); plain.
    + (* First (Do e) *) apply (Hplain _ [e] [e]); try (by apply first_event); plain.
      * simpl. rewrite Hdone. unfold done_at. f_equal. apply bool_decide_ext. set_solver.
      * simpl. destruct Hok as [pre E]. exists (pre ++ [Do e]). by rewrite <-app_assoc.
    + (* First SetDone *) pose proof (set_done_once l Hok) as Hl. apply (Hplain _ [] []); plain.
      * simpl. by rewrite bool_decide_false.
      * simpl. destruct Hok as [pre E]. exists (pre ++ [SetDone]). by rewrite <-app_assoc.
    + (* Count_first *) apply (inv_first (mkCore Count_first st) (mkCore (Next 1) st) m); try done.
      * by eapply moves_count.
      * simpl. lia.
      * intros c x Hx. simpl. lia.
      * by right.
    + (* Next *) simpl in Hok. destruct (decide (id < Z.of_nat totalProcs)) as [Hlt|Hge].
      * apply (Hplain _ [] []); plain.
      * apply (Hplain _ [] []); plain.
    + (* Ipi_init *) simpl in Hok. destruct (ipi id 17664 m) as [x|] eqn:Ex; [|done]. simpl in He. injection He as <-.
      assert (x = m) as ->.
      { unfold ipi in Ex. rewrite Hinit in Ex by lia. simpl in Ex.
        assert (Hid : ∃ c, id = Z.of_nat (S c)) by (exists (Z.to_nat (id - 1)); lia). destruct Hid as [c ->]. rewrite Nat2Z.id in Ex.
        destruct (cores m !! S c) as [k|] eqn:Hc2; [|by injection Ex]. destruct (Hoth c k Hc2) as (_ & Hiff & _ & Hwas).
        rewrite (Hwas (proj2 Hiff ltac:(simpl; lia))) in Hc2. unfold set_core in Ex. rewrite list_insert_id in Ex by done. by destruct m; injection Ex. }
      apply (Hplain _ [] []); plain.
    + (* Ipi_start *) destruct (ipi id _ m) as [x|] eqn:Ex; [|done]. simpl in He. injection He as <-.
      by apply (first_launch m).
    + (* Await *) simpl in Hok. destruct (decide (running m <= id)) as [Hle|Hgt].
      * apply (Hplain _ [] []); plain.
      * assert (Hu : u32 (id + 1) = id + 1) by (apply Z.mod_small; lia). rewrite Hu.
        apply (inv_first (mkCore (Await id) st) (mkCore (Next (id + 1)) st) m); try done.
        -- apply (moves_plain _ _ _ _ _ []); try done. by rewrite app_nil_r.
        -- simpl. lia.
        -- intros c x Hx. simpl. intros Hlt. destruct (Hoth c x Hx) as (_ & _ & Hs & _). simpl in Hs.
           destruct (decide (Z.of_nat (S c) < id)) as [|Hn]; [by apply Hs|].
           pose proof (counted_range x). destruct (decide (counted x = 0)) as [E0|]; [exfalso|lia].
           assert (Hfew : zsum counted (cores m) <= Z.of_nat (S c)).
           { apply zsum_few; [intros; apply counted_range|]. intros d y Hd Hle. destruct d as [|d]; [lia|].
             destruct (decide (d = c)) as [->|]; [congruence|]. destruct (Hoth d y Hd) as (_ & Hiff & _ & _).
             unfold counted. rewrite (proj2 Hiff); [done|]. simpl. lia. }
           rewrite <-(v_running _ Hv) in Hfew. lia.
        -- by right.
Qed.

Lemma inv_power_on : inv power_on.
Proof using Hprocs.
  assert (Hat : ∀ c k, cores power_on !! c = Some k → (c = 0%nat ∧ k = mkCore Entry None) ∨ (c ≠ 0%nat ∧ k = mkCore Off None)).
  { intros [|c] k; simpl; [intros [= <-]; by left|]. intros [-> _]%lookup_replicate. by right. }
  assert (Hz : ∀ f : core → Z, f (mkCore Entry None) = 0 → f (mkCore Off None) = 0 → zsum f (cores power_on) = 0).
  { intros f H1 H2. apply zsum_zero. by intros k [c [[_ ->]|[_ ->]]%Hat]%list_elem_of_lookup_1. }
  split; [split|].
  - simpl. rewrite length_replicate. lia.
  - by intros c k s [[_ ->]|[_ ->]]%Hat.
  - by rewrite Hz.
  - by rewrite Hz.
  - rewrite Hz by done. simpl. rewrite decide_False by lia. done.
  - by intros c n k [[_ ->]|[_ ->]]%Hat.
  - intros c k [[-> ->]|[Hc ->]]%Hat; [done|]. unfold logged, before. by rewrite decide_False.
  - exists (mkCore Entry None). split_and!; [done|done|done| |done].
    intros c k [[? _]|[_ ->]]%Hat; [done|]. split_and!; [done|simpl; split; [lia|done]|simpl; lia|done].
Qed.

Lemma startup_inv m : rtc step power_on m → inv m.
Proof using Hprocs Hme Hinit Hstart Heip.
  revert m. apply rtc_ind_r; [apply inv_power_on|]. intros m m' _ [[|c] He] Hm; [by eapply first_step|by eapply other_step].
Qed.

(** ** Progress *)

Definition rank (p : pc) : Z :=
  let n := Z.of_nat totalProcs in
  match p with
  | Off => 302 | Entry => 301 | Test => 300
  | First l => 160 + Z.of_nat (List.length l)
  | Count_first => 150
  | Next id => 43 + 4 * (n - id)
  | Ipi_init id => 42 + 4 * (n - id)
  | Ipi_start id => 41 + 4 * (n - id)
  | Await id => 40 + 4 * (n - id)
  | Count_other => 20 | Smp_other => 19
  | Vmm_core => 10 | Pit_core => 9 | Key_core => 8 | Tss_core => 7 | Sti_core => 6 | Arrive => 5 | Order _ => 4 | Stopped => 0
  end.

Definition total (m : machine) : Z := zsum (λ k, rank (at_ k)) (cores m).

Lemma total_set c k k' m : cores m !! c = Some k → total (set_core c k' m) = total m - rank (at_ k) + rank (at_ k').
Proof. intros Hk. unfold total. simpl. by rewrite (zsum_insert _ _ _ _ _ Hk). Qed.

Lemma core_at m c k : inv m → cores m !! c = Some k → if decide (c = 0%nat) then first_ok (at_ k) else other_ok (at_ k).
Proof.
  intros Hinv Hk. destruct (v_first _ Hinv) as (k0 & Hk0 & Hok & _ & Hoth & _). case_decide as E.
  - subst. congruence.
  - destruct c as [|c]; [done|]. apply (Hoth c k Hk).
Qed.

Lemma stage_nonneg m c k : inv m → cores m !! c = Some k → 0 ≤ rank (at_ k).
Proof using Hprocs.
  intros Hinv Hk. pose proof (core_at _ _ _ Hinv Hk) as Ha. unfold rank. case_decide; destruct (at_ k); simpl in Ha; lia || done.
Qed.

Lemma startup_nonneg m : inv m → 0 ≤ total m.
Proof using Hprocs.
  intros Hinv. apply zsum_nonneg. intros k [c Hk]%list_elem_of_lookup_1. by eapply stage_nonneg.
Qed.

Lemma ipi_total id num m :
  inv m → 1 <= id < Z.of_nat totalProcs → num = 0x4500 ∧ (∀ k, cores m !! Z.to_nat id = Some k → at_ k = Off) ∨
    num = Z.lor 0x4600 (Z.shiftr resetEIP 12) →
  ∃ x, ipi id num m = Some x ∧ total x ≤ total m ∧ cores x !! 0%nat = cores m !! 0%nat.
Proof using Hprocs Hinit Hstart Heip.
  intros Hinv Hid Hnum. unfold ipi. destruct Hnum as [[-> Hoff]| ->].
  - rewrite Hinit by lia. simpl. destruct (cores m !! Z.to_nat id) as [k|] eqn:Hk; [|(exists m; split_and!; [done|lia|done])].
    eexists. split; [done|]. rewrite (total_set _ _ _ _ Hk), (Hoff k eq_refl). simpl. rewrite list_lookup_insert_ne by lia. split; [lia|done].
  - destruct Heip as [Hlow Hpage]. assert (Hvec : 0 <= Z.shiftr resetEIP 12 < 256).
    { rewrite Z.shiftr_div_pow2 by lia. split; [apply Z.div_pos; lia|apply Z.div_lt_upper_bound; lia]. }
    rewrite Hstart by lia. simpl. destruct (cores m !! Z.to_nat id) as [[p st]|] eqn:Hk; [|(exists m; split_and!; [done|lia|done])]. destruct p; [|exists m; split_and!; [done|lia|done]..].
    rewrite decide_True.
    + eexists. split; [done|]. rewrite (total_set _ _ _ _ Hk). simpl. rewrite list_lookup_insert_ne by lia. split; [lia|done].
    + rewrite Z.shiftl_mul_pow2, Z.shiftr_div_pow2 by lia. pose proof (Z.div_mod resetEIP 4096 ltac:(lia)). change (2 ^ 12) with 4096. lia.
Qed.

(** A core that is on and has not stopped goes on, or waits for another. *)
Lemma core_goes_on m c k :
  inv m → cores m !! c = Some k → at_ k ≠ Off → at_ k ≠ Stopped →
  ∃ m', exec c m = Some m' ∧ ((m' = m ∧ ∃ id, at_ k = Await id ∧ running m <= id) ∨ total m' < total m).
Proof using Hprocs Hinit Hstart Heip.
  intros Hinv Hk Hoff Hstop. pose proof (core_at _ _ _ Hinv Hk) as Hat.
  assert (Hset : ∀ p m1, cores m1 = cores m → rank p < rank (at_ k) → total (set_core c (mkCore p (stack k)) m1) < total m).
  { intros p m1 E Hr. rewrite (total_set c k) by (by rewrite E). unfold total at 1. rewrite E. fold (total m). simpl. lia. }
  unfold exec. rewrite Hk. destruct k as [p st]. simpl in *.
  assert (Hlim : ∀ id, p = Ipi_init id ∨ p = Ipi_start id ∨ p = Await id → c = 0%nat ∧ 1 <= id < Z.of_nat totalProcs).
  { intros id Hp. case_decide; [|by destruct Hp as [->|[-> | ->]]]. split; [done|]. by destruct Hp as [->|[-> | ->]]. }
  destruct p as [| | |[|[e|] l]| |id|id|id|id| | | | | | | | | |]; try done;
    try (eexists; split; [reflexivity|]; right; apply Hset; simpl; [done|lia]).
  - eexists. split; [reflexivity|]. right. rewrite (total_set _ _ _ _ Hk). simpl. lia.
  - eexists. split; [reflexivity|]. right. apply Hset; [done|]. destruct (smpInitDone m); simpl; lia.
  - eexists. split; [reflexivity|]. right. apply Hset; [done|]. case_decide; [subst c|done]. simpl in Hat. case_decide; simpl; lia.
  - destruct (Hlim id) as [-> Hid]; [auto|]. destruct (ipi_total id 0x4500 m Hinv Hid) as (x & -> & Hx & Hx0).
    { left. split; [done|]. intros k Hki. destruct (v_first _ Hinv) as (k0 & Hk0 & _ & _ & Hoth & _). rewrite Hk in Hk0. injection Hk0 as <-.
      replace (Z.to_nat id) with (S (Z.to_nat (id - 1))) in Hki by lia. destruct (Hoth _ _ Hki) as (_ & Hiff & _). apply Hiff. simpl. lia. }
    simpl. eexists. split; [reflexivity|]. right. rewrite (total_set 0%nat (mkCore (Ipi_init id) st)) by congruence. simpl. lia.
  - destruct (Hlim id) as [-> Hid]; [auto|]. destruct (ipi_total id (Z.lor 0x4600 (Z.shiftr resetEIP 12)) m Hinv Hid) as (x & E & Hx & Hx0); [by right|].
    rewrite E. simpl. eexists. split; [reflexivity|]. right. rewrite (total_set 0%nat (mkCore (Ipi_start id) st)) by congruence. simpl. lia.
  - destruct (Hlim id) as [-> Hid]; [auto|]. eexists. split; [reflexivity|]. destruct (decide (running m <= id)).
    + left. split; [|by exists id]. unfold set_core. rewrite list_insert_id by done. by destruct m.
    + right. apply Hset; [done|]. assert (u32 (id + 1) = id + 1) as -> by (apply Z.mod_small; lia). simpl. lia.
  - eexists. split; [reflexivity|]. right. apply Hset; [by destruct (decide (myOrder = _))|simpl; lia].
Qed.

(** When nobody can do more than wait, all have stopped. *)
Lemma all_stopped m :
  inv m → (∀ c m', exec c m = Some m' → m' = m) → ∀ c k, cores m !! c = Some k → at_ k = Stopped.
Proof using Hprocs Hinit Hstart Heip.
  intros Hinv Hst. pose proof (v_counters _ Hinv) as Hv.
  assert (Hcore : ∀ c k, cores m !! c = Some k → at_ k = Off ∨ at_ k = Stopped ∨ ∃ id, at_ k = Await id ∧ running m <= id).
  { intros c k Hk. assert (Hd : at_ k = Off ∨ at_ k = Stopped ∨ (at_ k ≠ Off ∧ at_ k ≠ Stopped)) by (destruct (at_ k); naive_solver).
    destruct Hd as [|[|[H1 H2]]]; [by left|by right; left|]. destruct (core_goes_on m c k Hinv Hk H1 H2) as (m' & He & [[_ ?]|Hlt]).
    - by right; right.
    - apply Hst in He. subst. lia. }
  destruct (v_first _ Hinv) as (k0 & Hk0 & Hok & _ & Hoth & _).
  assert (H0 : at_ k0 = Stopped).
  { destruct (Hcore 0%nat k0 Hk0) as [E|[E|(id & E & Hle)]]; rewrite E in Hok; [done|done|exfalso]. simpl in Hok.
    assert (Hid : ∃ c, id = Z.of_nat (S c)) by (exists (Z.to_nat (id - 1)); lia). destruct Hid as [c ->].
    destruct (lookup_lt_is_Some_2 (cores m) (S c)) as [k Hk]; [rewrite (v_length _ Hv); lia|].
    destruct (Hoth c k Hk) as (Hok' & Hiff & _). rewrite E in Hiff. simpl in Hiff.
    assert (Hcnt : ∀ d x, cores m !! d = Some x → (d <= S c)%nat → 1 <= counted x).
    { intros d x Hd Hle'. destruct d as [|d]; [rewrite Hk0 in Hd; injection Hd as <-; unfold counted; by rewrite E|].
      destruct (decide (d = c)) as [->|].
      - rewrite Hk in Hd. injection Hd as <-. destruct (Hcore (S c) k Hk) as [E'|[E'|(id' & E' & _)]].
        + apply Hiff in E'. lia.
        + unfold counted. by rewrite E'.
        + by rewrite E' in Hok'.
      - destruct (Hoth d x Hd) as (_ & _ & Hset & _). rewrite E in Hset. simpl in Hset. rewrite Hset; lia. }
    rewrite (v_running _ Hv) in Hle. pose proof (zsum_many counted (cores m) (S (S c))) as Hm.
    assert (Z.of_nat (S (S c)) <= zsum counted (cores m)); [|lia]. apply Hm.
    - intros x. apply counted_range.
    - rewrite (v_length _ Hv). lia.
    - intros d x Hd Hlt. eapply Hcnt; [done|lia]. }
  intros [|c] k Hk; [congruence|]. destruct (Hoth c k Hk) as (Hok' & Hiff & _).
  assert (Hlt : (S c < totalProcs)%nat) by (rewrite <-(v_length _ Hv); by eapply lookup_lt_Some).
  destruct (Hcore (S c) k Hk) as [E|[E|(id & E & _)]]; [|done|by rewrite E in Hok'].
  apply Hiff in E. rewrite H0 in E. simpl in E. lia.
Qed.

Lemma stopped_main m : inv m → (∀ c k, cores m !! c = Some k → at_ k = Stopped) → mains m = 1%nat.
Proof.
  intros Hinv Hall. pose proof (v_counters _ Hinv) as Hv. pose proof (v_mains _ Hv) as Hm.
  assert (Hh : howManyAreHere m = Z.of_nat totalProcs).
  { rewrite (v_here _ Hv), (zsum_ext arrived (λ _, 1)), zsum_one, (v_length _ Hv); [done|].
    intros k [c Hk]%list_elem_of_lookup_1. unfold arrived. by rewrite (Hall c k Hk). }
  rewrite decide_True, zsum_zero in Hm by (done || (intros k [c Hk]%list_elem_of_lookup_1; unfold last_one; by rewrite (Hall c k Hk))).
  lia.
Qed.

(** Whether a core can do more than wait. *)
Definition movable (m : machine) (k : core) : bool :=
  match at_ k with Off | Stopped => false | Await id => bool_decide (running m > id) | _ => true end.

Lemma can_finish m : inv m → ∃ m', rtc step m m' ∧ inv m' ∧ ∀ c k, cores m' !! c = Some k → at_ k = Stopped.
Proof using Hprocs Hme Hinit Hstart Heip.
  remember (Z.to_nat (total m)) as n eqn:En. revert m En. induction (lt_wf n) as [n _ IH]. intros m -> Hinv.
  assert (Hd : (∃ c k, cores m !! c = Some k ∧ ∃ m', exec c m = Some m' ∧ total m' < total m) ∨ ∀ c m', exec c m = Some m' → m' = m).
  { assert (Hf : (∃ c k, cores m !! c = Some k ∧ at_ k ≠ Off ∧ at_ k ≠ Stopped ∧ ¬ ∃ id, at_ k = Await id ∧ running m <= id) ∨
       ∀ c k, cores m !! c = Some k → at_ k = Off ∨ at_ k = Stopped ∨ ∃ id, at_ k = Await id ∧ running m <= id).
    { destruct (decide (Exists (λ k, movable m k = true) (cores m))) as [He|He].
      - left. apply Exists_exists in He as (k & [c Hk]%list_elem_of_lookup_1 & Ht). exists c, k. split; [done|]. unfold movable in Ht.
        destruct (at_ k) eqn:E; try done; (split_and!; [done|done|]); intros (id' & E' & Hle); try done. injection E' as ->.
        apply bool_decide_eq_true in Ht. lia.
      - right. intros c k Hk. assert (Hn : movable m k ≠ true).
        { intros Ht. apply He, Exists_exists. exists k. split; [by eapply list_elem_of_lookup_2|done]. }
        unfold movable in Hn. destruct (at_ k); try done; auto. right; right. eexists. split; [reflexivity|].
        destruct (bool_decide_reflect (running m > id)); [done|lia]. }
    destruct Hf as [(c & k & Hk & H1 & H2 & H3)|Hall].
    - left. exists c, k. split; [done|]. destruct (core_goes_on m c k Hinv Hk H1 H2) as (m' & He & [[_ ?]|Hlt]); [done|]. by exists m'.
    - right. intros c m' He. destruct (cores m !! c) as [k|] eqn:Hk; [|by unfold exec in He; rewrite Hk in He].
      destruct (Hall c k Hk) as [E|[E|(id & E & Hle)]]; unfold exec in He; rewrite Hk in He; simpl in He; rewrite E in He; [done|done|].
      rewrite decide_True in He by done. injection He as <-. unfold set_core.
      rewrite list_insert_id by (rewrite Hk; destruct k; simpl in *; by subst). by destruct m. }
  destruct Hd as [(c & k & Hk & m1 & He & Hlt)|Hst]; [|exists m; split_and!; [constructor|done|by apply all_stopped]].
  assert (Hinv1 : inv m1) by (destruct c; [by eapply first_step|by eapply other_step]).
  pose proof (startup_nonneg m1 Hinv1). destruct (IH (Z.to_nat (total m1)) ltac:(lia) m1 eq_refl Hinv1) as (m2 & H2 & Hi2 & Hs2).
  exists m2. split_and!; [|done|done]. eapply rtc_l; [by exists c|done].
Qed.

(** C17. However the cores interleave, from power on: what is to be done
    once is done once, in its order, by the first core and before any other
    has begun; never are two cores on the temporary stack, and each is on a
    kernel stack of its own; [kernelMain] is started at most once, and then
    every core has set itself up in the right order; a core that can take a
    step waits for the one it has started, or comes closer to the end; and
    the end, with [kernelMain] started, can be reached from everywhere. *)
Theorem startup_runs_main m :
  rtc step power_on m →
  (log m `prefix_of` map (pair 0%nat) once ∨ map (pair 0%nat) once `prefix_of` log m) ∧
  (∀ c d k l, cores m !! c = Some k → cores m !! d = Some l → at_ k = Entry → at_ l = Entry → c = d) ∧
  (∀ c k s, cores m !! c = Some k → stack k = Some s → s = c) ∧
  (mains m <= 1)%nat ∧
  (mains m = 1%nat → ∀ c, (c < totalProcs)%nat →
     of_core c (log m) = (if decide (c = 0%nat) then once else [SmpInit false]) ++ per_core c) ∧
  (∀ c m', exec c m = Some m' → (m' = m ∧ ∃ id, (at_ <$> cores m !! c) = Some (Await id)) ∨ 0 <= total m' < total m) ∧
  (∃ m', rtc step m m' ∧ mains m' = 1%nat ∧ ∀ c k, cores m' !! c = Some k → at_ k = Stopped).
Proof using Hprocs Hme Hinit Hstart Heip.
  intros Hinv%startup_inv. pose proof (v_counters _ Hinv) as Hv.
  destruct (v_first _ Hinv) as (k0 & Hk0 & Hok & _ & Hoth & Hlog).
  assert (Hlast : ∀ k, 0 <= last_one k) by (intros k; unfold last_one; destruct (at_ k); try lia; case_decide; lia).
  pose proof (zsum_nonneg last_one (cores m) ltac:(auto)) as Hz. pose proof (v_mains _ Hv) as Hm. split_and!.
  - destruct (early (at_ k0)) eqn:He; [left|by right]. rewrite Hlog. unfold logged.
    assert (Hp : before 0 (at_ k0) `prefix_of` once ∧ local (at_ k0) = 0%nat).
    { unfold before. rewrite decide_True by done. destruct (at_ k0); try done; (split; [|done]); try apply prefix_nil. apply prefix_take. }
    destruct Hp as [[r Hr] ->]. rewrite take_0, app_nil_r. exists (map (pair 0%nat) r). by rewrite Hr, map_app.
  - assert (Hone : ∀ c k, cores m !! S c = Some k → at_ k = Entry → at_ k0 = Await (Z.of_nat (S c))).
    { intros c k Hk E. destruct (Hoth c k Hk) as (_ & Hiff & Hset & _).
      assert (Hn1 : ¬ launched (at_ k0) <= Z.of_nat (S c)) by (intros Hl%Hiff; congruence).
      assert (Hn2 : ¬ Z.of_nat (S c) < settled (at_ k0)) by (intros Hl%Hset; unfold counted in Hl; by rewrite E in Hl).
      destruct (at_ k0); simpl in *; try lia. f_equal. lia. }
    intros [|c] [|d] k l Hk Hl Ek El; [done| | |].
    + pose proof (Hone d l Hl El). rewrite Hk0 in Hk. injection Hk as <-. congruence.
    + pose proof (Hone c k Hk Ek). rewrite Hk0 in Hl. injection Hl as <-. congruence.
    + pose proof (Hone c k Hk Ek). pose proof (Hone d l Hl El). assert (Z.of_nat (S c) = Z.of_nat (S d)) by congruence. lia.
  - by apply (v_stack _ Hv).
  - case_decide; lia.
  - intros H1 c Hc. case_decide as Hh; [|lia]. destruct (lookup_lt_is_Some_2 (cores m) c) as [k Hk]; [by rewrite (v_length _ Hv)|].
    pose proof (here_full m Hv Hh c k Hk) as Ha. rewrite (v_log _ Hv c k Hk). unfold logged, before. unfold arrived in Ha.
    destruct (at_ k); try done; by case_decide.
  - intros c m' He. destruct (cores m !! c) as [k|] eqn:Hk; [|by unfold exec in He; rewrite Hk in He].
    assert (H1 : at_ k ≠ Off ∧ at_ k ≠ Stopped) by (split; intros E; unfold exec in He; rewrite Hk in He; simpl in He; by rewrite E in He).
    destruct (core_goes_on m c k Hinv Hk) as (m1 & He1 & Hc); [tauto..|]. rewrite He in He1. injection He1 as <-.
    destruct Hc as [[-> (id & E & _)]|Hlt]; [left; split; [done|]; exists id; simpl; by rewrite E|right].
    assert (Hinv1 : inv m') by (destruct c; [by eapply first_step|by eapply other_step]). pose proof (startup_nonneg m' Hinv1). lia.
  - destruct (can_finish m Hinv) as (m' & Hm' & Hi' & Hs'). exists m'. split_and!; [done|by apply stopped_main|done].
Qed.
End startup.

(** ** Witness *)

Definition sample_apic (high low : Z) : option command :=
  let target := Z.to_nat (Z.shiftr high 24) in
  if decide (Z.land (Z.shiftr low 8) 7 = 5) then Some (InitCore target)
  else if decide (Z.land (Z.shiftr low 8) 7 = 6) then Some (StartCore target (Z.shiftl (Z.land low 255) 12)) else None.
Definition sample_id (c : nat) : Z := Z.shiftl (Z.of_nat c) 24.

Fixpoint run (l : list nat) (m : machine) : machine :=
  match l with [] => m | c :: l => run l (default m (exec 3 0x7000 sample_id sample_apic c m)) end.

Lemma run_steps l m : rtc (step 3 0x7000 sample_id sample_apic) m (run l m).
Proof.
  revert m. induction l as [|c l IH]; intros m; simpl; [constructor|].
  destruct (exec _ _ _ _ c m) as [m'|] eqn:E; simpl; [|apply IH]. eapply rtc_l; [by exists c|apply IH].
Qed.

(** Three cores, the last of which is not done. *)
Definition sample : machine := run (replicate 20 0 ++ replicate 14 1 ++ replicate 20 0 ++ replicate 2 2 ++ replicate 20 0)%nat (power_on 3).

Lemma sample_target id : 0 <= id < 16 → Z.to_nat (Z.shiftr (u32 (Z.shiftl id 24)) 24) = Z.to_nat id.
Proof.
  intros Hid. f_equal. assert (Hall : Forall (λ i, Z.shiftr (u32 (Z.shiftl i 24)) 24 = i) (seqZ 0 16)).
  { apply (bool_decide_unpack _). vm_compute. exact I. }
  rewrite Forall_forall in Hall. by apply Hall, elem_of_seqZ.
Qed.

Lemma sample_starts id v :
  0 <= id < 16 → 0 <= v < 256 →
  sample_apic (u32 (Z.shiftl id 24)) (Z.lor 0x4600 v) = Some (StartCore (Z.to_nat id) (Z.shiftl v 12)).
Proof.
  intros Hid Hv. assert (Hall : Forall (λ v, Z.land (Z.shiftr (Z.lor 0x4600 v) 8) 7 = 6 ∧ Z.land (Z.lor 0x4600 v) 255 = v) (seqZ 0 256)).
  { apply (bool_decide_unpack _). vm_compute. exact I. }
  rewrite Forall_forall in Hall. destruct (Hall v) as [H1 H2]; [by apply elem_of_seqZ|].
  unfold sample_apic. by rewrite H1, H2, (sample_target id Hid).
Qed.

Lemma startup_runs_main_witness :
  (map at_ (cores sample) = [Await 2; Stopped; Count_other] ∧ map stack (cores sample) = [Some 0; Some 1; Some 2]%nat) ∧
  (mains sample <= 1)%nat ∧
  ∃ m', rtc (step 3 0x7000 sample_id sample_apic) sample m' ∧ mains m' = 1%nat.
Proof.
  split; [vm_compute; split; reflexivity|].
  destruct (startup_runs_main 3 0x7000 sample_id sample_apic) with (m := sample) as (_ & _ & _ & H & _ & _ & m' & H1 & H2 & _).
  - lia.
  - intros [|[|[|c]]] Hc; [reflexivity..|lia].
  - intros id Hid. unfold sample_apic. by rewrite (sample_target id Hid).
  - apply sample_starts.
  - split; [lia|reflexivity].
  - apply run_steps.
  - split; [exact H|]. by exists m'.
Defined.
