(* ===== verification/Shared.v ===== *)
(** * Counted pointers (kernel/shared.h)

    [Shared<T>] counts the pointers to each object and deletes the object
    with the last of them, which in turn drops the pointers in its fields.
    The model is of one thread at a time; the counts, atomic in the code, are
    of 32 bits and wrap around.

    Objects and variables are numbered in the order of their creation; a
    deleted object leaves [None] behind, and a destroyed variable a null
    pointer.  Deletion is seen as the moment its destructor begins. *)

From S2P Require Import Prelude.
From S2P Require Import Semaphore.

(** ** State *)

Record obj := mkObj { ref_count : Z; fields : list (option nat) }.
Record store := mkStore { objs : list (option obj); vars : list (option nat) }.

(** A variable, or a field of what a variable points to. *)
Inductive place := Var (v : nat) | Field (v k : nat).

(** A place once its object has been found. *)
Inductive loc := LVar (v : nat) | LField (o k : nat).

Definition set_obj (i : nat) (x : option obj) : M store () := modify (λ s, mkStore (<[i := x]> (objs s)) (vars s)).
Definition set_var (v : nat) (p : option nat) : M store () := modify (λ s, mkStore (objs s) (<[v := p]> (vars s))).
Definition new_var (p : option nat) : M store () := modify (λ s, mkStore (objs s) (vars s ++ [p])).

(** An object that has not been deleted. *)
Definition object (i : nat) : M store obj :=
  s ← get;
  match objs s !! i with Some (Some o) => mret o | _ => fault end.

Definition from_option {S A} (x : option A) : M S A := match x with Some x => mret x | None => fault end.

Definition resolve (p : place) : M store loc :=
  match p with
  | Var v => mret (LVar v)
  | Field v k => s ← get; x ← from_option (vars s !! v); o ← from_option x; mret (LField o k)
  end.

Definition read (l : loc) : M store (option nat) :=
  match l with
  | LVar v => s ← get; from_option (vars s !! v)
  | LField o k => x ← object o; from_option (fields x !! k)
  end.

Definition write (l : loc) (p : option nat) : M store () :=
  match l with
  | LVar v => s ← get; require (v < List.length (vars s))%nat;; set_var v p
  | LField o k =>
      x ← object o;
      require (k < List.length (fields x))%nat;;
      set_obj o (Some (mkObj (ref_count x) (<[k := p]> (fields x))))
  end.

(** ** Operations *)

Definition add (p : option nat) : M store () :=
  match p with
  | None => mret ()
  | Some i => o ← object i; set_obj i (Some (mkObj (u32 (ref_count o + 1)) (fields o)))
  end.

(** [drop] of a pointer: the fields go in reverse order. *)
Fixpoint drop_ptr (fuel : nat) (p : option nat) : M store () :=
  match fuel with
  | O => diverge
  | S fuel =>
      match p with
      | None => mret ()
      | Some i =>
          o ← object i;
          let new_count := u32 (ref_count o - 1) in
          if decide (new_count = 0) then
            set_obj i None;;
            foldr (λ f rest, drop_ptr fuel f;; rest) (mret ()) (rev (fields o))
          else set_obj i (Some (mkObj new_count (fields o)))
      end
  end.

(** [drop] of a place that is overwritten or destroyed right after: it is
    cleared at once.  Nothing can look at it in between but the destructor
    of its object, and then the store that follows is to freed memory. *)
Definition drop (l : loc) : M store () :=
  p ← read l;
  write l None;;
  s ← get;
  drop_ptr (S (List.length (objs s))) p.

Inductive op :=
| Empty                     (** [Shared<T> a{}] *)
| Make (args : list place)  (** [Shared<T> a = Shared<T>::make(...)], the arguments kept in fields *)
| Copy (rhs : place)        (** [Shared<T> a{rhs}] *)
| Move (rhs : place)        (** [Shared<T> a = g()] *)
| Destroy (v : nat)         (** [~Shared] *)
| Assign_null (d : place)   (** [d = nullptr] *)
| Assign (d rhs : place)    (** [d = rhs] *)
| Assign_move (d rhs : place).

(** The copies of the arguments of a constructor. *)
Fixpoint copies (args : list place) : M store (list (option nat)) :=
  match args with
  | [] => mret []
  | a :: args => l ← resolve a; p ← read l; add p;; ps ← copies args; mret (p :: ps)
  end.

Definition exec (a : op) : M store () :=
  match a with
  | Empty => new_var None
  | Make args =>
      fs ← copies args;
      s ← get;
      let it := List.length (objs s) in
      modify (λ s, mkStore (objs s ++ [Some (mkObj 0 fs)]) (vars s));;
      new_var (Some it);;
      add (Some it)
  | Copy rhs => l ← resolve rhs; p ← read l; new_var p;; add p
  | Move rhs => l ← resolve rhs; p ← read l; new_var p;; write l None
  | Destroy v => drop (LVar v)
  | Assign_null d =>
      l ← resolve d;
      p ← read l;
      if decide (p = None) then mret () else drop l;; write l None
  | Assign d rhs =>
      l ← resolve d;
      r ← resolve rhs;
      other_ptr ← read r;
      p ← read l;
      if decide (p = other_ptr) then mret () else
      drop l;;
      write l other_ptr;;
      add other_ptr
  | Assign_move d rhs =>
      l ← resolve d;
      r ← resolve rhs;
      drop l;;
      p ← read r;
      write l p;;
      write r None
  end.

(** ** What the counts count *)

Definition is_ptr (i : nat) (p : option nat) : Z := if decide (p = Some i) then 1 else 0.
Definition count_in (i : nat) (ps : list (option nat)) : Z := zsum (is_ptr i) ps.
Definition in_object (i : nat) (o : option obj) : Z := match o with Some o => count_in i (fields o) | None => 0 end.

(** The pointers to object [i] in variables and in fields of objects. *)
Definition refs (s : store) (i : nat) : Z := count_in i (vars s) + zsum (in_object i) (objs s).

(** Every object has one count for each pointer to it, up to the difference
    [δ], at least one and not as many as wrap around; deleted objects have
    no pointers to them. *)
Definition balanced (δ : nat → Z) (s : store) : Prop :=
  ∀ i, match objs s !! i with
       | Some (Some o) => ref_count o = refs s i + δ i ∧ 0 < ref_count o < 2 ^ 32
       | _ => refs s i + δ i = 0
       end.

(** With the pointers [W] on their way in or out. *)
Definition counted (W : list (option nat)) : store → Prop := balanced (λ i, count_in i W).

Lemma balanced_ext δ δ' s : (∀ i, δ i = δ' i) → balanced δ s → balanced δ' s.
Proof. intros Hd Hb i. specialize (Hb i). by rewrite <-(Hd i). Qed.

Lemma is_ptr_nonneg i p : 0 ≤ is_ptr i p.
Proof. unfold is_ptr. case_decide; lia. Qed.

Lemma is_ptr_self i : is_ptr i (Some i) = 1.
Proof. unfold is_ptr. by rewrite decide_True. Qed.

Lemma count_in_nonneg i ps : 0 ≤ count_in i ps.
Proof. apply zsum_nonneg. intros. apply is_ptr_nonneg. Qed.

Lemma in_object_nonneg i o : 0 ≤ in_object i o.
Proof. destruct o; simpl; [apply count_in_nonneg|lia]. Qed.

Lemma refs_nonneg s i : 0 ≤ refs s i.
Proof.
  unfold refs. pose proof (count_in_nonneg i (vars s)).
  pose proof (zsum_nonneg (in_object i) (objs s) ltac:(intros; apply in_object_nonneg)). lia.
Qed.

Lemma count_in_app i a b : count_in i (a ++ b) = count_in i a + count_in i b.
Proof. unfold count_in. induction a as [|x a IH]; simpl; [lia|]. unfold zsum in *. lia. Qed.

Lemma count_in_rev i a : count_in i (rev a) = count_in i a.
Proof. induction a as [|x a IH]; [done|]. simpl rev. rewrite count_in_app, IH. unfold count_in. simpl. lia. Qed.

Lemma count_in_lookup i ps k : ps !! k = Some (Some i) → 1 ≤ count_in i ps.
Proof.
  intros E. pose proof (zsum_lookup (is_ptr i) ps k (Some i) ltac:(intros; apply is_ptr_nonneg) E) as H.
  by rewrite is_ptr_self in H.
Qed.

Lemma refs_set_obj s i x y j :
  objs s !! i = Some x → refs (mkStore (<[i := y]> (objs s)) (vars s)) j = refs s j - in_object j x + in_object j y.
Proof. intros E. unfold refs. simpl. rewrite (zsum_insert _ _ _ _ _ E). lia. Qed.

Lemma refs_set_var s v x y j :
  vars s !! v = Some x → refs (mkStore (objs s) (<[v := y]> (vars s))) j = refs s j - is_ptr j x + is_ptr j y.
Proof. intros E. unfold refs, count_in. simpl. rewrite (zsum_insert _ _ _ _ _ E). lia. Qed.

Lemma wp_object i o (Q : obj → store → Prop) s : objs s !! i = Some (Some o) → Q o s → wp (object i) Q s.
Proof. intros E HQ. unfold object. apply wp_bind, wp_get. by rewrite E. Qed.

(** A pointer that is counted points to an object. *)
Lemma counted_object W s i :
  counted W s → 0 < refs s i + count_in i W →
  ∃ o, objs s !! i = Some (Some o) ∧ ref_count o = refs s i + count_in i W ∧ ref_count o < 2 ^ 32.
Proof.
  intros Hc Hpos. specialize (Hc i). cbv beta in *. destruct (objs s !! i) as [[o|]|]; [|lia|lia]. exists o. split; [done|lia].
Qed.

(** What dropping pointers leaves: fewer objects, with their fields, and all
    variables. *)
Record shrinks (s s' : store) : Prop := {
  sh_vars : vars s' = vars s;
  sh_length : List.length (objs s') = List.length (objs s);
  sh_refs : ∀ i, refs s' i ≤ refs s i;
  sh_objs : ∀ i o', objs s' !! i = Some (Some o') → ∃ o, objs s !! i = Some (Some o) ∧ fields o' = fields o
}.

Lemma shrinks_refl s : shrinks s s.
Proof. split; [done|done|done|]. intros i o E. by exists o. Qed.

Lemma shrinks_trans s1 s2 s3 : shrinks s1 s2 → shrinks s2 s3 → shrinks s1 s3.
Proof.
  intros [A1 B1 R1 C1] [A2 B2 R2 C2]. split; [congruence|congruence|intros i; specialize (R1 i); specialize (R2 i); lia|]. intros i o3 E3.
  destruct (C2 i o3 E3) as (o2 & E2 & F2). destruct (C1 i o2 E2) as (o1 & E1 & F1). exists o1. split; [done|congruence].
Qed.

Lemma shrinks_set s i o x :
  objs s !! i = Some (Some o) → (∀ o', x = Some o' → fields o' = fields o) →
  shrinks s (mkStore (<[i := x]> (objs s)) (vars s)).
Proof.
  intros E Hx. split; simpl; [done|by rewrite length_insert| |].
  { intros j. rewrite (refs_set_obj _ _ _ _ _ E). pose proof (in_object_nonneg j (Some o)).
    destruct x as [o'|]; simpl in *; [rewrite (Hx o' eq_refl)|]; lia. }
  intros j o' [(-> & Ex & _)|(_ & Ej)]%list_lookup_insert_Some.
  - exists o. split; [done|by apply Hx].
  - by exists o'.
Qed.

Definition alive (o : option obj) : Z := match o with Some _ => 1 | None => 0 end.
Definition living (s : store) : Z := zsum alive (objs s).

Lemma living_bound s : 0 ≤ living s ≤ Z.of_nat (List.length (objs s)).
Proof.
  unfold living. split; [apply zsum_nonneg; intros [o|] _; simpl; lia|].
  rewrite <-zsum_one. apply zsum_le. intros [o|] _; simpl; lia.
Qed.

Lemma wp_drop_ptr fuel p W s :
  counted (p :: W) s → living s < Z.of_nat fuel →
  wp (drop_ptr fuel p) (λ _ s', counted W s' ∧ shrinks s s' ∧ living s' ≤ living s) s.
Proof.
  revert p W s. induction fuel as [|fuel IH]; intros p W s Hc Hf; [pose proof (living_bound s); lia|].
  cbn [drop_ptr]. destruct p as [i|].
  2: { apply wp_ret. split_and!; [|apply shrinks_refl|lia]. intros j. specialize (Hc j). cbv beta in *. exact Hc. }
  assert (Hi : count_in i (Some i :: W) = 1 + count_in i W) by (unfold count_in; simpl; by rewrite is_ptr_self).
  pose proof (refs_nonneg s i). pose proof (count_in_nonneg i W).
  destruct (counted_object _ _ i Hc) as (o & Eo & Hcount & Hmax); [lia|].
  assert (Hother : ∀ j, j ≠ i → count_in j (Some i :: W) = count_in j W).
  { intros j Hj. unfold count_in. simpl. unfold is_ptr at 1. rewrite decide_False by congruence. lia. }
  apply wp_bind. eapply wp_object; [done|]. cbv zeta. rewrite u32_small by lia.
  destruct (decide (ref_count o - 1 = 0)) as [Hz|Hz].
  - apply wp_bind, wp_modify.
    set (s1 := mkStore (<[i := None]> (objs s)) (vars s)).
    assert (Hc1 : counted (rev (fields o) ++ W) s1).
    { intros j. change (objs s1) with (<[i := None]> (objs s)). pose proof (refs_set_obj s i _ None j Eo) as Hr. fold s1 in Hr. simpl in Hr.
      rewrite count_in_app, count_in_rev. specialize (Hc j). cbv beta in *. destruct (decide (j = i)) as [->|Hj]; simpl.
      - rewrite list_lookup_insert_eq by (by eapply lookup_lt_Some). lia.
      - rewrite list_lookup_insert_ne by done. rewrite Hother in Hc by done.
        destruct (objs s !! j) as [[oj|]|]; lia. }
    assert (Hl1 : living s1 < Z.of_nat fuel).
    { unfold living, s1. simpl. rewrite (zsum_insert _ _ _ _ _ Eo). simpl. unfold living in Hf. lia. }
    assert (Hle1 : living s1 ≤ living s).
    { unfold living, s1. simpl. rewrite (zsum_insert _ _ _ _ _ Eo). simpl. lia. }
    assert (Hloop : ∀ fs s2, counted (fs ++ W) s2 → shrinks s1 s2 → living s2 ≤ living s1 →
      wp (foldr (λ f rest, drop_ptr fuel f;; rest) (mret ()) fs) (λ _ s', counted W s' ∧ shrinks s1 s' ∧ living s' ≤ living s1) s2).
    { induction fs as [|f fs IHf]; intros s2 Hc2 Hs2 Hl2; simpl; [by apply wp_ret|].
      apply wp_bind. eapply wp_mono; [apply (IH f (fs ++ W)); [done|lia]|].
      intros [] s3 (Hc3 & Hs3 & Hl3). apply IHf; [done|by eapply shrinks_trans|lia]. }
    eapply wp_mono; [apply Hloop; [exact Hc1|apply shrinks_refl|lia]|].
    intros [] s' (Hc' & Hs' & Hl'). split_and!; [done| |lia].
    eapply shrinks_trans; [by eapply (shrinks_set s i o None)|exact Hs'].
  - apply wp_modify. split_and!.
    + intros j. simpl. pose proof (refs_set_obj s i _ (Some (mkObj (ref_count o - 1) (fields o))) j Eo) as Hr.
      simpl in Hr. specialize (Hc j). cbv beta in *. destruct (decide (j = i)) as [->|Hj].
      * rewrite list_lookup_insert_eq by (by eapply lookup_lt_Some). simpl. rewrite Eo in Hc. lia.
      * rewrite list_lookup_insert_ne by done. rewrite Hother in Hc by done. destruct (objs s !! j) as [[oj|]|]; lia.
    + by apply (shrinks_set s i o); [|intros o' [= <-]].
    + unfold living. simpl. rewrite (zsum_insert _ _ _ _ _ Eo). simpl. lia.
Qed.

(** ** The places *)

Definition holds (s : store) (l : loc) (p : option nat) : Prop :=
  match l with
  | LVar v => vars s !! v = Some p
  | LField o k => ∃ x, objs s !! o = Some (Some x) ∧ fields x !! k = Some p
  end.

Lemma wp_sh_read l p (Q : option nat → store → Prop) s : holds s l p → Q p s → wp (read l) Q s.
Proof.
  destruct l as [v|o k]; simpl.
  - intros E HQ. apply wp_bind, wp_get. by rewrite E.
  - intros (x & E & Ek) HQ. apply wp_bind. eapply wp_object; [done|]. by rewrite Ek.
Qed.

(** The state after a place has been written. *)
Definition written (s : store) (l : loc) (q : option nat) : store :=
  match l with
  | LVar v => mkStore (objs s) (<[v := q]> (vars s))
  | LField o k =>
      match objs s !! o with
      | Some (Some x) => mkStore (<[o := Some (mkObj (ref_count x) (<[k := q]> (fields x)))]> (objs s)) (vars s)
      | _ => s
      end
  end.

Lemma wp_sh_write l p q (Q : () → store → Prop) s : holds s l p → Q () (written s l q) → wp (write l q) Q s.
Proof.
  destruct l as [v|o k]; simpl.
  - intros E HQ. apply wp_bind, wp_get, wp_bind, wp_require; [by eapply lookup_lt_Some|]. by apply wp_modify.
  - intros (x & E & Ek) HQ. apply wp_bind. eapply wp_object; [done|].
    apply wp_bind, wp_require; [by eapply lookup_lt_Some|]. apply wp_modify. by rewrite E in HQ.
Qed.

Lemma written_holds s l p q : holds s l p → holds (written s l q) l q.
Proof.
  destruct l as [v|o k]; simpl.
  - intros E. apply list_lookup_insert_eq. by eapply lookup_lt_Some.
  - intros (x & E & Ek). rewrite E. simpl. eexists.
    split; [apply list_lookup_insert_eq; by eapply lookup_lt_Some|]. simpl. apply list_lookup_insert_eq. by eapply lookup_lt_Some.
Qed.

Lemma written_refs s l p q j : holds s l p → refs (written s l q) j = refs s j - is_ptr j p + is_ptr j q.
Proof.
  destruct l as [v|o k]; simpl.
  - intros E. by apply refs_set_var.
  - intros (x & E & Ek). rewrite E, (refs_set_obj _ _ _ _ _ E). simpl. unfold count_in.
    rewrite (zsum_insert _ _ _ _ _ Ek). lia.
Qed.

(** Writing changes no counts and no lives. *)
Lemma written_counts s l p q i :
  holds s l p → match objs (written s l q) !! i, objs s !! i with
                | Some (Some o'), Some (Some o) => ref_count o' = ref_count o
                | Some (Some _), _ | _, Some (Some _) => False
                | _, _ => True
                end.
Proof.
  destruct l as [v|o k]; simpl.
  - intros _. by destruct (objs s !! i) as [[x|]|].
  - intros (x & E & Ek). rewrite E. simpl. destruct (decide (i = o)) as [->|].
    + rewrite list_lookup_insert_eq by (by eapply lookup_lt_Some). by rewrite E.
    + rewrite list_lookup_insert_ne by done. by destruct (objs s !! i) as [[y|]|].
Qed.

(** A pointer taken out of a place is on its way out, the one put there has
    arrived. *)
Lemma balanced_write δ s l p q :
  holds s l p → balanced δ s → balanced (λ i, δ i + is_ptr i p - is_ptr i q) (written s l q).
Proof.
  intros Hl Hc i. pose proof (written_refs s l p q i Hl) as Hr. pose proof (written_counts s l p q i Hl) as Hn.
  specialize (Hc i). cbv beta in *. rewrite Hr.
  destruct (objs (written s l q) !! i) as [[o'|]|], (objs s !! i) as [[o|]|]; try done; lia.
Qed.

Lemma balanced_new_var δ s p : balanced δ s → balanced (λ i, δ i - is_ptr i p) (mkStore (objs s) (vars s ++ [p])).
Proof.
  intros Hc i. specialize (Hc i). cbv beta in *. simpl. assert (Hr : refs (mkStore (objs s) (vars s ++ [p])) i = refs s i + is_ptr i p).
  { unfold refs. simpl. rewrite count_in_app. unfold count_in at 2. simpl. lia. }
  rewrite Hr. destruct (objs s !! i) as [[o|]|]; lia.
Qed.

(** The same objects with the same fields. *)
Definition same_fields (s s' : store) : Prop :=
  vars s' = vars s ∧ List.length (objs s') = List.length (objs s) ∧ (∀ i, refs s' i = refs s i) ∧
  ∀ i o, objs s !! i = Some (Some o) → ∃ o', objs s' !! i = Some (Some o') ∧ fields o' = fields o.

Lemma wp_add δ p s :
  balanced δ s → (∀ i, p = Some i → (∃ o, objs s !! i = Some (Some o)) ∧ refs s i + δ i + 1 < 2 ^ 32) →
  wp (add p) (λ _ s', balanced (λ i, δ i + is_ptr i p) s' ∧ same_fields s s') s.
Proof.
  intros Hc Hp. destruct p as [i|]; simpl.
  2: { apply wp_ret. split; [|split_and!; [done|done|done|by intros i o E; exists o]].
       eapply balanced_ext; [|exact Hc]. intros i. unfold is_ptr. rewrite decide_False by done. lia. }
  destruct (Hp i eq_refl) as [[o Eo] Hmax]. apply wp_bind. eapply wp_object; [done|]. apply wp_modify.
  assert (Hu : u32 (ref_count o + 1) = ref_count o + 1).
  { specialize (Hc i). rewrite Eo in Hc. apply u32_small. lia. }
  rewrite Hu. split; [|split_and!; simpl; [done|by rewrite length_insert|intros j; rewrite (refs_set_obj _ _ _ _ _ Eo); simpl; lia|]].
  - intros j. simpl. rewrite (refs_set_obj _ _ _ _ _ Eo). simpl. specialize (Hc j). cbv beta in *. destruct (decide (j = i)) as [->|Hj].
    + rewrite list_lookup_insert_eq by (by eapply lookup_lt_Some). rewrite Eo in Hc. simpl. rewrite is_ptr_self. lia.
    + rewrite list_lookup_insert_ne by done. unfold is_ptr. rewrite decide_False by congruence.
      destruct (objs s !! j) as [[oj|]|]; lia.
  - intros j oj Ej. destruct (decide (j = i)) as [->|Hj].
    + rewrite list_lookup_insert_eq by (by eapply lookup_lt_Some). eexists. split; [done|]. simpl. congruence.
    + rewrite list_lookup_insert_ne by done. by exists oj.
Qed.

(** A place that will still be there after a drop: it is a variable, or a
    variable points to its object. *)
Definition anchored (s : store) (l : loc) : Prop :=
  match l with LVar _ => True | LField o _ => ∃ v, vars s !! v = Some (Some o) end.

Lemma refs_var s v i : vars s !! v = Some (Some i) → 1 ≤ refs s i.
Proof.
  intros E. unfold refs. pose proof (count_in_lookup _ _ _ E).
  pose proof (zsum_nonneg (in_object i) (objs s) ltac:(intros; apply in_object_nonneg)). lia.
Qed.

Lemma refs_holds s l i : holds s l (Some i) → 1 ≤ refs s i.
Proof.
  destruct l as [v|o k]; [by apply refs_var|]. intros (x & E & Ek). unfold refs.
  pose proof (count_in_nonneg i (vars s)). pose proof (count_in_lookup _ _ _ Ek).
  pose proof (zsum_lookup (in_object i) _ _ _ ltac:(intros; apply in_object_nonneg) E) as Hz. simpl in Hz. lia.
Qed.

Lemma refs_alive s i : counted [] s → 1 ≤ refs s i → ∃ o, objs s !! i = Some (Some o).
Proof. intros Hc Hr. destruct (counted_object _ _ i Hc) as (o & Eo & _); [unfold count_in; simpl; lia|by exists o]. Qed.

Lemma holds_shrinks s s' l p : counted [] s' → shrinks s s' → anchored s l → holds s l p → holds s' l p.
Proof.
  intros Hc [Hv Hlen _ Ho] Ha Hl. destruct l as [v|o k]; simpl in *; [by rewrite Hv|].
  destruct Ha as [v Ev]. rewrite <-Hv in Ev. destruct (refs_alive s' o Hc) as [x' Ex']; [by eapply refs_var|].
  destruct (Ho _ _ Ex') as (x & Ex & Ef). destruct Hl as (x0 & Ex0 & Ek). simplify_eq. exists x'. by rewrite Ef.
Qed.

Lemma anchored_written s l q r :
  anchored s r → (∀ v o k, l = LVar v → r = LField o k → ∃ w, w ≠ v ∧ vars s !! w = Some (Some o)) → anchored (written s l q) r.
Proof.
  intros Hr Hv. destruct r as [w|o k]; [done|]. destruct l as [v|o' k']; simpl in *.
  - destruct (Hv v o k eq_refl eq_refl) as (w & Hw & Ew). exists w. by rewrite list_lookup_insert_ne.
  - destruct Hr as [w Ew]. exists w. by destruct (objs s !! o') as [[x|]|].
Qed.

#[local] Instance loc_eq_dec : EqDecision loc.
Proof. solve_decision. Defined.

Lemma holds_written s l q r x : holds s l x → ∀ y, holds s r y → holds (written s l q) r (if decide (r = l) then q else y).
Proof.
  intros Hl y Hr. destruct (decide (r = l)) as [->|Hne]; [by eapply written_holds|].
  destruct l as [v|o k], r as [w|o' k']; simpl in *.
  - rewrite list_lookup_insert_ne; [done|congruence].
  - done.
  - by destruct Hl as (z & -> & _).
  - destruct Hl as (z & Ez & Ekz), Hr as (z' & Ez' & Ekz'). rewrite Ez. simpl. destruct (decide (o' = o)) as [->|].
    + simplify_eq. eexists. split; [apply list_lookup_insert_eq; by eapply lookup_lt_Some|]. simpl.
      rewrite list_lookup_insert_ne; [done|congruence].
    + exists z'. by rewrite list_lookup_insert_ne.
Qed.

Lemma wp_drop l p s :
  counted [] s → holds s l p → wp (drop l) (λ _ s', counted [] s' ∧ shrinks (written s l None) s') s.
Proof.
  intros Hc Hl. unfold drop. apply wp_bind. eapply wp_sh_read; [done|]. apply wp_bind. eapply wp_sh_write; [done|].
  apply wp_bind, wp_get.
  eapply wp_mono; [apply (wp_drop_ptr _ p [])|by intros [] s' (? & ? & _)].
  - eapply balanced_ext; [|by eapply balanced_write]. intros i. unfold count_in, is_ptr. simpl. lia.
  - pose proof (living_bound (written s l None)). lia.
Qed.

(** ** Every operation *)

(** The pointers that are not null. *)
Definition is_some (p : option nat) : Z := match p with Some _ => 1 | None => 0 end.
Definition pointers (s : store) : Z :=
  zsum is_some (vars s) + zsum (λ o, match o with Some o => zsum is_some (fields o) | None => 0 end) (objs s).

Lemma refs_pointers s i : refs s i ≤ pointers s.
Proof.
  assert (Hp : ∀ ps, count_in i ps ≤ zsum is_some ps).
  { intros ps. apply zsum_le. intros [j|] _; unfold is_ptr; case_decide; simpl; try lia; done. }
  unfold refs, pointers. pose proof (Hp (vars s)).
  enough (zsum (in_object i) (objs s) ≤ zsum (λ o, match o with Some o => zsum is_some (fields o) | None => 0 end) (objs s)) by lia.
  apply zsum_le. intros [o|] _; simpl; [apply Hp|lia].
Qed.

(** The pointers that an operation may add. *)
Definition added (a : op) : Z :=
  match a with
  | Make args => Z.of_nat (List.length args) + 1
  | Copy _ | Assign _ _ => 1
  | _ => 0
  end.

(** The place exists. *)
Definition valid_place (s : store) (p : place) : Prop :=
  match p with
  | Var v => (v < List.length (vars s))%nat
  | Field v k => ∃ o x, vars s !! v = Some (Some o) ∧ objs s !! o = Some (Some x) ∧ (k < List.length (fields x))%nat
  end.

(** A variable is not assigned from a field of the object it points to. *)
Definition apart (d rhs : place) : Prop :=
  match d, rhs with Var v, Field w _ => v ≠ w | _, _ => True end.

(** All places exist, and there are not so many pointers that a count could
    wrap around: four times as many as fit in an address space. *)
Definition valid (s : store) (a : op) : Prop :=
  pointers s + added a < 2 ^ 32 ∧
  match a with
  | Empty => True
  | Make args => Forall (valid_place s) args
  | Copy rhs | Move rhs => valid_place s rhs
  | Destroy v => valid_place s (Var v)
  | Assign_null d => valid_place s d
  | Assign d rhs | Assign_move d rhs => valid_place s d ∧ valid_place s rhs ∧ apart d rhs
  end.

(** A place and where it is. *)
Definition located (s : store) (p : place) (l : loc) : Prop :=
  match p, l with
  | Var v, LVar w => v = w
  | Field v k, LField o k' => vars s !! v = Some (Some o) ∧ k = k'
  | _, _ => False
  end.

Lemma wp_resolve p (Q : loc → store → Prop) s :
  valid_place s p → (∀ l x, located s p l → anchored s l → holds s l x → Q l s) → wp (resolve p) Q s.
Proof.
  destruct p as [v|v k]; simpl.
  - intros Hv HQ. apply wp_ret. destruct (lookup_lt_is_Some_2 _ _ Hv) as [x Ex]. by apply (HQ (LVar v) x).
  - intros (o & x & Ev & Eo & Hk) HQ. apply wp_bind, wp_get, wp_bind. rewrite Ev. simpl. apply wp_ret, wp_bind, wp_ret, wp_ret.
    destruct (lookup_lt_is_Some_2 _ _ Hk) as [y Ey]. apply (HQ (LField o k) y); simpl; [done|by exists v|by exists x].
Qed.

Lemma located_apart s d rhs l r v o k :
  located s d l → located s rhs r → apart d rhs → l = LVar v → r = LField o k →
  ∃ w, w ≠ v ∧ vars s !! w = Some (Some o).
Proof.
  intros Hl Hr Ha -> ->. destruct d as [v'|]; [|done]. destruct rhs as [|w k']; [done|]. simpl in *. subst v'.
  exists w. split; [done|]. by destruct Hr.
Qed.

(** The drop of a place, and the store that follows, leave another place as
    it was. *)
Lemma after_drop s s' l p r q :
  counted [] s' → shrinks (written s l None) s' → holds s l p → holds s r q → anchored s l → anchored s r →
  (∀ v o k, l = LVar v → r = LField o k → ∃ w, w ≠ v ∧ vars s !! w = Some (Some o)) →
  holds s' l None ∧ holds s' r (if decide (r = l) then None else q).
Proof.
  intros Hc Hs Hl Hr Al Ar Hv. split; (eapply holds_shrinks; [done|exact Hs| |]).
  - apply anchored_written; [done|]. intros v o k -> Heq. done.
  - by eapply written_holds.
  - by apply anchored_written.
  - by apply holds_written with p.
Qed.

(** Storing a pointer to a living object in an empty place and counting
    it. *)
Lemma wp_store_add s l q :
  counted [] s → holds s l None → (∀ i, q = Some i → 1 ≤ refs s i ∧ refs s i + 1 < 2 ^ 32) →
  wp (write l q;; add q) (λ _, counted []) s.
Proof.
  intros Hc Hl Hq. apply wp_bind. eapply wp_sh_write; [done|].
  eapply wp_mono; [eapply wp_add; [by apply (balanced_write _ _ _ _ q Hl Hc)|]|].
  - intros i ->. destruct (Hq i eq_refl) as [H1 H2]. destruct (refs_alive _ _ Hc H1) as [o Eo].
    pose proof (written_counts s l None (Some i) i Hl) as Hw. rewrite Eo in Hw.
    pose proof (written_refs s l None (Some i) i Hl) as Hr.
    split; [|rewrite Hr, is_ptr_self; change (count_in i []) with 0; change (is_ptr i None) with 0; lia].
    destruct (objs (written s l (Some i)) !! i) as [[o'|]|]; [by exists o'|done|done].
  - intros [] s' [Hc' _]. eapply balanced_ext; [|exact Hc']. intros i. simpl. unfold count_in, is_ptr. simpl. lia.
Qed.

Lemma valid_same s s' p : same_fields s s' → valid_place s p → valid_place s' p.
Proof.
  intros (Hv & _ & _ & Ho). destruct p as [v|v k]; simpl; rewrite Hv; [done|].
  intros (o & x & Ev & Eo & Hk). destruct (Ho _ _ Eo) as (x' & Ex' & Ef). exists o, x'. by rewrite Ef.
Qed.

Lemma same_trans s1 s2 s3 : same_fields s1 s2 → same_fields s2 s3 → same_fields s1 s3.
Proof.
  intros (Hv & Hl & Hr & Ho) (Hv' & Hl' & Hr' & Ho'). split_and!; [congruence|congruence|congruence|]. intros i o Eo.
  destruct (Ho _ _ Eo) as (o' & Eo' & E1). destruct (Ho' _ _ Eo') as (o'' & Eo'' & E2). exists o''. split; [done|congruence].
Qed.

Lemma wp_copies args δ s :
  balanced δ s → (∀ i, 0 ≤ δ i) → (∀ i, refs s i + δ i + Z.of_nat (List.length args) < 2 ^ 32) → Forall (valid_place s) args →
  wp (copies args) (λ fs s', balanced (λ i, δ i + count_in i fs) s' ∧ same_fields s s') s.
Proof.
  revert δ s. induction args as [|a args IH]; intros δ s Hc Hδ Hmax Hv; cbn [copies].
  - apply wp_ret. split; [|split_and!; [done|done|done|by intros i o E; exists o]].
    eapply balanced_ext; [|exact Hc]. intros i. unfold count_in. simpl. lia.
  - apply Forall_cons in Hv as [Ha Hv]. apply wp_bind, wp_resolve; [done|]. intros l p _ _ Hl.
    apply wp_bind. eapply wp_sh_read; [exact Hl|]. apply wp_bind. eapply wp_mono; [eapply wp_add; [exact Hc|]|].
    + intros i ->. pose proof (refs_holds _ _ _ Hl). specialize (Hc i). specialize (Hδ i). cbv beta in Hc.
      specialize (Hmax i). rewrite length_cons in Hmax. split; [|lia].
      destruct (objs s !! i) as [[o|]|]; [by exists o|lia|lia].
    + intros [] s1 [Hc1 Hs1]. apply wp_bind. eapply wp_mono; [apply (IH _ s1 Hc1)|].
      * intros i. pose proof (is_ptr_nonneg i p). specialize (Hδ i). lia.
      * intros i. destruct Hs1 as (_ & _ & -> & _). specialize (Hmax i). rewrite length_cons in Hmax.
        enough (is_ptr i p ≤ 1) by lia. unfold is_ptr. case_decide; lia.
      * eapply Forall_impl; [exact Hv|]. intros x. by apply valid_same.
      * intros fs s2 [Hc2 Hs2]. apply wp_ret. split; [|by eapply same_trans].
        eapply balanced_ext; [|exact Hc2]. intros i. unfold count_in. simpl. lia.
Qed.

(** The new object, once the pointer to it has been counted. *)
Lemma balanced_make fs s :
  balanced (λ i, count_in i fs) s →
  wp (add (Some (List.length (objs s)))) (λ _, counted [])
     (mkStore (objs s ++ [Some (mkObj 0 fs)]) (vars s ++ [Some (List.length (objs s))])).
Proof.
  intros Hc. set (it := List.length (objs s)). unfold add. apply wp_bind.
  assert (Eit : (objs s ++ [Some (mkObj 0 fs)]) !! it = Some (Some (mkObj 0 fs))).
  { unfold it. by rewrite lookup_app_r, Nat.sub_diag by lia. }
  eapply wp_object; [exact Eit|]. apply wp_modify. simpl.
  assert (Hr : ∀ j, refs (mkStore (<[it := Some (mkObj 1 fs)]> (objs s ++ [Some (mkObj 0 fs)])) (vars s ++ [Some it])) j =
                refs s j + is_ptr j (Some it) + count_in j fs).
  { intros j. unfold refs. simpl. rewrite (zsum_insert _ _ _ _ _ Eit), count_in_app. simpl.
    assert (Ez : zsum (in_object j) (objs s ++ [Some (mkObj 0 fs)]) = zsum (in_object j) (objs s) + count_in j fs).
    { generalize (objs s). intros l. induction l as [|x l IH]; simpl; [lia|]. unfold zsum in *. lia. }
    change (count_in j [Some it]) with (is_ptr j (Some it) + 0). lia. }
  intros j. cbn [objs]. rewrite Hr. specialize (Hc j). cbv beta in *. change (count_in j []) with 0.
  destruct (decide (j = it)) as [->|Hj].
  - rewrite list_lookup_insert_eq by (by eapply lookup_lt_Some). rewrite lookup_ge_None_2 in Hc by (unfold it; lia).
    cbn [ref_count]. change (u32 (0 + 1)) with 1. rewrite is_ptr_self. lia.
  - rewrite list_lookup_insert_ne by done. unfold is_ptr. rewrite decide_False by congruence.
    destruct (decide (j < it)%nat) as [Hlt|Hge].
    + rewrite lookup_app_l by done. destruct (objs s !! j) as [[o|]|]; lia.
    + rewrite lookup_ge_None_2 in Hc by (unfold it in *; lia).
      rewrite lookup_ge_None_2 by (rewrite length_app; simpl; unfold it in *; lia). lia.
Qed.

Lemma exec_counted s a : counted [] s → valid s a → wp (exec a) (λ _, counted []) s.
Proof.
  intros Hc [Hmax Hv]. pose proof (refs_pointers s) as Hrp.
  destruct a as [|args|rhs|rhs|v|d|d rhs|d rhs]; simpl in Hv; cbn [exec added] in *.
  - apply wp_modify. eapply balanced_ext; [|by apply (balanced_new_var _ _ None Hc)].
    intros i. unfold count_in, is_ptr. simpl. lia.
  - apply wp_bind. eapply wp_mono; [apply (wp_copies args _ s Hc); [intros; unfold count_in; simpl; lia| |done]|].
    { intros i. change (count_in i []) with 0. specialize (Hrp i). lia. }
    intros fs s1 [Hc1 _]. apply wp_bind, wp_get, wp_bind, wp_modify, wp_bind, wp_modify. simpl. by apply balanced_make.
  - apply wp_bind, wp_resolve; [done|]. intros l p _ _ Hl. apply wp_bind. eapply wp_sh_read; [exact Hl|].
    apply wp_bind, wp_modify. eapply wp_mono; [eapply wp_add; [by apply (balanced_new_var _ _ p Hc)|]|].
    + intros i ->. simpl. split; [apply (refs_alive _ _ Hc); by eapply refs_holds|]. specialize (Hrp i).
      change (count_in i []) with 0. unfold refs in *. simpl. rewrite count_in_app. change (count_in i [Some i]) with (is_ptr i (Some i) + 0).
      lia.
    + intros [] s' [Hc' _]. eapply balanced_ext; [|exact Hc']. intros i. unfold count_in. simpl. lia.
  - apply wp_bind, wp_resolve; [done|]. intros l p _ _ Hl. apply wp_bind. eapply wp_sh_read; [exact Hl|].
    apply wp_bind, wp_modify.
    assert (Hl' : holds (mkStore (objs s) (vars s ++ [p])) l p).
    { destruct l as [v|o k]; simpl in *; [by apply lookup_app_l_Some|done]. }
    eapply wp_sh_write; [exact Hl'|].
    eapply balanced_ext; [|exact (balanced_write _ _ _ _ None Hl' (balanced_new_var _ _ p Hc))].
    intros i. unfold count_in, is_ptr. simpl. lia.
  - destruct (lookup_lt_is_Some_2 _ _ Hv) as [x Ex]. eapply wp_mono; [by apply (wp_drop (LVar v) x)|]. by intros [] s' [? _].
  - apply wp_bind, wp_resolve; [done|]. intros l p _ Al Hl. apply wp_bind. eapply wp_sh_read; [exact Hl|].
    destruct (decide (p = None)) as [->|]; [by apply wp_ret|]. apply wp_bind.
    eapply wp_mono; [by apply (wp_drop l p)|]. intros [] s' [Hc' Hs'].
    destruct (after_drop s s' l p l p Hc' Hs' Hl Hl Al Al) as [Hn _]; [by intros v o k -> ?|].
    eapply wp_sh_write; [exact Hn|]. eapply balanced_ext; [|by apply (balanced_write _ _ _ _ None Hn Hc')].
    intros i. unfold count_in, is_ptr. simpl. lia.
  - destruct Hv as (Hd & Hr & Ha). apply wp_bind, wp_resolve; [done|]. intros l p Ll Al Hl.
    apply wp_bind, wp_resolve; [done|]. intros r q Lr Ar Hrq.
    apply wp_bind. eapply wp_sh_read; [exact Hrq|]. apply wp_bind. eapply wp_sh_read; [exact Hl|].
    destruct (decide (p = q)) as [|Hpq]; [by apply wp_ret|]. apply wp_bind.
    eapply wp_mono; [by apply (wp_drop l p)|]. intros [] s' [Hc' Hs'].
    destruct (after_drop s s' l p r q Hc' Hs' Hl Hrq Al Ar) as [Hn Hq].
    { intros v o k. by eapply located_apart. }
    assert (Hrl : r ≠ l). { intros ->. apply Hpq. destruct l as [v|o k]; simpl in *; [congruence|].
      destruct Hl as (x1 & E1 & F1), Hrq as (x2 & E2 & F2). congruence. }
    rewrite decide_False in Hq by done. apply wp_store_add; [done|done|]. intros i ->. split; [by eapply refs_holds|].
    pose proof (sh_refs _ _ Hs' i) as Hle. rewrite (written_refs s l p None i Hl) in Hle.
    pose proof (is_ptr_nonneg i p). specialize (Hrp i). change (is_ptr i None) with 0 in Hle. lia.
  - destruct Hv as (Hd & Hr & Ha). apply wp_bind, wp_resolve; [done|]. intros l p Ll Al Hl.
    apply wp_bind, wp_resolve; [done|]. intros r q Lr Ar Hrq. apply wp_bind.
    eapply wp_mono; [by apply (wp_drop l p)|]. intros [] s' [Hc' Hs'].
    destruct (after_drop s s' l p r q Hc' Hs' Hl Hrq Al Ar) as [Hn Hq].
    { intros v o k. by eapply located_apart. }
    set (q' := if decide (r = l) then None else q) in *.
    apply wp_bind. eapply wp_sh_read; [exact Hq|]. apply wp_bind. eapply wp_sh_write; [exact Hn|].
    assert (Hq' : holds (written s' l q') r q').
    { pose proof (holds_written s' l q' r None Hn q' Hq) as Hw. by destruct (decide (r = l)). }
    eapply wp_sh_write; [exact Hq'|].
    eapply balanced_ext; [|exact (balanced_write _ _ _ _ None Hq' (balanced_write _ _ _ _ q' Hn Hc'))].
    intros i. unfold count_in, is_ptr. simpl. lia.
Qed.

(** ** Property *)

(** What any number of operations on existing places make of an empty
    store. *)
Inductive reachable : store → Prop :=
| reach_empty : reachable (mkStore [] [])
| reach_exec s a s' : reachable s → valid s a → exec a s = Ok () s' → reachable s'.

Lemma reachable_counted s : reachable s → counted [] s.
Proof.
  induction 1 as [|s a s' Hs Hc Hv E]; [by intros i|]. pose proof (exec_counted s a Hc Hv) as H. unfold wp in H. by rewrite E in H.
Qed.

(** C14. Whatever is created, copied, moved, assigned and destroyed by one
    thread, in variables and in the fields of objects, as long as no
    operation assigns to a variable from a field of the object it points to
    ([apart]; that is a use after deletion, [assign_from_own_field]), names
    a place that does not exist, or makes 2^32 pointers, with which the
    counts would wrap around ([valid]): an object is there as long as there
    is a pointer to it, its count is the number of these pointers, and it is
    gone with the last of them; no pointer is left to a deleted object, and
    the next such operation does not touch one and ends. *)
Theorem refcounts_exact s :
  reachable s →
  (∀ i o, objs s !! i = Some (Some o) → ref_count o = refs s i ∧ 0 < ref_count o) ∧
  (∀ l i, holds s l (Some i) → ∃ o, objs s !! i = Some (Some o)) ∧
  (∀ a, valid s a → ∃ s', exec a s = Ok () s').
Proof.
  intros Hc%reachable_counted. split_and!.
  - intros i o Eo. specialize (Hc i). rewrite Eo in Hc. change (count_in i []) with 0 in Hc. lia.
  - intros l i Hl. apply (refs_alive _ _ Hc). by eapply refs_holds.
  - intros a Hv. apply (exec_counted _ _ Hc), wp_Ok in Hv as ([] & s' & E & _). by exists s'.
Qed.

Definition run (ops : list op) : M store () := foldr (λ a m, exec a;; m) (mret ()) ops.

(** [head = head->next] with the only pointer to the first node: dropping it
    deletes the second node as well, before it is counted again. *)
Example assign_from_own_field :
  run [Make []; Make [Var 0]; Destroy 0; Assign (Var 1) (Field 1 0)] (mkStore [] []) = Faulted.
Proof. vm_compute. reflexivity. Qed.

(** ** Witness *)

(** A chain of three objects, of which the middle one has another owner;
    dropping its head deletes one. *)
Definition sample_ops : list op :=
  [Make []; Make [Var 0]; Make [Var 1; Var 0]; Destroy 0; Copy (Field 2 0); Destroy 1; Assign_null (Var 2)].

Definition sample_store : store :=
  mkStore [Some (mkObj 1 []); Some (mkObj 1 [Some 0%nat]); None] [None; None; None; Some 1%nat].

#[local] Instance valid_place_dec s p : Decision (valid_place s p).
Proof.
  destruct p as [v|v k]; simpl; [apply _|].
  destruct (vars s !! v) as [[o|]|]; [|right; naive_solver..].
  destruct (objs s !! o) as [[x|]|] eqn:Eo; [|right; naive_solver..].
  destruct (decide (k < List.length (fields x))%nat); [left; by exists o, x|right; naive_solver].
Defined.

#[local] Instance apart_dec d r : Decision (apart d r).
Proof. destruct d, r; simpl; apply _. Defined.

#[local] Instance valid_dec s a : Decision (valid s a).
Proof. unfold valid. destruct a; simpl; apply _. Defined.

Fixpoint checked_run (ops : list op) (s : store) : option store :=
  match ops with
  | [] => Some s
  | a :: ops =>
      if decide (valid s a) then match exec a s with Ok _ s' => checked_run ops s' | _ => None end else None
  end.

Lemma checked_reachable ops s s' : reachable s → checked_run ops s = Some s' → reachable s'.
Proof.
  revert s. induction ops as [|a ops IH]; simpl; intros s Hs E; [by injection E as <-|].
  destruct (decide (valid s a)); [|done]. destruct (exec a s) as [[] s1| | |] eqn:Ea; [|done..].
  apply (IH s1); [by eapply reach_exec|done].
Qed.

Lemma refcounts_exact_witness :
  checked_run sample_ops (mkStore [] []) = Some sample_store ∧
  (∀ i o, objs sample_store !! i = Some (Some o) → ref_count o = refs sample_store i ∧ 0 < ref_count o) ∧
  (∀ l i, holds sample_store l (Some i) → ∃ o, objs sample_store !! i = Some (Some o)) ∧
  (∀ a, valid sample_store a → ∃ s', exec a sample_store = Ok () s').
Proof.
  split; [vm_compute; reflexivity|]. apply (refcounts_exact sample_store).
  apply (checked_reachable sample_ops (mkStore [] [])); [constructor|vm_compute; reflexivity].
Defined.
