(* ===== verification/Random.v ===== *)
(** * Pseudo-random numbers (kernel/random.h)

    Two multiply-with-carry generators side by side.  Each is multiplication
    by a constant modulo a prime; the exact period of the pair follows. *)

From Stdlib Require Import Znumtheory Zpow_facts.
From S2P Require Import Prelude.

(** ** The generator *)

Record Random := mkRandom { w : Z; z : Z }.

(** [Random(seed)], for a [uint32_t] seed. *)
Definition make (seed : Z) : Random :=
  let w := seed in
  let z := Z.lxor seed 0xffffffff in
  let w := if decide (w = 0 ∨ w = 0x464fffff) then u32 (w + 1) else w in
  let z := if decide (z = 0 ∨ z = 0x9068ffff) then u32 (z + 1) else z in
  mkRandom w z.

Definition multiply_with_carry (a x : Z) : Z := u32 (u32 (a * Z.land x 65535) + Z.shiftr x 16).

Definition next (r : Random) : Random * Z :=
  let z := multiply_with_carry 36969 (z r) in
  let w := multiply_with_carry 18000 (w r) in
  (mkRandom w z, u32 (u32 (Z.shiftl z 16) + w)).

Definition state (seed : Z) (n : nat) : Random := Nat.iter n (λ r, (next r).1) (make seed).

(** ** A generator as multiplication *)

Section carry.
Context (a : Z) (Ha : 1 < a < 65536).
Let M := a * 65536 - 1.

Lemma carry_eq x : 0 <= x < 2 ^ 32 → multiply_with_carry a x = a * (x mod 65536) + x / 65536.
Proof.
  intros Hx. unfold multiply_with_carry. change 65535 with (Z.ones 16). rewrite Z.land_ones, Z.shiftr_div_pow2 by lia.
  change (2 ^ 16) with 65536. pose proof (Z.mod_pos_bound x 65536 ltac:(lia)) as Hl.
  assert (0 <= x / 65536 <= 65535) as Hh by (split; [apply Z.div_pos; lia|apply Z.lt_succ_r, Z.div_lt_upper_bound; lia]).
  unfold u32. rewrite (Z.mod_small (a * _)) by nia. apply Z.mod_small. nia.
Qed.

Lemma carry_u32 x : 0 <= x < 2 ^ 32 → 0 <= multiply_with_carry a x < 2 ^ 32.
Proof. intros. apply Z.mod_pos_bound. lia. Qed.

Lemma carry_mod x : 0 <= x < 2 ^ 32 → multiply_with_carry a x mod M = (a * x) mod M.
Proof.
  intros Hx. rewrite carry_eq by done. pose proof (Z.div_mod x 65536 ltac:(lia)) as E.
  replace (a * x) with (a * (x mod 65536) + x / 65536 + x / 65536 * M) by (unfold M; lia).
  by rewrite Z.mod_add by (unfold M; lia).
Qed.

(** Numbers up to [M] stay there, and the others get there. *)
Lemma carry_range x : 0 <= x <= M → 0 <= multiply_with_carry a x <= M.
Proof.
  intros Hx. unfold M in *. rewrite carry_eq by lia. pose proof (Z.mod_pos_bound x 65536 ltac:(lia)) as Hl.
  assert (0 <= x / 65536 < a) as Hh by (split; [apply Z.div_pos; lia|apply Z.div_lt_upper_bound; lia]). nia.
Qed.

Lemma carry_twice x : 0 <= x < 2 ^ 32 → 0 <= multiply_with_carry a (multiply_with_carry a x) <= M.
Proof.
  intros Hx. destruct (decide (multiply_with_carry a x <= M)) as [Hle|Hgt].
  - apply carry_range. pose proof (carry_u32 x Hx). lia.
  - pose proof (carry_u32 x Hx) as Hr. pose proof (carry_eq x Hx) as E. set (v := multiply_with_carry a x) in *.
    pose proof (Z.mod_pos_bound x 65536 ltac:(lia)) as Hl.
    assert (0 <= x / 65536 <= 65535) as Hh by (split; [apply Z.div_pos; lia|apply Z.lt_succ_r, Z.div_lt_upper_bound; lia]).
    rewrite carry_eq by done. unfold M in *.
    assert (Ev : v = 65536 * a + (v - 65536 * a)) by lia.
    assert (Hv : 0 <= v - 65536 * a < 65536) by nia.
    rewrite <-(Z.div_unique_pos v 65536 a (v - 65536 * a)), <-(Z.mod_unique_pos v 65536 a (v - 65536 * a)) by lia. nia.
Qed.

Definition iterate (n : nat) (x : Z) : Z := Nat.iter n (multiply_with_carry a) x.

Lemma iterate_u32 n x : 0 <= x < 2 ^ 32 → 0 <= iterate n x < 2 ^ 32.
Proof. intros Hx. destruct n; [done|]. simpl. apply Z.mod_pos_bound. lia. Qed.

Lemma iterate_mod n x : 0 <= x < 2 ^ 32 → iterate n x mod M = (a ^ Z.of_nat n * x) mod M.
Proof.
  intros Hx. induction n as [|n IH]; [by rewrite Z.mul_1_l|]. simpl. rewrite carry_mod by (by apply iterate_u32).
  rewrite <-Z.mul_mod_idemp_r, IH, Z.mul_mod_idemp_r by (unfold M; lia). f_equal.
  rewrite Nat2Z.inj_succ, Z.pow_succ_r by lia. lia.
Qed.

Lemma iterate_range n x : 0 <= x < 2 ^ 32 → (2 <= n)%nat → 0 <= iterate n x <= M.
Proof.
  intros Hx Hn. induction Hn as [|n Hn IH]; simpl; [by apply carry_twice|by apply carry_range].
Qed.

(** ** Its period *)

Context (HM : Z.prime M).

Lemma coprime_a : Z.coprime M a.
Proof. apply Z.coprime_prime_small; [done|unfold M; lia]. Qed.

Context (P : Z) (HP : Z.prime P) (Horder : a ^ P mod M = 1).

Lemma pow_mul_one q : 0 <= q → a ^ (P * q) mod M = 1.
Proof.
  intros Hq. destruct HP as [HP1 _]. rewrite Z.pow_mul_r by lia. rewrite Zpower_mod by (unfold M; lia). rewrite Horder, Z.pow_1_l by done.
  apply Z.mod_small. unfold M. lia.
Qed.

Lemma pow_one k : 0 <= k → a ^ k mod M = 1 ↔ (P | k).
Proof.
  intros Hk. pose proof (proj1 HP) as HP1. split.
  - intros H1. destruct (decide (k mod P = 0)) as [E|Hr]; [by apply Z.mod_divide; lia|exfalso].
    pose proof (Z.mod_pos_bound k P ltac:(lia)) as Hrange. set (r := k mod P) in *.
    assert (Hr1 : a ^ r mod M = 1).
    { rewrite (Z.div_mod k P) in H1 by lia. fold r in H1. rewrite Z.pow_add_r in H1 by (try apply Z.mul_nonneg_nonneg; try apply Z.div_pos; lia).
      rewrite Z.mul_mod, pow_mul_one, Z.mul_1_l, Z.mod_mod in H1 by (try apply Z.div_pos; unfold M; lia). done. }
    destruct (Z.gcd_bezout r P 1) as (u & v & Huv).
    { rewrite Z.gcd_comm. apply Z.coprime_prime_small; [done|lia]. }
    set (u' := u mod P). pose proof (Z.mod_pos_bound u P ltac:(lia)) as Hu'. fold u' in Hu'.
    assert (Et : ∃ t, u' * r = 1 + t * P).
    { exists (- (v + u / P * r)). unfold u'. rewrite Z.mod_eq by lia. lia. }
    destruct Et as [t Et]. assert (Ht : 0 <= t) by nia.
    assert (Hone : a ^ (u' * r) mod M = 1).
    { rewrite Z.mul_comm, Z.pow_mul_r by lia. rewrite Zpower_mod by (unfold M; lia). rewrite Hr1, Z.pow_1_l by lia. apply Z.mod_small. unfold M. lia. }
    rewrite Et, Z.pow_add_r, Z.pow_1_r, Z.mul_mod, (Z.mul_comm t P), pow_mul_one, Z.mul_1_r, Z.mod_mod, Z.mod_small in Hone by (unfold M; nia).
    lia.
  - intros [q ->]. rewrite Z.mul_comm. apply pow_mul_one. nia.
Qed.

(** A generator that has not got stuck at the start comes back to where it
    is after [P] steps and not before. *)
Lemma iterate_period n k x :
  0 <= x < 2 ^ 32 → ¬ (M | x) → (2 <= n)%nat → iterate (n + k) x = iterate n x ↔ (P | Z.of_nat k).
Proof.
  intros Hx Hnx Hn. assert (HM0 : M ≠ 0) by (unfold M; lia).
  assert (Hne : ∀ j, ¬ (M | iterate j x)).
  { intros j Hd. apply Z.mod_divide in Hd; [|done]. rewrite iterate_mod in Hd by done. apply Z.mod_divide in Hd; [|done].
    apply Z.gauss in Hd; [done|]. apply Z.coprime_pow_r; [lia|apply coprime_a]. }
  assert (Hsame : iterate (n + k) x = iterate n x ↔ iterate (n + k) x mod M = iterate n x mod M).
  { assert (Hsmall : ∀ j, (2 <= j)%nat → iterate j x mod M = iterate j x).
    { intros j Hj. pose proof (iterate_range j x Hx Hj). apply Z.mod_small. split; [lia|].
      destruct (decide (iterate j x = M)) as [E|]; [|lia]. destruct (Hne j). by rewrite E. }
    rewrite !Hsmall by lia. done. }
  rewrite Hsame, !iterate_mod, Nat2Z.inj_add, Z.pow_add_r by lia. rewrite <-pow_one by lia. split.
  - intros E. assert (Hd : (M | a ^ Z.of_nat n * x * (a ^ Z.of_nat k - 1))).
    { apply Z.mod_divide; [done|]. replace (a ^ Z.of_nat n * x * (a ^ Z.of_nat k - 1)) with (a ^ Z.of_nat n * a ^ Z.of_nat k * x - a ^ Z.of_nat n * x) by lia.
      rewrite Zminus_mod, E, Z.sub_diag. by apply Z.mod_0_l. }
    apply Z.gauss in Hd.
    + destruct Hd as [q Hq]. replace (a ^ Z.of_nat k) with (1 + q * M) by lia. rewrite Z.mod_add by done. apply Z.mod_small. unfold M. lia.
    + apply Z.coprime_mul_r; [apply Z.coprime_pow_r; [lia|apply coprime_a]|]. by apply Z.coprime_prime_l.
  - intros E. replace (a ^ Z.of_nat n * a ^ Z.of_nat k * x) with (a ^ Z.of_nat n * x * a ^ Z.of_nat k) by lia.
    rewrite <-Z.mul_mod_idemp_r, E, Z.mul_1_r by done. done.
Qed.
End carry.

(** ** The primes *)

(** No divisor among the [n] numbers from [d] on. *)
Fixpoint no_divisor (n : nat) (d p : Z) : bool :=
  match n with O => true | S n => negb (p mod d =? 0) && no_divisor n (d + 1) p end.

Lemma no_divisor_spec n d p : 0 < d → no_divisor n d p = true → ∀ e, d <= e < d + Z.of_nat n → ¬ (e | p).
Proof.
  revert d. induction n as [|n IH]; simpl; intros d Hd; [lia|]. rewrite andb_true_iff. intros [H1 H2] e He Hdiv.
  destruct (decide (e = d)) as [->|]; [|by apply (IH (d + 1) ltac:(lia) H2 e); [lia|]].
  apply Z.mod_divide in Hdiv; [|lia]. by rewrite Hdiv in H1.
Qed.

(** None up to the square root is enough. *)
Lemma no_divisor_prime n p :
  1 < p < (2 + Z.of_nat n) * (2 + Z.of_nat n) → no_divisor n 2 p = true → Z.prime p.
Proof.
  intros Hp Hn. pose proof (no_divisor_spec n 2 p ltac:(lia) Hn) as Hno.
  split; [lia|]. intros d Hd [q Hq]. destruct (decide (d < 2 + Z.of_nat n)) as [Hlt|Hge]; [by apply (Hno d); [lia|exists q]|].
  apply (Hno q); [nia|]. exists d. lia.
Qed.

(** The two moduli, and half of each. *)
Definition modulus_w : Z := 18000 * 65536 - 1.
Definition modulus_z : Z := 36969 * 65536 - 1.
Definition period_w : Z := 589823999.
Definition period_z : Z := 1211400191.

Lemma prime_modulus_w : Z.prime modulus_w.
Proof. apply (no_divisor_prime (Z.to_nat 35000)); [rewrite Z2Nat.id by lia; done|]. vm_compute. reflexivity. Qed.
Lemma prime_modulus_z : Z.prime modulus_z.
Proof. apply (no_divisor_prime (Z.to_nat 50000)); [rewrite Z2Nat.id by lia; done|]. vm_compute. reflexivity. Qed.
Lemma prime_period_w : Z.prime period_w.
Proof. apply (no_divisor_prime (Z.to_nat 25000)); [rewrite Z2Nat.id by lia; done|]. vm_compute. reflexivity. Qed.
Lemma prime_period_z : Z.prime period_z.
Proof. apply (no_divisor_prime (Z.to_nat 35000)); [rewrite Z2Nat.id by lia; done|]. vm_compute. reflexivity. Qed.

Lemma order_w : 18000 ^ period_w mod modulus_w = 1.
Proof. rewrite <-Zpow_mod_correct by done. vm_compute. reflexivity. Qed.
Lemma order_z : 36969 ^ period_z mod modulus_z = 1.
Proof. rewrite <-Zpow_mod_correct by done. vm_compute. reflexivity. Qed.

(** ** The pair *)

Lemma state_iterate seed n :
  state seed n = mkRandom (iterate 18000 n (w (make seed))) (iterate 36969 n (z (make seed))).
Proof. unfold state. induction n as [|n IH]; [by destruct (make seed)|]. rewrite Nat.iter_succ, IH. done. Qed.

Lemma complement seed : 0 <= seed < 2 ^ 32 → Z.lxor seed 0xffffffff = 2 ^ 32 - 1 - seed.
Proof.
  intros Hs. assert (H : Z.lxor seed (Z.ones 32) = Z.ldiff (Z.ones 32) seed).
  { apply Z.bits_inj'. intros n Hn. rewrite Z.lxor_spec, Z.ldiff_spec. destruct (decide (n < 32)).
    - rewrite Z.ones_spec_low by lia. by destruct (Z.testbit seed n).
    - rewrite Z.ones_spec_high by lia. rewrite Z.bits_above_log2; [done|lia|].
      destruct (decide (seed = 0)) as [->|]; [simpl; lia|]. apply Z.log2_lt_pow2; [lia|].
      apply Z.lt_le_trans with (2 ^ 32); [lia|]. apply Z.pow_le_mono_r; lia. }
  change 0xffffffff with (Z.ones 32). rewrite H, <-Z.sub_nocarry_ldiff; [rewrite Z.ones_equiv; lia|].
  apply Z.bits_inj'. intros n Hn. rewrite Z.ldiff_spec, Z.bits_0. destruct (decide (n < 32)).
  - rewrite Z.ones_spec_low by lia. by rewrite andb_false_r.
  - rewrite Z.bits_above_log2; [done|lia|]. destruct (decide (seed = 0)) as [->|]; [simpl; lia|]. apply Z.log2_lt_pow2; [lia|].
    apply Z.lt_le_trans with (2 ^ 32); [lia|]. apply Z.pow_le_mono_r; lia.
Qed.

(** The seeds whose lower half is stuck, which the constructor misses. *)
Definition bad_seed (seed : Z) : Prop := seed = 2 * modulus_w ∨ seed = 3 * modulus_w.

Lemma make_good seed :
  0 <= seed < 2 ^ 32 →
  (0 <= w (make seed) < 2 ^ 32 ∧ (¬ bad_seed seed → ¬ (modulus_w | w (make seed)))) ∧
  (0 <= z (make seed) < 2 ^ 32 ∧ ¬ (modulus_z | z (make seed))).
Proof.
  intros Hs. unfold make. rewrite complement by done. unfold bad_seed, modulus_w, modulus_z. simpl. unfold u32. split.
  - destruct (decide (seed = 0 ∨ seed = 0x464fffff)) as [H|H].
    + split; [apply Z.mod_pos_bound; lia|]. intros _ [q Hq]. rewrite Z.mod_small in Hq by lia. lia.
    + split; [done|]. intros Hb [q Hq]. assert (0 <= q <= 3) by lia. lia.
  - destruct (decide (2 ^ 32 - 1 - seed = 0 ∨ 2 ^ 32 - 1 - seed = 0x9068ffff)) as [H|H].
    + split; [apply Z.mod_pos_bound; lia|]. intros [q Hq]. rewrite Z.mod_small in Hq by lia. lia.
    + split; [lia|]. intros [q Hq]. assert (0 <= q <= 1) by lia. lia.
Qed.

(** C40. The generator is a pair of multiplications modulo two primes: from
    its second state on the halves are the powers of 18000 and 36969 times
    the seeds, modulo the primes; and for every seed but two a state comes
    back after each multiple of 589823999 * 1211400191 steps and never in
    between.  The two seeds are let through by the tests of the
    constructor. *)
Theorem random_period seed n :
  0 <= seed < 2 ^ 32 → (2 <= n)%nat →
  w (state seed n) mod modulus_w = (18000 ^ Z.of_nat n * w (make seed)) mod modulus_w ∧
  z (state seed n) mod modulus_z = (36969 ^ Z.of_nat n * z (make seed)) mod modulus_z ∧
  0 <= w (state seed n) <= modulus_w ∧ 0 <= z (state seed n) <= modulus_z ∧
  (¬ bad_seed seed → ∀ k, state seed (n + k) = state seed n ↔ (period_w * period_z | Z.of_nat k)) ∧
  (bad_seed seed → ∀ k, w (state seed (n + k)) = w (state seed n)).
Proof.
  intros Hs Hn. destruct (make_good seed Hs) as [[Hw Hbw] [Hz Hbz]]. rewrite !state_iterate. cbn [w z]. split_and!.
  - by apply iterate_mod.
  - by apply iterate_mod.
  - by apply iterate_range.
  - by apply iterate_range.
  - by apply iterate_range.
  - by apply iterate_range.
  - intros Hb k. rewrite state_iterate. specialize (Hbw Hb).
    pose proof (iterate_period 18000 ltac:(lia) prime_modulus_w period_w prime_period_w order_w n k _ Hw Hbw Hn) as Hpw.
    pose proof (iterate_period 36969 ltac:(lia) prime_modulus_z period_z prime_period_z order_z n k _ Hz Hbz Hn) as Hpz.
    split.
    + intros [= E1%Hpw E2%Hpz]. destruct E1 as [q Hq]. rewrite Hq in E2. rewrite Z.mul_comm in E2. apply Z.gauss in E2.
      * destruct E2 as [r Hr]. exists r. rewrite Hq, Hr. lia.
      * vm_compute. reflexivity.
    + intros [q Hq]. f_equal; [apply Hpw; exists (q * period_z)|apply Hpz; exists (q * period_w)]; lia.
  - intros Hb k. assert (Hfix : ∀ j, (1 <= j)%nat → iterate 18000 j (w (make seed)) = modulus_w).
    { intros j Hj. induction Hj as [|j Hj IH]; [by destruct Hb as [-> | ->]; vm_compute|].
      change (multiply_with_carry 18000 (iterate 18000 j (w (make seed))) = modulus_w). rewrite IH. vm_compute. reflexivity. }
    rewrite state_iterate. cbn [w]. rewrite !Hfix by lia. done.
Qed.

Lemma random_period_witness :
  (next (make 42)).2 = 3194456352 ∧ ∀ k, state 42 (2 + k) = state 42 2 ↔ (period_w * period_z | Z.of_nat k).
Proof.
  split; [vm_compute; reflexivity|]. apply (random_period 42 2); [lia|lia|]. unfold bad_seed. intros [E|E]; discriminate E.
Defined.
