(* ===== verification/UserProgs.v ===== *)
(** * User programs (sbin/grep.c, sbin/wc.c, sbin/cat.c)

    The programs of the shell that look at files.  Strings and buffers are
    lists, and reading past one is undefined; the files are a function from
    names to contents, all of which one [read] delivers; the state is what
    has been written to descriptor 1.  Allocation is taken to succeed. *)

From S2P Require Import Prelude.
From S2P Require Import Libk.

Section programs.
Context (files : list Z → option (list Z)).

Definition write (b : list Z) : M (list Z) () := modify (λ out, out ++ b).

(** [open], [len], [malloc] and [read]: without the file, [len(-1)] is what
    the kernel does not check. *)
Definition read_file (name : list Z) : M (list Z) (list Z) :=
  match files name with Some b => mret b | None => fault end.

(** The index of the first character from [i] on that is a space or the end
    of the string. *)
Definition arg_end_body (input : list Z) (i : Z) : M (list Z) (Z + Z) :=
  c ← char_at input i;
  mret (if decide (c ≠ chr " " ∧ c ≠ 0) then inl (i + 1) else inr i).
Definition arg_end (input : list Z) (i : Z) : M (list Z) Z := iter (S (List.length input)) (arg_end_body input) i.

(** The characters from [i] up to [j]. *)
Definition sub_list (input : list Z) (i j : Z) : list Z := take (Z.to_nat (j - i)) (drop (Z.to_nat i) input).

(** The length of the word at [n]. *)
Definition is_sep (c : Z) : Prop := c = chr " " ∨ c = 10.
#[export] Instance is_sep_dec c : Decision (is_sep c).
Proof. unfold is_sep. apply _. Defined.

Definition word_body (file_contents : list Z) (n : Z) (m : Z) : M (list Z) (Z + Z) :=
  if decide (n + m < Z.of_nat (List.length file_contents)) then
    c ← char_at file_contents (n + m);
    mret (if decide (¬ is_sep c) then inl (m + 1) else inr m)
  else mret (inr m).
Definition word_length (file_contents : list Z) (n : Z) : M (list Z) Z :=
  iter (S (List.length file_contents)) (word_body file_contents n) 0.

(** ** grep *)

Definition match_body (sub str : list Z) (base len i : Z) (j : Z) : M (list Z) (Z + Z) :=
  if decide (j < len) then
    a ← char_at sub j;
    b ← char_at str (base + i + j);
    mret (if decide (a ≠ b) then inr j else inl (j + 1))
  else mret (inr j).

Definition search_body (sub str : list Z) (base len x : Z) (i : Z) : M (list Z) (Z + Z) :=
  if decide (i < len) then
    j ← iter (S (Z.to_nat len)) (match_body sub str base len i) 0;
    mret (if decide (j = x) then inr 1 else inl (i + 1))
  else mret (inr 0).

(** [isSubstring(sub, str + base, len)]. *)
Definition isSubstring (sub str : list Z) (base len : Z) : M (list Z) Z :=
  x ← iter (S (List.length sub)) (λ x, c ← char_at sub x; mret (if decide (c ≠ 0) then inl (x + 1) else inr x)) 0;
  iter (S (Z.to_nat len)) (search_body sub str base len x) 0.

Definition grep_body (first_word file_contents : list Z) (n : Z) : M (list Z) (Z + ()) :=
  if decide (n < Z.of_nat (List.length file_contents)) then
    m ← word_length file_contents n;
    r ← isSubstring first_word file_contents n m;
    (if decide (r ≠ 0) then write (sub_list file_contents n (n + m));; write [10] else mret ());;
    mret (inl (n + (m + 1)))
  else mret (inr ()).

Definition grep (input : list Z) : M (list Z) () :=
  i ← arg_end input 0;
  let first_word := cstring (sub_list input 0 i) in
  let i := i + 1 in
  e ← arg_end input i;
  file_contents ← read_file (sub_list input i e);
  iter (S (List.length file_contents)) (grep_body first_word file_contents) 0.

(** ** wc *)

(** The three counters, at the word that begins at [i]. *)
Record counts := mkCounts { line_count : Z; word_count : Z; char_count : Z }.

Definition wc_body (file_contents : list Z) (st : Z * counts) : M (list Z) ((Z * counts) + counts) :=
  let '(i, k) := st in
  if decide (i < Z.of_nat (List.length file_contents)) then
    j ← word_length file_contents i;
    c ← char_at file_contents (i + j);
    let '(l, w) := if decide (c = 10) then (1, 1) else if decide (c = chr " ") then (0, 1) else (0, 0) in
    mret (inl (i + (j + 1), mkCounts (line_count k + l) (word_count k + w) (char_count k + j)))
  else mret (inr k).

(** The numbers that are printed. *)
Definition wc (file_name : list Z) : M (list Z) counts :=
  file_contents ← read_file file_name;
  iter (S (List.length file_contents)) (wc_body file_contents) (0, mkCounts 0 0 0).

(** ** cat *)

Definition strcmp_body (s1 s2 : list Z) (i : Z) : M (list Z) (Z + Z) :=
  a ← char_at s1 i;
  b ← char_at s2 i;
  if decide (a = b) then mret (if decide (a = 0) then inr 0 else inl (i + 1)) else mret (inr (a - b)).
Definition strcmp (s1 s2 : list Z) : M (list Z) Z := iter (S (List.length s1)) (strcmp_body s1 s2) 0.

Definition cat_body (file_names : list Z) (i : Z) : M (list Z) (Z + ()) :=
  c ← char_at file_names i;
  if decide (c = 0) then mret (inr ()) else
  e ← arg_end file_names i;
  let file_name := cstring (sub_list file_names i e) in
  c1 ← strcmp file_name (cstring (lit "."));
  c2 ← (if decide (c1 = 0) then mret 0 else strcmp file_name (cstring (lit "..")));
  c3 ← (if decide (c1 = 0 ∨ c2 = 0) then mret 0 else strcmp file_name (cstring (lit "lost+found")));
  (if decide (c1 = 0 ∨ c2 = 0 ∨ c3 = 0) then mret ()
   else b ← read_file (sub_list file_names i e); write b);;
  sep ← char_at file_names e;
  mret (inl (if decide (sep = chr " ") then e + 1 else e)).

Definition cat (file_names : list Z) : M (list Z) () :=
  iter (S (List.length file_names)) (cat_body file_names) 0.
End programs.

(** ** Words *)

(** A word without separators, and what ends it. *)
Definition word_ok (w : list Z) : Prop := ∀ c, c ∈ w → ¬ is_sep c ∧ c ≠ 0.

(** A text whose every word is ended. *)
Definition text (ws : list (list Z * Z)) : list Z := concat (map (λ w, w.1 ++ [w.2]) ws).
Definition text_ok (ws : list (list Z * Z)) : Prop := Forall (λ w, word_ok w.1 ∧ is_sep w.2) ws.

(** [pat] is somewhere in the word. *)
Definition occurs (pat w : list Z) : bool :=
  existsb (λ i, bool_decide (pat `prefix_of` drop i w)) (seq 0 (List.length w)).

Lemma occurs_spec pat w : occurs pat w = true ↔ w ≠ [] ∧ ∃ a b, w = a ++ pat ++ b.
Proof.
  unfold occurs. rewrite existsb_exists. split.
  - intros (i & Hi%in_seq & [b Hb]%bool_decide_eq_true). split; [by intros ->; simpl in Hi; lia|].
    exists (take i w), b. by rewrite <-Hb, take_drop.
  - intros (Hw & a & b & ->). destruct (decide (pat = [])) as [->|Hp].
    + exists 0%nat. split; [apply in_seq; destruct (a ++ [] ++ b); [done|simpl; lia]|].
      apply bool_decide_eq_true. apply prefix_nil.
    + exists (List.length a). split; [apply in_seq; rewrite !length_app; destruct pat; [done|simpl; lia]|].
      apply bool_decide_eq_true. rewrite drop_app_length. by exists b.
Qed.

Lemma mid_word {A} (pre w post : list A) c k : (k < List.length w)%nat → (pre ++ w ++ c :: post) !! (List.length pre + k)%nat = w !! k.
Proof. intros Hk. rewrite lookup_app_r by lia. replace (_ + k - _)%nat with k by lia. by rewrite lookup_app_l. Qed.

Lemma mid_end {A} (pre w post : list A) c : (pre ++ w ++ c :: post) !! (List.length pre + List.length w)%nat = Some c.
Proof.
  rewrite lookup_app_r by lia. replace (_ + _ - _)%nat with (List.length w) by lia.
  by rewrite lookup_app_r, Nat.sub_diag by lia.
Qed.

Lemma mid_sub (pre w post : list Z) :
  sub_list (pre ++ w ++ post) (Z.of_nat (List.length pre)) (Z.of_nat (List.length pre + List.length w)) = w.
Proof.
  unfold sub_list. rewrite Nat2Z.id, drop_app_length.
  replace (Z.to_nat _) with (List.length w) by lia. by rewrite take_app_length.
Qed.

Lemma wp_mid pre w c post i (Q : Z → list Z → Prop) out :
  (List.length pre <= i <= List.length pre + List.length w)%nat →
  (∀ x, (x ∈ w ∧ w !! (i - List.length pre)%nat = Some x ∧ (i < List.length pre + List.length w)%nat) ∨
        (x = c ∧ i = List.length pre + List.length w)%nat → Q x out) →
  wp (char_at (pre ++ w ++ c :: post) (Z.of_nat i)) Q out.
Proof.
  intros Hi HQ. destruct (decide (i = List.length pre + List.length w)%nat) as [E|Hne].
  - eapply wp_char_at; [lia|rewrite Nat2Z.id, E; apply mid_end|]. apply HQ. by right.
  - destruct (lookup_lt_is_Some_2 w (i - List.length pre)%nat) as [x Ex]; [lia|].
    eapply wp_char_at; [lia| |apply HQ; left; split_and!; [by eapply list_elem_of_lookup_2|done|lia]].
    rewrite Nat2Z.id. replace i with (List.length pre + (i - List.length pre))%nat by lia. by rewrite mid_word by lia.
Qed.

(** Scanning an argument, and a word. *)
Lemma wp_arg_end pre w c post (Q : Z → list Z → Prop) out :
  (∀ x, x ∈ w → x ≠ chr " " ∧ x ≠ 0) → c = chr " " ∨ c = 0 →
  Q (Z.of_nat (List.length pre + List.length w)) out →
  wp (arg_end (pre ++ w ++ c :: post) (Z.of_nat (List.length pre))) Q out.
Proof.
  intros Hw Hc HQ. unfold arg_end.
  apply (wp_iter (λ i o, o = out ∧ ∃ k, i = Z.of_nat k ∧ (List.length pre <= k <= List.length pre + List.length w)%nat)
                 (λ i _, List.length pre + List.length w - Z.to_nat i)%nat).
  - intros i o (-> & k & -> & Hk). unfold arg_end_body. apply wp_bind, wp_mid; [done|].
    intros x [(Hx & _ & Hlt)|[-> ->]]; apply wp_ret.
    + rewrite decide_True by auto. split; [|lia]. split; [done|]. exists (S k). lia.
    + rewrite decide_False by naive_solver. done.
  - split; [done|]. exists (List.length pre). lia.
  - rewrite !length_app. simpl. lia.
Qed.

Lemma wp_word_length pre w c post (Q : Z → list Z → Prop) out :
  word_ok w → is_sep c → Q (Z.of_nat (List.length w)) out →
  wp (word_length (pre ++ w ++ c :: post) (Z.of_nat (List.length pre))) Q out.
Proof.
  intros Hw Hc HQ. unfold word_length.
  apply (wp_iter (λ m o, o = out ∧ ∃ k, m = Z.of_nat k ∧ (k <= List.length w)%nat) (λ m _, List.length w - Z.to_nat m)%nat).
  - intros m o (-> & k & -> & Hk). unfold word_body. rewrite decide_True by (rewrite !length_app; simpl; lia).
    rewrite <-Nat2Z.inj_add. apply wp_bind, wp_mid; [lia|].
    intros x [(Hx & _ & Hlt)|[-> E]]; apply wp_ret.
    + rewrite decide_True by (by apply Hw). split; [|lia]. split; [done|]. exists (S k). lia.
    + rewrite decide_False by tauto. by replace k with (List.length w) by lia.
  - split; [done|]. exists 0%nat. lia.
  - rewrite !length_app. simpl. lia.
Qed.

(** ** The search for a pattern *)

Section search.
Context (pat pre w post : list Z) (c : Z).
Context (Hpat : word_ok pat) (Hw : word_ok w) (Hc : is_sep c).

Lemma wp_pattern j (Q : Z → list Z → Prop) out :
  (j <= List.length pat)%nat → (∀ x, pat !! j = Some x ∨ (x = 0 ∧ j = List.length pat) → Q x out) →
  wp (char_at (cstring pat) (Z.of_nat j)) Q out.
Proof.
  intros Hj HQ. pose proof (wp_mid [] pat 0 [] j) as Hm. simpl in Hm. apply Hm; [lia|].
  intros x [(_ & Hx & _)|[-> ->]]; apply HQ; [left|by right]. by rewrite Nat.sub_0_r in Hx.
Qed.

Lemma prefix_lookup (l : list Z) : pat `prefix_of` l ↔ ∀ k, (k < List.length pat)%nat → l !! k = pat !! k.
Proof.
  split.
  - intros [r ->] k Hk. by rewrite lookup_app_l.
  - intros Hk. exists (drop (List.length pat) l). rewrite <-(take_drop (List.length pat) l) at 1. f_equal.
    apply list_eq. intros k. destruct (decide (k < List.length pat)%nat).
    + rewrite lookup_take_lt by done. by apply Hk.
    + rewrite lookup_take_ge by lia. by rewrite lookup_ge_None_2 by lia.
Qed.

Lemma wp_match i (Q : Z → list Z → Prop) out :
  (i < List.length w)%nat →
  (∀ j, (j = Z.of_nat (List.length pat) ↔ pat `prefix_of` drop i w) → Q j out) →
  wp (iter (S (Z.to_nat (Z.of_nat (List.length w))))
        (match_body (cstring pat) (pre ++ w ++ c :: post) (Z.of_nat (List.length pre)) (Z.of_nat (List.length w)) (Z.of_nat i)) 0) Q out.
Proof.
  intros Hi HQ.
  apply (wp_iter (λ j o, o = out ∧ ∃ k, j = Z.of_nat k ∧ (i + k <= List.length w ∧ k <= List.length pat ∧ k <= List.length w)%nat ∧
                    ∀ n, (n < k)%nat → w !! (i + n)%nat = pat !! n) (λ j _, List.length w - Z.to_nat j)%nat); [| |lia].
  - intros j o (-> & k & -> & (Hk1 & Hk2 & Hk3) & Heq). unfold match_body.
    destruct (decide (Z.of_nat k < Z.of_nat (List.length w))) as [Hlt|Hge].
    + apply wp_bind, wp_pattern; [done|]. intros a Ha.
      replace (Z.of_nat (List.length pre) + Z.of_nat i + Z.of_nat k) with (Z.of_nat (List.length pre + (i + k))) by lia.
      apply wp_bind, wp_mid; [lia|]. intros b Hb.
      assert (Hpre : k = List.length pat → pat `prefix_of` drop i w).
      { intros ->. apply prefix_lookup. intros n Hn. rewrite lookup_drop. by apply Heq. }
      apply wp_ret. destruct (decide (a ≠ b)) as [Hab|Hab].
      * apply HQ. split; [intros E; apply Hpre; lia|]. intros Hp0. pose proof (proj1 (prefix_lookup _) Hp0) as Hp.
        destruct (decide (k = List.length pat)) as [|Hne]; [lia|exfalso].
        destruct Ha as [Ha|[_ ?]]; [|done]. specialize (Hp k ltac:(lia)). rewrite lookup_drop, Ha in Hp.
        destruct Hb as [(_ & Hb & _)|[_ Hb]].
        -- replace (List.length pre + (i + k) - List.length pre)%nat with (i + k)%nat in Hb by lia. congruence.
        -- apply lookup_lt_Some in Hp. lia.
      * assert (a = b) as -> by (destruct (decide (a = b)); tauto).
        assert (Hb0 : b ≠ 0). { destruct Hb as [(Hb & _)|[-> _]]; [by apply Hw|]. destruct Hc as [-> | ->]; done. }
        destruct Ha as [Ha|[? _]]; [|done]. assert (Hnb : ¬ is_sep b) by (apply Hpat; by eapply list_elem_of_lookup_2).
        destruct Hb as [(_ & Hb & Hlt')|[-> _]]; [|done].
        replace (List.length pre + (i + k) - List.length pre)%nat with (i + k)%nat in Hb by lia.
        pose proof (lookup_lt_Some _ _ _ Ha). split; [|lia]. split; [done|]. exists (S k). split; [lia|]. split; [lia|].
        intros n Hn. destruct (decide (n = k)) as [->|]; [congruence|]. apply Heq. lia.
    + apply wp_ret, HQ. split.
      * intros E. apply prefix_lookup. intros n Hn. rewrite lookup_drop. apply Heq. lia.
      * intros [r Hr]. apply (f_equal List.length) in Hr. rewrite length_drop, length_app in Hr. lia.
  - split; [done|]. exists 0%nat. split; [done|]. split; [lia|]. intros n Hn. lia.
Qed.

Lemma wp_isSubstring (Q : Z → list Z → Prop) out :
  Q (if occurs pat w then 1 else 0) out →
  wp (isSubstring (cstring pat) (pre ++ w ++ c :: post) (Z.of_nat (List.length pre)) (Z.of_nat (List.length w))) Q out.
Proof.
  intros HQ. unfold isSubstring. apply wp_bind.
  apply (wp_mono _ (λ x o, x = Z.of_nat (List.length pat) ∧ o = out)).
  { apply (wp_iter (λ x o, o = out ∧ ∃ k, x = Z.of_nat k ∧ (k <= List.length pat)%nat) (λ x _, List.length pat - Z.to_nat x)%nat).
    - intros x o (-> & k & -> & Hk). apply wp_bind, wp_pattern; [done|]. intros y Hy. apply wp_ret.
      destruct Hy as [Hy|[-> ->]]; [|by rewrite decide_False by tauto].
      rewrite decide_True by (eapply Hpat; by eapply list_elem_of_lookup_2). apply lookup_lt_Some in Hy as Hlt.
      split; [|lia]. split; [done|]. exists (S k). lia.
    - split; [done|]. exists 0%nat. lia.
    - unfold cstring. rewrite length_app. simpl. lia. }
  intros x o [-> ->].
  apply (wp_iter (λ i o, o = out ∧ ∃ k, i = Z.of_nat k ∧ (k <= List.length w)%nat ∧
                    existsb (λ i, bool_decide (pat `prefix_of` drop i w)) (seq 0 k) = false)
                 (λ i _, List.length w - Z.to_nat i)%nat); [| |lia].
  - intros i o (-> & k & -> & Hk & Hno). unfold search_body.
    destruct (decide (Z.of_nat k < Z.of_nat (List.length w))) as [Hlt|Hge].
    + apply wp_bind, wp_match; [lia|]. intros j Hj. apply wp_ret.
      destruct (decide (j = Z.of_nat (List.length pat))) as [E|Hne].
      * assert (Ho : occurs pat w = true); [|by rewrite Ho in HQ].
        unfold occurs. apply existsb_exists. exists k. split; [apply in_seq; lia|]. apply bool_decide_eq_true. by apply Hj.
      * split; [|lia]. split; [done|]. exists (S k). split; [lia|]. split; [lia|].
        rewrite seq_S, existsb_app, Hno. simpl. rewrite bool_decide_eq_false_2; [done|]. intros Hp. by apply Hne, Hj.
    + apply wp_ret. unfold occurs in HQ. replace (List.length w) with k in HQ by lia. by rewrite Hno in HQ.
  - split; [done|]. exists 0%nat. split; [done|]. split; [lia|done].
Qed.
End search.

(** ** Properties *)

Lemma text_app a b : text (a ++ b) = text a ++ text b.
Proof. unfold text. by rewrite map_app, concat_app. Qed.

Lemma text_mid done_ w c rest : text (done_ ++ (w, c) :: rest) = text done_ ++ w ++ c :: text rest.
Proof. rewrite text_app. unfold text at 2. simpl. by rewrite <-app_assoc. Qed.

Lemma text_snoc done_ w c : List.length (text (done_ ++ [(w, c)])) = (List.length (text done_) + List.length w + 1)%nat.
Proof. rewrite text_mid, !length_app. simpl. lia. Qed.

(** A loop over the words of a text. *)
Lemma wp_words {X R} ws (I : list (list Z * Z) → X → list Z → Prop) (pos : X → Z)
    (body : X → M (list Z) (X + R)) (Q : R → list Z → Prop) :
  text_ok ws →
  (∀ done_ w c rest x out, ws = done_ ++ (w, c) :: rest → word_ok w → is_sep c → pos x = Z.of_nat (List.length (text done_)) →
     I done_ x out →
     wp (body x) (λ r out', ∃ x', r = inl x' ∧ pos x' = Z.of_nat (List.length (text (done_ ++ [(w, c)]))) ∧
                            I (done_ ++ [(w, c)]) x' out') out) →
  (∀ x out, pos x = Z.of_nat (List.length (text ws)) → I ws x out →
     wp (body x) (λ r out', ∃ y, r = inr y ∧ Q y out') out) →
  ∀ x out, pos x = 0 → I [] x out → wp (iter (S (List.length (text ws))) body x) Q out.
Proof.
  intros Hok Hbody Hend x out Hx HI.
  apply (wp_iter (λ x out, ∃ done_ rest, ws = done_ ++ rest ∧ pos x = Z.of_nat (List.length (text done_)) ∧ I done_ x out)
                 (λ x _, List.length (text ws) - Z.to_nat (pos x))%nat); [| |lia].
  - intros y o (done_ & rest & E & Hpos & HIy). destruct rest as [|[w c] rest].
    + rewrite app_nil_r in E. subst done_. eapply wp_mono; [by apply Hend|]. by intros r o' (z & -> & HQ).
    + unfold text_ok in Hok. rewrite E in Hok. apply Forall_app in Hok as [_ Hok]. apply Forall_cons in Hok as [[Hw Hc] _].
      eapply wp_mono; [by eapply Hbody|]. intros r o' (x' & -> & Hpos' & HI').
      split; [exists (done_ ++ [(w, c)]), rest; split_and!; [by rewrite <-app_assoc|done|done]|].
      rewrite Hpos, Hpos', E, text_snoc, text_mid, !length_app. simpl. lia.
  - by exists [], ws.
Qed.

(** An argument found by its place in the input. *)
Lemma wp_arg_at input i pre w c post (Q : Z → list Z → Prop) out :
  input = pre ++ w ++ c :: post → i = Z.of_nat (List.length pre) →
  (∀ x, x ∈ w → x ≠ chr " " ∧ x ≠ 0) → c = chr " " ∨ c = 0 →
  (sub_list input i (i + Z.of_nat (List.length w)) = w → Q (i + Z.of_nat (List.length w)) out) →
  wp (arg_end input i) Q out.
Proof.
  intros -> -> Hw Hc HQ. apply wp_arg_end; [done|done|]. rewrite Nat2Z.inj_add. apply HQ. rewrite <-Nat2Z.inj_add. apply mid_sub.
Qed.

(** What grep prints of a text. *)
Definition grep_output (pat : list Z) (ws : list (list Z * Z)) : list Z :=
  concat (map (λ w, if occurs pat w.1 then w.1 ++ [10] else []) ws).

(** An unended last word is compared with what lies behind the buffer, when
    the pattern goes on where the word stops. *)
Example unended_word_read_beyond : grep (λ _, Some (lit "xa")) (cstring (lit "ab f")) [] = Faulted.
Proof. by vm_compute. Qed.

(** C39. For a file that exists, has no zero bytes, and whose every word, the
    last one too, is ended by a space or a newline ([text_ok]), and a
    pattern without separators: grep ends, reads nothing beyond its
    buffers, and prints, in their order, the words in which the pattern
    occurs, each on a line ([occurs_spec]).  Without the last separator it
    may read beyond the buffer ([unended_word_read_beyond]). *)
Theorem grep_prints_matches files pat name ws out :
  word_ok pat → (∀ c, c ∈ name → c ≠ chr " " ∧ c ≠ 0) → files name = Some (text ws) → text_ok ws →
  wp (grep files (cstring (pat ++ [chr " "] ++ name))) (λ _ out', out' = out ++ grep_output pat ws) out.
Proof.
  intros Hpat Hname Hfile Hok.
  assert (Hp' : ∀ x, x ∈ pat → x ≠ chr " " ∧ x ≠ 0).
  { intros x Hx. destruct (Hpat x Hx) as [Hs H0]. split; [|done]. intros ->. apply Hs. by left. }
  unfold grep. set (input := cstring (pat ++ [chr " "] ++ name)).
  assert (E1 : input = [] ++ pat ++ chr " " :: (name ++ [0])) by (unfold input, cstring; by rewrite <-!app_assoc).
  assert (E2 : input = (pat ++ [chr " "]) ++ name ++ 0 :: []) by (unfold input, cstring; by rewrite <-!app_assoc).
  apply wp_bind, (wp_arg_at input 0 [] pat (chr " ") (name ++ [0])); [done|done|done|by left|]. intros Esub. rewrite Esub.
  apply wp_bind, (wp_arg_at input _ (pat ++ [chr " "]) name 0 []); [done|rewrite length_app; simpl; lia|done|by right|].
  intros Esub2. rewrite Esub2.
  apply wp_bind. unfold read_file. rewrite Hfile. apply wp_ret.
  apply (wp_words ws (λ done_ _ o, o = out ++ grep_output pat done_) (λ n, n)); [done| | |done|by rewrite app_nil_r].
  - intros done_ w c rest n o E Hw Hc -> ->. rewrite E, text_mid. unfold grep_body.
    rewrite decide_True by (rewrite !length_app; simpl; lia).
    apply wp_bind, wp_word_length; [done|done|]. apply wp_bind, wp_isSubstring; [done|done|done|].
    rewrite <-Nat2Z.inj_add, mid_sub. apply wp_bind. apply (wp_mono _ (λ _ o, o = out ++ grep_output pat (done_ ++ [(w, c)]))).
    + unfold grep_output. rewrite map_app, concat_app, app_assoc. simpl. rewrite app_nil_r.
      destruct (occurs pat w).
      * rewrite decide_True by done. apply wp_bind, wp_modify, wp_modify. by rewrite <-!app_assoc.
      * rewrite decide_False by tauto. apply wp_ret. by rewrite app_nil_r.
    + intros [] o' ->. apply wp_ret. eexists. split; [done|]. split; [|done].
      rewrite text_snoc. lia.
  - intros n o -> ->. unfold grep_body. rewrite decide_False by lia. apply wp_ret. by exists ().
Qed.

(** For such a file wc ends and counts the newlines, the separators of
    either kind, and the characters that are none; so a word is what ends
    with a separator, even if it is empty. *)
Theorem wc_counts_separators files name ws out :
  files name = Some (text ws) → text_ok ws →
  wp (wc files name)
     (λ k out', out' = out ∧
        k = mkCounts (Z.of_nat (List.length (filter (λ w, w.2 = 10) ws))) (Z.of_nat (List.length ws))
                     (Z.of_nat (List.length (concat (map fst ws))))) out.
Proof.
  intros Hfile Hok. unfold wc, read_file. rewrite Hfile. apply wp_bind, wp_ret.
  apply (wp_words ws (λ done_ st o, o = out ∧ st.2 = mkCounts (Z.of_nat (List.length (filter (λ w, w.2 = 10) done_)))
           (Z.of_nat (List.length done_)) (Z.of_nat (List.length (concat (map fst done_))))) fst); [done| | |done|done].
  - intros done_ w c rest [i k] o E Hw Hc Hi [-> Hk]. simpl in Hi, Hk. subst i k. rewrite E, text_mid. unfold wc_body.
    rewrite decide_True by (rewrite !length_app; simpl; lia).
    apply wp_bind, wp_word_length; [done|done|]. rewrite <-Nat2Z.inj_add. apply wp_bind.
    eapply wp_char_at; [lia|rewrite Nat2Z.id; apply mid_end|].
    assert (Hkinds : (if decide (c = 10) then (1, 1) else if decide (c = chr " ") then (0, 1) else (0, 0)) =
                     (Z.of_nat (List.length (filter (λ w, w.2 = 10) [(w, c)])), 1)).
    { rewrite filter_cons. simpl. destruct (decide (c = 10)) as [|Hn]; [done|]. destruct Hc as [->|]; [done|tauto]. }
    rewrite Hkinds. apply wp_ret. eexists. split; [done|]. cbn [fst snd]. split.
    + rewrite text_snoc. lia.
    + split; [done|]. rewrite filter_app, map_app, concat_app, !length_app. simpl. f_equal; [lia|lia|].
      rewrite app_nil_r. lia.
  - intros [i k] o Hi [-> Hk]. simpl in Hi, Hk. subst i k. unfold wc_body. rewrite decide_False by lia. apply wp_ret. by eexists.
Qed.

(** *** The arguments of cat *)

Fixpoint join (ns : list (list Z)) : list Z :=
  match ns with [] => [] | [n] => n | n :: ns => n ++ chr " " :: join ns end.

Definition skipped (n : list Z) : bool := bool_decide (n = lit "." ∨ n = lit ".." ∨ n = lit "lost+found").

Fixpoint cat_output (files : list Z → option (list Z)) (ns : list (list Z)) : list Z :=
  match ns with
  | [] => []
  | n :: ns => (if skipped n then [] else default [] (files n)) ++ cat_output files ns
  end.

Lemma wp_strcmp s t (Q : Z → list Z → Prop) out :
  0 ∉ s → 0 ∉ t → (∀ r, (r = 0 ↔ s = t) → Q r out) → wp (strcmp (cstring s) (cstring t)) Q out.
Proof.
  intros Hs Ht HQ. unfold strcmp.
  apply (wp_iter (λ i o, o = out ∧ ∃ k, i = Z.of_nat k ∧ (k <= List.length s ∧ k <= List.length t)%nat ∧ take k s = take k t)
                 (λ i _, List.length s - Z.to_nat i)%nat).
  - intros i o (-> & k & -> & [Hk1 Hk2] & Heq). unfold strcmp_body.
    pose proof (points_to_cstring s Hs) as Ps. pose proof (points_to_cstring t Ht) as Pt.
    apply wp_bind. eapply wp_char_at; [lia|apply (points_to_at _ s); [done|lia]|].
    apply wp_bind. eapply wp_char_at; [lia|apply (points_to_at _ t); [done|lia]|]. rewrite Nat2Z.id.
    assert (Hin : ∀ l, 0 ∉ l → (k <= List.length l)%nat → (k = List.length l ∧ default 0 (l !! k) = 0) ∨
                  ∃ c, l !! k = Some c ∧ c ≠ 0 ∧ default 0 (l !! k) = c).
    { intros l Hl Hk. destruct (decide (k = List.length l)) as [->|].
      - left. by rewrite lookup_ge_None_2 by lia.
      - right. destruct (lookup_lt_is_Some_2 l k) as [c Ec]; [lia|]. exists c. rewrite Ec. split_and!; [done| |done].
        intros ->. apply Hl. by eapply list_elem_of_lookup_2. }
    destruct (Hin s Hs Hk1) as [[Es ->]|(c & Es & Hc & ->)], (Hin t Ht Hk2) as [[Et ->]|(d & Et & Hd & ->)].
    + rewrite decide_True, decide_True by done. apply wp_ret, HQ. split; [intros _|done].
      rewrite take_ge, take_ge in Heq by lia. done.
    + rewrite decide_False by congruence. apply wp_ret, HQ. split; [lia|]. intros ->. apply lookup_lt_Some in Et. lia.
    + rewrite decide_False by congruence. apply wp_ret, HQ. split; [lia|]. intros ->. apply lookup_lt_Some in Es. lia.
    + apply lookup_lt_Some in Es as Ls. apply lookup_lt_Some in Et as Lt. destruct (decide (c = d)) as [->|Hne].
      * rewrite decide_False by done. apply wp_ret. split; [|lia]. split; [done|]. exists (S k). split; [lia|]. split; [lia|].
        by rewrite (take_S_r s k d), (take_S_r t k d), Heq.
      * apply wp_ret, HQ. split; [lia|]. intros ->. congruence.
  - split; [done|]. exists 0%nat. split; [done|]. split; [lia|]. by rewrite !take_0.
  - unfold cstring. rewrite length_app. simpl. lia.
Qed.

Definition name_ok (files : list Z → option (list Z)) (n : list Z) : Prop :=
  n ≠ [] ∧ (∀ c, c ∈ n → c ≠ chr " " ∧ c ≠ 0) ∧ (skipped n = false → is_Some (files n)).

Lemma lit_no_zero : (0 ∉ lit ".") ∧ (0 ∉ lit "..") ∧ (0 ∉ lit "lost+found").
Proof. split_and!; vm_compute; set_solver. Qed.

(** One name of the list: [c] follows it. *)
Lemma wp_cat_name files input pre n c post (Q : Z + () → list Z → Prop) out :
  input = pre ++ n ++ c :: post → name_ok files n → c = chr " " ∨ c = 0 →
  Q (inl (Z.of_nat (List.length pre + List.length n) + (if decide (c = chr " ") then 1 else 0)))
    (out ++ if skipped n then [] else default [] (files n)) →
  wp (cat_body files input (Z.of_nat (List.length pre))) Q out.
Proof.
  intros E (Hne & Hn & Hfile) Hc HQ. unfold cat_body.
  destruct n as [|x n]; [done|]. apply wp_bind.
  eapply wp_char_at; [lia|rewrite Nat2Z.id, E, lookup_app_r, Nat.sub_diag by lia; reflexivity|].
  rewrite decide_False by (apply Hn; by left). set (w := x :: n) in *.
  apply wp_bind, (wp_arg_at input _ pre w c post); [done|done|done|done|]. intros Esub. rewrite Esub.
  assert (H0 : 0 ∉ w) by (intros Hin; by destruct (Hn 0 Hin)). destruct lit_no_zero as (L1 & L2 & L3).
  apply wp_bind, wp_strcmp; [done|done|]. intros c1 H1.
  apply wp_bind. apply (wp_mono _ (λ c2 o, o = out ∧ (c1 ≠ 0 → (c2 = 0 ↔ w = lit "..")))).
  { destruct (decide (c1 = 0)); [by apply wp_ret|]. apply wp_strcmp; [done|done|]. by intros r Hr. }
  intros c2 o [-> H2]. apply wp_bind. apply (wp_mono _ (λ c3 o, o = out ∧ (¬ (c1 = 0 ∨ c2 = 0) → (c3 = 0 ↔ w = lit "lost+found")))).
  { destruct (decide (c1 = 0 ∨ c2 = 0)); [by apply wp_ret|]. apply wp_strcmp; [done|done|]. by intros r Hr. }
  intros c3 o [-> H3].
  assert (Hskip : (c1 = 0 ∨ c2 = 0 ∨ c3 = 0) ↔ skipped w = true).
  { unfold skipped. rewrite bool_decide_eq_true. rewrite <-H1.
    destruct (decide (c1 = 0)); [tauto|]. specialize (H2 ltac:(done)).
    destruct (decide (c2 = 0)); [tauto|]. specialize (H3 ltac:(tauto)). tauto. }
  apply wp_bind. apply (wp_mono _ (λ _ o, o = out ++ (if skipped w then [] else default [] (files w)))).
  { destruct (decide (c1 = 0 ∨ c2 = 0 ∨ c3 = 0)) as [Hs|Hs].
    - rewrite (proj1 Hskip Hs). apply wp_ret. by rewrite app_nil_r.
    - destruct (skipped w) eqn:Es; [tauto|]. destruct (Hfile eq_refl) as [b Eb]. unfold read_file. rewrite Eb.
      by apply wp_bind, wp_ret, wp_modify. }
  intros [] o ->. apply wp_bind. eapply wp_char_at; [lia| |].
  { replace (Z.to_nat (Z.of_nat (List.length pre) + Z.of_nat (List.length w))) with (List.length pre + List.length w)%nat by lia.
    rewrite E. apply mid_end. }
  apply wp_ret. rewrite <-Nat2Z.inj_add. destruct (decide (c = chr " ")); [done|]. by rewrite Z.add_0_r in HQ.
Qed.

(** For names separated by spaces cat writes the contents of the files,
    one after the other, leaving out ".", ".." and "lost+found", and
    ends. *)
Theorem cat_prints_files files ns out :
  Forall (name_ok files) ns →
  wp (cat files (cstring (join ns))) (λ _ out', out' = out ++ cat_output files ns) out.
Proof.
  intros Hok. unfold cat. set (input := cstring (join ns)).
  apply (wp_iter (λ i o, ∃ pre rest, input = pre ++ join rest ++ [0] ∧ i = Z.of_nat (List.length pre) ∧ Forall (name_ok files) rest ∧
                    o ++ cat_output files rest = out ++ cat_output files ns)
                 (λ i _, List.length input - Z.to_nat i)%nat); [| |lia].
  - intros i o (pre & rest & E & -> & Hrest & Ho). destruct rest as [|n rest].
    + unfold cat_body. apply wp_bind.
      eapply wp_char_at; [lia|rewrite Nat2Z.id, E, lookup_app_r, Nat.sub_diag by lia; reflexivity|].
      rewrite decide_True by done. apply wp_ret. simpl in Ho. by rewrite app_nil_r in Ho.
    + apply Forall_cons in Hrest as [Hn Hrest]. assert (Hlen : (0 < List.length n)%nat) by (destruct Hn as [? _]; destruct n; [done|simpl; lia]).
      cbn [cat_output] in Ho. rewrite app_assoc in Ho. destruct rest as [|n' rest].
      * eapply (wp_cat_name files input pre n 0 []); [exact E|done|by right|].
        split; [|rewrite E, !length_app; simpl; lia]. exists (pre ++ n), []. rewrite decide_False by done.
        split_and!; [by rewrite E, <-app_assoc|rewrite length_app; lia|done|done].
      * eapply (wp_cat_name files input pre n (chr " ") (join (n' :: rest) ++ [0])); [by rewrite E; cbn [join]; rewrite <-app_assoc|done|by left|].
        assert (E' : input = (pre ++ n ++ [chr " "]) ++ join (n' :: rest) ++ [0]) by (rewrite E; cbn [join]; by rewrite <-!app_assoc).
        rewrite decide_True by done.
        split; [|rewrite E', !length_app; simpl; lia]. exists (pre ++ n ++ [chr " "]), (n' :: rest).
        split_and!; [done|rewrite !length_app; simpl; lia|done|done].
  - by exists [], ns.
Qed.

(** ** Witnesses *)

Definition sample_text : list (list Z * Z) := [(lit "this", 32); (lit "is", 32); (lit "text", 10)].
Definition sample_files (n : list Z) : option (list Z) := if decide (n = lit "f") then Some (text sample_text) else None.

Lemma word_ok_check w : bool_decide (Forall (λ c, ¬ is_sep c ∧ c ≠ 0) w) = true → word_ok w.
Proof. intros H%bool_decide_eq_true c. revert c. by apply Forall_forall. Qed.

Lemma name_check n : bool_decide (Forall (λ c, c ≠ chr " " ∧ c ≠ 0) n) = true → ∀ c, c ∈ n → c ≠ chr " " ∧ c ≠ 0.
Proof. intros H%bool_decide_eq_true. by apply Forall_forall. Qed.

Lemma sample_text_ok : text_ok sample_text.
Proof.
  repeat (apply Forall_cons; split; [split; [apply word_ok_check; vm_compute; reflexivity|simpl; by (left + right)]|]).
  by apply Forall_nil.
Qed.

Lemma grep_prints_matches_witness :
  grep_output (lit "is") sample_text = lit "this" ++ [10] ++ lit "is" ++ [10] ∧
  wp (grep sample_files (cstring (lit "is" ++ [chr " "] ++ lit "f"))) (λ _ out', out' = [] ++ grep_output (lit "is") sample_text) [].
Proof.
  split; [vm_compute; reflexivity|].
  apply (grep_prints_matches sample_files (lit "is") (lit "f") sample_text []).
  - apply word_ok_check. vm_compute. reflexivity.
  - apply name_check. vm_compute. reflexivity.
  - vm_compute. reflexivity.
  - apply sample_text_ok.
Defined.

Lemma wc_counts_separators_witness :
  wp (wc sample_files (lit "f")) (λ k out', out' = [] ∧ k = mkCounts 1 3 10) [].
Proof.
  apply (wc_counts_separators sample_files (lit "f") sample_text []); [vm_compute; reflexivity|apply sample_text_ok].
Defined.

Lemma cat_prints_files_witness :
  cat_output sample_files [lit "."; lit "f"] = text sample_text ∧
  wp (cat sample_files (cstring (join [lit "."; lit "f"]))) (λ _ out', out' = [] ++ cat_output sample_files [lit "."; lit "f"]) [].
Proof.
  split; [vm_compute; reflexivity|]. apply (cat_prints_files sample_files [lit "."; lit "f"] []).
  repeat (apply Forall_cons; split; [split; [done|split; [apply name_check; vm_compute; reflexivity|intros Hs; first [discriminate Hs|vm_compute; eexists; reflexivity]]]|]).
  by apply Forall_nil.
Defined.
