(* ===== verification/Config.v ===== *)
(** * The machine's tables (kernel/config.cc, kernel/config.h)

    At start-up the kernel looks for the tables that the firmware leaves in
    memory: the root pointer by its signature, the table of interrupt
    controllers through the root table, and in it the processors and the
    I/O controller.  Memory is a function to bytes that nobody changes
    meanwhile; the state is the [Config] that is filled.  Address zero
    stands for a table that has not been found, and following it is
    undefined. *)

From S2P Require Import Prelude.
From S2P Require Import Libk.
From S2P Require Import BlockIO.

(** What the boot sector has asked the firmware (e801h). *)
Record MemInfo := mkMemInfo { ax : Z; bx : Z; cx : Z; dx : Z }.

Record ApicInfo := mkApicInfo { processorId : Z; apicId : Z; info_flags : Z }.

Record Config := mkConfig {
  memSize : Z;
  nOtherProcs : Z;
  totalProcs : Z;
  localAPIC : Z;
  madtFlags : Z;
  ioAPIC : Z;
  apicInfo : list ApicInfo;
  oemid : list Z
}.

Section config.
Context (mem : Z → Z).

(** The field of [n] bytes at [a]. *)
Definition load (a : Z) (n : nat) : Z := le (slice mem a n).

Definition SDT_size : Z := 36.
Definition SDT_Length (p : Z) : Z := load (p + 4) 4.

Definition MADT_size : Z := 44.
Definition MADT_localAddress (p : Z) : Z := load (p + 36) 4.
Definition MADT_flags (p : Z) : Z := load (p + 40) 4.

Definition ENTRY_type (p : Z) : Z := load p 1.
Definition ENTRY_len (p : Z) : Z := load (p + 1) 1.

Definition APIC_processorId (p : Z) : Z := load (p + 2) 1.
Definition APIC_info (p : Z) : ApicInfo := mkApicInfo (APIC_processorId p) (load (p + 3) 1) (load (p + 4) 4).

Definition IOAPIC_address (p : Z) : Z := load (p + 4) 4.

Definition RSD_OEMID (p : Z) : list Z := slice mem (p + 9) 6.
Definition RSD_rootSDT (p : Z) : Z := load (p + 16) 4.

(** ** Looking for the tables *)

Definition iseq_body (a : Z) (b : list Z) (len i : Z) : M Config (Z + Z) :=
  if decide (i < len) then
    c ← char_at b i;
    mret (if decide (mem (a + i) ≠ c) then inr 0 else inl (i + 1))
  else mret (inr 1).
Definition iseq (a : Z) (b : list Z) (len : Z) : M Config Z :=
  iter (S (Z.to_nat len)) (iseq_body a b len) 0.

Definition findRSDInRange_body (end_ i : Z) : M Config (Z + Z) :=
  if decide (i < end_) then
    r ← iseq i (cstring (lit "RSD PTR ")) 8;
    mret (if decide (r ≠ 0) then inr i else inl (u32 (i + 16)))
  else mret (inr 0).
Definition findRSDInRange (start end_ : Z) : M Config Z :=
  iter (S (Z.to_nat ((end_ - start + 15) / 16))) (findRSDInRange_body end_) start.

(** The segment of the extended BIOS data area. *)
Definition ebda : Z := u32 (Z.shiftl (load 0x40E 2) 4).

Definition findRSD : M Config Z :=
  it ← findRSDInRange 0x000E0000 0x00100000;
  if decide (it = 0) then findRSDInRange ebda (u32 (ebda + Z.shiftl 1 10)) else mret it.

(** A dereference of a pointer that is null when nothing was found. *)
Definition deref (p : Z) : M Config () := require (p ≠ 0).

Definition findSDT_body (others entries : Z) (name : list Z) (i : Z) : M Config (Z + Z) :=
  if decide (i < entries) then
    let h := load (others + i * 4) 4 in
    r ← iseq h name 4;
    mret (if decide (r ≠ 0) then inr h else inl (i + 1))
  else mret (inr 0).
Definition findSDT (rsdp : Z) (name : list Z) : M Config Z :=
  deref rsdp;;
  let rsdt := RSD_rootSDT rsdp in
  let others := rsdt + SDT_size in
  let entries := i32 (u32 (SDT_Length rsdt - SDT_size) / 4) in
  iter (S (Z.to_nat entries)) (findSDT_body others entries name) 0.

Definition memAbove1M (memInfo : MemInfo) : M Config Z :=
  assert (cx memInfo = 15 * 1024 ∨ dx memInfo = 0);;
  mret (u32 (u32 (Z.shiftl (Z.lor (ax memInfo) (cx memInfo)) 10) +
             u32 (Z.shiftl (Z.lor (bx memInfo) (dx memInfo)) 16))).

(** ** Filling the configuration *)

Definition set_memSize (v : Z) (c : Config) : Config :=
  mkConfig v (nOtherProcs c) (totalProcs c) (localAPIC c) (madtFlags c) (ioAPIC c) (apicInfo c) (oemid c).
Definition set_oemid (v : list Z) (c : Config) : Config :=
  mkConfig (memSize c) (nOtherProcs c) (totalProcs c) (localAPIC c) (madtFlags c) (ioAPIC c) (apicInfo c) v.
Definition set_madt (local flags : Z) (c : Config) : Config :=
  mkConfig (memSize c) 0 (totalProcs c) local flags (ioAPIC c) (apicInfo c) (oemid c).
Definition set_totalProcs (v : Z) (c : Config) : Config :=
  mkConfig (memSize c) (nOtherProcs c) v (localAPIC c) (madtFlags c) (ioAPIC c) (apicInfo c) (oemid c).
Definition set_ioAPIC (v : Z) (c : Config) : Config :=
  mkConfig (memSize c) (nOtherProcs c) (totalProcs c) (localAPIC c) (madtFlags c) v (apicInfo c) (oemid c).
Definition add_info (info : ApicInfo) (c : Config) : Config :=
  mkConfig (memSize c) (u32 (nOtherProcs c + 1)) (totalProcs c) (localAPIC c) (madtFlags c) (ioAPIC c)
    (<[Z.to_nat (nOtherProcs c) := info]> (apicInfo c)) (oemid c).

(** What is done with the entry at [p]. *)
Definition visit (p : Z) : M Config () :=
  if decide (ENTRY_type p = 0) then
    if decide (APIC_processorId p = 0) then mret () else
    c ← get;
    require (nOtherProcs c < Z.of_nat (List.length (apicInfo c)));;
    modify (add_info (APIC_info p))
  else if decide (ENTRY_type p = 1) then modify (set_ioAPIC (IOAPIC_address p))
  else mret ().

(** One round of the loop: the pointer moves on before the entry is looked
    at. *)
Definition entry_body (st : Z * Z) : M Config ((Z * Z) + ()) :=
  let '(entryPtr, bytesForEntries) := st in
  if decide (0 < bytesForEntries) then
    let len := ENTRY_len entryPtr in
    let entryPtr := u32 (entryPtr + len) in
    let bytesForEntries := i32 (bytesForEntries - len) in
    visit entryPtr;;
    mret (inl (entryPtr, bytesForEntries))
  else mret (inr ()).

Definition configInit (memInfo : MemInfo) : M Config () :=
  above ← memAbove1M memInfo;
  modify (set_memSize (u32 (above + Z.shiftl 1 20)));;
  rsdp ← findRSD;
  (if decide (rsdp ≠ 0) then modify (set_oemid (RSD_OEMID rsdp ++ [0])) else mret ());;
  madt ← findSDT rsdp (cstring (lit "APIC"));
  deref madt;;
  let bytesForEntries := i32 (u32 (SDT_Length madt - MADT_size)) in
  modify (set_madt (MADT_localAddress madt) (MADT_flags madt));;
  iter (S (Z.to_nat bytesForEntries)) entry_body (madt + MADT_size, bytesForEntries);;
  c ← get;
  modify (set_totalProcs (u32 (nOtherProcs c + 1))).

(** ** What the tables say *)

Definition is_rsd (p : Z) : Prop := slice mem p 8 = lit "RSD PTR ".
Definition is_apic (p : Z) : Prop := slice mem p 4 = lit "APIC".
#[export] Instance is_rsd_dec p : Decision (is_rsd p).
Proof. unfold is_rsd. apply _. Defined.
#[export] Instance is_apic_dec p : Decision (is_apic p).
Proof. unfold is_apic. apply _. Defined.

(** The addresses from [start] on, 16 apart. *)
Definition places (start : Z) (n : nat) : list Z := map (λ k, start + 16 * Z.of_nat k) (seq 0 n).

(** The first of the addresses that carries the signature. *)
Definition first (P : Z → Prop) `{∀ p, Decision (P p)} (l : list Z) : Z := default 0 (head (filter P l)).

Definition rsd : Z := first is_rsd (places 0xE0000 (Z.to_nat 8192) ++ places ebda 64).

(** The tables that the root table points to. *)
Definition tables (rsdt : Z) : list Z :=
  map (λ k, load (rsdt + SDT_size + Z.of_nat k * 4) 4) (seq 0 (Z.to_nat ((SDT_Length rsdt - SDT_size) / 4))).
Definition madt : Z := first is_apic (tables (RSD_rootSDT rsd)).

(** The addresses of the entries from [a] to [stop]. *)
Inductive entries (stop : Z) : Z → list Z → Prop :=
| entries_nil : entries stop stop []
| entries_cons a l : a + ENTRY_len a ≤ stop → 0 < ENTRY_len a → entries stop (a + ENTRY_len a) l → entries stop a (a :: l).

Definition is_processor (p : Z) : Prop := ENTRY_type p = 0 ∧ APIC_processorId p ≠ 0.
Definition is_ioapic (p : Z) : Prop := ENTRY_type p = 1.
#[export] Instance is_processor_dec p : Decision (is_processor p).
Proof. unfold is_processor. apply _. Defined.
#[export] Instance is_ioapic_dec p : Decision (is_ioapic p).
Proof. unfold is_ioapic. apply _. Defined.

Definition processors (l : list Z) : list ApicInfo := map APIC_info (filter is_processor l).
Definition controllers (l : list Z) : list Z := map IOAPIC_address (filter is_ioapic l).
End config.

(** ** The loops *)

Section loops.
Context (mem : Z → Z).

Lemma wp_iseq a s (Q : Z → Config → Prop) c :
  Q (if decide (slice mem a (List.length s) = s) then 1 else 0) c →
  wp (iseq mem a (cstring s) (Z.of_nat (List.length s))) Q c.
Proof.
  intros HQ. unfold iseq.
  apply (wp_iter (λ i c', c' = c ∧ ∃ k, i = Z.of_nat k ∧ (k <= List.length s)%nat ∧ take k (slice mem a (List.length s)) = take k s)
                 (λ i _, List.length s - Z.to_nat i)%nat); [| |lia].
  - intros i c' (-> & k & -> & Hk & Heq). unfold iseq_body.
    destruct (decide (Z.of_nat k < Z.of_nat (List.length s))) as [Hlt|Hge].
    + destruct (lookup_lt_is_Some_2 s k) as [x Ex]; [lia|].
      assert (Em : slice mem a (List.length s) !! k = Some (mem (a + Z.of_nat k))) by (apply slice_lookup; lia).
      apply wp_bind. apply wp_char_at with x; [lia|rewrite Nat2Z.id; unfold cstring; by rewrite lookup_app_l by lia|].
      apply wp_ret. destruct (decide (mem (a + Z.of_nat k) ≠ x)) as [Hne|He].
      * rewrite decide_False in HQ; [done|]. intros E. rewrite E in Em. congruence.
      * assert (mem (a + Z.of_nat k) = x) as Hx by (destruct (decide (mem (a + Z.of_nat k) = x)); tauto).
        split; [|lia]. split; [done|]. exists (S k). split_and!; [lia|lia|].
        rewrite (take_S_r _ _ _ Em), (take_S_r _ _ _ Ex). by rewrite Heq, Hx.
    + apply wp_ret. assert (k = List.length s) as -> by lia. rewrite decide_True in HQ; [done|].
      rewrite !take_ge in Heq by (rewrite ?length_slice; lia). done.
  - split; [done|]. exists 0%nat. split_and!; [done|lia|done].
Qed.

(** A loop over [n] places that returns the first with the property. *)
Lemma wp_first {X} (P : Z → Prop) `{∀ p, Decision (P p)} (place : nat → Z) (at_ : nat → X)
    (body : X → M Config (X + Z)) n (Q : Z → Config → Prop) c :
  (∀ k, (k < n)%nat → wp (body (at_ k)) (λ r c', c' = c ∧ r = if decide (P (place k)) then inr (place k) else inl (at_ (S k))) c) →
  wp (body (at_ n)) (λ r c', c' = c ∧ r = inr 0) c →
  Q (first P (map place (seq 0 n))) c → wp (iter (S n) body (at_ 0%nat)) Q c.
Proof.
  intros Hbody Hend. assert (Hall : ∀ m k, (k + m = n)%nat → Q (first P (map place (seq k m))) c → wp (iter (S m) body (at_ k)) Q c).
  { induction m as [|m IH]; intros k Hk HQ.
    - rewrite Nat.add_0_r in Hk. subst k. simpl. apply wp_bind. eapply wp_mono; [apply Hend|]. by intros r c' [-> ->].
    - change (iter (S (S m)) body (at_ k)) with (r ← body (at_ k); match r with inl x' => iter (S m) body x' | inr res => mret res end).
      apply wp_bind. eapply wp_mono; [apply Hbody; lia|]. intros r c' [-> ->]. unfold first in HQ. simpl in HQ.
      rewrite filter_cons in HQ. destruct (decide (P (place k))); [done|]. apply IH; [lia|done]. }
  apply Hall. lia.
Qed.

Lemma wp_findRSDInRange start n (Q : Z → Config → Prop) c :
  0 ≤ start → start + 16 * Z.of_nat n < 2 ^ 32 →
  Q (first (is_rsd mem) (places start n)) c →
  wp (findRSDInRange mem start (start + 16 * Z.of_nat n)) Q c.
Proof.
  intros Hs Hn HQ. unfold findRSDInRange. replace (Z.to_nat _) with n.
  2: { replace (start + 16 * Z.of_nat n - start + 15) with (15 + Z.of_nat n * 16) by lia. rewrite Z.div_add by lia. change (15 / 16) with 0. lia. }
  replace start with (start + 16 * Z.of_nat 0) at 2 by lia.
  apply (wp_first (is_rsd mem) (λ k, start + 16 * Z.of_nat k) (λ k, start + 16 * Z.of_nat k)); [| |done].
  - intros k Hk. unfold findRSDInRange_body. rewrite decide_True by lia.
    apply wp_bind. apply (wp_iseq (start + 16 * Z.of_nat k) (lit "RSD PTR ")), wp_ret.
    split; [done|]. change (List.length (lit "RSD PTR ")) with 8%nat. unfold is_rsd. destruct (decide (slice _ _ _ = _)); cbn -[u32]; [done|].
    f_equal. rewrite u32_small; lia.
  - unfold findRSDInRange_body. rewrite decide_False by lia. by apply wp_ret.
Qed.

Lemma first_app (P : Z → Prop) `{∀ p, Decision (P p)} l k :
  (∀ p, p ∈ l → p ≠ 0) → first P (l ++ k) = if decide (first P l = 0) then first P k else first P l.
Proof.
  intros Hl. unfold first. rewrite filter_app. destruct (filter P l) as [|p q] eqn:E; simpl; [done|].
  rewrite decide_False; [done|]. apply Hl. assert (p ∈ filter P l) as Hp by (rewrite E; left).
  by apply list_elem_of_filter in Hp as [_ ?].
Qed.

Lemma load_range a n : (∀ i, 0 ≤ mem i < 256) → 0 ≤ load mem a n < 256 ^ Z.of_nat n.
Proof. intros Hb. unfold load. pose proof (le_range (slice mem a n) (slice_bytes mem a n Hb)) as Hr. by rewrite length_slice in Hr. Qed.

Lemma ebda_range : (∀ i, 0 ≤ mem i < 256) → 0 ≤ ebda mem < 2 ^ 20.
Proof.
  intros Hb. pose proof (load_range 0x40E 2 Hb) as Hr. unfold ebda. rewrite Z.shiftl_mul_pow2 by lia.
  change (256 ^ Z.of_nat 2) with 65536 in Hr. rewrite u32_small; lia.
Qed.

Lemma wp_ebda (Q : Z → Config → Prop) c :
  (∀ i, 0 ≤ mem i < 256) → Q (first (is_rsd mem) (places (ebda mem) 64)) c →
  wp (findRSDInRange mem (ebda mem) (u32 (ebda mem + Z.shiftl 1 10))) Q c.
Proof.
  intros Hb HQ. pose proof (ebda_range Hb). replace (u32 _) with (ebda mem + 16 * Z.of_nat 64) by (symmetry; apply u32_small; simpl; lia).
  apply wp_findRSDInRange; [lia|lia|done].
Qed.

Lemma rsd_eq : rsd mem = first (is_rsd mem) (places 0xE0000 (Z.to_nat 8192) ++ places (ebda mem) 64).
Proof. unfold rsd. reflexivity. Qed.

Lemma wp_findRSD (Q : Z → Config → Prop) c : (∀ i, 0 ≤ mem i < 256) → Q (rsd mem) c → wp (findRSD mem) Q c.
Proof.
  intros Hb HQ. rewrite rsd_eq in HQ. unfold findRSD. apply wp_bind.
  assert (Hn : Z.of_nat (Z.to_nat 8192) = 8192) by (by apply Z2Nat.id).
  revert HQ Hn. generalize (Z.to_nat 8192). intros n HQ Hn.
  replace 0x00100000 with (0xE0000 + 16 * Z.of_nat n) by (rewrite Hn; done). apply wp_findRSDInRange; [lia|lia|].
  rewrite first_app in HQ. 2: { intros p (k & <- & _)%list_elem_of_In%in_map_iff. lia. }
  destruct (decide _); [|by apply wp_ret]. by apply wp_ebda.
Qed.

Lemma wp_findSDT rsdp (Q : Z → Config → Prop) c :
  (∀ i, 0 ≤ mem i < 256) → rsdp ≠ 0 → 36 ≤ SDT_Length mem (RSD_rootSDT mem rsdp) →
  Q (first (is_apic mem) (tables mem (RSD_rootSDT mem rsdp))) c →
  wp (findSDT mem rsdp (cstring (lit "APIC"))) Q c.
Proof.
  intros Hb Hr Hlen HQ. unfold findSDT, deref. apply wp_bind, wp_require; [done|].
  set (rsdt := RSD_rootSDT mem rsdp) in *. pose proof (load_range (rsdt + 4) 4 Hb) as Hmax.
  fold (SDT_Length mem rsdt) in Hmax. change (256 ^ Z.of_nat 4) with (2 ^ 32) in Hmax. unfold tables in HQ. unfold SDT_size in *.
  rewrite u32_small by lia. set (d := (SDT_Length mem rsdt - 36) / 4) in *.
  assert (Hd : 0 ≤ d < 2 ^ 30) by (split; [apply Z.div_pos; lia|apply Z.div_lt_upper_bound; lia]).
  rewrite i32_small by (unfold int_min, int_max; lia).
  apply (wp_first (is_apic mem) (λ k, load mem (rsdt + 36 + Z.of_nat k * 4) 4) Z.of_nat); [| |done].
  - intros k Hk. unfold findSDT_body. rewrite decide_True by lia.
    apply wp_bind. apply (wp_iseq _ (lit "APIC")), wp_ret. split; [done|]. change (List.length (lit "APIC")) with 4%nat.
    unfold is_apic. destruct (decide (slice _ _ _ = _)); cbn; [done|]. f_equal. lia.
  - unfold findSDT_body. rewrite decide_False by lia. by apply wp_ret.
Qed.

(** ** The entries *)

(** A configuration with the processors and controllers of [l]. *)
Definition with_entries (l : list Z) (c : Config) : Config :=
  let ps := processors mem l in
  let n := Z.to_nat (nOtherProcs c) in
  mkConfig (memSize c) (nOtherProcs c + Z.of_nat (List.length ps)) (totalProcs c) (localAPIC c) (madtFlags c)
    (List.last (controllers mem l) (ioAPIC c))
    (take n (apicInfo c) ++ ps ++ drop (n + List.length ps) (apicInfo c)) (oemid c).

Definition room (l : list Z) (c : Config) : Prop :=
  0 ≤ nOtherProcs c ∧ nOtherProcs c + Z.of_nat (List.length (processors mem l)) ≤ Z.of_nat (List.length (apicInfo c)) ∧
  Z.of_nat (List.length (apicInfo c)) < 2 ^ 32.

Lemma list_last_cons {A} (x d : A) k : List.last (x :: k) d = List.last k x.
Proof.
  revert x d. induction k as [|y k IH]; intros x d; [done|].
  transitivity (List.last k y); [apply IH|symmetry; apply IH].
Qed.

Lemma with_entries_nil c : with_entries [] c = c.
Proof.
  unfold with_entries. simpl. rewrite Z.add_0_r, Nat.add_0_r, take_drop. by destruct c.
Qed.

Lemma wp_visit p l c (Q : () → Config → Prop) :
  room (p :: l) c → (∀ c', room l c' → with_entries l c' = with_entries (p :: l) c → Q () c') → wp (visit mem p) Q c.
Proof.
  intros (H0 & H1 & H2) HQ. unfold visit, with_entries, room, processors, controllers in *.
  rewrite !filter_cons in *.
  destruct (decide (ENTRY_type mem p = 0)) as [Ht|Ht].
  - destruct (decide (APIC_processorId mem p = 0)) as [Hp|Hp].
    + rewrite (decide_False (P := is_processor mem p)) in HQ, H1 by (unfold is_processor; tauto).
      rewrite (decide_False (P := is_ioapic mem p)) in HQ by (unfold is_ioapic; lia).
      apply wp_ret, HQ; done.
    + rewrite (decide_True (P := is_processor mem p)) in HQ, H1 by (unfold is_processor; tauto).
      rewrite (decide_False (P := is_ioapic mem p)) in HQ by (unfold is_ioapic; lia).
      cbn [map List.length] in H1. apply wp_bind, wp_get, wp_bind, wp_require; [lia|]. apply wp_modify, HQ; cbn [nOtherProcs apicInfo add_info].
      * rewrite u32_small, length_insert by lia. lia.
      * unfold add_info. cbn -[u32 take drop List.last]. rewrite u32_small by lia. f_equal; [lia|].
        set (n := Z.to_nat (nOtherProcs c)). set (ps := map _ (filter _ l)) in *.
        replace (Z.to_nat (nOtherProcs c + 1)) with (S n) by lia.
        rewrite (take_S_r _ _ (APIC_info mem p)) by (apply list_lookup_insert_eq; lia).
        rewrite take_insert_ge by lia. rewrite drop_insert_lt by lia.
        rewrite <-app_assoc. simpl. do 4 f_equal. lia.
  - rewrite (decide_False (P := is_processor mem p)) in HQ, H1 by (unfold is_processor; tauto).
    destruct (decide (ENTRY_type mem p = 1)) as [Hi|Hi].
    + rewrite (decide_True (P := is_ioapic mem p)) in HQ by done. apply wp_modify, HQ; [done|]. unfold set_ioAPIC. cbn [nOtherProcs apicInfo memSize totalProcs localAPIC madtFlags ioAPIC oemid map].
      f_equal. symmetry. apply list_last_cons.
    + rewrite (decide_False (P := is_ioapic mem p)) in HQ by done. apply wp_ret, HQ; done.
Qed.

Lemma entries_head stop a l : entries mem stop a l → l ++ [stop] = a :: tl (l ++ [stop]).
Proof. by destruct 1. Qed.

Lemma wp_madt_entries stop a l fuel (Q : () → Config → Prop) c :
  (∀ i, 0 ≤ mem i < 256) → entries mem stop a l → 0 ≤ a → stop < 2 ^ 32 → stop - a < 2 ^ 31 →
  (stop - a < Z.of_nat fuel) → room (tl (l ++ [stop])) c →
  Q () (with_entries (tl (l ++ [stop])) c) → wp (iter fuel (entry_body mem) (a, stop - a)) Q c.
Proof.
  intros Hb He. revert fuel c. induction He as [|a l Hle Hlen He IH]; intros fuel c Ha Hs Hd Hf Hroom HQ.
  - destruct fuel as [|fuel]; [lia|]. cbn [iter entry_body]. rewrite decide_False by lia. apply wp_bind, wp_ret, wp_ret.
    simpl in HQ. by rewrite with_entries_nil in HQ.
  - destruct fuel as [|fuel]; [lia|]. cbn [iter entry_body].
    assert (a + ENTRY_len mem a ≤ stop) by done.
    rewrite decide_True by lia. rewrite u32_small, i32_small by (unfold int_min, int_max; lia).
    pose proof (entries_head _ _ _ He) as Eh. cbn [tl app] in Hroom, HQ. rewrite Eh in Hroom, HQ.
    apply wp_bind, wp_bind. eapply wp_visit; [done|]. intros c' Hroom' E. rewrite <-E in HQ. apply wp_ret.
    replace (stop - a - ENTRY_len mem a) with (stop - (a + ENTRY_len mem a)) by lia. apply IH; try done; lia.
Qed.

(** With more processors than places, the one after the last place is
    written beyond them. *)
Lemma visit_counts p c :
  0 ≤ nOtherProcs c ≤ Z.of_nat (List.length (apicInfo c)) → Z.of_nat (List.length (apicInfo c)) < 2 ^ 31 →
  let n' := nOtherProcs c + (if decide (is_processor mem p) then 1 else 0) in
  if decide (n' ≤ Z.of_nat (List.length (apicInfo c))) then
    ∃ c', visit mem p c = Ok () c' ∧ nOtherProcs c' = n' ∧ List.length (apicInfo c') = List.length (apicInfo c)
  else visit mem p c = Faulted.
Proof.
  intros Hn Hl n'. unfold visit, n', is_processor.
  destruct (decide (ENTRY_type mem p = 0)) as [Ht|Ht].
  - destruct (decide (APIC_processorId mem p = 0)) as [Hp|Hp].
    + rewrite (decide_False (P := _ ∧ _)) by tauto. rewrite decide_True by lia. exists c. split_and!; [done|lia|done].
    + rewrite (decide_True (P := _ ∧ _)) by tauto. unfold require, get, modify, mbind, M_bind.
      destruct (decide (nOtherProcs c + 1 ≤ _)) as [H|H].
      * rewrite decide_True by lia. eexists. split; [done|]. cbn -[u32]. by rewrite length_insert, u32_small by lia.
      * by rewrite decide_False by lia.
  - rewrite (decide_False (P := _ ∧ _)) by tauto. rewrite decide_True by lia.
    destruct (decide (ENTRY_type mem p = 1)); (eexists; split; [done|]); simpl; (split; [lia|done]).
Qed.

Lemma madt_overflow stop a l fuel c :
  (∀ i, 0 ≤ mem i < 256) → entries mem stop a l → 0 ≤ a → stop < 2 ^ 32 → stop - a < 2 ^ 31 → stop - a < Z.of_nat fuel →
  0 ≤ nOtherProcs c ≤ Z.of_nat (List.length (apicInfo c)) → Z.of_nat (List.length (apicInfo c)) < 2 ^ 31 →
  Z.of_nat (List.length (apicInfo c)) < nOtherProcs c + Z.of_nat (List.length (processors mem (tl (l ++ [stop])))) →
  iter fuel (entry_body mem) (a, stop - a) c = Faulted.
Proof.
  intros Hb He. revert fuel c. induction He as [|a l Hle Hlen He IH]; intros fuel c Ha Hs Hd Hf Hn Hl Hover; [simpl in Hover; lia|].
  destruct fuel as [|fuel]; [lia|]. cbn [iter entry_body]. assert (a + ENTRY_len mem a ≤ stop) by done.
  rewrite decide_True by lia. rewrite u32_small, i32_small by (unfold int_min, int_max; lia).
  pose proof (entries_head _ _ _ He) as Eh. cbn [tl app] in Hover. rewrite Eh in Hover.
  replace (stop - a - ENTRY_len mem a) with (stop - (a + ENTRY_len mem a)) by lia.
  pose proof (visit_counts (a + ENTRY_len mem a) c Hn Hl) as Hv. cbv zeta in Hv.
  unfold processors in Hover. rewrite filter_cons in Hover. unfold mbind, M_bind.
  case_decide as Hroom; [|by rewrite Hv]. destruct Hv as (c' & -> & Hn' & Hl'). cbv beta iota.
  rewrite <-Hn', <-Hl' in Hroom. rewrite <-Hl' in Hl.
  apply IH; [lia|lia|lia|lia| |done|]; [destruct (decide (is_processor mem (a + ENTRY_len mem a))); lia|]. rewrite Hl', Hn'. unfold processors. destruct (decide (is_processor mem (a + ENTRY_len mem a))); cbn [map] in Hover; rewrite ?length_cons in Hover; lia.
Qed.
End loops.

(** ** Properties *)

(** A machine whose tables are in order: the root pointer and the table of
    interrupt controllers are found, and the entries [l] of the latter fill
    it. *)
Record described (mem : Z → Z) (l : list Z) : Prop := {
  de_bytes : ∀ i, 0 ≤ mem i < 256;
  de_rsd : rsd mem ≠ 0;
  de_root : 36 ≤ SDT_Length mem (RSD_rootSDT mem (rsd mem));
  de_madt : 0 < madt mem;
  de_length : 44 ≤ SDT_Length mem (madt mem) < 2 ^ 31;
  de_end : madt mem + SDT_Length mem (madt mem) < 2 ^ 32;
  de_entries : entries mem (madt mem + SDT_Length mem (madt mem)) (madt mem + 44) l
}.

(** What the loop looks at: not the first entry, and what comes after the
    table. *)
Definition seen (mem : Z → Z) (l : list Z) : list Z := tl (l ++ [madt mem + SDT_Length mem (madt mem)]).

(** When the first entry is of the processor that boots, or of another kind,
    and the byte after the table does not look like an entry, what is seen
    is what the table says. *)
Lemma seen_all mem l :
  (∀ p, head l = Some p → ¬ is_processor mem p ∧ ¬ is_ioapic mem p) →
  (let stop := madt mem + SDT_Length mem (madt mem) in ¬ is_processor mem stop ∧ ¬ is_ioapic mem stop) →
  processors mem (seen mem l) = processors mem l ∧ controllers mem (seen mem l) = controllers mem l.
Proof.
  intros Hl [Hp Hi]. unfold seen, processors, controllers. destruct l as [|p l]; [done|].
  destruct (Hl p eq_refl) as [H1 H2]. simpl. rewrite !filter_app, !filter_cons, !filter_nil.
  rewrite !decide_False by done. by rewrite !app_nil_r.
Qed.

(** What [configInit] leaves behind when there are places for the
    processors that it sees. *)
Definition configured (mem : Z → Z) (l : list Z) (memInfo : MemInfo) (c c' : Config) : Prop :=
  let ps := processors mem (seen mem l) in
  memSize c' = u32 (2 ^ 20 + Z.lor (ax memInfo) (cx memInfo) * 2 ^ 10 + Z.lor (bx memInfo) (dx memInfo) * 2 ^ 16) ∧
  oemid c' = slice mem (rsd mem + 9) 6 ++ [0] ∧
  localAPIC c' = load mem (madt mem + 36) 4 ∧ madtFlags c' = load mem (madt mem + 40) 4 ∧
  nOtherProcs c' = Z.of_nat (List.length ps) ∧ totalProcs c' = Z.of_nat (List.length ps) + 1 ∧
  take (List.length ps) (apicInfo c') = ps ∧ drop (List.length ps) (apicInfo c') = drop (List.length ps) (apicInfo c) ∧
  ioAPIC c' = List.last (controllers mem (seen mem l)) (ioAPIC c).

(** The part before the loop. *)
Lemma configInit_loop mem l memInfo c (P : outcome Config () → Prop) :
  described mem l → cx memInfo = 15 * 1024 ∨ dx memInfo = 0 →
  (let m := madt mem in
   let c1 := set_madt (MADT_localAddress mem m) (MADT_flags mem m) (set_oemid (slice mem (rsd mem + 9) 6 ++ [0])
     (set_memSize (u32 (2 ^ 20 + Z.lor (ax memInfo) (cx memInfo) * 2 ^ 10 + Z.lor (bx memInfo) (dx memInfo) * 2 ^ 16)) c)) in
   P ((iter (S (Z.to_nat (SDT_Length mem m - 44))) (entry_body mem) (m + 44, m + SDT_Length mem m - (m + 44));;
       c ← get; modify (set_totalProcs (u32 (nOtherProcs c + 1)))) c1)) →
  P (configInit mem memInfo c).
Proof.
  intros [Hb Hr Hroot Hm Hlen Hend He] Hmem HP. cbv zeta in HP.
  assert (Hrun : ∀ A B (m : M Config A) (f : A → M Config B) a s s', m s = Ok a s' → (m ≫= f) s = f a s').
  { intros A B m f a s s' E. unfold mbind, M_bind. by rewrite E. }
  assert (Hpure : ∀ A (m : M Config A) a, (∀ s, wp m (λ r s', r = a ∧ s' = s) s) → ∀ s, m s = Ok a s).
  { intros A m a Hw s. specialize (Hw s). by apply wp_Ok in Hw as (? & ? & ? & -> & ->). }
  unfold configInit. erewrite Hrun by (unfold memAbove1M, assert; rewrite decide_True by done; reflexivity).
  erewrite Hrun by reflexivity. erewrite Hrun by (apply Hpure; intros; by apply wp_findRSD).
  rewrite decide_True by done. erewrite Hrun by reflexivity.
  erewrite Hrun by (apply Hpure; intros; by apply wp_findSDT). fold (madt mem).
  erewrite Hrun by (unfold deref, require; rewrite decide_True by lia; reflexivity). erewrite Hrun by reflexivity.
  unfold MADT_size. rewrite u32_small, i32_small by (unfold int_min, int_max; lia).
  replace (madt mem + SDT_Length mem (madt mem) - (madt mem + 44)) with (SDT_Length mem (madt mem) - 44) in HP by lia.
  replace (u32 (_ + Z.shiftl 1 20))
    with (u32 (2 ^ 20 + Z.lor (ax memInfo) (cx memInfo) * 2 ^ 10 + Z.lor (bx memInfo) (dx memInfo) * 2 ^ 16)); [exact HP|].
  unfold u32. rewrite !Z.shiftl_mul_pow2 by lia. set (a := Z.lor (ax _) _). set (b := Z.lor (bx _) _).
  rewrite Z.mul_1_l. rewrite <-(Zplus_mod (a * 2 ^ 10)), Zplus_mod_idemp_l. f_equal. lia.
Qed.

(** C35. When the tables are found and fill their length, [configInit]
    always comes to an end, in one of three ways.  If the firmware counts
    memory above 16 MB in [dx] but does not fill the 15 MB below in [cx], an
    assertion fails.  If more than sixteen processors are seen, the
    seventeenth is written beyond the array: nothing checks for it.
    Otherwise it returns, having read through no null pointer: the memory is a megabyte and what the
    firmware counts above it, the name and the two addresses are those of
    the tables, and the processors and the I/O controller are, in order,
    those of the entries: of all of them if the first is of the processor
    that boots and the byte after the table is of no entry, and in any case
    of all but the first and of what lies behind the table. *)
Theorem configInit_reads mem l memInfo c :
  described mem l → List.length (apicInfo c) = 16%nat →
  match configInit mem memInfo c with
  | Ok _ c' => (cx memInfo = 15 * 1024 ∨ dx memInfo = 0) ∧ (List.length (processors mem (seen mem l)) <= 16)%nat ∧
               configured mem l memInfo c c'
  | Panicked c' => (cx memInfo ≠ 15 * 1024 ∧ dx memInfo ≠ 0) ∧ c' = c
  | Faulted => (cx memInfo = 15 * 1024 ∨ dx memInfo = 0) ∧ (16 < List.length (processors mem (seen mem l)))%nat
  | OutOfFuel => False
  end.
Proof.
  intros Hd H16. destruct (decide (cx memInfo = 15 * 1024 ∨ dx memInfo = 0)) as [Hmem|Hmem].
  2: { unfold configInit, memAbove1M, assert, mbind, M_bind. rewrite decide_False by done. simpl. split; [tauto|done]. }
  pattern (configInit mem memInfo c). apply (configInit_loop mem l); [done|done|]. cbv zeta.
  pose proof Hd as [Hb Hr Hroot Hm Hlen Hend He]. set (m := madt mem) in *. set (stop := m + SDT_Length mem m) in *.
  set (c1 := set_madt _ _ _). destruct (decide (List.length (processors mem (seen mem l)) <= 16)%nat) as [Hps|Hps].
  - assert (Hw : wp (iter (S (Z.to_nat (SDT_Length mem m - 44))) (entry_body mem) (m + 44, stop - (m + 44));;
        c ← get; modify (set_totalProcs (u32 (nOtherProcs c + 1)))) (λ _ c', configured mem l memInfo c c') c1).
    { apply wp_bind. apply (wp_madt_entries mem stop (m + 44) l); [done|done|lia|lia|lia|lia| |].
      { change (tl (l ++ [stop])) with (seen mem l). unfold room, c1. cbn [nOtherProcs apicInfo set_madt set_oemid set_memSize]. lia. }
      apply wp_bind, wp_get, wp_modify. unfold with_entries, configured, c1. cbv zeta.
      cbn [nOtherProcs totalProcs apicInfo memSize oemid ioAPIC localAPIC madtFlags set_totalProcs set_madt set_oemid set_memSize].
      change (tl (l ++ [stop])) with (seen mem l). rewrite (u32_small (0 + Z.of_nat _ + 1)) by lia.
      change (Z.to_nat 0) with 0%nat. rewrite take_0. split_and!; try done; [apply (take_app_length (processors mem (seen mem l)))|
        apply (drop_app_length (processors mem (seen mem l)))]. }
    apply wp_Ok in Hw as ([] & c' & -> & Hc'). by split_and!.
  - unfold mbind, M_bind. rewrite (madt_overflow mem stop (m + 44) l); try done; try lia;
      unfold c1; cbn [nOtherProcs apicInfo set_madt set_oemid set_memSize]; rewrite ?H16; try lia.
    change (tl (l ++ [stop])) with (seen mem l). lia.
Qed.

(** Without the tables the null pointer is followed. *)
Lemma configInit_not_found mem memInfo c :
  (∀ i, 0 ≤ mem i < 256) → cx memInfo = 15 * 1024 ∨ dx memInfo = 0 → rsd mem = 0 → configInit mem memInfo c = Faulted.
Proof.
  intros Hb Hmem Hr. unfold configInit.
  assert (Hrun : ∀ A B (m : M Config A) (f : A → M Config B) a s s', m s = Ok a s' → (m ≫= f) s = f a s').
  { intros A B m f a s s' E. unfold mbind, M_bind. by rewrite E. }
  assert (Hfind : ∀ c, findRSD mem c = Ok 0 c).
  { intros c1. assert (Hw : wp (findRSD mem) (λ a c', a = 0 ∧ c' = c1) c1) by (by apply wp_findRSD).
    by apply wp_Ok in Hw as (? & ? & ? & -> & ->). }
  erewrite Hrun. 2: { unfold memAbove1M, assert. rewrite decide_True by done. reflexivity. }
  erewrite Hrun by reflexivity. erewrite Hrun by apply Hfind. done.
Qed.

(** ** A machine *)

(** A memory given by what is written at some addresses. *)
Fixpoint memory_of (parts : list (Z * Z * list Z)) (i : Z) : Z :=
  match parts with
  | [] => 0
  | (a, n, b) :: parts =>
      match (if decide (a ≤ i < a + n) then b !! Z.to_nat (i - a) else None) with
      | Some x => x
      | None => memory_of parts i
      end
  end.

Lemma memory_of_bytes parts : Forall (λ p, Forall (λ x, 0 ≤ x < 256) p.2) parts → ∀ i, 0 ≤ memory_of parts i < 256.
Proof.
  induction 1 as [|[[a n] b] parts Hb _ IH]; intros i; simpl; [lia|].
  destruct (decide (a ≤ i < _)); [|apply IH]. destruct (b !! _) as [x|] eqn:E; [|apply IH].
  by apply (Forall_lookup_1 _ _ _ _ Hb E).
Qed.

Definition sample_entries : list Z :=
  [0; 8; 0; 0; 1; 0; 0; 0] ++ [0; 8; 1; 4; 1; 0; 0; 0] ++ [1; 12; 2; 0] ++ word 0xFEC00000 ++ word 0 ++
  [2; 10; 0; 0; 2; 0; 0; 0; 0; 0] ++ [0; 8; 2; 6; 1; 0; 0; 0].
Definition sample_tables : list (Z * Z * list Z) := [
  (0xE0040, 20, lit "RSD PTR " ++ [0] ++ lit "BOCHS " ++ [0] ++ word 0x7000);
  (0x7000, 44, lit "RSDT" ++ word 44 ++ replicate 28 0 ++ word 0x8000 ++ word 0x9000);
  (0x8000, 8, lit "FACP" ++ word 36);
  (0x9000, 90, lit "APIC" ++ word 90 ++ replicate 28 0 ++ word 0xFEE00000 ++ word 1 ++ sample_entries)].
Definition sample_bytes : list (Z * Z * list Z) := Eval vm_compute in sample_tables.
Definition sample_memory : Z → Z := memory_of sample_bytes.
Definition sample_start : Config := mkConfig 0 0 0 0 0 0 (replicate 16 (mkApicInfo 0 0 0)) [].
Definition sample_l : list Z := [0x902C; 0x9034; 0x903C; 0x9048; 0x9052].

Lemma sample_rsd : rsd sample_memory = 0xE0040.
Proof. by vm_compute. Qed.

Lemma sample_madt : madt sample_memory = 0x9000.
Proof. unfold madt. rewrite sample_rsd. by vm_compute. Qed.

Lemma sample_length : SDT_Length sample_memory 0x9000 = 90.
Proof. by vm_compute. Qed.

Lemma sample_described : described sample_memory sample_l.
Proof.
  split; rewrite ?sample_madt, ?sample_rsd, ?sample_length; [|done|by vm_compute|done|done|done|].
  - apply memory_of_bytes. apply (bool_decide_unpack _); vm_compute; exact I.
  - unfold sample_l. repeat (apply entries_cons; [by vm_compute|by vm_compute|];
      match goal with |- entries _ _ ?a _ => let v := eval vm_compute in a in change a with v end).
    apply entries_nil.
Qed.

Lemma sample_processors : processors sample_memory (seen sample_memory sample_l) = [mkApicInfo 1 4 1; mkApicInfo 2 6 1].
Proof. unfold seen. rewrite sample_madt, sample_length. by vm_compute. Qed.

Lemma configInit_reads_witness :
  ∃ c, configInit sample_memory (mkMemInfo 15360 1000 15360 0) sample_start = Ok () c ∧
    apicInfo c !! 0%nat = Some (mkApicInfo 1 4 1) ∧ totalProcs c = 3 ∧ localAPIC c = 0xFEE00000 ∧
    memSize c = 16777216 + 1000 * 65536.
Proof.
  pose proof (configInit_reads sample_memory sample_l (mkMemInfo 15360 1000 15360 0) sample_start sample_described eq_refl) as H.
  unfold configured in H. cbv zeta in H. rewrite sample_processors in H.
  destruct (configInit sample_memory (mkMemInfo 15360 1000 15360 0) sample_start) as [[] c|c| |].
  - destruct H as (_ & _ & Hmem & _ & Hlocal & _ & _ & Htotal & Hinfo & _ & _).
    exists c. split; [done|]. rewrite Htotal, Hlocal, Hmem, sample_madt.
    split_and!; [|done|by vm_compute|by vm_compute].
    clear -Hinfo. destruct (apicInfo c) as [|x [|y k]]; simpl in Hinfo; by simplify_eq.
  - exfalso. destruct H as [[H _] _]. by apply H.
  - exfalso. destruct H as [_ H]. simpl in H. lia.
  - done.
Defined.
