(* ===== verification/Pit.v ===== *)
(** * Measuring the timer (kernel/pit.cc)

    The timer of each core counts at an unknown rate.  [calibrate] lets it
    count down while the old timer, whose rate is known, changes its output
    forty times, and divides what was counted by the number of interrupts
    wanted in a second.  The ports and the registers of the timer are
    parameters. *)

From S2P Require Import Prelude.

(** Ports, and the registers of the local timer. *)
Record Timers (S : Type) := mkTimers {
  outb : Z → Z → M S ();
  inb : Z → M S Z;
  set_lvt_timer : Z → M S ();
  set_divide : Z → M S ();
  set_initial_count : Z → M S ();
  get_current_count : M S Z
}.
Arguments outb {S}.
Arguments inb {S}.
Arguments set_lvt_timer {S}.
Arguments set_divide {S}.
Arguments set_initial_count {S}.
Arguments get_current_count {S}.

Definition PIT_FREQ : Z := 1193182.
Definition APIT_vector : Z := 40.

(** The static members that are set. *)
Record Pit := mkPit { jiffiesPerSecond : Z; apitCounter : Z }.

Section pit.
Context {S : Type} (T : Timers S) (polls : nat).

(** The output of the old timer. *)
Definition level : M S Z := t ← inb T 0x61; mret (Z.land t 0x20).

(** One round of the loop: the changes so far and the last level. *)
Definition changes_body (st : Z * Z) : M S ((Z * Z) + ()) :=
  let '(changes, last) := st in
  if decide (changes < 40) then
    t ← level;
    mret (inl (if decide (t ≠ last) then (u32 (changes + 1), t) else (changes, last)))
  else mret (inr ()).

Definition calibrate (hz : Z) : M S Pit :=
  set_lvt_timer T 0x00010000;;
  set_divide T 0x0000000B;;
  let d := PIT_FREQ / 20 in
  let d := if decide (Z.land d 0xffff ≠ d) then 0xffff else d in
  let initial := 0xffffffff in
  set_initial_count T initial;;
  outb T 0x61 1;;
  outb T 0x43 0xb6;;
  outb T 0x42 (u8 d);;
  outb T 0x42 (u8 (Z.shiftr d 8));;
  last ← level;
  iter polls changes_body (0, last);;
  count ← get_current_count T;
  let diff := u32 (initial - count) in
  outb T 0x61 0;;
  require (hz ≠ 0);;
  mret (mkPit hz (diff / hz)).

Definition init (p : Pit) : M S () :=
  (if decide (apitCounter p = 0) then panic else mret ());;
  set_divide T 0x0000000B;;
  set_lvt_timer T (Z.lor (Z.lor (Z.shiftl 1 17) (Z.shiftl 0 16)) APIT_vector);;
  set_initial_count T (apitCounter p).
End pit.

(** ** What is measured *)

(** [A n s] holds after [n] polls: the [n]th poll finds the output [high n],
    and the count is then [left n]. *)
Record Ticking {S} (T : Timers S) (high : nat → bool) (left : nat → Z) (A : nat → S → Prop) : Prop := {
  ti_out : ∀ p v n s, A n s → wp (outb T p v) (λ _, A n) s;
  ti_lvt : ∀ v n s, A n s → wp (set_lvt_timer T v) (λ _, A n) s;
  ti_divide : ∀ v n s, A n s → wp (set_divide T v) (λ _, A n) s;
  ti_initial : ∀ v n s, A n s → wp (set_initial_count T v) (λ _, A n) s;
  ti_in : ∀ n s, A n s → wp (inb T 0x61) (λ t s', Z.testbit t 5 = high n ∧ A (Datatypes.S n) s') s;
  ti_count : ∀ n s, A n s → wp (get_current_count T) (λ c s', c = left n ∧ A n s') s
}.

(** The changes among the first [n] polls after the first. *)
Fixpoint changes (high : nat → bool) (n : nat) : Z :=
  match n with O => 0 | Datatypes.S n => changes high n + (if eqb (high n) (high (Datatypes.S n)) then 0 else 1) end.

Section measure.
Context {S : Type} (T : Timers S) (high : nat → bool) (left : nat → Z) (A : nat → S → Prop) (HT : Ticking T high left A).

Lemma land_bit t : Z.land t 0x20 = if Z.testbit t 5 then 0x20 else 0.
Proof.
  apply Z.bits_inj'. intros i Hi. rewrite Z.land_spec. change 0x20 with (2 ^ 5). rewrite Z.pow2_bits_eqb by lia.
  destruct (Z.eqb_spec 5 i) as [<-|Hne]; [rewrite andb_true_r; destruct (Z.testbit t 5); done|].
  rewrite andb_false_r. destruct (Z.testbit t 5); [|by rewrite Z.bits_0]. change 32 with (2 ^ 5). rewrite Z.pow2_bits_eqb by lia.
  by destruct (Z.eqb_spec 5 i).
Qed.

Definition bit (b : bool) : Z := if b then 0x20 else 0.

Lemma wp_level n (Q : Z → S → Prop) s : A n s → (∀ s', A (Datatypes.S n) s' → Q (bit (high n)) s') → wp (level T) Q s.
Proof.
  intros HA HQ. unfold level. apply wp_bind. eapply wp_mono; [by apply (ti_in _ _ _ _ HT n)|].
  intros t s' [Ht HA']. apply wp_ret. rewrite land_bit, Ht. by apply HQ.
Qed.

Lemma changes_range n : 0 ≤ changes high n ≤ Z.of_nat n.
Proof. induction n as [|n IH]; simpl; [lia|]. destruct (eqb _ _); lia. Qed.

Lemma wp_changes n m : ∀ k fuel (Q : () → S → Prop) s,
  (k + m = n)%nat → A (Datatypes.S k) s → changes high n = 40 → (∀ k, (k < n)%nat → changes high k < 40) → (m < fuel)%nat →
  (∀ s', A (Datatypes.S n) s' → Q () s') → wp (iter fuel (changes_body T) (changes high k, bit (high k))) Q s.
Proof.
  induction m as [|m IH]; intros k fuel Q s Hk HA Hn Hlt Hfuel HQ; (destruct fuel as [|fuel]; [lia|]); cbn [iter changes_body].
  - replace k with n in * by lia. rewrite decide_False by lia. by apply wp_bind, wp_ret, wp_ret, HQ.
  - rewrite decide_True by (apply Hlt; lia). apply wp_bind, wp_bind. eapply wp_level; [done|]. intros s' HA'. apply wp_ret.
    pose proof (changes_range k). pose proof (Hlt k ltac:(lia)).
    replace (if decide (bit (high (Datatypes.S k)) ≠ bit (high k)) then (u32 (changes high k + 1), bit (high (Datatypes.S k)))
             else (changes high k, bit (high k)))
      with (changes high (Datatypes.S k), bit (high (Datatypes.S k))).
    + apply IH; [lia|done..|lia|done].
    + cbn [changes]. destruct (high k), (high (Datatypes.S k)); cbn [bit eqb]; rewrite ?decide_True, ?decide_False by (done || tauto);
        rewrite ?u32_small by lia; f_equal; lia.
Qed.

(** [calibrate] counts to the fortieth change and no further. *)
Lemma calibrate_measures n polls hz s :
  A 0%nat s → changes high n = 40 → (∀ k, (k < n)%nat → changes high k < 40) → (n < polls)%nat → 0 < hz →
  wp (calibrate T polls hz)
     (λ p s', p = mkPit hz (u32 (0xffffffff - left (Datatypes.S n)) / hz) ∧ A (Datatypes.S n) s') s.
Proof.
  intros HA Hn Hlt Hpolls Hhz. unfold calibrate.
  apply wp_bind. eapply wp_mono; [by apply (ti_lvt _ _ _ _ HT)|]. intros [] s1 H1.
  apply wp_bind. eapply wp_mono; [by apply (ti_divide _ _ _ _ HT)|]. intros [] s2 H2.
  apply wp_bind. eapply wp_mono; [by apply (ti_initial _ _ _ _ HT)|]. intros [] s3 H3.
  do 4 (apply wp_bind; eapply wp_mono; [by apply (ti_out _ _ _ _ HT)|]; intros [] ? ?).
  apply wp_bind. eapply wp_level; [done|]. intros s8 H8. apply wp_bind.
  apply (wp_changes n n 0%nat); [lia|done|done|done|done|]. intros s9 H9.
  apply wp_bind. eapply wp_mono; [by apply (ti_count _ _ _ _ HT)|]. intros count s10 [-> H10].
  apply wp_bind. eapply wp_mono; [by apply (ti_out _ _ _ _ HT)|]. intros [] s11 H11.
  apply wp_bind, wp_require; [lia|]. by apply wp_ret.
Qed.

(** The timer of a core is started, unless nothing has been measured. *)
Lemma init_starts p n s : A n s → apitCounter p ≠ 0 → wp (init T p) (λ _, A n) s.
Proof.
  intros HA Hp. unfold init. rewrite decide_False by done. apply wp_bind, wp_ret.
  apply wp_bind. eapply wp_mono; [by apply (ti_divide _ _ _ _ HT)|]. intros [] s1 H1.
  apply wp_bind. eapply wp_mono; [by apply (ti_lvt _ _ _ _ HT)|]. intros [] s2 H2. by apply (ti_initial _ _ _ _ HT).
Qed.
End measure.

(** An output that changes at every poll, and a timer that counts a
    thousand between polls. *)
Definition sample_timers : Timers nat :=
  mkTimers nat (λ _ _, mret tt) (λ _ s, Ok (if Nat.odd s then 0x20 else 0) (Datatypes.S s)) (λ _, mret tt) (λ _, mret tt) (λ _, mret tt)
    (λ s, Ok (0xffffffff - 1000 * Z.of_nat s) s).

Lemma sample_ticking : Ticking sample_timers Nat.odd (λ n, 0xffffffff - 1000 * Z.of_nat n) (λ n s, s = n).
Proof.
  split; try done.
  - intros n s ->. unfold wp. cbn [inb sample_timers]. by destruct (Nat.odd n).
  - by intros n s ->.
Qed.

Example calibrate_sample : calibrate sample_timers 100 1000 0%nat = Ok (mkPit 1000 41) 41%nat.
Proof. reflexivity. Qed.
