(* ===== verification/Shell.v ===== *)
(** * The shell (sbin/shell.c, shellHandler.c, exec.c, ls.c)

    The shell polls the keyboard for a line, forks a process that runs the
    command of the line and waits for it.  The greeting is left out.  At any
    time one process of the shell runs and those below it wait for it: a
    child that has printed an error returns into the main loop as its parent
    does, and the depth counts them.  [fork] may fail at any time; [execl]
    of a program that is not there stops the machine ([Sys.execl]).
    Programs that are run are noted with their arguments. *)

From S2P Require Import Prelude.
From S2P Require Import Libk.
From S2P Require Import Keyboard.

(** What the child does with its line. *)
Inductive command :=
| Demo
| Run (message path : list Z) (args : list (list Z))
| Invalid.

(** What can be seen of the shell. *)
Inductive event := Printed (text : list Z) | Ran (path : list Z) (args : list (list Z)).

(** ** The choice of the command *)

Section dispatch.
Context {S : Type}.

(** The characters up to the end of the string. *)
Fixpoint until_zero (p : list Z) : option (list Z) :=
  match p with
  | [] => None
  | c :: p => if decide (c = 0) then Some [] else l ← until_zero p; Some (c :: l)
  end.

(** The string at [p + i]. *)
Definition string_from (p : list Z) (i : Z) : M S (list Z) :=
  require (0 ≤ i ≤ Z.of_nat (List.length p));;
  match until_zero (drop (Z.to_nat i) p) with Some s => mret s | None => fault end.

(** [input[i] == s[0] && input[i+1] == s[1] && ...] *)
Fixpoint chars_match (input : list Z) (i : Z) (s : list Z) : M S bool :=
  match s with
  | [] => mret true
  | c :: s => x ← char_at input i; if decide (x = c) then chars_match input (i + 1) s else mret false
  end.

(** A row of the chain of tests: the prefix, the program, and where its
    argument begins. *)
Definition row (input : list Z) (prefix name : string) (from : Z) (otherwise : M S command) : M S command :=
  b ← chars_match input 0 (lit prefix);
  if (b : bool) then
    a ← string_from input from;
    mret (Run [] (lit "/sbin/" ++ lit name) [lit name; a])
  else otherwise.

(** The child of [mainShellHandler]. *)
Definition shell_child (input : list Z) : M S command :=
  b ← chars_match input 0 (lit "demo");
  if (b : bool) then mret Demo else
  row input "cd" "cd" 3 $
  row input "cat" "cat" 4 $
  row input "grep" "grep" 5 $
  row input "wc" "wc" 3 $
  (b ← chars_match input 0 (lit "ls");
   if (b : bool) then
     c ← char_at input 3;
     if decide (c = chr "|") then
       a ← string_from input 5;
       mret (Run (lit "ls pipe with command: " ++ a ++ [10]) (lit "/sbin/ls") [lit "ls"; a])
     else mret (Run [] (lit "/sbin/ls") [lit "ls"])
   else
     row input "pwd" "pwd" 4 $
     row input "echo" "echo" 5 $
     row input "exec" "exec" 5 $
     mret Invalid).

(** The child of shellHandler.c. *)
Definition handler_child (input : list Z) : M S command :=
  row input "cd" "cd" 3 $
  row input "cat" "cat" 4 $
  row input "grep" "grep" 5 $
  row input "wc" "wc" 3 $
  (b ← chars_match input 0 (lit "ls");
   if (b : bool) then
     c ← char_at input 2;
     if decide (c = chr " ") then
       a ← string_from input 3;
       mret (Run [] (lit "/sbin/ls") [lit "ls"; a])
     else mret (Run [] (lit "/sbin/ls") [lit "ls"])
   else
     row input "pwd" "pwd" 4 $
     row input "echo" "echo" 5 $
     row input "exec" "exec" 5 $
     mret Invalid).
End dispatch.

(** ** exec and ls *)

Section programs.
Context {S : Type} (junk : Z → list Z) (listing : list Z).

(** [p[i] = c]. *)
Definition store (p : list Z) (i c : Z) : M S (list Z) :=
  require (0 ≤ i < Z.of_nat (List.length p));;
  mret (<[Z.to_nat i := c]> p).

(** A copy to the start of an allocated buffer of [n] bytes. *)
Definition filled (n : Z) (l : list Z) : M S (list Z) :=
  require (Z.of_nat (List.length l) ≤ n);;
  mret (l ++ drop (List.length l) (junk n)).

Definition exec_body (arg : list Z) (st : list Z * list Z * Z) : M S ((list Z * list Z * Z) + (list Z * list Z * Z)) :=
  let '(path, cmd, argNum) := st in
  c ← char_at arg argNum;
  if decide (c ≠ chr " " ∧ c ≠ 0) then
    path ← store path (argNum + 6) c;
    cmd ← store cmd argNum c;
    mret (inl (path, cmd, argNum + 1))
  else mret (inr (path, cmd, argNum)).

(** [main] of exec.c: what it asks [execl] for. *)
Definition exec_main (arg : list Z) : M S command :=
  path ← filled 100 (lit "/sbin/");
  r ← iter (Datatypes.S (List.length arg)) (exec_body arg) (path, junk 100, 0);
  let '(path, cmd, argNum) := r : list Z * list Z * Z in
  path ← store path (argNum + 6) 0;
  cmd ← store cmd argNum 0;
  p ← string_from path 0;
  name ← string_from cmd 0;
  c ← char_at arg argNum;
  if decide (c = 0) then mret (Run [] p [name])
  else a ← string_from arg (argNum + 1); mret (Run [] p [name; a]).

(** [while (src[j] != 0) output[i++] = src[j++];] *)
Definition copy_step (src : list Z) (st : list Z * Z * Z) : M S ((list Z * Z * Z) + (list Z * Z)) :=
  let '(output, i, j) := st in
  c ← char_at src j;
  if decide (c ≠ 0) then
    output ← store output i c;
    mret (inl (output, i + 1, j + 1))
  else mret (inr (output, i)).

(** [main] of ls.c, with the listing that the system call writes and the
    second command if there is one: a program to run, or what is printed. *)
Definition ls_main (secondCommand : option (list Z)) : M S (command + list Z) :=
  buff ← filled 250 listing;
  match secondCommand with
  | Some secondCommand =>
      r ← iter (Datatypes.S (List.length secondCommand)) (copy_step secondCommand) (junk 300, 0, 0);
      let '(output, i) := r : list Z * Z in
      output ← store output i (chr " ");
      r ← iter (Datatypes.S (List.length buff)) (copy_step buff) (output, i + 1, 0);
      let '(output, i) := r : list Z * Z in
      output ← store output i 0;
      a ← string_from output 0;
      mret (inl (Run [] (lit "/sbin/shellHandler") [lit "shellHandler"; a]))
  | None =>
      s ← string_from buff 0;
      mret (inr (s ++ [10]))
  end.
End programs.

(** ** The main loop *)

Inductive phase := Polling | Handling | Clearing.

Record shell := mkShell { term : terminal; at_ : phase; depth : nat; trace : list event }.

(** What the shell and the keyboard handler do to the terminal. *)
Definition on_term {A} (m : M terminal A) : M shell A := λ s,
  match m (term s) with
  | Ok a t => Ok a (mkShell t (at_ s) (depth s) (trace s))
  | Panicked t => Panicked (mkShell t (at_ s) (depth s) (trace s))
  | Faulted => Faulted
  | OutOfFuel => OutOfFuel
  end.

Definition go (p : phase) : M shell () := modify (λ s, mkShell (term s) p (depth s) (trace s)).
Definition note (e : event) : M shell () := modify (λ s, mkShell (term s) (at_ s) (depth s) (trace s ++ [e])).
(** The child returns, its parent still waits. *)
Definition in_child : M shell () := modify (λ s, mkShell (term s) (at_ s) (Datatypes.S (depth s)) (trace s)).

Definition demo_lines : list string :=
  ["pwd"; "echo /etc/data.txt"; "cat /etc/data.txt"; "ls"; "cd etc"; "pwd"; "echo data.txt"; "cat data.txt"; "ls"; "cd ..";
   "pwd"; "grep is /etc/data.txt"; "wc /etc/data.txt"; "exec ls"; "exec cd etc"; "ls | cat"; "ls | echo"]%string.

Section shell.
(** The programs that [execl] finds, and whether a [fork] succeeds, after
    what has happened so far. *)
Context (has : list Z → bool) (forks : list event → nat → bool).

(** [mainShellHandler]; its calls of itself are nested once. *)
Fixpoint mainShellHandler (nest : nat) (input : list Z) : M shell () :=
  s ← get;
  if forks (trace s) (depth s) then
    c ← shell_child input;
    match c with
    | Run message path args =>
        (if decide (message = []) then mret () else note (Printed message));;
        if has path then note (Ran path args) else panic
    | Invalid => note (Printed (lit "*** invalid command" ++ [10]));; in_child
    | Demo =>
        match nest with
        | O => diverge
        | Datatypes.S nest =>
            foldr (λ l rest, mainShellHandler nest (cstring (lit l));; rest) (mret ()) demo_lines;;
            in_child
        end
    end
  else note (Printed (lit "fork failed" ++ [10])).

(** The loop of [main], a step at a time. *)
Definition tick : M shell () :=
  s ← get;
  match at_ s with
  | Polling => d ← on_term is_done; if (d : bool) then go Handling else mret ()
  | Handling => input ← on_term getCommand; mainShellHandler 2 input;; go Clearing
  | Clearing => on_term setDone;; go Polling
  end.

(** Interrupts of the keyboard and steps of the shell. *)
Inductive happening := Key (code : Z) | Tick.

Definition happen (h : happening) : M shell () :=
  match h with Key code => on_term (keyBoardHandler code) | Tick => tick end.
Fixpoint session (hs : list happening) : M shell () :=
  match hs with [] => mret () | h :: hs => happen h;; session hs end.
End shell.

(** ** What a line means *)

(** The commands by their first letters, in the order of the tests, and
    where the argument begins. *)
Definition rows : list (string * nat) :=
  [("cd", 3); ("cat", 4); ("grep", 5); ("wc", 3); ("ls", 0); ("pwd", 4); ("echo", 5); ("exec", 5)]%string%nat.

(** The string at the [k]-th byte of a buffer. *)
Definition text (b : list Z) (k : nat) : list Z := default [] (until_zero (drop k b)).

Definition interpret (ls_command : command) (b : list Z) : command :=
  foldr (λ r otherwise,
    if decide (lit r.1 `prefix_of` b) then
      if decide (r.1 = "ls"%string) then ls_command else Run [] (lit "/sbin/" ++ lit r.1) [lit r.1; text b r.2]
    else otherwise) Invalid rows.

Definition shell_ls (b : list Z) : command :=
  if decide (b !! 3%nat = Some (chr "|")) then
    Run (lit "ls pipe with command: " ++ text b 5 ++ [10]) (lit "/sbin/ls") [lit "ls"; text b 5]
  else Run [] (lit "/sbin/ls") [lit "ls"].
Definition shell_command (b : list Z) : command :=
  if decide (lit "demo" `prefix_of` b) then Demo else interpret (shell_ls b) b.

Definition handler_ls (b : list Z) : command :=
  if decide (b !! 2%nat = Some (chr " ")) then Run [] (lit "/sbin/ls") [lit "ls"; text b 3]
  else Run [] (lit "/sbin/ls") [lit "ls"].

(** A buffer whose last byte is zero, so that strings end within it. *)
Definition ends_in_zero (b : list Z) : Prop := (∃ m, b = m ++ [0]) ∧ (6 <= List.length b)%nat.

Lemma until_zero_app w rest : 0 ∉ w → until_zero (w ++ 0 :: rest) = Some w.
Proof.
  induction w as [|c w IH]; intros Hw; simpl; [done|]. apply not_elem_of_cons in Hw as [Hc Hw].
  rewrite decide_False by congruence. by rewrite IH.
Qed.

(** A line within a buffer: the argument is the rest of the line if the line
    is long enough, and what was in the buffer before if it is not. *)
Lemma text_line w rest k : 0 ∉ w → (k <= List.length w)%nat → text (w ++ 0 :: rest) k = drop k w.
Proof.
  intros Hw Hk. unfold text. rewrite drop_app_le by done. rewrite until_zero_app; [done|].
  intros Hx. apply Hw. rewrite <-(take_drop k w). apply elem_of_app. by right.
Qed.

Lemma text_clear w n k : 0 ∉ w → text (w ++ 0 :: replicate n 0) k = drop k w.
Proof.
  intros Hw. destruct (decide (k <= List.length w)%nat) as [Hle|Hgt]; [by apply text_line|].
  unfold text. rewrite drop_app_ge, (drop_ge w) by lia. change (0 :: replicate n 0) with (replicate (S n) 0).
  rewrite drop_replicate. by destruct (_ - _)%nat.
Qed.

(** The letters decide on the command, whatever is behind them. *)
Lemma prefix_line s w rest : 0 ∉ s → s `prefix_of` w ++ 0 :: rest ↔ s `prefix_of` w.
Proof.
  intros Hs. split; [|intros [r ->]; exists (r ++ 0 :: rest); by rewrite <-app_assoc].
  revert w. induction s as [|c s IH]; intros w H; [apply prefix_nil|]. apply not_elem_of_cons in Hs as [Hc Hs].
  destruct w as [|x w]; [by apply prefix_cons_inv_1 in H|]. cbn [app] in H.
  pose proof (prefix_cons_inv_1 _ _ _ _ H) as ->. apply prefix_cons, IH; [done|by apply prefix_cons_inv_2 in H].
Qed.

Section dispatching.
Context {S0 : Type} (input : list Z) (Hin : ends_in_zero input).
Implicit Types σ : S0.

Lemma wp_string_from (k : nat) σ (Q : list Z → S0 → Prop) :
  (k < 6)%nat → Q (text input k) σ → wp (string_from input (Z.of_nat k)) Q σ.
Proof.
  destruct Hin as [[m E] Hlen]. intros Hk HQ. unfold string_from.
  apply wp_bind, wp_require; [lia|]. rewrite Nat2Z.id. unfold text in HQ.
  assert (Hz : ∀ l, until_zero (l ++ [0]) ≠ None).
  { induction l as [|c l IH]; simpl; [done|]. destruct (decide (c = 0)); [done|].
    by destruct (until_zero (l ++ [0])). }
  assert (Hd : drop k input = drop k m ++ [0]).
  { rewrite E, drop_app_le; [done|]. rewrite E, length_app in Hlen. simpl in Hlen. lia. }
  specialize (Hz (drop k m)). rewrite Hd in HQ |- *. destruct (until_zero (drop k m ++ [0])); [by apply wp_ret|done].
Qed.

Lemma wp_chars_match s (i : nat) σ (Q : bool → S0 → Prop) :
  (i + List.length s < 6)%nat → Q (bool_decide (s `prefix_of` drop i input)) σ → wp (chars_match input (Z.of_nat i) s) Q σ.
Proof.
  revert i. induction s as [|c s IH]; intros i Hi HQ.
  - apply wp_ret. by rewrite bool_decide_eq_true_2 in HQ by apply prefix_nil.
  - cbn [chars_match]. simpl in Hi. destruct Hin as [_ Hlen].
    destruct (lookup_lt_is_Some_2 input i) as [x Ex]; [lia|].
    apply wp_bind. apply wp_char_at with x; [lia|by rewrite Nat2Z.id|].
    rewrite (drop_S _ _ _ Ex) in HQ. destruct (decide (x = c)) as [->|Hne].
    + replace (Z.of_nat i + 1) with (Z.of_nat (S i)) by lia. apply IH; [lia|].
      erewrite bool_decide_ext; [exact HQ|]. split; [apply prefix_cons|apply prefix_cons_inv_2].
    + apply wp_ret. rewrite bool_decide_eq_false_2 in HQ; [done|]. intros H. by apply prefix_cons_inv_1 in H.
Qed.

Lemma wp_row p (k : nat) d otherwise σ :
  (List.length (lit p) < 6)%nat → (k < 6)%nat →
  wp otherwise (λ c σ', σ' = σ ∧ c = d) σ →
  wp (row input p p (Z.of_nat k) otherwise)
     (λ c σ', σ' = σ ∧ c = if decide (lit p `prefix_of` input) then Run [] (lit "/sbin/" ++ lit p) [lit p; text input k] else d) σ.
Proof.
  intros Hp Hk Hd. unfold row. apply wp_bind. change 0 with (Z.of_nat 0). apply wp_chars_match; [lia|].
  rewrite drop_0. destruct (decide (lit p `prefix_of` input)) as [H|H].
  - rewrite bool_decide_eq_true_2 by done. apply wp_bind, wp_string_from; [done|]. by apply wp_ret.
  - by rewrite bool_decide_eq_false_2 by done.
Qed.
End dispatching.

(** The whole chain, with the case of [ls] given. *)
Lemma wp_chain {S0} input (ls : M S0 command) (ls_command : command) (σ : S0) :
  ends_in_zero input →
  (lit "ls" `prefix_of` input → wp ls (λ c σ', σ' = σ ∧ c = ls_command) σ) →
  wp (row input "cd" "cd" 3 $ row input "cat" "cat" 4 $ row input "grep" "grep" 5 $ row input "wc" "wc" 3 $
      (b ← chars_match input 0 (lit "ls");
       if (b : bool) then ls
       else row input "pwd" "pwd" 4 $ row input "echo" "echo" 5 $ row input "exec" "exec" 5 $ mret Invalid))
     (λ c σ', σ' = σ ∧ c = interpret ls_command input) σ.
Proof.
  intros Hin Hls. unfold interpret, rows. cbn [foldr fst snd].
  rewrite (decide_False (P := "cd"%string = _)), (decide_False (P := "cat"%string = _)), (decide_False (P := "grep"%string = _)),
    (decide_False (P := "wc"%string = _)), (decide_True (P := "ls"%string = _)), (decide_False (P := "pwd"%string = _)),
    (decide_False (P := "echo"%string = _)), (decide_False (P := "exec"%string = _)) by done.
  assert (Hrow : ∀ p (k : nat) d otherwise, bool_decide (List.length (lit p) < 6 ∧ k < 6)%nat = true →
    wp otherwise (λ c σ', σ' = σ ∧ c = d) σ → wp (row input p p (Z.of_nat k) otherwise)
     (λ c σ', σ' = σ ∧ c = if decide (lit p `prefix_of` input) then Run [] (lit "/sbin/" ++ lit p) [lit p; text input k] else d) σ).
  { intros p k d otherwise (Hp & Hk)%bool_decide_eq_true Hd. by apply wp_row. }
  apply (Hrow "cd"%string 3%nat); [by vm_compute|]. apply (Hrow "cat"%string 4%nat); [by vm_compute|].
  apply (Hrow "grep"%string 5%nat); [by vm_compute|]. apply (Hrow "wc"%string 3%nat); [by vm_compute|].
  apply wp_bind. apply (wp_chars_match input Hin _ 0%nat); [simpl; lia|].
  rewrite drop_0. destruct (decide (lit "ls" `prefix_of` input)) as [H|H].
  { rewrite bool_decide_eq_true_2 by done. by apply Hls. }
  rewrite bool_decide_eq_false_2 by done.
  apply (Hrow "pwd"%string 4%nat); [by vm_compute|]. apply (Hrow "echo"%string 5%nat); [by vm_compute|].
  apply (Hrow "exec"%string 5%nat); [by vm_compute|]. by apply wp_ret.
Qed.

Lemma wp_shell_child {S0} input (σ : S0) :
  ends_in_zero input → wp (shell_child input) (λ c σ', σ' = σ ∧ c = shell_command input) σ.
Proof.
  intros Hin. unfold shell_child, shell_command. apply wp_bind.
  apply (wp_chars_match input Hin _ 0%nat); [simpl; lia|].
  rewrite drop_0. destruct (decide (lit "demo" `prefix_of` input)) as [H|H].
  { by rewrite bool_decide_eq_true_2 by done. }
  rewrite bool_decide_eq_false_2 by done. apply wp_chain; [done|]. intros _. unfold shell_ls.
  destruct (lookup_lt_is_Some_2 input 3%nat) as [x Ex]; [destruct Hin; lia|].
  apply wp_bind. apply wp_char_at with x; [done|exact Ex|]. rewrite Ex. destruct (decide (x = chr "|")) as [->|E].
  - rewrite decide_True by done. apply wp_bind, (wp_string_from input Hin 5%nat); [lia|]. by apply wp_ret.
  - rewrite decide_False by congruence. by apply wp_ret.
Qed.

Lemma wp_handler_child {S0} input (σ : S0) :
  ends_in_zero input → wp (handler_child input) (λ c σ', σ' = σ ∧ c = interpret (handler_ls input) input) σ.
Proof.
  intros Hin. unfold handler_child. apply wp_chain; [done|]. intros _. unfold handler_ls.
  destruct (lookup_lt_is_Some_2 input 2%nat) as [x Ex]; [destruct Hin; lia|].
  apply wp_bind. apply wp_char_at with x; [done|exact Ex|]. rewrite Ex. destruct (decide (x = chr " ")) as [->|E].
  - rewrite decide_True by done. apply wp_bind, (wp_string_from input Hin 3%nat); [lia|]. by apply wp_ret.
  - rewrite decide_False by congruence. by apply wp_ret.
Qed.

(** ** A line from the keyboard to its command *)

(** The letters that some keys give. *)
Definition letter (h : happening) : list Z :=
  match h with
  | Key code => if decide (scanCodeToLetter code = 0) then [] else [scanCodeToLetter code]
  | Tick => []
  end.
Definition letters (hs : list happening) : list Z := concat (map letter hs).

(** A line of at most 49 letters that is not the demonstration. *)
Definition line_ok (w : list Z) : Prop :=
  Forall (λ c, c ≠ 0 ∧ c ≠ 10) w ∧ (List.length w < 50)%nat ∧ ¬ lit "demo" `prefix_of` w.

(** The line is typed while the shell polls, and then nothing until the
    shell has dealt with it. *)
Definition line_session (w : list Z) (hs : list happening) : Prop :=
  ∃ typed newline k, hs = typed ++ Key newline :: replicate (3 + k) Tick ∧
    scanCodeToLetter newline = 10 ∧ letters typed = w.

(** What a line makes of the buffer, of what is seen, and of the depth. *)
Definition line_effect (forks : list event → nat → bool) (st : list Z * list event * nat) (w : list Z) : list Z * list event * nat :=
  let '(B, tr, d) := st in
  (line_cleared B w,
   tr ++ (if forks tr d then
            match shell_command (line_done B w) with
            | Demo => []
            | Run message path args => (if decide (message = []) then [] else [Printed message]) ++ [Ran path args]
            | Invalid => [Printed (lit "*** invalid command" ++ [10])]
            end
          else [Printed (lit "fork failed" ++ [10])]),
   if forks tr d then match shell_command (line_done B w) with Run _ _ _ => d | _ => S d end else d).

(** What the lines act on. *)
Definition seen (s : shell) : list Z * list event * nat := (buf (term s), trace s, depth s).

(** The shell polls, no letter has been typed, and the buffer ends in a
    zero. *)
Definition idle (s : shell) : Prop :=
  at_ s = Polling ∧ done (term s) = false ∧ bufSize (term s) = 0 ∧ List.length (buf (term s)) = 50%nat ∧ ends_in_zero (buf (term s)).

(** All programs of the shell are there. *)
Definition installed (has : list Z → bool) : Prop := ∀ r, r ∈ rows → has (lit "/sbin/" ++ lit r.1) = true.

(** What the shell runs is one of them. *)
Lemma shell_command_path b message path args :
  shell_command b = Run message path args → ∃ r, r ∈ rows ∧ path = lit "/sbin/" ++ lit r.1.
Proof.
  unfold shell_command. case_decide; [done|]. unfold interpret.
  assert (Hl : ∀ l, (∀ r, r ∈ l → r ∈ rows) → foldr (λ r otherwise,
    if decide (lit r.1 `prefix_of` b) then
      if decide (r.1 = "ls"%string) then shell_ls b else Run [] (lit "/sbin/" ++ lit r.1) [lit r.1; text b r.2]
    else otherwise) Invalid l = Run message path args → ∃ r, r ∈ rows ∧ path = lit "/sbin/" ++ lit r.1).
  { induction l as [|r l IH]; [done|]. cbn [foldr]. intros Hr E. assert (r ∈ rows) by (apply Hr; left).
    case_decide; [|apply IH; [intros x Hx; apply Hr; by right|done]]. case_decide as Els.
    - exists r. split; [done|]. rewrite Els. unfold shell_ls in E. case_decide; by injection E as <- <- <-.
    - exists r. split; [done|]. by injection E as <- <- <-. }
  by apply Hl.
Qed.

Lemma cleared_ends B w :
  List.length B = 50%nat → ends_in_zero B → (List.length w < 50)%nat →
  List.length (line_done B w) = 50%nat ∧ ends_in_zero (line_done B w) ∧
  List.length (line_cleared B w) = 50%nat ∧ ends_in_zero (line_cleared B w).
Proof.
  intros HB [[m E] _] Hw.
  assert (Hr : ∃ r, 0 :: drop (S (List.length w)) B = r ++ [0]).
  { destruct (decide (S (List.length w) = 50%nat)) as [E50|Hne]; [exists []; rewrite drop_ge by lia; done|].
    exists (0 :: drop (S (List.length w)) m). rewrite E, drop_app_le; [done|]. rewrite E, length_app in HB. simpl in HB. lia. }
  destruct Hr as [r Er]. assert (Hlen : List.length (r ++ [0]) = (50 - List.length w)%nat).
  { rewrite <-Er. cbn [List.length]. rewrite length_drop. lia. }
  unfold line_done, line_cleared, ends_in_zero. rewrite Er, !(app_assoc _ r), !length_app, length_replicate in *.
  split_and!; try lia; by eexists.
Qed.

Section run.
Context (has : list Z → bool) (forks : list event → nat → bool) (Hhas : installed has).

Lemma wp_on_term {A} (m : M terminal A) (Q : A → shell → Prop) s :
  wp m (λ a t, Q a (mkShell t (at_ s) (depth s) (trace s))) (term s) → wp (on_term m) Q s.
Proof. unfold wp, on_term. by destruct (m (term s)). Qed.

Lemma wp_mainShellHandler nest B w s (Q : () → shell → Prop) :
  buf (term s) = line_done B w → ends_in_zero (line_done B w) → shell_command (line_done B w) ≠ Demo →
  (let e := line_effect forks (B, trace s, depth s) w in Q () (mkShell (term s) (at_ s) e.2 e.1.2)) →
  wp (mainShellHandler has forks nest (line_done B w)) Q s.
Proof.
  intros Eb Hin Hd HQ. cbn [line_effect fst snd] in HQ.
  assert (E : mainShellHandler has forks nest (line_done B w) = (s ← get;
    if forks (trace s) (depth s) then
    c ← shell_child (line_done B w);
    match c with
    | Run message path args =>
        (if decide (message = []) then mret () else note (Printed message));;
        if has path then note (Ran path args) else panic
    | Invalid => note (Printed (lit "*** invalid command" ++ [10]));; in_child
    | Demo => match nest with
              | O => diverge
              | S nest => foldr (λ l rest, mainShellHandler has forks nest (cstring (lit l));; rest) (mret ()) demo_lines;; in_child
              end
    end else note (Printed (lit "fork failed" ++ [10])))) by (by destruct nest).
  rewrite E. clear E. apply wp_bind, wp_get. destruct (forks (trace s) (depth s)); [|by apply wp_modify].
  apply wp_bind. eapply wp_mono; [by apply wp_shell_child|]. intros c s' [-> ->].
  destruct (shell_command (line_done B w)) as [|message path args|] eqn:Ec; [done| |].
  - destruct (shell_command_path _ _ _ _ Ec) as (r & Hr & ->). rewrite (Hhas _ Hr). destruct (decide (message = [])).
    + by apply wp_bind, wp_ret, wp_modify.
    + apply wp_bind, wp_modify, wp_modify. cbn [trace at_ term depth]. by rewrite <-app_assoc.
  - by apply wp_bind, wp_modify, wp_modify.
Qed.

(** A prefix of a session, and the rest. *)
Lemma wp_session_app a b s (Q : () → shell → Prop) :
  wp (session has forks a) (λ _ s', wp (session has forks b) Q s') s → wp (session has forks (a ++ b)) Q s.
Proof.
  revert s. induction a as [|h a IH]; intros s H; [done|]. cbn [session app] in *.
  apply wp_bind. apply wp_bind_inv in H. eapply wp_mono; [exact H|]. intros [] s'. apply IH.
Qed.

(** Typing. *)
Definition typing (w : list Z) (s0 s : shell) : Prop :=
  at_ s = Polling ∧ done (term s) = false ∧ line_in (buf (term s0)) w (term s) ∧ depth s = depth s0 ∧ trace s = trace s0.

Lemma wp_typed typed : ∀ w s0 s (Q : () → shell → Prop),
  typing w s0 s → Forall (λ c, c ≠ 10) (letters typed) → (List.length (w ++ letters typed) < 50)%nat →
  (∀ s', typing (w ++ letters typed) s0 s' → Q () s') → wp (session has forks typed) Q s.
Proof.
  induction typed as [|h typed IH]; intros w s0 s Q Ht Hl Hlen HQ.
  { apply wp_ret, HQ. by rewrite app_nil_r. }
  unfold letters in Hl, Hlen, HQ. cbn [map concat] in Hl, Hlen, HQ. fold (letters typed) in Hl, Hlen, HQ.
  rewrite app_assoc in Hlen, HQ. apply Forall_app in Hl as [Hh Hl]. cbn [session]. apply wp_bind.
  destruct Ht as (Hp & Hd & Hw & Hde & Htr). destruct h as [code|]; cbn [happen letter] in *.
  - apply wp_on_term. destruct (decide (scanCodeToLetter code = 0)) as [E|E].
    + apply wp_no_letter; [done|]. rewrite app_nil_r in *. by eapply IH.
    + apply Forall_cons in Hh as [Hh _]. rewrite !length_app in Hlen. simpl in Hlen.
      eapply (wp_letter code _ w); [done|done|exact Hw|lia|]. intros t' Ht' Hd'. eapply IH; [|done| |exact HQ].
      * split_and!; cbn [at_ term depth trace]; try done. congruence.
      * rewrite !length_app. simpl. lia.
  - unfold tick. rewrite app_nil_r in *. apply wp_bind, wp_get. rewrite Hp.
    apply wp_bind, wp_on_term, wp_gets. rewrite Hd. apply wp_ret. eapply IH; [|done..]. destruct s. done.
Qed.

(** Polling changes nothing. *)
Lemma wp_polling k s (Q : () → shell → Prop) : at_ s = Polling → done (term s) = false → Q () s → wp (session has forks (replicate k Tick)) Q s.
Proof.
  intros Hp Hd HQ. induction k as [|k IH]; [by apply wp_ret|]. cbn [replicate session happen]. apply wp_bind.
  unfold tick. apply wp_bind, wp_get. rewrite Hp.
  apply wp_bind, wp_on_term, wp_gets. rewrite Hd. apply wp_ret. by destruct s.
Qed.

(** One line. *)
Lemma wp_line w hs s (Q : () → shell → Prop) :
  line_ok w → line_session w hs → idle s → (∀ s', idle s' → seen s' = line_effect forks (seen s) w → Q () s') →
  wp (session has forks hs) Q s.
Proof.
  intros (Hw & Hlen & Hdemo) (typed & newline & k & -> & Hn & <-) (Hp & Hd & Hsize & H50 & Hend) HQ.
  apply wp_session_app. eapply (wp_typed typed [] s); [by split_and!|by eapply Forall_impl; [exact Hw|]; naive_solver|done|].
  intros s1 (Hp1 & Hd1 & Hl1 & Hde1 & Htr1). cbn [app] in Hl1. set (w := letters typed) in *. set (B := buf (term s)) in *.
  destruct (cleared_ends B w H50 Hend Hlen) as (_ & He & Hc50 & Hce).
  cbn [session happen]. apply wp_bind, wp_on_term. apply (wp_newline newline B w); [done..|]. intros t Et Hs Hdone.
  replace (replicate (3 + k) Tick) with (Tick :: Tick :: Tick :: replicate k Tick) by done. cbn [session happen].
  apply wp_bind. unfold tick at 1. apply wp_bind, wp_get. cbn [at_]. rewrite Hp1.
  apply wp_bind, wp_on_term, wp_gets. cbn [term]. rewrite Hdone. apply wp_modify. cbn [term at_ depth trace].
  apply wp_bind. unfold tick at 1. apply wp_bind, wp_get. cbn [at_].
  apply wp_bind, wp_on_term, wp_gets. cbn [term at_ depth trace]. rewrite Et. apply wp_bind, wp_mainShellHandler; [done|done| |].
  { unfold shell_command. rewrite decide_False.
    - unfold interpret, rows, shell_ls. cbn [foldr]. repeat first [case_decide]; done.
    - unfold line_done. rewrite prefix_line; [done|]. apply (bool_decide_unpack _); vm_compute; exact I. }
  cbv zeta. apply wp_modify. cbn [term at_ depth trace]. apply wp_bind. unfold tick at 1. apply wp_bind, wp_get. cbn [at_].
  apply wp_bind, wp_on_term, (wp_setDone B w); [done|done|]. intros t' Et' Hs' Hd'. apply wp_modify. cbn [term at_ depth trace].
  apply wp_polling; [done..|]. apply HQ.
  - unfold idle. cbn [at_ term]. by rewrite Et'.
  - unfold seen. cbn [trace depth term]. by rewrite Et', Htr1, Hde1.
Qed.
End run.

(** ** exec and the pipe of ls *)

Lemma lookup_mid {A} (pre w post : list A) c k :
  (k <= List.length w)%nat → (pre ++ w ++ c :: post) !! (List.length pre + k)%nat = if decide (k < List.length w)%nat then w !! k else Some c.
Proof.
  intros Hk. rewrite lookup_app_r by lia. replace (_ + k - _)%nat with k by lia.
  destruct (decide _); [by rewrite lookup_app_l|]. rewrite lookup_app_r by lia. by replace (k - List.length w)%nat with 0%nat by lia.
Qed.

Lemma wp_assign {S0} p i c (Q : list Z → S0 → Prop) σ :
  0 ≤ i < Z.of_nat (List.length p) → Q (<[Z.to_nat i := c]> p) σ → wp (store p i c) Q σ.
Proof. intros Hi HQ. unfold store. by apply wp_bind, wp_require; [|apply wp_ret]. Qed.

Lemma wp_string_of {S0} p w i rest (Q : list Z → S0 → Prop) σ :
  0 ∉ w → (i <= List.length p)%nat → drop i p = w ++ 0 :: rest → Q w σ → wp (string_from p (Z.of_nat i)) Q σ.
Proof.
  intros Hw Hi E HQ. unfold string_from. apply wp_bind, wp_require; [lia|]. rewrite Nat2Z.id, E, until_zero_app by done.
  by apply wp_ret.
Qed.

(** A buffer that begins with [l]. *)
Definition begins (p l : list Z) (n : nat) : Prop := ∃ r, p = l ++ r ∧ List.length p = n.

Lemma begins_store p l n c : begins p l n → (List.length l < n)%nat → begins (<[List.length l := c]> p) (l ++ [c]) n.
Proof.
  intros (r & -> & E) Hn. rewrite length_app in E. destruct r as [|x r]; [simpl in E; lia|].
  exists r. rewrite insert_at_end by done. rewrite <-app_assoc. split; [done|].
  rewrite !length_app. simpl in *. lia.
Qed.

Section copying.
Context {S0 : Type} (junk : Z → list Z) (Hjunk : ∀ n, 0 ≤ n → List.length (junk n) = Z.to_nat n).
Implicit Types σ : S0.

Lemma wp_filled n l (Q : list Z → S0 → Prop) σ :
  Z.of_nat (List.length l) ≤ n → (∀ p, begins p l (Z.to_nat n) → drop (List.length l) p = drop (List.length l) (junk n) → Q p σ) →
  wp (filled junk n l) Q σ.
Proof.
  intros Hl HQ. unfold filled. apply wp_bind, wp_require; [done|]. apply wp_ret, HQ; [|by rewrite drop_app_length].
  eexists. split; [done|]. rewrite length_app, length_drop, Hjunk by lia. lia.
Qed.

(** The loop that copies a string behind what a buffer begins with. *)
Lemma wp_copy src w rest l output n (Q : list Z * Z → S0 → Prop) σ :
  src = w ++ 0 :: rest → 0 ∉ w → begins output l n → (List.length l + List.length w <= n)%nat →
  (∀ p, begins p (l ++ w) n → Q (p, Z.of_nat (List.length (l ++ w))) σ) →
  wp (iter (S (List.length src)) (copy_step src) (output, Z.of_nat (List.length l), 0)) Q σ.
Proof.
  intros -> Hw Ho Hn HQ.
  apply (wp_iter (λ st σ', σ' = σ ∧ ∃ k p, st = (p, Z.of_nat (List.length l + k), Z.of_nat k) ∧ (k <= List.length w)%nat ∧ begins p (l ++ take k w) n)
                 (λ st _, List.length w - Z.to_nat st.2)%nat).
  - intros st σ' (-> & k & p & -> & Hk & Hp). cbn [copy_step].
    pose proof (lookup_mid [] w rest 0 k Hk) as Hx. cbn [app List.length Nat.add] in Hx.
    destruct (decide (k < List.length w)%nat) as [Hlt|Hge].
    + destruct (lookup_lt_is_Some_2 w k Hlt) as [x Ex]. rewrite Ex in Hx.
      assert (x ≠ 0) by (intros ->; apply Hw; by eapply list_elem_of_lookup_2).
      apply wp_bind. apply wp_char_at with x; [lia|by rewrite Nat2Z.id|]. rewrite decide_True by done.
      assert (El : List.length (l ++ take k w) = (List.length l + k)%nat) by (rewrite length_app, length_take; lia).
      pose proof (begins_store _ _ _ x Hp ltac:(lia)) as Hp'. destruct Hp as (r & Ep & Elen).
      apply wp_bind, wp_assign; [lia|]. apply wp_ret. split; [|simpl; lia]. split; [done|].
      exists (S k). eexists. split; [f_equal; [f_equal; lia|lia]|]. split; [lia|].
      rewrite (take_S_r _ _ _ Ex), app_assoc. rewrite Nat2Z.id, <-El. exact Hp'.
    + assert (k = List.length w) as -> by lia. rewrite take_ge in Hp by lia.
      apply wp_bind. apply wp_char_at with 0; [lia|by rewrite Nat2Z.id|]. rewrite decide_False by tauto.
      apply wp_ret. rewrite <-length_app. by apply HQ.
  - split; [done|]. exists 0%nat, output. rewrite take_0, app_nil_r, Nat.add_0_r. split_and!; [done|lia|done].
  - rewrite length_app. simpl. lia.
Qed.
End copying.

Section copied.
Context {S0 : Type} (junk : Z → list Z) (Hjunk : ∀ n, 0 ≤ n → List.length (junk n) = Z.to_nat n).
Implicit Types σ : S0.

Lemma wp_begins_string p w n (Q : list Z → S0 → Prop) σ :
  0 ∉ w → begins p (w ++ [0]) n → Q w σ → wp (string_from p 0) Q σ.
Proof.
  intros Hw (r & -> & _) HQ. apply (wp_string_of _ w 0 r); [done|lia| |done]. by rewrite drop_0, <-app_assoc.
Qed.

Lemma wp_ls_pipe listing c (Q : command + list Z → S0 → Prop) σ :
  (0 ∉ c) → (0 ∉ listing) → (List.length listing < 250)%nat → (List.length c + List.length listing < 299)%nat →
  junk 250 !! List.length listing = Some 0 →
  Q (inl (Run [] (lit "/sbin/shellHandler") [lit "shellHandler"; c ++ [chr " "] ++ listing])) σ →
  wp (ls_main junk listing (Some (cstring c))) Q σ.
Proof.
  intros Hc Hl Hll Hlen Hz HQ. unfold ls_main. apply wp_bind, wp_filled; [done|lia|]. intros buff (r & Eb & _) Er.
  rewrite Eb, drop_app_length in Er.
  assert (Hr : ∃ r', r = 0 :: r').
  { rewrite (drop_S _ _ _ Hz) in Er. rewrite Er. by eexists. }
  destruct Hr as [r' ->].
  apply wp_bind. change 0 with (Z.of_nat (List.length (@nil Z))) at 1.
  apply (wp_copy (cstring c) c [] [] (junk 300) 300); [done|done| |simpl; lia|].
  { exists (junk 300). split; [done|]. by rewrite Hjunk. }
  intros p Hp. cbn [app] in *. apply wp_bind, wp_assign. { destruct Hp as (? & _ & ->). lia. }
  rewrite Nat2Z.id. pose proof (begins_store _ _ _ (chr " ") Hp ltac:(lia)) as Hp'.
  apply wp_bind. replace (Z.of_nat (List.length c) + 1) with (Z.of_nat (List.length (c ++ [chr " "]))) by (rewrite length_app; simpl; lia).
  apply (wp_copy buff listing r' (c ++ [chr " "]) _ 300); [done|done|done|rewrite length_app; simpl; lia|].
  intros p2 Hp2. assert (Hn : (List.length ((c ++ [chr " "]) ++ listing) < 300)%nat) by (rewrite !length_app; simpl; lia).
  apply wp_bind, wp_assign. { destruct Hp2 as (? & _ & ->). lia. }
  rewrite Nat2Z.id. apply wp_bind.
  eapply (wp_begins_string _ ((c ++ [chr " "]) ++ listing)); [|by apply begins_store|].
  - rewrite !elem_of_app, list_elem_of_singleton. intros [[?|?]|?]; done.
  - apply wp_ret. by rewrite <-app_assoc.
Qed.

(** The word that [exec] takes from its argument. *)
Lemma wp_exec_word w c rest path cmd (Q : list Z * list Z * Z → S0 → Prop) σ :
  (∀ x, x ∈ w → x ≠ chr " " ∧ x ≠ 0) → c = chr " " ∨ c = 0 → (List.length w < 94)%nat →
  begins path (lit "/sbin/") 100 → begins cmd [] 100 →
  (∀ path cmd, begins path (lit "/sbin/" ++ w) 100 → begins cmd w 100 → Q (path, cmd, Z.of_nat (List.length w)) σ) →
  wp (iter (S (List.length (w ++ c :: rest))) (exec_body (w ++ c :: rest)) (path, cmd, 0)) Q σ.
Proof.
  intros Hw Hc Hlen Hp0 Hc0 HQ.
  apply (wp_iter (λ st σ', σ' = σ ∧ ∃ k p m, st = (p, m, Z.of_nat k) ∧ (k <= List.length w)%nat ∧
            begins p (lit "/sbin/" ++ take k w) 100 ∧ begins m (take k w) 100)
                 (λ st _, List.length w - Z.to_nat st.2)%nat).
  - intros st σ' (-> & k & p & m & -> & Hk & Hp & Hm). cbn [exec_body].
    pose proof (lookup_mid [] w rest c k Hk) as Hx. cbn [app List.length Nat.add] in Hx.
    destruct (decide (k < List.length w)%nat) as [Hlt|Hge].
    + destruct (lookup_lt_is_Some_2 w k Hlt) as [x Ex]. rewrite Ex in Hx.
      apply wp_bind. apply wp_char_at with x; [lia|by rewrite Nat2Z.id|].
      rewrite decide_True by (apply Hw; by eapply list_elem_of_lookup_2).
      assert (E1 : List.length (take k w) = k) by (rewrite length_take; lia).
      assert (E2 : List.length (lit "/sbin/" ++ take k w) = (k + 6)%nat) by (rewrite length_app, E1; simpl; lia).
      pose proof (begins_store _ _ _ x Hp ltac:(lia)) as Hp'. pose proof (begins_store _ _ _ x Hm ltac:(lia)) as Hm'.
      destruct Hp as (? & _ & Lp), Hm as (? & _ & Lm). rewrite E1, E2 in *.
      apply wp_bind, wp_assign; [lia|]. apply wp_bind, wp_assign; [lia|]. apply wp_ret. split; [|simpl; lia]. split; [done|].
      exists (S k). do 2 eexists. split; [f_equal; lia|]. split; [lia|].
      rewrite (take_S_r _ _ _ Ex), app_assoc, Nat2Z.id. replace (Z.to_nat (Z.of_nat k + 6)) with (k + 6)%nat by lia. done.
    + assert (k = List.length w) as -> by lia. rewrite take_ge in Hp, Hm by lia.
      apply wp_bind. apply wp_char_at with c; [lia|by rewrite Nat2Z.id|]. rewrite decide_False by naive_solver.
      apply wp_ret. by apply HQ.
  - split; [done|]. exists 0%nat, path, cmd. rewrite take_0, app_nil_r. split_and!; [done|lia|done|done].
  - rewrite length_app. simpl. lia.
Qed.

Lemma wp_exec_main w c rest (Q : command → S0 → Prop) σ :
  (∀ x, x ∈ w → x ≠ chr " " ∧ x ≠ 0) → (c = 0 ∧ rest = []) ∨ (c = chr " " ∧ ∃ a, rest = cstring a ∧ 0 ∉ a) →
  (List.length w < 94)%nat →
  (∀ args, (c = 0 → args = [w]) → (∀ a, c = chr " " → rest = cstring a → args = [w; a]) → Q (Run [] (lit "/sbin/" ++ w) args) σ) →
  wp (exec_main junk (w ++ c :: rest)) Q σ.
Proof.
  intros Hw Hc Hlen HQ. unfold exec_main. apply wp_bind, wp_filled; [done|simpl; lia|]. intros path Hp _.
  apply wp_bind, wp_exec_word; [done|naive_solver|done|done| |].
  { exists (junk 100). split; [done|]. by rewrite Hjunk. }
  clear path Hp. intros path cmd Hp Hm. assert (Hw0 : 0 ∉ w) by (intros H; by destruct (Hw 0 H)).
  assert (E2 : List.length (lit "/sbin/" ++ w) = (List.length w + 6)%nat) by (rewrite length_app; simpl; lia).
  pose proof (begins_store _ _ _ 0 Hp ltac:(lia)) as Hp'. pose proof (begins_store _ _ _ 0 Hm ltac:(lia)) as Hm'.
  destruct Hp as (? & _ & Lp), Hm as (? & _ & Lm).
  apply wp_bind, wp_assign; [lia|]. apply wp_bind, wp_assign; [lia|]. rewrite Nat2Z.id.
  replace (Z.to_nat (Z.of_nat (List.length w) + 6)) with (List.length (lit "/sbin/" ++ w)) by lia.
  apply wp_bind. eapply wp_begins_string; [|exact Hp'|].
  { intros [H|H]%elem_of_app; [|done]. revert H. apply (bool_decide_unpack _); vm_compute; exact I. }
  apply wp_bind. eapply wp_begins_string; [done|exact Hm'|].
  pose proof (lookup_mid [] w rest c (List.length w) ltac:(lia)) as Hx. cbn [app List.length Nat.add] in Hx.
  rewrite decide_False in Hx by lia. apply wp_bind. apply wp_char_at with c; [lia|by rewrite Nat2Z.id|].
  destruct (decide (c = 0)) as [Ec|Ec].
  - apply wp_ret, HQ; [done|]. intros a Ec' _. rewrite Ec in Ec'. done.
  - destruct Hc as [[? _]|(Ec' & a & -> & Ha)]; [done|]. apply wp_bind.
    replace (Z.of_nat (List.length w) + 1) with (Z.of_nat (S (List.length w))) by lia.
    eapply (wp_string_of _ a _ []); [done|rewrite length_app; simpl; lia| |].
    + rewrite drop_app_ge by lia. by replace (S (List.length w) - List.length w)%nat with 1%nat by lia.
    + apply wp_ret, HQ; [done|]. intros a' _ E'. unfold cstring in E'. by apply app_inj_tail in E' as [-> _].
Qed.
End copied.

(** ** Properties *)

(** C29. From an empty line, for any lines of letters typed one after the
    other, with steps of the shell and keys without a letter in between,
    each of at most 49 letters, not beginning with "demo" (which passes on
    what lies behind a literal, [demo_reads_beyond]), and typed after the
    shell has dealt with the one before; with a buffer of any contents but
    for a zero in its last byte, and the shell's programs on the disk: when
    [fork] succeeds the shell runs the command that the first letters name,
    with the string in the buffer from the place of the argument on, which
    is the rest of the line if that is long enough ([text_line]) or the
    buffer was clear ([text_clear]); when it fails, it says so; and then it
    waits for the next line.  It goes one process deeper for each line that
    names no command. *)
Theorem shell_runs_lines has forks ws hss s :
  installed has → Forall line_ok ws → Forall2 line_session ws hss → idle s →
  wp (session has forks (concat hss)) (λ _ s', idle s' ∧ seen s' = foldl (line_effect forks) (seen s) ws) s.
Proof.
  intros Hhas Hok Hss. revert s Hok. induction Hss as [|w hs ws hss Hw _ IH]; intros s Hok Hs; [by apply wp_ret|].
  apply Forall_cons in Hok as [Hw' Hok]. cbn [concat foldl]. apply wp_session_app.
  apply (wp_line has forks Hhas w); [done..|]. intros s' Hs' E. rewrite <-E. by apply IH.
Qed.

(** [ls | p] for a program [p] that takes an argument: the shell starts
    ls with [p], ls starts the handler with [p] and the listing of the
    directory, and the handler starts [p] with the listing as its argument.
    The listing has two to 249 characters, and the byte after it, which
    the kernel does not write, is zero. *)
Theorem ls_pipes_listing {S0} junk listing (p : string) (σ : S0) :
  (∀ n, 0 ≤ n → List.length (junk n) = Z.to_nat n) →
  p ∈ ["cd"; "cat"; "grep"; "wc"; "pwd"; "echo"; "exec"]%string →
  (0 ∉ listing) → (1 < List.length listing < 250)%nat → junk 250 !! List.length listing = Some 0 →
  let a := lit p ++ [chr " "] ++ listing in
  (∃ message, shell_command (cstring (lit "ls | " ++ lit p)) = Run message (lit "/sbin/ls") [lit "ls"; lit p]) ∧
  wp (ls_main junk listing (Some (cstring (lit p))))
     (λ r _, r = inl (Run [] (lit "/sbin/shellHandler") [lit "shellHandler"; a])) σ ∧
  wp (handler_child (cstring a)) (λ c _, c = Run [] (lit "/sbin/" ++ lit p) [lit p; listing]) σ.
Proof.
  intros Hjunk Hp Hl Hlen Hz a.
  assert (Hp0 : (0 ∉ lit p) ∧ (2 <= List.length (lit p) < 5)%nat).
  { revert p Hp a. apply Forall_forall. apply (bool_decide_unpack _); vm_compute; exact I. }
  destruct Hp0 as [Hp0 Hpl]. split_and!.
  - repeat (apply elem_of_cons in Hp as [-> |Hp]; [by eexists; vm_compute|]). by apply elem_of_nil in Hp.
  - apply wp_ls_pipe; [done..|lia|lia|done|done].
  - assert (Ha : 0 ∉ a) by (unfold a; rewrite !elem_of_app, list_elem_of_singleton; intros [?|[?|?]]; done).
    assert (Hin : ends_in_zero (cstring a)).
    { split; [by eexists|]. unfold cstring, a. rewrite !length_app. cbn [List.length]. lia. }
    eapply wp_mono; [by apply wp_handler_child|]. intros c σ' [_ ->]. clear Hin.
    repeat (apply elem_of_cons in Hp as [-> |Hp];
      [unfold interpret, rows; cbn [foldr fst snd]; unfold cstring; rewrite !text_line by (done || (unfold a; rewrite length_app; simpl; lia)); reflexivity|]).
    by apply elem_of_nil in Hp.
Qed.

(** exec takes the first word of its argument for a program of /sbin, and
    the rest for its argument. *)
Lemma exec_splits {S0} junk w c rest (σ : S0) :
  (∀ n, 0 ≤ n → List.length (junk n) = Z.to_nat n) →
  (∀ x, x ∈ w → x ≠ chr " " ∧ x ≠ 0) → (c = 0 ∧ rest = []) ∨ (c = chr " " ∧ ∃ a, rest = cstring a ∧ 0 ∉ a) →
  (List.length w < 94)%nat →
  wp (exec_main junk (w ++ c :: rest))
     (λ r _, ∃ args, r = Run [] (lit "/sbin/" ++ w) args ∧ (c = 0 → args = [w]) ∧
        ∀ a, c = chr " " → rest = cstring a → args = [w; a]) σ.
Proof. intros Hj Hw Hc Hlen. apply (wp_exec_main junk Hj); [done..|]. intros args H1 H2. by exists args. Qed.

(** The demonstration passes the character after its literal "pwd" on. *)
Lemma demo_reads_beyond has s :
  mainShellHandler has (λ _ _, true) 2 (cstring (lit "demo")) s = Faulted.
Proof. reflexivity. Qed.

(** A program that is not there stops the machine. *)
Lemma missing_program_panics s :
  mainShellHandler (λ _, false) (λ _ _, true) 2 (cstring (lit "pwd ")) s = Panicked s.
Proof. reflexivity. Qed.

(** The end of a line of fifty letters is written behind the buffer. *)
Lemma fifty_letters screen : keyBoardHandler 0x1c (mkTerminal (replicate 50 97) 50 false screen) = Faulted.
Proof. reflexivity. Qed.

(** ** Two lines *)

Definition sample_idle : shell := mkShell (mkTerminal (replicate 49 120 ++ [0]) 0 false []) Polling 0 [].
(** The third [fork] fails. *)
Definition two_forks (tr : list event) (d : nat) : bool := bool_decide (List.length tr < 2)%nat.
Definition all_programs (path : list Z) : bool := bool_decide (path ∈ map (λ r, lit "/sbin/" ++ lit r.1) rows).
Definition type_echo : list happening :=
  [Key 0x12; Tick; Key 0x2e; Key 0x99; Key 0x23; Key 0x18; Key 0x39; Key 0x1e; Key 0x1c; Tick; Tick; Tick; Tick].
Definition type_sort : list happening := [Key 0x1f; Key 0x18; Tick; Key 0x13; Key 0x14; Key 0x1c; Tick; Tick; Tick].

Lemma shell_runs_lines_witness :
  wp (session all_programs two_forks (concat [type_echo; type_sort; type_sort])) (λ _ s',
    trace s' = [Ran (lit "/sbin/echo") [lit "echo"; lit "a"]; Printed (lit "*** invalid command" ++ [10]); Printed (lit "fork failed" ++ [10])] ∧
    depth s' = 1%nat) sample_idle.
Proof.
  assert (Hok : Forall line_ok [lit "echo a"; lit "sort"; lit "sort"]).
  { repeat constructor; try (by vm_compute); try (apply (bool_decide_unpack _); vm_compute; exact I). }
  assert (Hsort : line_session (lit "sort") type_sort).
  { exists [Key 0x1f; Key 0x18; Tick; Key 0x13; Key 0x14], 0x1c, 0%nat. by split_and!. }
  assert (Hss : Forall2 line_session [lit "echo a"; lit "sort"; lit "sort"] [type_echo; type_sort; type_sort]).
  { constructor; [|by repeat constructor].
    exists [Key 0x12; Tick; Key 0x2e; Key 0x99; Key 0x23; Key 0x18; Key 0x39; Key 0x1e], 0x1c, 1%nat. by split_and!. }
  assert (Hi : idle sample_idle).
  { split_and!; try done. split; [by exists (replicate 49 120)|simpl; lia]. }
  assert (Hin : installed all_programs).
  { intros r Hr. apply bool_decide_eq_true, list_elem_of_fmap. by exists r. }
  eapply wp_mono; [exact (shell_runs_lines all_programs two_forks _ _ _ Hin Hok Hss Hi)|].
  intros [] s' [_ E].
  assert (E2 : (foldl (line_effect two_forks) (seen sample_idle) [lit "echo a"; lit "sort"; lit "sort"]).1.2 =
    [Ran (lit "/sbin/echo") [lit "echo"; lit "a"]; Printed (lit "*** invalid command" ++ [10]); Printed (lit "fork failed" ++ [10])] ∧
    (foldl (line_effect two_forks) (seen sample_idle) [lit "echo a"; lit "sort"; lit "sort"]).2 = 1%nat) by (by vm_compute).
  rewrite <-E in E2. exact E2.
Defined.

Definition zeros (n : Z) : list Z := replicate (Z.to_nat n) 0.

Lemma ls_pipes_listing_witness :
  wp (ls_main zeros (lit "etc sbin") (Some (cstring (lit "cat"))))
     (λ r _, r = inl (Run [] (lit "/sbin/shellHandler") [lit "shellHandler"; lit "cat etc sbin"])) tt.
Proof.
  refine (proj1 (proj2 (ls_pipes_listing zeros (lit "etc sbin") "cat" tt _ _ _ _ _))).
  - intros n Hn. apply length_replicate.
  - apply (bool_decide_unpack _); vm_compute; exact I.
  - apply (bool_decide_unpack _); vm_compute; exact I.
  - simpl. lia.
  - done.
Defined.
